(* ===== verification/_CoqProject ===== *)
-Q . S2P
Prelude.v
Crypto.v
Transaction.v
Floats.v
Mining.v
Block.v
StateTree.v
StateManager.v
Graph.v
Store.v
DagIndex.v
BlockDag.v
DagTraversal.v
BlueSet.v
GhostDag.v
Daa.v
Finality.v
Mempool.v
Kv.v
Wasm.v
Contracts.v
Executor.v
ParallelExecutor.v
BlockStore.v
Pruning.v
Window.v
Dos.v
PreValidation.v
Spam.v
BatchVerification.v
Producer.v
Node.v
NodeInv.v
Peers.v
Gossip.v
Sync.v
P2p.v
StateSync.v
Discovery.v
Wallet.v
Index.v
TxIndex.v
AddressIndex.v
BlockIndex.v
Rpc.v
Client.v
Mobile.v
Events.v
WsServer.v
Shell.v
Interactive.v
Cli.v
CliInterface.v
Config.v
P2pNetwork.v
