(* ===== verification/Prelude.v ===== *)
(** * Cytah-Speed: a verified model of the blockDAG node core

    The program is a proof-of-work blockDAG node in Rust (the sources are under
    src/src/).  A transaction enters the mempool; a block producer packs ready
    transactions into a block that names the current tips as its parents; the DAG
    engine validates the block, annotates it with consensus data and stores it;
    GHOSTDAG orders the DAG; the finality engine freezes a prefix of that order;
    the executors apply the transactions to the account state, whose Merkle root
    the blocks carry; the pruner deletes what is old.  Nodes gossip and synchronize
    blocks over libp2p; wallets, the command line and the SDK submit transactions
    over HTTP.

    ** Files and what they model

    - [Prelude]: results, machine integers, byte strings, stable sorting, the
      iteration order of hash tables (a parameter, [HashOrder]), shared lemmas and
      tactics ([machine], [solve_machine]).
    - [Crypto]: crypto/mod.rs, and the interfaces [Sha256] and [SecpOps] of the
      crates sha2 and secp256k1 with their laws.
    - [Transaction]: core/transaction.rs.  [Block]: core/block.rs.
    - [Floats]: IEEE binary64 arithmetic, with [exp] a parameter ([LibM]).
    - [Mining]: consensus/mining.rs (rewards, difficulty tracker, proof of work).
    - [StateTree]: state/state_tree.rs.  [StateManager]: state/state_manager.rs.
    - [Graph]: reachability, breadth-first search and heights of parent graphs.
    - [Store]: what the rest of the node uses of storage/block_store.rs
      ([BlockStoreI]) and what it relies on ([BlockStoreLaws]).
    - [DagIndex]: dag/dag_index.rs.  [BlockDag]: dag/blockdag.rs.
    - [DagTraversal], [BlueSet], [GhostDag]: consensus/dag_traversal.rs,
      blue_set.rs, ghostdag.rs.  [Daa]: consensus/daa.rs and fee_market.rs.
    - [Finality]: finality/finality_engine.rs.
    - [Mempool]: mempool/tx_dag_mempool.rs.
    - [Kv]: the interfaces of RocksDB ([KvStore]) and bincode ([Codec]).
    - [Wasm]: vm/gas_meter.rs, host_functions.rs, wasm_runtime.rs, with wasmtime an
      interface.  [Contracts]: contracts/contract_storage.rs, contract_registry.rs.
    - [Executor]: vm/contract_executor.rs and execution/transaction_executor.rs.
    - [ParallelExecutor]: execution/parallel_executor.rs.
    - [BlockStore]: storage/block_store.rs, cache and column families over RocksDB
      ([CfStore]); it is an instance of [BlockStoreI] with [BlockStoreLaws], so the
      theorems about the DAG hold over it.
    - [Pruning]: storage/pruning.rs and snapshot_and_prune of the state manager.
    - [Dos], [PreValidation], [BatchVerification], [Spam]: security/dos_protection.rs,
      pre_validation.rs, batch_verification.rs, fuzz_testing.rs; [Window]: sliding
      windows of instants, shared by [Dos] and [Spam].
    - [Producer]: block/block_producer.rs, with rayon's search an interface
      ([NonceSearch]).
    - [Node]: node/node_runtime.rs, the composition: one record of all components,
      each handler a step ([node_step]).  [NodeInv]: what holds of the whole node after
      any number of steps, and who can use a fresh one.
    - [Peers]: network/peer_manager.rs, its two locks part of the state, so that a
      method may wait for ever.  [Gossip]: network/gossip.rs and message.rs.
      [Sync]: network/sync_manager.rs.  [P2p]: network/p2p_node.rs, and networks of
      nodes as a step relation ([net_step]).
    - [StateSync]: network/state_sync.rs.  [Discovery]: network/discovery.rs.
    - [Wallet]: wallet/wallet.rs, and crypto.rs, wallet.rs, transaction.rs and
      errors.rs of the SDK.  [Rpc]: rpc/server.rs.  [Client]: the SDK's client.rs, contract.rs
      and the commands of cli/cli.rs, run against [Rpc].  [Mobile]: the SDK's mobile/.
    - [Index]: what the indexers share, scans of a key-value database.  [TxIndex],
      [AddressIndex], [BlockIndex]: the three files of indexer/.
    - [Events]: events/, with tokio's broadcast channels an interface ([Broadcast])
      and the forwarding task a machine.  [WsServer]: rpc/ws_server.rs over it, and the
      subscriptions of the SDK.
    - [Shell]: lines, loops and outcomes of a program at a terminal.  [Interactive]:
      cli/interactive.rs, [CliInterface]: cli/cli_interface.rs, both over [Node].  Their
      loops have fuel that ends only runs still going, and their answers do not depend on it.
    - [Cli]: main.rs and the dispatch of cli/cli.rs, on a machine with files, node
      processes and servers.
    - [Config]: config.rs.  [P2pNetwork]: network/p2p_network.rs, which is not part
      of the crate.


    ** How state and effects are modelled

    A method on [&mut self] is a function from the state to a result and a state
    ([M]); one that can also panic returns [None] for the panic ([P]).  Errors keep
    the literal template of the message and its arguments.  Integers are [Z] with
    the wrap-around of a release build written out.  A [HashMap] is a [gmap]; where
    the source iterates over one, the order is [hm_iter], about which only that it
    lists every entry once is known, so a theorem holds for every order.  Locks are
    not modelled where a method holds them for its whole body; in [Peers], where one
    is taken under another, they are part of the state and a method may block for
    ever.  The clock is an argument.  Crates (sha2, secp256k1, RocksDB, bincode, wasmtime) are classes of
    operations with their documented behaviour as laws, and every class has an
    executable instance with which the witnesses are evaluated.

    ** What the theorems show

    - Identity: signing and recovery agree, hashes commit to what they should and
      to what extent they do not ([Transaction], [Block], [StateTree]).
    - Money: transfers, fees, credits and emission; the supply cap along every run, and by
      how much payments from or to the emission counter's account break it
      ([StateManager], [Mining]).
    - The DAG: its invariant under insertion, the incremental index against the
      rebuilt one, ancestors, topological order, depth, common ancestors
      ([DagIndex], [BlockDag], [Graph]).
    - Consensus: the ordering is a linear extension that every node with the same
      blocks computes, blue scores, difficulty and fees ([GhostDag], [BlueSet],
      [Daa]); finality is a prefix of the ordering, of known length ([Finality]).
    - Admission: the pool's invariant, rate limiting, eviction ([Mempool]).
    - Execution: gas accounting of guests, what contract transactions can change,
      what a block reports, that batches are conflict-free and that a batch of
      transfers is serializable ([Wasm], [Executor], [ParallelExecutor]).
    - Storage: the cached store refines a finite map; in every reachable state the
      cache holds what the database holds, or blocks the run has deleted; pruning respects its window and does what
      it reports; snapshots read back ([BlockStore], [Pruning]).
    - Protection: the rate limit is a sliding window but for addresses that a cleanup
      of an overfull table forgets, limits hold in every reachable state, exact acceptance conditions of the pre-validator and the
      batch verifier, what counts as spam ([Dos], [PreValidation], [BatchVerification],
      [Spam]).
    - The composition: what a produced block holds and what becomes of it; the
      invariants of all components hold together in every reachable node; a
      fresh node serves one address ([Producer], [Node], [NodeInv]).
    - The network: a block is relayed at most once per peer, the peer table is
      bounded, a DAG sent in the order of its insertion is rebuilt up to the first block
      whose stored hash misses its difficulty, snapshots carry the sender's accounts over
      to any receiver that does not claim their root already; and what does not work - nodes never
      exchange their DAGs, the order of arrival splits them, an expired ban
      deadlocks, discovery never offers a peer ([Peers], [Gossip], [Sync], [P2p],
      [StateSync], [Discovery]).
    - From the client to the pool: what the SDK signs is accepted and can be
      read back; the command line's wallet and the contract endpoints never succeed
      ([Wallet], [Rpc], [Client]).
    - The indexes answer for the sequence of what was indexed, with the limits and orders
      that differ from what their names promise ([TxIndex], [AddressIndex], [BlockIndex]).
    - Events: subscribers to one type of event receive everything in order, through
      the WebSocket to the SDK's callback; a subscriber to everything loses all but
      one event of a burst, or dies on a fresh bus ([Events], [WsServer]).
    - The terminal: no transaction of a wallet of the node gets through, no block is
      ever mined from the production menu, and neither program ends with its input; a node started
      from the command line serves nobody, and a phone's nonce never advances
      ([Interactive], [CliInterface], [Cli], [Mobile]).


    Several theorems state behaviour that is not what the code means to do (state
    roots that depend on table order, conflicting transactions reordered, amounts
    burnt by transfers to oneself, children never promoted, a guest that panics the
    node); they are proved on the definitions as they are.

    ** Fuel

    The searches of [Graph] take one unit of fuel per edge and vertex still owed;
    [owed_bound] shows the fuel given at every call suffices, and the
    theorems about them state results, not partial correctness.  The loop of
    [kahn] is also a relation of its turns, which empties the queue in as many turns as
    there are blocks and takes no counter below zero.  [kahn],
    [depth_loop], [order_loop], [merge_loop] and [first_free] get the number of
    elements they consume.  Path search in [DagTraversal] gets one unit per parent
    link of the store, which it follows at most once.

    ** Not modelled

    libp2p, axum, the JSON encoding of requests, TOML, sockets and timers.  The text of
    the menus, the parser of the arguments, the file of a snapshot.  Opening and migrating
    databases, [Display], logging, measured times, build.rs.  indexer/ is outside the
    crate and does not compile with it (paths that do not exist, a method for a field), and
    the SDK's mobile/ does not type-check in two places: both are read as what they
    say, and what a function returns on the line that has no type is a parameter.
*)

From stdpp Require Export base tactics list gmap sets strings sorting.
From Stdlib Require Export ZArith Lia.

#[global] Open Scope Z_scope.

(** ** Errors and results

    The source reports errors as [String]s, many of them built by [format!].
    An error keeps the literal template together with the formatted
    arguments, so that two different messages stay different. *)

Inductive error : Type :=
  | Error (template : string) (args : list arg)
with arg : Type :=
  | ArgNum (z : Z)
  | ArgHex (bs : list Z)
  | ArgStr (s : string)
  | ArgErr (e : error).

Inductive result (A : Type) : Type :=
  | Ok (a : A)
  | Err (e : error).
Arguments Ok {A} _.
Arguments Err {A} _.

Definition errorf {A} (template : string) (args : list arg) : result A :=
  Err (Error template args).
Definition err {A} (msg : string) : result A := errorf msg [].

#[global] Instance result_ret : MRet result := fun A a => Ok a.
#[global] Instance result_bind : MBind result := fun A B f r =>
  match r with Ok a => f a | Err e => Err e end.
#[global] Instance result_fmap : FMap result := fun A B f r =>
  match r with Ok a => Ok (f a) | Err e => Err e end.

(** [ok_or]: the [Option::ok_or] of the standard library. *)
Definition ok_or {A} (o : option A) (e : error) : result A :=
  match o with Some a => Ok a | None => Err e end.

(** [map_err(|e| format!(template, e))] *)
Definition map_err {A} (template : string) (r : result A) : result A :=
  match r with Ok a => Ok a | Err e => errorf template [ArgErr e] end.

Definition is_ok {A} (r : result A) : bool :=
  match r with Ok _ => true | Err _ => false end.

Definition unwrap_or {A} (r : result A) (d : A) : A :=
  match r with Ok a => a | Err _ => d end.

Lemma is_ok_true {A} (r : result A) : is_ok r = true <-> exists a, r = Ok a.
Proof. destruct r; simpl; split; [eauto|done|done|by intros [??]]. Qed.

(** A computation over [&mut self] that may fail: the state it leaves behind
    is visible to the caller even when it fails. *)
Definition M (S A : Type) : Type := S -> result A * S.

#[global] Instance M_ret {S} : MRet (M S) := fun A a s => (Ok a, s).
#[global] Instance M_bind {S} : MBind (M S) := fun A B f m s =>
  match m s with
  | (Ok a, s') => f a s'
  | (Err e, s') => (Err e, s')
  end.
Definition lift {S A} (r : result A) : M S A := fun s => (r, s).
Definition gets {S A} (f : S -> A) : M S A := fun s => (Ok (f s), s).
Definition modify {S} (f : S -> S) : M S unit := fun s => (Ok tt, f s).

(** The [for x in xs { f(x)?; }] loops of the source. *)
Fixpoint for_each {S A} (xs : list A) (f : A -> M S unit) : M S unit :=
  match xs with
  | [] => mret tt
  | x :: xs' => f x ≫= fun _ => for_each xs' f
  end.

(** ** Machine integers

    [u64], [u32] and [usize] values are integers of [Z] (lengths are [nat]).
    Plain [+], [-], [*] are the two's complement operations of a release
    build (Cargo.toml sets no overflow checks). *)

Definition u64_max : Z := 18446744073709551615.
Definition u32_max : Z := 4294967295.
Definition u64_wrap (z : Z) : Z := z mod 18446744073709551616.
Definition u64_add (a b : Z) : Z := u64_wrap (a + b).
Definition u64_sub (a b : Z) : Z := u64_wrap (a - b).
Definition u64_mul (a b : Z) : Z := u64_wrap (a * b).
Definition saturating_add (a b : Z) : Z := Z.min (a + b) u64_max.
Definition saturating_sub (a b : Z) : Z := Z.max (a - b) 0.
Definition saturating_mul (a b : Z) : Z := Z.min (a * b) u64_max.
Definition is_u64 (z : Z) : Prop := 0 <= z <= u64_max.
Definition is_byte (z : Z) : Prop := 0 <= z < 256.

Definition u32_add (a b : Z) : Z := (a + b) mod (u32_max + 1).

(** [x as i32] truncates, and so do the operations on [i32]. *)
Definition as_i32 (z : Z) : Z := (z + 2147483648) mod 4294967296 - 2147483648.
Definition i32_max : Z := 2147483647.
Definition is_i32 (z : Z) : Prop := - i32_max - 1 <= z <= i32_max.
Definition i32_add (a b : Z) : Z := as_i32 (a + b).
Definition i32_sub (a b : Z) : Z := as_i32 (a - b).
Lemma as_i32_small z : is_i32 z -> as_i32 z = z.
Proof. unfold as_i32, is_i32, i32_max. intros. rewrite Z.mod_small; lia. Qed.
Lemma as_i32_range z : is_i32 (as_i32 z).
Proof.
  unfold as_i32, is_i32, i32_max. pose proof (Z.mod_pos_bound (z + 2147483648) 4294967296). lia.
Qed.

Create HintDb machine.
Ltac unfold_machine :=
  unfold u64_add, u64_sub, u64_mul, u64_wrap, saturating_add, saturating_sub,
    saturating_mul, is_u64, is_byte, u64_max, u32_max in *.
Ltac solve_machine := unfold_machine; Z.to_euclidean_division_equations; nia.
Ltac machine := unfold_machine; lia.

Lemma u64_add_small a b : 0 <= a + b <= u64_max -> u64_add a b = a + b.
Proof. intros. unfold u64_add, u64_wrap. apply Z.mod_small. machine. Qed.
Lemma u64_sub_small a b : 0 <= a - b <= u64_max -> u64_sub a b = a - b.
Proof. intros. unfold u64_sub, u64_wrap. apply Z.mod_small. machine. Qed.
Lemma u64_wrap_range z : is_u64 (u64_wrap z).
Proof. unfold is_u64, u64_wrap, u64_max. pose proof (Z.mod_pos_bound z 18446744073709551616). lia. Qed.
Lemma saturating_add_range a b : is_u64 a -> is_u64 b -> is_u64 (saturating_add a b).
Proof. machine. Qed.
Lemma saturating_mul_range a b : is_u64 a -> is_u64 b -> is_u64 (saturating_mul a b).
Proof. intros. unfold saturating_mul, is_u64 in *. assert (0 <= a * b) by nia. unfold u64_max in *. lia. Qed.
#[export] Hint Resolve u64_wrap_range saturating_add_range saturating_mul_range as_i32_range : machine.

(** Little-endian byte strings of the integers that are hashed. *)
Fixpoint le_bytes (n : nat) (z : Z) : list Z :=
  match n with
  | O => []
  | S n' => z mod 256 :: le_bytes n' (z / 256)
  end.
Definition u64_to_le_bytes (z : Z) : list Z := le_bytes 8 z.
Definition u32_to_le_bytes (z : Z) : list Z := le_bytes 4 z.

Lemma le_bytes_length n z : length (le_bytes n z) = n.
Proof. revert z; induction n; intros; simpl; auto. Qed.

Lemma le_bytes_inj n a b :
  0 <= a < 256 ^ Z.of_nat n -> 0 <= b < 256 ^ Z.of_nat n ->
  le_bytes n a = le_bytes n b -> a = b.
Proof.
  revert a b. induction n as [|n IH]; intros a b Ha Hb Heq.
  - simpl in *. lia.
  - rewrite Nat2Z.inj_succ, Z.pow_succ_r in Ha, Hb by lia.
    simpl in Heq. injection Heq as Hm Hq.
    assert (a / 256 = b / 256).
    { apply IH; [| |done]; split; try (apply Z.div_pos; lia);
        apply Z.div_lt_upper_bound; lia. }
    rewrite (Z.div_mod a 256), (Z.div_mod b 256) by lia. congruence.
Qed.

Lemma u64_to_le_bytes_inj a b :
  is_u64 a -> is_u64 b -> u64_to_le_bytes a = u64_to_le_bytes b -> a = b.
Proof. intros. eapply (le_bytes_inj 8); [| |done]; simpl; machine. Qed.

Lemma u32_to_le_bytes_inj a b :
  0 <= a <= u32_max -> 0 <= b <= u32_max -> u32_to_le_bytes a = u32_to_le_bytes b -> a = b.
Proof. intros. eapply (le_bytes_inj 4); [| |done]; simpl; machine. Qed.

(** The bytes of an ASCII string. *)
Definition ascii_bytes (s : string) : list Z :=
  (fun c => Z.of_N (Ascii.N_of_ascii c)) <$> String.list_ascii_of_string s.

(** ** Byte strings in lexicographic order: the [Ord] of [[u8; N]]. *)

Fixpoint bytes_cmp (a b : list Z) : comparison :=
  match a, b with
  | [], [] => Eq
  | [], _ :: _ => Lt
  | _ :: _, [] => Gt
  | x :: a', y :: b' => match x ?= y with Eq => bytes_cmp a' b' | c => c end
  end.
Definition bytes_leb (a b : list Z) : bool :=
  match bytes_cmp a b with Gt => false | _ => true end.
Definition bytes_ltb (a b : list Z) : bool :=
  match bytes_cmp a b with Lt => true | _ => false end.

Lemma bytes_cmp_eq a b : bytes_cmp a b = Eq <-> a = b.
Proof.
  revert b; induction a as [|x a IH]; intros [|y b]; simpl; try (split; congruence).
  destruct (Z.compare_spec x y) as [->|?|?].
  - rewrite IH. split; congruence.
  - split; [congruence|]. intros [=]. lia.
  - split; [congruence|]. intros [=]. lia.
Qed.

Lemma bytes_cmp_antisym a b : bytes_cmp b a = CompOpp (bytes_cmp a b).
Proof.
  revert b; induction a as [|x a IH]; intros [|y b]; simpl; try done.
  rewrite (Z.compare_antisym x y). destruct (x ?= y); simpl; auto.
Qed.

Lemma bytes_cmp_lt_trans a b c :
  bytes_cmp a b <> Gt -> bytes_cmp b c <> Gt -> bytes_cmp a c <> Gt.
Proof.
  revert b c; induction a as [|x a IH]; intros [|y b] [|z c]; simpl; try done.
  destruct (Z.compare_spec x y), (Z.compare_spec y z), (Z.compare_spec x z);
    subst; try done; try lia. apply IH.
Qed.

Lemma bytes_leb_total a b : bytes_leb a b = true \/ bytes_leb b a = true.
Proof. unfold bytes_leb. rewrite (bytes_cmp_antisym a b). destruct (bytes_cmp a b); auto. Qed.
Lemma bytes_leb_trans a b c :
  bytes_leb a b = true -> bytes_leb b c = true -> bytes_leb a c = true.
Proof.
  unfold bytes_leb. intros H1 H2. pose proof (bytes_cmp_lt_trans a b c) as H.
  destruct (bytes_cmp a b), (bytes_cmp b c), (bytes_cmp a c); try done;
    exfalso; apply H; done.
Qed.
Lemma bytes_leb_antisym a b : bytes_leb a b = true -> bytes_leb b a = true -> a = b.
Proof.
  unfold bytes_leb. rewrite (bytes_cmp_antisym a b). intros H1 H2.
  apply bytes_cmp_eq. destruct (bytes_cmp a b); done.
Qed.

Lemma bytes_ltb_leb a b : bytes_ltb a b = true -> bytes_leb a b = true.
Proof. unfold bytes_ltb, bytes_leb. by destruct (bytes_cmp a b). Qed.
Lemma bytes_ltb_false a b : bytes_ltb a b = false -> bytes_leb b a = true.
Proof.
  unfold bytes_ltb, bytes_leb. rewrite (bytes_cmp_antisym a b). by destruct (bytes_cmp a b).
Qed.

(** ** [sort_by]: the stable sorts of the standard library. *)

Section Sorting.
Context {A : Type} (leb : A -> A -> bool).

Fixpoint insert_stable (x : A) (l : list A) : list A :=
  match l with
  | [] => [x]
  | y :: l' => if leb x y then x :: l else y :: insert_stable x l'
  end.
Definition sort_by (l : list A) : list A := foldr insert_stable [] l.

Lemma insert_stable_perm x l : insert_stable x l ≡ₚ x :: l.
Proof.
  induction l as [|y l IH]; simpl; [done|]. destruct (leb x y); [done|].
  rewrite IH. constructor.
Qed.
Lemma sort_by_perm l : sort_by l ≡ₚ l.
Proof. induction l as [|x l IH]; simpl; [done|]. by rewrite insert_stable_perm, IH. Qed.
Lemma sort_by_length l : length (sort_by l) = length l.
Proof. by rewrite sort_by_perm. Qed.
Lemma elem_of_sort_by x l : x ∈ sort_by l <-> x ∈ l.
Proof. by rewrite sort_by_perm. Qed.

Hypothesis leb_total : forall x y, leb x y = true \/ leb y x = true.
Hypothesis leb_trans : forall x y z, leb x y = true -> leb y z = true -> leb x z = true.

Lemma insert_stable_sorted x l :
  StronglySorted (fun a b => leb a b = true) l ->
  StronglySorted (fun a b => leb a b = true) (insert_stable x l).
Proof.
  induction 1 as [|y l Hs IH Hall]; simpl; [repeat constructor|].
  destruct (leb x y) eqn:E.
  - constructor; [by constructor|]. constructor; [done|].
    eapply Forall_impl; [exact Hall|]. eauto.
  - constructor; [done|]. rewrite insert_stable_perm.
    constructor; [|done]. destruct (leb_total x y); congruence.
Qed.
Lemma sort_by_sorted l : StronglySorted (fun a b => leb a b = true) (sort_by l).
Proof. induction l; simpl; [constructor|]. by apply insert_stable_sorted. Qed.

Hypothesis leb_antisym : forall x y, leb x y = true -> leb y x = true -> x = y.

Lemma sorted_perm_unique (l k : list A) :
  StronglySorted (fun a b => leb a b = true) l ->
  StronglySorted (fun a b => leb a b = true) k -> l ≡ₚ k -> l = k.
Proof.
  intros Hl. revert k. induction Hl as [|x l Hl IH Hx]; intros k Hk Hp.
  - by apply Permutation_nil in Hp.
  - destruct Hk as [|y k Hk Hy]; [by apply Permutation_sym, Permutation_nil in Hp|].
    assert (x = y) as ->.
    { rewrite Forall_forall in Hx, Hy.
      assert (x ∈ y :: k) as H1 by (rewrite <- Hp; left).
      assert (y ∈ x :: l) as H2 by (rewrite Hp; left).
      apply elem_of_cons in H1 as [?|H1]; [done|].
      apply elem_of_cons in H2 as [?|H2]; [done|]. eauto. }
    f_equal. apply IH; [done|]. by apply Permutation_cons_inv in Hp.
Qed.

(** Sorting by a linear order forgets the order of its input. *)
Lemma sort_by_unique l k : l ≡ₚ k -> sort_by l = sort_by k.
Proof. intros Hp. apply sorted_perm_unique; auto using sort_by_sorted. by rewrite !sort_by_perm. Qed.
End Sorting.

(** [sort_by_key] compares integer keys; [sort] on hashes is lexicographic. *)
Definition sort_by_key {A} (key : A -> Z) : list A -> list A :=
  sort_by (fun x y => key x <=? key y).
Definition sort_bytes : list (list Z) -> list (list Z) := sort_by bytes_leb.

Lemma sorted_weaken {A} (R R' : A -> A -> Prop) l :
  (forall x y, R x y -> R' x y) -> StronglySorted R l -> StronglySorted R' l.
Proof.
  intros HR Hs. induction Hs as [|x k _ IH Hall]; constructor; [done|].
  eapply Forall_impl; [exact Hall|]. intros y. apply HR.
Qed.

Lemma sort_by_key_sorted {A} (key : A -> Z) l :
  StronglySorted (fun a b => key a <= key b) (sort_by_key key l).
Proof.
  assert (StronglySorted (fun a b => (key a <=? key b) = true) (sort_by_key key l)) as Hs.
  { apply sort_by_sorted; simpl; intros *; rewrite !Z.leb_le; lia. }
  eapply sorted_weaken; [|exact Hs]. intros x y. by rewrite Z.leb_le.
Qed.

Lemma sort_bytes_perm l : sort_bytes l ≡ₚ l.
Proof. apply sort_by_perm. Qed.
Lemma sort_bytes_unique l k : l ≡ₚ k -> sort_bytes l = sort_bytes k.
Proof. apply sort_by_unique; eauto using bytes_leb_total, bytes_leb_trans, bytes_leb_antisym. Qed.

(** [Iterator::min_by_key] keeps the first minimum. *)
Fixpoint min_by_key {A} (key : A -> Z) (l : list A) : option A :=
  match l with
  | [] => None
  | x :: l' =>
      match min_by_key key l' with
      | Some y => Some (if key x <=? key y then x else y)
      | None => Some x
      end
  end.

Lemma min_by_key_spec {A} (key : A -> Z) l x :
  min_by_key key l = Some x -> x ∈ l /\ forall y, y ∈ l -> key x <= key y.
Proof.
  revert x. induction l as [|a l IH]; simpl; intros x Hx; [done|].
  destruct (min_by_key key l) as [y|] eqn:E.
  - destruct (IH y eq_refl) as [Hin Hmin]. simplify_eq.
    destruct (Z.leb_spec (key a) (key y)).
    + split; [left|]. intros z [->|Hz]%elem_of_cons; [lia|]. specialize (Hmin z Hz). lia.
    + split; [by right|]. intros z [->|Hz]%elem_of_cons; [lia|]. auto.
  - simplify_eq. destruct l as [|b l]; simpl in E; [|by destruct (min_by_key key l)].
    split; [left|]. intros z ->%list_elem_of_singleton. lia.
Qed.

(** [Iterator::max_by_key] keeps the last maximum. *)
Fixpoint max_by_key {A} (key : A -> Z) (l : list A) : option A :=
  match l with
  | [] => None
  | x :: l' =>
      match max_by_key key l' with
      | Some y => Some (if key x <=? key y then y else x)
      | None => Some x
      end
  end.

(** [iter.max()] over unsigned integers. *)
Definition max_list_or (d : Z) (l : list Z) : Z :=
  match l with [] => d | x :: l' => foldr Z.max x l' end.

Lemma max_list_or_ge d l x : x ∈ l -> x <= max_list_or d l.
Proof.
  destruct l as [|y l]; [by intros ?%not_elem_of_nil|]. simpl.
  intros [->|Hin]%elem_of_cons.
  - induction l; simpl; lia.
  - induction Hin; simpl; lia.
Qed.
Lemma max_list_or_in d l : l <> [] -> max_list_or d l ∈ l.
Proof.
  destruct l as [|y l]; [done|]. intros _. simpl.
  induction l as [|z l IH]; simpl; [left|].
  destruct (Z.max_spec z (foldr Z.max y l)) as [[_ ->]|[_ ->]].
  - apply elem_of_cons in IH as [->|?]; [left|]. by do 2 right.
  - right; left.
Qed.

(** ** Iteration order of hash tables

    [HashMap] and [HashSet] are finite maps and sets; the order in which the
    standard library iterates over one is unspecified.  It is a parameter,
    constrained only to list every entry exactly once. *)
Class HashOrder := {
  hm_iter : forall {K V : Type} `{Countable K}, gmap K V -> list (K * V);
  hm_iter_perm : forall (K V : Type) `{Countable K} (m : gmap K V),
    hm_iter m ≡ₚ map_to_list m
}.

Definition hs_iter `{HashOrder} {K} `{Countable K} (s : gset K) : list K :=
  (hm_iter (gset_to_gmap tt s)).*1.

Section HashOrderFacts.
Context `{HashOrder} {K V : Type} `{Countable K}.
Implicit Types (m : gmap K V) (s : gset K).

Lemma elem_of_hm_iter m k v : (k, v) ∈ hm_iter m <-> m !! k = Some v.
Proof. rewrite hm_iter_perm. apply elem_of_map_to_list. Qed.
Lemma hm_iter_length m : length (hm_iter m) = size m.
Proof. by rewrite hm_iter_perm, length_map_to_list. Qed.
Lemma NoDup_hm_iter_fst m : NoDup (hm_iter m).*1.
Proof. rewrite hm_iter_perm. apply NoDup_fst_map_to_list. Qed.
Lemma hs_iter_perm s : hs_iter s ≡ₚ elements s.
Proof.
  unfold hs_iter. rewrite hm_iter_perm, map_to_list_gset_to_gmap, <- list_fmap_compose.
  by rewrite list_fmap_id.
Qed.
Lemma elem_of_hs_iter s x : x ∈ hs_iter s <-> x ∈ s.
Proof. rewrite hs_iter_perm. apply elem_of_elements. Qed.
Lemma NoDup_hs_iter s : NoDup (hs_iter s).
Proof. rewrite hs_iter_perm. apply NoDup_elements. Qed.
Lemma hs_iter_length s : length (hs_iter s) = size s.
Proof. by rewrite hs_iter_perm. Qed.
Lemma elem_of_hm_iter_snd m v : v ∈ (hm_iter m).*2 <-> exists k, m !! k = Some v.
Proof.
  rewrite list_elem_of_fmap. split.
  - intros ([k v'] & -> & Hin). exists k. by apply elem_of_hm_iter.
  - intros [k Hk]. exists (k, v). split; [done|]. by apply elem_of_hm_iter.
Qed.
End HashOrderFacts.
#[export] Hint Rewrite @elem_of_hm_iter @elem_of_hs_iter : hash_order.

(** The order of the finite maps of the model is one admissible order. *)
Definition canonical_order : HashOrder :=
  {| hm_iter K V _ _ m := map_to_list m;
     hm_iter_perm K V _ _ m := reflexivity _ |}.

(** So is its reverse, which witnesses that results may depend on the order. *)
Lemma reverse_order_perm (K V : Type) `{Countable K} (m : gmap K V) :
  reverse (map_to_list m) ≡ₚ map_to_list m.
Proof. apply reverse_Permutation. Qed.
Definition reverse_order : HashOrder :=
  {| hm_iter K V _ _ m := reverse (map_to_list m);
     hm_iter_perm K V _ _ m := reverse_order_perm K V m |}.

(** ** Filters *)

Lemma filter_none {A} (P : A -> Prop) `{!forall x, Decision (P x)} (l : list A) :
  (forall x, x ∈ l -> ~ P x) -> filter P l = [].
Proof.
  intros Hl. destruct (filter P l) as [|x l'] eqn:Hf; [done|]. exfalso.
  assert (x ∈ filter P l) as Hx by (rewrite Hf; by left).
  apply list_elem_of_filter in Hx as [HP Hx]. by apply (Hl x).
Qed.


(** ** Lists of fixed-width fields

    Two concatenations whose first fields have the same length split alike. *)
Lemma app_inv_length {A} (a b c d : list A) :
  length a = length c -> a ++ b = c ++ d -> a = c /\ b = d.
Proof. intros ? Heq. by apply app_inj_1 in Heq. Qed.
Lemma app_inv_length_r {A} (a b c d : list A) :
  length b = length d -> a ++ b = c ++ d -> a = c /\ b = d.
Proof. intros ? Heq. by apply app_inj_2 in Heq. Qed.

(** Fields of one width can be told apart when their number is known. *)
Lemma concat_fixed_inj {A} n (l l' : list (list A)) (r r' : list A) :
  Forall (fun x => length x = n) l -> Forall (fun x => length x = n) l' -> length l = length l' ->
  concat l ++ r = concat l' ++ r' -> l = l' /\ r = r'.
Proof.
  intros Hl. revert l'. induction Hl as [|x l Hx Hl IH]; intros [|x' l'] Hl' Hlen Heq; try done.
  apply Forall_cons in Hl' as [Hx' Hl']. cbn [concat] in Heq. rewrite <- !app_assoc in Heq.
  apply app_inv_length in Heq as [-> Heq]; [|congruence].
  destruct (IH l' Hl' ltac:(cbn in Hlen; lia) Heq) as [-> ->]. done.
Qed.
Lemma length_concat_fixed {A} n (l : list (list A)) :
  Forall (fun x => length x = n) l -> length (concat l) = (n * length l)%nat.
Proof. induction 1 as [|x l Hx _ IH]; cbn [concat length]; [lia|]. rewrite length_app, IH, Hx. lia. Qed.

(** All occurrences of a byte string type. *)
Abbreviation Bytes := (list Z).
Abbreviation Address := (list Z).
Abbreviation BlockHash := (list Z).
Abbreviation Hash := (list Z).
