(* ===== verification/Crypto.v ===== *)
(** Signatures and the cryptographic primitives.

    [src/src/crypto/mod.rs] is modelled here; the crates [sha2] and
    [secp256k1] are interfaces: the operations the node calls and, apart, the
    documented behaviour its correctness relies on. *)
From S2P Require Import Prelude.

(** ** crypto/mod.rs *)

Inductive CryptoAlgorithm :=
  | Secp256k1
  | Schnorr
  | PostQuantum.

Record Signature := {
  algorithm : CryptoAlgorithm;
  data : Bytes
}.

#[export] Instance CryptoAlgorithm_eq_dec : EqDecision CryptoAlgorithm.
Proof. solve_decision. Defined.
#[export] Instance Signature_eq_dec : EqDecision Signature.
Proof. solve_decision. Defined.

Definition Signature_empty : Signature := {| algorithm := Secp256k1; data := [] |}.

(** ** The sha2 crate: a digest of a byte string. *)

Class Sha256 := sha256 : Bytes -> Hash.

(** A digest is 32 bytes. *)
Class Sha256Laws `{Sha256} : Prop := {
  sha256_length : forall bs, length (sha256 bs) = 32%nat;
  sha256_bytes : forall bs, Forall is_byte (sha256 bs)
}.

(** Two different members of [inputs] with one digest.  Collisions exist (the
    digest is shorter than the input), so a theorem never says just that one
    exists: it names the inputs that would have to collide. *)
Definition sha256_collision `{Sha256} (inputs : list Bytes) : Prop :=
  exists x y : Bytes, x ∈ inputs /\ y ∈ inputs /\ x <> y /\ sha256 x = sha256 y.

Lemma sha256_inj_or_collision `{Sha256} (x y : Bytes) :
  sha256 x = sha256 y -> x = y \/ sha256_collision [x; y].
Proof.
  intros. destruct (decide (x = y)); [by left|]. right. exists x, y.
  split; [left|]. split; [right; left|]. done.
Qed.

Lemma sha256_collision_mono `{Sha256} (l k : list Bytes) :
  l ⊆ k -> sha256_collision l -> sha256_collision k.
Proof. intros Hl (x & y & Hx & Hy & ?). exists x, y. auto. Qed.

(** Widen a collision found among fewer inputs. *)
Ltac collide H := right; eapply sha256_collision_mono; [|exact H]; simpl; clear; set_solver.

(** ** The secp256k1 crate: recoverable ECDSA. *)

Class SecpOps := {
  SecretKey : Type;
  PublicKey : Type;
  RecoverableSignature : Type;
  message_from_digest : Bytes -> result Bytes;
  sign_ecdsa_recoverable : Bytes -> SecretKey -> RecoverableSignature;
  serialize_compact : RecoverableSignature -> Z * Bytes;
  recovery_id_from_i32 : Z -> result Z;
  signature_from_compact : Bytes -> Z -> result RecoverableSignature;
  recover_ecdsa : Bytes -> RecoverableSignature -> result PublicKey;
  public_key : SecretKey -> PublicKey;
  serialize_public_key : PublicKey -> Bytes
}.

Class SecpLaws `{SecpOps} : Prop := {
  message_of_digest : forall d, length d = 32%nat -> message_from_digest d = Ok d;
  compact_length : forall s, length (serialize_compact s).2 = 64%nat;
  compact_recovery_id : forall s, 0 <= (serialize_compact s).1 < 4;
  recovery_id_ok : forall i, 0 <= i < 4 -> recovery_id_from_i32 i = Ok i;
  compact_roundtrip : forall s,
    signature_from_compact (serialize_compact s).2 (serialize_compact s).1 = Ok s;
  recover_sign : forall m sk,
    recover_ecdsa m (sign_ecdsa_recoverable m sk) = Ok (public_key sk);
  public_key_length : forall pk, length (serialize_public_key pk) = 33%nat
}.

(** ** Executable stand-ins for the two crates

    A checksum with 32-byte results, in two flavours, and a signature scheme
    whose signatures carry the key.  They exist so that properties stated for
    every instance can be evaluated on concrete inputs. *)

Fixpoint horner (acc : Z) (bs : Bytes) : Z :=
  match bs with
  | [] => acc
  | b :: bs' => horner (Z.land (263 * acc + b + 1) 2305843009213693951) bs'
  end.
Definition checksum (bs : Bytes) : Hash :=
  let d := le_bytes 8 (horner 1 bs) in d ++ d ++ d ++ d.
Definition checksum_sha : Sha256 := checksum.

Lemma le_bytes_are_bytes n z : Forall is_byte (le_bytes n z).
Proof.
  revert z; induction n; intros z; simpl; constructor; [|done].
  unfold is_byte. pose proof (Z.mod_pos_bound z 256). lia.
Qed.

Lemma checksum_laws : @Sha256Laws checksum_sha.
Proof.
  split; intros bs; unfold sha256, checksum_sha, checksum.
  - by rewrite !length_app, !le_bytes_length.
  - by rewrite !Forall_app; split_and!; apply le_bytes_are_bytes.
Qed.

Definition toy_secp : SecpOps := {|
  SecretKey := bool;
  PublicKey := bool;
  RecoverableSignature := bool;
  message_from_digest d :=
    if bool_decide (length d = 32%nat) then Ok d else err "malformed message";
  sign_ecdsa_recoverable _ sk := sk;
  serialize_compact s := (if s : bool then 1 else 0, replicate 64 (if s : bool then 1 else 0));
  recovery_id_from_i32 i := if (0 <=? i) && (i <? 4) then Ok i else err "invalid recovery ID";
  signature_from_compact bs i := Ok (i =? 1);
  recover_ecdsa _ s := Ok s;
  public_key sk := sk;
  serialize_public_key pk := replicate 33 (if pk : bool then 3 else 2)
|}.

Lemma toy_secp_laws : @SecpLaws toy_secp.
Proof.
  split; simpl.
  - intros d Hd. by rewrite bool_decide_true.
  - by intros [].
  - intros []; lia.
  - intros i Hi. destruct (Z.leb_spec 0 i), (Z.ltb_spec i 4); simpl; done || lia.
  - by intros [].
  - done.
  - done.
Qed.
