(* ===== verification/Transaction.v ===== *)
(** Transactions: [src/src/core/transaction.rs].

    The payload variants, the constructors, the signing hash, signing,
    signature recovery and the stateless checks of [validate_basic]. *)
From S2P Require Import Prelude Crypto.

Inductive TxPayload :=
  | Transfer (to : Address) (amount : Z)
  | ContractDeploy (wasm_code : Bytes) (init_args : Bytes)
  | ContractCall (contract_address : Address) (method : Bytes) (args : Bytes).

Record Transaction := {
  from : Address;
  payload : TxPayload;
  nonce : Z;
  gas_limit : Z;
  gas_price : Z;
  signature : Signature
}.

#[export] Instance TxPayload_eq_dec : EqDecision TxPayload.
Proof. solve_decision. Defined.
#[export] Instance Transaction_eq_dec : EqDecision Transaction.
Proof. solve_decision. Defined.

Definition new_transfer (from to : Address) (amount nonce gas_limit gas_price : Z) : Transaction :=
  {| from := from; payload := Transfer to amount; nonce := nonce;
     gas_limit := gas_limit; gas_price := gas_price; signature := Signature_empty |}.

Definition new (from to : Address) (amount nonce gas_limit gas_price : Z) : Transaction :=
  new_transfer from to amount nonce gas_limit gas_price.

Definition default_transfer : Transaction :=
  new_transfer (replicate 20 0) (replicate 20 0) 0 0 0 0.

Definition new_deploy (from : Address) (wasm_code init_args : Bytes)
    (nonce gas_limit gas_price : Z) : Transaction :=
  {| from := from; payload := ContractDeploy wasm_code init_args; nonce := nonce;
     gas_limit := gas_limit; gas_price := gas_price; signature := Signature_empty |}.

Definition new_call (from contract_address : Address) (method args : Bytes)
    (nonce gas_limit gas_price : Z) : Transaction :=
  {| from := from; payload := ContractCall contract_address method args; nonce := nonce;
     gas_limit := gas_limit; gas_price := gas_price; signature := Signature_empty |}.

Definition set_signature (tx : Transaction) (s : Signature) : Transaction :=
  {| from := from tx; payload := payload tx; nonce := nonce tx;
     gas_limit := gas_limit tx; gas_price := gas_price tx; signature := s |}.

Section Transaction.
Context `{Sha256} `{SecpOps}.

(** The bytes fed to the hasher, in order. *)
Definition payload_preimage (p : TxPayload) : Bytes :=
  match p with
  | Transfer to amount => [0] ++ to ++ u64_to_le_bytes amount
  | ContractDeploy wasm_code init_args => [1] ++ sha256 wasm_code ++ sha256 init_args
  | ContractCall contract_address method args =>
      [2] ++ contract_address ++ method ++ sha256 args
  end.

Definition tx_preimage (tx : Transaction) : Bytes :=
  from tx ++ payload_preimage (payload tx) ++ u64_to_le_bytes (nonce tx) ++
  u64_to_le_bytes (gas_limit tx) ++ u64_to_le_bytes (gas_price tx).

Definition hash (tx : Transaction) : Hash := sha256 (tx_preimage tx).

(** [sign]: the recovery id is the 65th byte of the signature. *)
Definition sign (tx : Transaction) (private_key : SecretKey) : result Transaction :=
  match message_from_digest (hash tx) with
  | Err e => errorf "Invalid message: {}" [ArgErr e]
  | Ok message =>
      let '(recovery_id, sig_bytes) :=
        serialize_compact (sign_ecdsa_recoverable message private_key) in
      Ok (set_signature tx
            {| algorithm := Secp256k1; data := sig_bytes ++ [recovery_id mod 256] |})
  end.

Definition verify_signature (tx : Transaction) : result PublicKey :=
  if decide (algorithm (signature tx) = Secp256k1) then
    if decide (length (data (signature tx)) = 65%nat) then
      match message_from_digest (hash tx) with
      | Err e => errorf "Invalid message: {}" [ArgErr e]
      | Ok message =>
          match recovery_id_from_i32 (nth 64 (data (signature tx)) 0) with
          | Err e => errorf "Invalid recovery id: {}" [ArgErr e]
          | Ok recovery_id =>
              match signature_from_compact (take 64 (data (signature tx))) recovery_id with
              | Err e => errorf "Invalid signature: {}" [ArgErr e]
              | Ok sig =>
                  match recover_ecdsa message sig with
                  | Err e => errorf "Signature recovery failed: {}" [ArgErr e]
                  | Ok pubkey => Ok pubkey
                  end
              end
          end
      end
    else err "Invalid signature length"
  else err "Unsupported signature algorithm".

(** The address of a key: bytes 12..32 of the digest of its serialization
    without the first byte. *)
Definition address_of (pk : PublicKey) : Address :=
  take 20 (drop 12 (sha256 (drop 1 (serialize_public_key pk)))).

Definition validate_basic (tx : Transaction) : result unit :=
  if gas_limit tx =? 0 then err "Gas limit must be greater than 0"
  else if gas_price tx =? 0 then err "Gas price must be greater than 0"
  else if match payload tx with Transfer _ amount => amount =? 0 | _ => false end
  then err "Amount must be greater than 0"
  else
    pubkey ← verify_signature tx;
    if decide (address_of pubkey = from tx) then Ok tt
    else err "Signature does not match from address".

(** Field widths: what the Rust types guarantee. *)
Definition payload_wf (p : TxPayload) : Prop :=
  match p with
  | Transfer to amount => length to = 20%nat /\ is_u64 amount
  | ContractDeploy _ _ => True
  | ContractCall a _ _ => length a = 20%nat
  end.
Definition tx_wf (tx : Transaction) : Prop :=
  length (from tx) = 20%nat /\ payload_wf (payload tx) /\
  is_u64 (nonce tx) /\ is_u64 (gas_limit tx) /\ is_u64 (gas_price tx).

(** What the signing hash commits to: everything but the signature, with the
    code and the arguments represented by their digests. *)
Definition same_payload_digest (p q : TxPayload) : Prop :=
  match p, q with
  | Transfer t a, Transfer t' a' => t = t' /\ a = a'
  | ContractDeploy c i, ContractDeploy c' i' => sha256 c = sha256 c' /\ sha256 i = sha256 i'
  | ContractCall c m a, ContractCall c' m' a' => c = c' /\ m = m' /\ sha256 a = sha256 a'
  | _, _ => False
  end.

Lemma hash_set_signature tx s : hash (set_signature tx s) = hash tx.
Proof. done. Qed.

Lemma u64_le_length z : length (u64_to_le_bytes z) = 8%nat.
Proof. apply le_bytes_length. Qed.

Lemma payload_preimage_inj `{!Sha256Laws} p q :
  payload_wf p -> payload_wf q ->
  payload_preimage p = payload_preimage q -> same_payload_digest p q.
Proof.
  destruct p as [t a|c i|c m a], q as [t' a'|c' i'|c' m' a']; simpl;
    intros Hp Hq Heq; try discriminate; injection Heq as Heq.
  - apply app_inv_length in Heq as [-> Heq]; [|lia].
    split; [done|]. apply u64_to_le_bytes_inj; tauto.
  - apply app_inv_length in Heq; [done|]. by rewrite !sha256_length.
  - apply app_inv_length in Heq as [-> Heq]; [|lia].
    apply app_inv_length_r in Heq; [tauto|]. by rewrite !sha256_length.
Qed.

Lemma tx_preimage_inj `{!Sha256Laws} tx tx' :
  tx_wf tx -> tx_wf tx' -> tx_preimage tx = tx_preimage tx' ->
  from tx = from tx' /\ same_payload_digest (payload tx) (payload tx') /\
  nonce tx = nonce tx' /\ gas_limit tx = gas_limit tx' /\ gas_price tx = gas_price tx'.
Proof.
  intros (Hf & Hp & Hn & Hl & Hg) (Hf' & Hp' & Hn' & Hl' & Hg') Heq.
  unfold tx_preimage in Heq.
  apply app_inv_length in Heq as [-> Heq]; [|lia].
  rewrite !app_assoc in Heq.
  apply app_inv_length_r in Heq as [Heq Hg1]; [|by rewrite !u64_le_length].
  apply app_inv_length_r in Heq as [Heq Hl1]; [|by rewrite !u64_le_length].
  apply app_inv_length_r in Heq as [Heq Hn1]; [|by rewrite !u64_le_length].
  repeat split; auto using payload_preimage_inj, u64_to_le_bytes_inj.
Qed.

(** The transaction hash identifies the sender, the payload, the
    nonce and the gas terms: two transactions with one hash agree on all of
    them (payload code and arguments up to their digests), or their own hash
    inputs differ and collide under SHA-256. *)
Theorem tx_hash_commits `{!Sha256Laws} tx tx' :
  tx_wf tx -> tx_wf tx' -> hash tx = hash tx' ->
  (from tx = from tx' /\ same_payload_digest (payload tx) (payload tx') /\
   nonce tx = nonce tx' /\ gas_limit tx = gas_limit tx' /\ gas_price tx = gas_price tx')
  \/ sha256_collision [tx_preimage tx; tx_preimage tx'].
Proof.
  unfold hash. intros Hwf Hwf' Heq. apply sha256_inj_or_collision in Heq as [Heq|]; [|by right].
  left. by apply tx_preimage_inj.
Qed.

Lemma sign_hash tx sk tx' : sign tx sk = Ok tx' -> hash tx' = hash tx.
Proof.
  unfold sign. destruct (message_from_digest _); [|done].
  destruct (serialize_compact _). by intros [= <-].
Qed.

Lemma verify_sign `{!Sha256Laws} `{!SecpLaws} tx sk tx' :
  sign tx sk = Ok tx' -> verify_signature tx' = Ok (public_key sk).
Proof.
  intros Hs. pose proof (sign_hash _ _ _ Hs) as Hh. unfold sign in Hs.
  rewrite message_of_digest in Hs by apply sha256_length.
  pose proof (compact_length (sign_ecdsa_recoverable (hash tx) sk)) as Hlen.
  pose proof (compact_recovery_id (sign_ecdsa_recoverable (hash tx) sk)) as Hid.
  pose proof (compact_roundtrip (sign_ecdsa_recoverable (hash tx) sk)) as Hrt.
  destruct (serialize_compact _) as [rid bs]; simpl in *. injection Hs as <-.
  unfold verify_signature; rewrite Hh; simpl.
  rewrite decide_True by (rewrite length_app; simpl; lia).
  rewrite message_of_digest by apply sha256_length.
  rewrite app_nth2, Hlen, Nat.sub_diag by lia; simpl.
  rewrite Z.mod_small by lia. rewrite recovery_id_ok by done.
  rewrite take_app_le, take_ge by lia. by rewrite Hrt, recover_sign.
Qed.

(** Signing a transaction with the key its sender address is derived
    from succeeds, and the signed transaction passes [validate_basic] as soon as
    its gas terms and, for a transfer, its amount are positive. *)
Theorem sign_validates `{!Sha256Laws} `{!SecpLaws} tx sk :
  from tx = address_of (public_key sk) ->
  0 < gas_limit tx -> 0 < gas_price tx ->
  match payload tx with Transfer _ amount => 0 < amount | _ => True end ->
  exists tx', sign tx sk = Ok tx' /\ hash tx' = hash tx /\ validate_basic tx' = Ok tt.
Proof.
  intros Hfrom Hl Hp Ha.
  destruct (sign tx sk) as [tx'|e] eqn:Hs.
  - exists tx'. pose proof (verify_sign _ _ _ Hs) as Hv.
    split; [done|]. split; [by eapply sign_hash|].
    unfold validate_basic. rewrite Hv. unfold sign in Hs.
    destruct (message_from_digest _); [|done].
    destruct (serialize_compact _). injection Hs as <-; simpl in *.
    rewrite !(proj2 (Z.eqb_neq _ _)) by lia.
    destruct (payload tx) as [to amount| |]; simpl;
      rewrite ?(proj2 (Z.eqb_neq _ _)) by lia; by rewrite decide_True.
  - exfalso. unfold sign in Hs. rewrite message_of_digest in Hs by apply sha256_length.
    by destruct (serialize_compact _).
Qed.

(** The stateless checks accept exactly the transactions with positive gas and
    amount whose recovered key owns the sender address. *)
Lemma validate_basic_spec tx :
  validate_basic tx = Ok tt <->
  gas_limit tx <> 0 /\ gas_price tx <> 0 /\
  (forall to amount, payload tx = Transfer to amount -> amount <> 0) /\
  exists pk, verify_signature tx = Ok pk /\ address_of pk = from tx.
Proof.
  unfold validate_basic.
  destruct (Z.eqb_spec (gas_limit tx) 0); [split; [done|tauto]|].
  destruct (Z.eqb_spec (gas_price tx) 0); [split; [done|tauto]|].
  destruct (payload tx) as [to a| |] eqn:Hpl;
    [destruct (Z.eqb_spec a 0); [split; [done|naive_solver]|]| |];
    (destruct (verify_signature tx) as [pk|]; simpl;
      [case_decide; split; [by eauto 10 with congruence|done|done|]; naive_solver
      |split; [done|naive_solver]]).
Qed.
End Transaction.

(** A transfer of 5 to the address [2; ...; 2], signed with the toy key. *)
Definition sample_tx : Transaction :=
  new_transfer (@address_of checksum_sha toy_secp true) (replicate 20 2) 5 0 21000 1.

Lemma sign_validates_witness :
  exists tx', @sign checksum_sha toy_secp sample_tx true = Ok tx' /\
    @hash checksum_sha tx' = @hash checksum_sha sample_tx /\
    @validate_basic checksum_sha toy_secp tx' = Ok tt.
Proof.
  apply (@sign_validates checksum_sha toy_secp checksum_laws toy_secp_laws sample_tx true);
    vm_compute; reflexivity.
Defined.

Lemma tx_hash_commits_witness :
  (from sample_tx = from sample_tx /\
   @same_payload_digest checksum_sha (payload sample_tx) (payload sample_tx) /\
   nonce sample_tx = nonce sample_tx /\ gas_limit sample_tx = gas_limit sample_tx /\
   gas_price sample_tx = gas_price sample_tx)
  \/ @sha256_collision checksum_sha
       [@tx_preimage checksum_sha sample_tx; @tx_preimage checksum_sha sample_tx].
Proof.
  apply (@tx_hash_commits checksum_sha checksum_laws sample_tx sample_tx);
    [repeat split; vm_compute; done .. | reflexivity].
Defined.
