(* ===== verification/Floats.v ===== *)
(** IEEE 754 binary64 arithmetic: the [f64] of the source.

    Values and rounding are those of the standard library's executable
    specification [SpecFloat] at precision 53 and maximal exponent 1024, so
    the reward and difficulty formulas are evaluated with the rounding the
    program has.  [exp] has no specified precision in Rust and is an
    interface. *)
From Stdlib Require Export SpecFloat.
From S2P Require Import Prelude.

Abbreviation f64 := spec_float.

Definition f64_add : f64 -> f64 -> f64 := SFadd 53 1024.
Definition f64_sub : f64 -> f64 -> f64 := SFsub 53 1024.
Definition f64_mul : f64 -> f64 -> f64 := SFmul 53 1024.
Definition f64_div : f64 -> f64 -> f64 := SFdiv 53 1024.
Definition f64_opp : f64 -> f64 := SFopp.
Definition f64_abs : f64 -> f64 := SFabs.
Definition f64_ltb : f64 -> f64 -> bool := SFltb.
Definition f64_leb : f64 -> f64 -> bool := SFleb.

(** [n as f64]: round to nearest, ties to even. *)
Definition f64_of_Z (n : Z) : f64 := binary_normalize 53 1024 n 0 false.

(** The literal whose decimal value is [n / d]. *)
Definition f64_lit (n d : Z) : f64 := f64_div (f64_of_Z n) (f64_of_Z d).

Definition f64_is_nan (x : f64) : bool :=
  match x with S754_nan => true | _ => false end.

(** [f64::max] and [f64::min] prefer the operand that is not NaN. *)
Definition f64_max (a b : f64) : f64 :=
  match SFcompare a b with
  | None => if f64_is_nan a then b else a
  | Some Lt => b
  | Some _ => a
  end.
Definition f64_min (a b : f64) : f64 :=
  match SFcompare a b with
  | None => if f64_is_nan a then b else a
  | Some Gt => b
  | Some _ => a
  end.

(** Truncation towards zero; [as u64] and [as u32] saturate, NaN is 0. *)
Definition f64_trunc (s : bool) (m : positive) (e : Z) : Z :=
  let v := if e <? 0 then Z.pos m / 2 ^ (- e) else Z.pos m * 2 ^ e in
  if s then - v else v.
Definition f64_to_uint (max : Z) (x : f64) : Z :=
  match x with
  | S754_nan | S754_zero _ => 0
  | S754_infinity s => if s then 0 else max
  | S754_finite s m e => Z.max 0 (Z.min max (f64_trunc s m e))
  end.
Definition f64_to_u64 : f64 -> Z := f64_to_uint u64_max.
Definition f64_to_u32 : f64 -> Z := f64_to_uint u32_max.

(** [f64::round]: nearest integer, halves away from zero. *)
Definition f64_round (x : f64) : f64 :=
  match x with
  | S754_finite s m e =>
      if e <? 0 then
        let q := (2 * Z.pos m + 2 ^ (- e)) / 2 ^ (- e + 1) in
        if q =? 0 then S754_zero s else f64_of_Z (if s then - q else q)
      else x
  | _ => x
  end.

Class LibM := f64_exp : f64 -> f64.

(** An instance that returns 1 everywhere, for evaluation at exponent 0. *)
Definition constant_exp : LibM := fun _ => f64_of_Z 1.

Lemma f64_to_u64_range x : is_u64 (f64_to_u64 x).
Proof. unfold is_u64, f64_to_u64, u64_max. destruct x as [|[]| |]; simpl; lia. Qed.
Lemma f64_to_u32_range x : 0 <= f64_to_u32 x <= u32_max.
Proof. unfold f64_to_u32, u32_max. destruct x as [|[]| |]; simpl; lia. Qed.
#[export] Hint Resolve f64_to_u64_range f64_to_u32_range : machine.

(** ** Order facts *)

Definition swap_order (c : option comparison) : option comparison := CompOpp <$> c.

Lemma pos_compare_cont_antisym m n :
  Pos.compare_cont Eq n m = CompOpp (Pos.compare_cont Eq m n).
Proof. exact (Pos.compare_antisym m n). Qed.

Lemma SFcompare_swap x y : SFcompare y x = swap_order (SFcompare x y).
Proof.
  destruct x as [[]|[]| |[] m e], y as [[]|[]| |[] n f]; simpl; try done;
    rewrite (Z.compare_antisym e f); unfold swap_order; simpl;
    destruct (e ?= f); simpl; try done;
    by rewrite (pos_compare_cont_antisym m n), ?CompOpp_involutive.
Qed.

Lemma SFcompare_refl x : f64_is_nan x = false -> SFcompare x x = Some Eq.
Proof.
  destruct x as [[]|[]| |[] m e]; simpl; try done; intros _;
    rewrite Z.compare_refl;
    change (Pos.compare_cont Eq m m) with (Pos.compare m m);
    by rewrite Pos.compare_refl.
Qed.

Lemma SFcompare_none x y :
  SFcompare x y = None -> f64_is_nan x = true \/ f64_is_nan y = true.
Proof. destruct x as [[]|[]| |[] m e], y as [[]|[]| |[] n f]; simpl; by auto. Qed.

Lemma f64_leb_refl x : f64_is_nan x = false -> f64_leb x x = true.
Proof. intros. unfold f64_leb, SFleb. by rewrite SFcompare_refl. Qed.

(** [x.max(lo).min(hi)] lies between [lo] and [hi]. *)
Lemma f64_clamp_bounds x lo hi :
  f64_is_nan lo = false -> f64_is_nan hi = false -> f64_leb lo hi = true ->
  f64_leb lo (f64_min (f64_max x lo) hi) = true /\
  f64_leb (f64_min (f64_max x lo) hi) hi = true.
Proof.
  intros Hlo Hhi Hle.
  assert (f64_is_nan (f64_max x lo) = false /\ f64_leb lo (f64_max x lo) = true) as [Hn Hl].
  { unfold f64_max. destruct (SFcompare x lo) as [c|] eqn:E.
    - assert (f64_is_nan x = false) by (destruct x; done).
      destruct c; try (split; [done|by apply f64_leb_refl]); split; try done;
        unfold f64_leb, SFleb; by rewrite SFcompare_swap, E.
    - apply SFcompare_none in E as [E|E]; [|congruence]. rewrite E. auto using f64_leb_refl. }
  unfold f64_min. destruct (SFcompare (f64_max x lo) hi) as [c|] eqn:E.
  - destruct c; (split; [done|]) || idtac; auto using f64_leb_refl;
      unfold f64_leb, SFleb; by rewrite E.
  - apply SFcompare_none in E as [E|E]; congruence.
Qed.
