(* ===== verification/Mining.v ===== *)
(** Tokenomics, rewards, proof of work and the windowed difficulty state:
    [src/src/consensus/mining.rs]. *)
From S2P Require Import Prelude Floats.

Definition CTS_MAX_SUPPLY : Z := 600000000.
Definition CTS_GENESIS_ALLOCATION : Z := 100000000.
Definition CTS_MINING_SUPPLY : Z := CTS_MAX_SUPPLY - CTS_GENESIS_ALLOCATION.
Definition CTS_INITIAL_REWARD : Z := 100.
Definition CTS_MINIMUM_REWARD : Z := 1.
Definition CTS_EMISSION_DECAY_FACTOR : f64 := f64_lit 1 1000000.

Record RewardConfig := {
  target_blocks_per_minute : f64;
  activity_window_size : nat;
  max_multiplier : f64;
  min_multiplier : f64
}.

Definition RewardConfig_default : RewardConfig :=
  {| target_blocks_per_minute := f64_of_Z 2; activity_window_size := 144;
     max_multiplier := f64_of_Z 2; min_multiplier := f64_lit 1 2 |}.

Definition calculate_activity_multiplier (timestamps : list Z) (config : RewardConfig) : f64 :=
  if (length timestamps <? 2)%nat then f64_of_Z 1
  else
    let window_start := hd 0 timestamps in
    let window_end := List.last timestamps 0 in
    let time_window := saturating_sub window_end window_start in
    if time_window =? 0 then max_multiplier config
    else
      let blocks_in_window := f64_of_Z (Z.of_nat (length timestamps)) in
      let actual_rate := f64_div blocks_in_window (f64_div (f64_of_Z time_window) (f64_of_Z 60)) in
      let multiplier := f64_div (target_blocks_per_minute config) actual_rate in
      f64_min (f64_max multiplier (min_multiplier config)) (max_multiplier config).

Section Rewards.
Context `{LibM}.

Definition calculate_base_reward (chain_progress : f64) : Z :=
  let decay := f64_exp (f64_mul (f64_opp CTS_EMISSION_DECAY_FACTOR) chain_progress) in
  let decayed_reward := f64_mul (f64_of_Z CTS_INITIAL_REWARD) decay in
  Z.max (f64_to_u64 decayed_reward) CTS_MINIMUM_REWARD.

Definition calculate_expected_block_reward (emitted_supply : Z) (chain_progress : f64)
    (recent_timestamps : list Z) (tx_count : nat) (config : RewardConfig) : Z :=
  let base_reward := calculate_base_reward chain_progress in
  let activity_multiplier := calculate_activity_multiplier recent_timestamps config in
  let tx_factor :=
    f64_div (f64_of_Z 1)
      (f64_add (f64_of_Z 1) (f64_div (f64_of_Z (Z.of_nat tx_count)) (f64_of_Z 1000))) in
  let reward :=
    f64_to_u64 (f64_mul (f64_mul (f64_of_Z base_reward) activity_multiplier) tx_factor) in
  let reward := Z.max reward CTS_MINIMUM_REWARD in
  let remaining_supply := saturating_sub CTS_MINING_SUPPLY emitted_supply in
  if remaining_supply =? 0 then 0
  else if reward >? remaining_supply then remaining_supply
  else reward.

(** The deprecated block reward, still what [Block::new] and
    [Block::validate_basic] use. *)
Definition calculate_reward (tx_count : nat) : Z :=
  calculate_expected_block_reward 0 (f64_of_Z 0) [] tx_count RewardConfig_default.

(** The emission cap. Whatever the chain progress, the timestamps, the
    transaction count and the platform's [exp], paying the computed reward never
    takes the emitted supply beyond the mining supply, and the reward is at
    least the minimum reward exactly while some mining supply remains. *)
Theorem reward_within_mining_supply emitted progress timestamps tx_count config :
  0 <= emitted <= CTS_MINING_SUPPLY ->
  let r := calculate_expected_block_reward emitted progress timestamps tx_count config in
  emitted + r <= CTS_MINING_SUPPLY /\ 0 <= r /\
  (emitted < CTS_MINING_SUPPLY <-> CTS_MINIMUM_REWARD <= r).
Proof.
  intros He. cbn zeta. unfold calculate_expected_block_reward.
  match goal with |- context [f64_to_u64 ?x] => generalize (f64_to_u64 x); intros w end.
  unfold saturating_sub, CTS_MINIMUM_REWARD, CTS_MINING_SUPPLY,
    CTS_MAX_SUPPLY, CTS_GENESIS_ALLOCATION in *.
  rewrite Z.gtb_ltb.
  destruct (Z.eqb_spec (Z.max (600000000 - 100000000 - emitted) 0) 0); [lia|].
  destruct (Z.ltb_spec (Z.max (600000000 - 100000000 - emitted) 0) (Z.max w 1)); lia.
Qed.

Lemma calculate_reward_range tx_count :
  1 <= calculate_reward tx_count <= CTS_MINING_SUPPLY.
Proof.
  pose proof (reward_within_mining_supply 0 (f64_of_Z 0) [] tx_count RewardConfig_default) as Hr.
  cbn zeta in Hr. unfold calculate_reward, CTS_MINIMUM_REWARD, CTS_MINING_SUPPLY,
    CTS_MAX_SUPPLY, CTS_GENESIS_ALLOCATION in *. lia.
Qed.
End Rewards.

(** The activity multiplier stays between the configured minimum and
    maximum as soon as at least two timestamps are known, whatever the
    timestamps are (even decreasing ones). *)
Theorem activity_multiplier_bounds timestamps config :
  f64_is_nan (min_multiplier config) = false ->
  f64_is_nan (max_multiplier config) = false ->
  f64_leb (min_multiplier config) (max_multiplier config) = true ->
  (2 <= length timestamps)%nat ->
  f64_leb (min_multiplier config) (calculate_activity_multiplier timestamps config) = true /\
  f64_leb (calculate_activity_multiplier timestamps config) (max_multiplier config) = true.
Proof.
  intros Hmin Hmax Hle Hlen. unfold calculate_activity_multiplier.
  destruct (Nat.ltb_spec (length timestamps) 2); [lia|].
  destruct (Z.eqb_spec (saturating_sub (List.last timestamps 0) (hd 0 timestamps)) 0).
  - auto using f64_leb_refl.
  - by apply f64_clamp_bounds.
Qed.

Lemma activity_multiplier_bounds_witness :
  f64_leb (f64_lit 1 2) (calculate_activity_multiplier [0; 90; 45] RewardConfig_default) = true /\
  f64_leb (calculate_activity_multiplier [0; 90; 45] RewardConfig_default) (f64_of_Z 2) = true.
Proof.
  apply (activity_multiplier_bounds [0; 90; 45] RewardConfig_default); vm_compute; [done..|lia].
Defined.

Lemma reward_within_mining_supply_witness :
  let r := @calculate_expected_block_reward constant_exp 499999960 (f64_of_Z 7) [0; 60] 3
             RewardConfig_default in
  499999960 + r <= CTS_MINING_SUPPLY /\ 0 <= r /\
  (499999960 < CTS_MINING_SUPPLY <-> CTS_MINIMUM_REWARD <= r).
Proof.
  apply (@reward_within_mining_supply constant_exp 499999960 (f64_of_Z 7) [0; 60] 3
           RewardConfig_default). vm_compute; split; discriminate.
Defined.

(** ** The difficulty state *)

Record DaaConfig := {
  target_block_interval : Z;
  adjustment_window : nat;
  min_difficulty : Z;
  max_difficulty : Z;
  dampening_factor : f64
}.

Definition DaaConfig_default : DaaConfig :=
  {| target_block_interval := 30; adjustment_window := 144; min_difficulty := 1;
     max_difficulty := u32_max / 4; dampening_factor := f64_lit 1 4 |}.

Record DifficultyState := {
  current_difficulty : Z;
  timestamps : list Z;
  last_adjustment : Z;
  config : DaaConfig
}.

Definition DifficultyState_new (now : Z) (config : DaaConfig) : DifficultyState :=
  {| current_difficulty := 1; timestamps := []; last_adjustment := now; config := config |}.

(** [Ord::clamp]; the standard library panics when [lo > hi]. *)
Definition clamp (lo hi x : Z) : Z := if x <? lo then lo else if hi <? x then hi else x.

Definition adjust_difficulty (now : Z) (st : DifficultyState) : DifficultyState :=
  if (length (timestamps st) <? 2)%nat then st
  else
    let time_elapsed := u64_sub now (last_adjustment st) in
    if time_elapsed =? 0 then st
    else
      let expected_time :=
        u64_mul (target_block_interval (config st))
          (u64_sub (Z.of_nat (adjustment_window (config st))) 1) in
      let actual_time := u64_sub (List.last (timestamps st) 0) (hd 0 (timestamps st)) in
      if actual_time =? 0 then st
      else
        let time_ratio := f64_div (f64_of_Z actual_time) (f64_of_Z expected_time) in
        let adjustment_factor := f64_div (f64_of_Z 1) time_ratio in
        let damped_adjustment :=
          f64_add (f64_of_Z 1)
            (f64_mul (f64_sub adjustment_factor (f64_of_Z 1)) (dampening_factor (config st))) in
        let new_difficulty :=
          f64_to_u32 (f64_mul (f64_of_Z (current_difficulty st)) damped_adjustment) in
        let clamped_difficulty :=
          clamp (min_difficulty (config st)) (max_difficulty (config st)) new_difficulty in
        let change_ratio :=
          f64_div (f64_of_Z clamped_difficulty) (f64_of_Z (current_difficulty st)) in
        if f64_ltb change_ratio (f64_lit 99 100) || f64_ltb (f64_lit 101 100) change_ratio
        then {| current_difficulty := clamped_difficulty; timestamps := timestamps st;
                last_adjustment := now; config := config st |}
        else st.

(** [while len > window { pop_front }]. *)
Fixpoint keep_last (window : nat) (l : list Z) : list Z :=
  match l with
  | [] => []
  | _ :: l' => if (window <? length l)%nat then keep_last window l' else l
  end.

Definition add_block (now timestamp : Z) (st : DifficultyState) : DifficultyState :=
  let st :=
    {| current_difficulty := current_difficulty st;
       timestamps := keep_last (adjustment_window (config st)) (timestamps st ++ [timestamp]);
       last_adjustment := last_adjustment st; config := config st |} in
  if (adjustment_window (config st) <=? length (timestamps st))%nat
  then adjust_difficulty now st else st.

Definition get_difficulty (st : DifficultyState) : Z := current_difficulty st.

Definition estimate_network_hashrate (st : DifficultyState) : f64 :=
  f64_div (f64_of_Z (current_difficulty st)) (f64_of_Z (target_block_interval (config st))).

Definition intervals_of (l : list Z) : list Z :=
  zip_with (fun later earlier => u64_sub later earlier) (tail l) l.

Definition detect_oscillation (st : DifficultyState) : bool :=
  if (length (timestamps st) <? adjustment_window (config st))%nat then false
  else
    let intervals := intervals_of (timestamps st) in
    match intervals with
    | [] => false
    | i :: rest => u64_mul (foldr Z.min i rest) 10 <? foldr Z.max i rest
    end.

(** States of a difficulty tracker that has seen any sequence of blocks. *)
Inductive difficulty_reachable (cfg : DaaConfig) : DifficultyState -> Prop :=
  | difficulty_init now : difficulty_reachable cfg (DifficultyState_new now cfg)
  | difficulty_step now ts st :
      difficulty_reachable cfg st -> difficulty_reachable cfg (add_block now ts st).

Lemma keep_last_length w l : (length (keep_last w l) <= w)%nat.
Proof.
  induction l as [|x l IH]; [simpl; lia|]. cbn [keep_last].
  destruct (Nat.ltb_spec w (length (x :: l))); [done|lia].
Qed.

Lemma keep_last_drop w l : keep_last w l = drop (length l - w) l.
Proof.
  induction l as [|x l IH]; [done|]. cbn [keep_last].
  destruct (Nat.ltb_spec w (length (x :: l))); cbn [length] in *.
  - rewrite IH. by replace (S (length l) - w)%nat with (S (length l - w)) by lia.
  - by replace (S (length l) - w)%nat with 0%nat by lia.
Qed.

Lemma clamp_range lo hi x : lo <= hi -> lo <= clamp lo hi x <= hi.
Proof. intros. unfold clamp. destruct (Z.ltb_spec x lo), (Z.ltb_spec hi x); lia. Qed.

Lemma adjust_difficulty_cases now st :
  adjust_difficulty now st = st \/
  exists d, timestamps (adjust_difficulty now st) = timestamps st /\
    config (adjust_difficulty now st) = config st /\
    current_difficulty (adjust_difficulty now st)
      = clamp (min_difficulty (config st)) (max_difficulty (config st)) d.
Proof.
  unfold adjust_difficulty.
  destruct (length (timestamps st) <? 2)%nat; [by left|].
  destruct (u64_sub now (last_adjustment st) =? 0); [by left|].
  destruct (u64_sub (List.last (timestamps st) 0) (hd 0 (timestamps st)) =? 0); [by left|].
  cbv zeta. match goal with |- context [f64_to_u32 ?x] => generalize (f64_to_u32 x); intros d end.
  match goal with |- context [if ?b then _ else _] => destruct b end; [|by left].
  right. exists d. cbn [timestamps config current_difficulty]. auto.
Qed.

(** Along every sequence of blocks the difficulty tracker keeps at most
    [adjustment_window] timestamps, never changes its configuration, and its
    difficulty stays within the configured bounds (the initial difficulty 1
    being within them), so it never reaches 0. *)
Theorem difficulty_invariant cfg st :
  min_difficulty cfg <= 1 <= max_difficulty cfg ->
  difficulty_reachable cfg st ->
  config st = cfg /\ (length (timestamps st) <= adjustment_window cfg)%nat /\
  min_difficulty cfg <= current_difficulty st <= max_difficulty cfg.
Proof.
  intros Hcfg. induction 1 as [now|now ts st _ (Hc & Hl & Hd)].
  - simpl. repeat split; lia.
  - unfold add_block. rewrite Hc. cbn [config timestamps].
    set (st' := {| current_difficulty := _ |}).
    assert (config st' = cfg /\ (length (timestamps st') <= adjustment_window cfg)%nat /\
      min_difficulty cfg <= current_difficulty st' <= max_difficulty cfg) as Hst'.
    { subst st'; simpl. auto using keep_last_length. }
    destruct (_ <=? _)%nat; [|done]. destruct Hst' as (Hc' & Hl' & Hd').
    destruct (adjust_difficulty_cases now st') as [->|(d & -> & -> & ->)]; [done|].
    rewrite Hc'. repeat split; [done|..]; apply clamp_range; lia.
Qed.

Lemma difficulty_invariant_witness :
  let cfg := {| target_block_interval := 30; adjustment_window := 2; min_difficulty := 1;
                max_difficulty := 8; dampening_factor := f64_lit 1 4 |} in
  let st := add_block 105 101 (add_block 100 100 (DifficultyState_new 0 cfg)) in
  current_difficulty st = 8 /\
  config st = cfg /\ (length (timestamps st) <= adjustment_window cfg)%nat /\
  min_difficulty cfg <= current_difficulty st <= max_difficulty cfg.
Proof.
  intros cfg st. split; [vm_compute; reflexivity|].
  apply (difficulty_invariant cfg st); [vm_compute; split; discriminate|].
  exact (difficulty_step cfg _ _ _ (difficulty_step cfg _ _ _ (difficulty_init cfg 0))).
Defined.

(** ** Proof of work *)

Definition meets_difficulty (hash : BlockHash) (difficulty : Z) : bool :=
  if difficulty =? 0 then true
  else
    let zero_bytes := Z.to_nat (difficulty / 8) in
    if existsb (fun b => negb (b =? 0)) (take zero_bytes hash) then false
    else
      let rem_bits := difficulty mod 8 in
      if 0 <? rem_bits then
        let mask := Z.land (Z.shiftl 255 (8 - rem_bits)) 255 in
        match hash !! zero_bytes with
        | None => false
        | Some b => Z.land b mask =? 0
        end
      else true.

(** The hash read as a big-endian integer. *)
Fixpoint be_value (bs : Bytes) : Z :=
  match bs with
  | [] => 0
  | b :: bs' => b * 256 ^ Z.of_nat (length bs') + be_value bs'
  end.

Lemma be_value_range bs : Forall is_byte bs -> 0 <= be_value bs < 256 ^ Z.of_nat (length bs).
Proof.
  induction 1 as [|b bs Hb _ IH]; [simpl; lia|]. cbn [be_value length].
  rewrite Nat2Z.inj_succ, Z.pow_succ_r by lia. unfold is_byte in Hb. nia.
Qed.

Lemma be_value_app xs ys :
  be_value (xs ++ ys) = be_value xs * 256 ^ Z.of_nat (length ys) + be_value ys.
Proof.
  induction xs as [|x xs IH]; simpl; [lia|].
  rewrite IH, length_app, Nat2Z.inj_add, Z.pow_add_r by lia. lia.
Qed.

Lemma be_value_zero bs :
  Forall is_byte bs -> existsb (fun b => negb (b =? 0)) bs = negb (be_value bs =? 0).
Proof.
  induction 1 as [|b bs Hb Hbs IH]; [done|]. cbn [existsb be_value]. rewrite IH.
  pose proof (be_value_range bs Hbs) as Hr. unfold is_byte in Hb.
  assert (0 < 256 ^ Z.of_nat (length bs)) by lia.
  destruct (Z.eqb_spec b 0), (Z.eqb_spec (be_value bs) 0),
    (Z.eqb_spec (b * 256 ^ Z.of_nat (length bs) + be_value bs) 0); simpl; nia || done.
Qed.

Lemma mask_test b r :
  is_byte b -> 1 <= r <= 7 ->
  (Z.land b (Z.land (Z.shiftl 255 (8 - r)) 255) =? 0) = (b <? 2 ^ (8 - r)).
Proof.
  intros Hb Hr.
  assert (forallb (fun r => forallb (fun b =>
    eqb (Z.land b (Z.land (Z.shiftl 255 (8 - r)) 255) =? 0) (b <? 2 ^ (8 - r)))
    (seqZ 0 256)) (seqZ 1 7) = true) as H by (vm_compute; reflexivity).
  unfold is_byte in Hb. apply eqb_prop. rewrite forallb_forall in H.
  specialize (H r ltac:(apply list_elem_of_In, elem_of_seqZ; lia)).
  rewrite forallb_forall in H.
  exact (H b ltac:(apply list_elem_of_In, elem_of_seqZ; lia)).
Qed.

Lemma pow256 n : 256 ^ Z.of_nat n = 2 ^ (8 * Z.of_nat n).
Proof. rewrite Z.pow_mul_r by lia. done. Qed.

(** The leading-zero-bits test is the numeric target test: a hash of [n]
    bytes meets difficulty [d <= 8n] exactly when its big-endian value is below
    [2^(8n - d)]. *)
Theorem meets_difficulty_spec hash d :
  Forall is_byte hash -> 0 <= d <= 8 * Z.of_nat (length hash) ->
  meets_difficulty hash d = true <-> be_value hash < 2 ^ (8 * Z.of_nat (length hash) - d).
Proof.
  intros Hb Hd. unfold meets_difficulty.
  destruct (Z.eqb_spec d 0) as [->|Hd0].
  { rewrite Z.sub_0_r, <- pow256. pose proof (be_value_range _ Hb). split; [lia|done]. }
  set (zb := Z.to_nat (d / 8)). set (r := d mod 8).
  assert (d = 8 * Z.of_nat zb + r) as Hdr by (subst zb r; Z.to_euclidean_division_equations; lia).
  assert (0 <= r < 8) as Hr by (subst r; Z.to_euclidean_division_equations; lia).
  assert (zb <= length hash)%nat as Hzb by lia.
  pose proof (take_drop zb hash) as Htd.
  pose proof (Forall_take _ zb _ Hb) as Hbt. pose proof (Forall_drop _ zb _ Hb) as Hbd.
  assert (be_value hash = be_value (take zb hash) * 256 ^ Z.of_nat (length (drop zb hash))
            + be_value (drop zb hash)) as Hval by (by rewrite <- be_value_app, Htd).
  rewrite length_drop in Hval.
  pose proof (be_value_range _ Hbt) as Ht. pose proof (be_value_range _ Hbd) as Hdv.
  rewrite length_drop in Hdv. set (k := (length hash - zb)%nat) in *.
  assert (8 * Z.of_nat (length hash) - d = 8 * Z.of_nat k - r) as -> by lia.
  pose proof (pow256 k) as Hp.
  assert (2 ^ (8 * Z.of_nat k - r) <= 2 ^ (8 * Z.of_nat k)) by (apply Z.pow_le_mono_r; lia).
  rewrite be_value_zero by done.
  destruct (Z.eqb_spec (be_value (take zb hash)) 0) as [Hz|Hz]; simpl negb; cbn [negb].
  2:{ split; [done|]. intros. nia. }
  rewrite Hz, Z.mul_0_l, Z.add_0_l in Hval.
  destruct (Z.ltb_spec 0 r) as [Hr0|Hr0].
  2:{ assert (r = 0) as -> by lia. rewrite Z.sub_0_r. split; [lia|done]. }
  destruct (hash !! zb) as [b|] eqn:Hlk.
  2:{ apply lookup_ge_None in Hlk. lia. }
  pose proof (drop_S _ _ _ Hlk) as Hds. rewrite Hds in Hval. cbn [be_value] in Hval.
  assert (is_byte b) by exact (Forall_lookup_1 is_byte _ _ _ Hb Hlk).
  pose proof (be_value_range (drop (S zb) hash) (Forall_drop _ _ _ Hb)) as Hrest.
  rewrite length_drop in Hval, Hrest.
  replace (length hash - S zb)%nat with (k - 1)%nat in * by lia.
  assert (1 <= k)%nat by (apply lookup_lt_Some in Hlk; lia).
  rewrite mask_test, Z.ltb_lt by (done || lia).
  replace (8 * Z.of_nat k - r) with ((8 - r) + 8 * Z.of_nat (k - 1)) by lia.
  rewrite Z.pow_add_r, <- pow256 by lia. rewrite Hval. split; intros; nia.
Qed.

Lemma meets_difficulty_spec_witness :
  meets_difficulty [0; 31; 200] 11 = true /\
  (meets_difficulty [0; 31; 200] 11 = true <-> be_value [0; 31; 200] < 2 ^ (8 * 3 - 11)).
Proof.
  split; [reflexivity|].
  apply (meets_difficulty_spec [0; 31; 200] 11);
    [repeat constructor; unfold is_byte; lia | simpl; lia].
Defined.

(** ** The mining manager *)

Record MiningStats := {
  blocks_mined : Z;
  total_hashrate : f64;
  average_block_time : f64;
  difficulty_adjustments : Z;
  last_block_time : Z
}.

Definition MiningStats_new : MiningStats :=
  {| blocks_mined := 0; total_hashrate := f64_of_Z 0; average_block_time := f64_of_Z 0;
     difficulty_adjustments := 0; last_block_time := 0 |}.

Record MiningManager := {
  difficulty_state : DifficultyState;
  recent_blocks : list (Z * Z);
  stats : MiningStats
}.

Definition MiningManager_new (now : Z) (cfg : DaaConfig) : MiningManager :=
  {| difficulty_state := DifficultyState_new now cfg; recent_blocks := [];
     stats := MiningStats_new |}.

Definition get_current_difficulty (m : MiningManager) : Z :=
  get_difficulty (difficulty_state m).

Fixpoint pop_front_to {A} (bound : nat) (l : list A) : list A :=
  match l with
  | [] => []
  | _ :: l' => if (bound <? length l)%nat then pop_front_to bound l' else l
  end.

(** The summed block times: the closure binds the later timestamp to [t1] and
    the earlier one to [t2], and subtracts [t2 - t1]. *)
Definition total_block_time (recent : list (Z * Z)) : Z :=
  foldl u64_add 0
    (zip_with (fun '(t1, _) '(t2, _) => u64_sub t2 t1) (drop 1 recent) recent).

Definition record_block (now timestamp : Z) (m : MiningManager) : MiningManager :=
  let ds := add_block now timestamp (difficulty_state m) in
  let recent := pop_front_to 1000 (recent_blocks m ++ [(timestamp, get_difficulty ds)]) in
  let st := stats m in
  {| difficulty_state := ds;
     recent_blocks := recent;
     stats :=
       {| blocks_mined := u64_add (blocks_mined st) 1;
          total_hashrate := total_hashrate st;
          average_block_time :=
            if (2 <=? length recent)%nat
            then f64_div (f64_of_Z (total_block_time recent))
                   (f64_of_Z (Z.of_nat (length recent - 1)))
            else average_block_time st;
          difficulty_adjustments := difficulty_adjustments st;
          last_block_time := timestamp |} |}.

Definition get_network_hashrate (m : MiningManager) : f64 :=
  estimate_network_hashrate (difficulty_state m).

Definition should_adjust_difficulty (m : MiningManager) : bool :=
  (adjustment_window (config (difficulty_state m))
     <=? length (timestamps (difficulty_state m)))%nat.

Definition get_stats (m : MiningManager) : MiningStats := stats m.

Inductive alert :=
  | OscillationDetected
  | BlockTimeDeviation (average target : f64).

Definition detect_attacks (m : MiningManager) : list alert :=
  let avg := average_block_time (stats m) in
  let target := f64_of_Z (target_block_interval (config (difficulty_state m))) in
  (if detect_oscillation (difficulty_state m) then [OscillationDetected] else []) ++
  (if f64_ltb (f64_of_Z 0) avg then
     let deviation := f64_div (f64_abs (f64_sub avg target)) target in
     if f64_ltb (f64_lit 1 2) deviation then [BlockTimeDeviation avg target] else []
   else []).

Definition validate_miner_reward (reward block_height : Z) : bool :=
  if reward =? 0 then false else negb (1000 <? reward).

(** The block-time average is computed from negated intervals: for two
    blocks recorded [delta] seconds apart ([delta > 0]) the summed block time is
    [2^64 - delta] instead of [delta]. *)
Theorem total_block_time_negated t0 delta d0 d1 :
  is_u64 t0 -> 0 < delta -> t0 + delta <= u64_max ->
  total_block_time [(t0, d0); (t0 + delta, d1)] = u64_max + 1 - delta.
Proof.
  intros H0 Hd Hm. unfold total_block_time; simpl.
  unfold u64_add, u64_sub, u64_wrap, is_u64, u64_max in *.
  replace (t0 - (t0 + delta)) with (- delta) by lia.
  rewrite Z.mod_opp_l_nz, (Z.mod_small delta) by
    (rewrite ?(Z.mod_small delta); lia).
  rewrite Z.mod_small; lia.
Qed.

Lemma total_block_time_negated_witness :
  total_block_time [(100, 1); (100 + 30, 1)] = u64_max + 1 - 30.
Proof. apply (total_block_time_negated 100 30 1 1); unfold is_u64, u64_max; lia. Defined.
