(* ===== verification/Block.v ===== *)
(** Blocks: [src/src/core/block.rs].

    The header and block records, the block hash, construction, the stateless
    validation of [validate_basic] and the consensus metadata update. *)
From S2P Require Import Prelude Crypto Transaction Floats Mining.

Record BlockHeader := {
  parent_hashes : list BlockHash;
  timestamp : Z;
  header_nonce : Z;
  difficulty : Z;
  base_fee : Z;
  state_root : Hash;
  version : Z;
  blue_score : Z;
  selected_parent : option BlockHash;
  chain_height : Z;
  topo_index : Z
}.

Record Block := {
  block_hash : BlockHash;
  header : BlockHeader;
  transactions : list Transaction;
  producer : Address;
  reward : Z;
  height : Z
}.

#[export] Instance BlockHeader_eq_dec : EqDecision BlockHeader.
Proof. solve_decision. Defined.
#[export] Instance Block_eq_dec : EqDecision Block.
Proof. solve_decision. Defined.

Definition with_hash (b : Block) (h : BlockHash) : Block :=
  {| block_hash := h; header := header b; transactions := transactions b;
     producer := producer b; reward := reward b; height := height b |}.

Definition set_header_nonce (hd : BlockHeader) (n : Z) : BlockHeader :=
  {| parent_hashes := parent_hashes hd; timestamp := timestamp hd; header_nonce := n;
     difficulty := difficulty hd; base_fee := base_fee hd; state_root := state_root hd;
     version := version hd; blue_score := blue_score hd;
     selected_parent := selected_parent hd; chain_height := chain_height hd;
     topo_index := topo_index hd |}.

Definition set_nonce (b : Block) (n : Z) : Block :=
  {| block_hash := block_hash b; header := set_header_nonce (header b) n;
     transactions := transactions b; producer := producer b; reward := reward b;
     height := height b |}.

Section Block.
Context `{Sha256} `{LibM}.

(** The bytes fed to the hasher by [calculate_hash], in order: the parents, the
    transaction hashes, the header fields, the selected parent (zeros if none)
    and the producer. *)
Definition header_preimage (hd : BlockHeader) : Bytes :=
  u64_to_le_bytes (timestamp hd) ++ u64_to_le_bytes (header_nonce hd) ++
  u32_to_le_bytes (difficulty hd) ++ u64_to_le_bytes (base_fee hd) ++
  state_root hd ++ u32_to_le_bytes (version hd) ++
  u64_to_le_bytes (blue_score hd) ++ u64_to_le_bytes (chain_height hd) ++
  u64_to_le_bytes (topo_index hd).
Definition block_preimage (b : Block) : Bytes :=
  concat (parent_hashes (header b)) ++
  concat (hash <$> transactions b) ++
  header_preimage (header b) ++
  default (replicate 32 0) (selected_parent (header b)) ++
  producer b.
Definition calculate_hash (b : Block) : BlockHash := sha256 (block_preimage b).

Definition new (parent_hashes : list BlockHash) (timestamp : Z)
    (transactions : list Transaction) (nonce difficulty base_fee : Z)
    (producer : Address) (state_root : Hash) : Block :=
  let block :=
    {| block_hash := replicate 32 0;
       header :=
         {| parent_hashes := parent_hashes; timestamp := timestamp; header_nonce := nonce;
            difficulty := difficulty; base_fee := base_fee; state_root := state_root;
            version := 1; blue_score := 0; selected_parent := None; chain_height := 0;
            topo_index := 0 |};
       transactions := transactions; producer := producer;
       reward := calculate_reward (length transactions); height := 0 |} in
  with_hash block (calculate_hash block).

(** [validate_basic] reads the wall clock [now] (seconds since the epoch). *)
Definition validate_basic (now : Z) (b : Block) : result unit :=
  if negb (bool_decide (block_hash b = calculate_hash b)) then err "Block hash mismatch"
  else if (0 <? difficulty (header b)) &&
          negb (meets_difficulty (block_hash b) (difficulty (header b)))
  then err "Block does not satisfy PoW difficulty"
  else
    let expected := calculate_reward (length (transactions b)) in
    if negb (reward b =? expected)
    then errorf "Unexpected block reward: {} vs {}" [ArgNum (reward b); ArgNum expected]
    else
      let tx_hashes : gset Hash := list_to_set (hash <$> transactions b) in
      if negb (size tx_hashes =? length (transactions b))%nat
      then err "Duplicate transactions found"
      else if u64_add now 3600 <? timestamp (header b)
      then err "Block timestamp too far in future"
      else Ok tt.

Definition validate_references (b : Block) : result unit :=
  match parent_hashes (header b) with
  | [] => err "Block must have at least one parent (except genesis)"
  | _ => Ok tt
  end.

Definition set_consensus_metadata (b : Block) (sp : option BlockHash)
    (score cheight topo : Z) : Block :=
  let hd := header b in
  let b' :=
    {| block_hash := block_hash b;
       header :=
         {| parent_hashes := parent_hashes hd; timestamp := timestamp hd;
            header_nonce := header_nonce hd; difficulty := difficulty hd;
            base_fee := base_fee hd; state_root := state_root hd; version := version hd;
            blue_score := score; selected_parent := sp; chain_height := cheight;
            topo_index := topo |};
       transactions := transactions b; producer := producer b; reward := reward b;
       height := cheight |} in
  with_hash b' (calculate_hash b').

Definition is_genesis (b : Block) : bool :=
  match parent_hashes (header b) with [] => true | _ => false end.

(** [hex::encode] is the [hex] crate's; the hashes are kept as bytes. *)
Definition transaction_hashes (b : Block) : list Hash := hash <$> transactions b.

(** [size_of::<BlockHash>()] is 32 and [size_of::<TransactionId>()], a [String],
    is 24 on a 64-bit target. *)
Definition size_estimate (b : Block) : nat :=
  (32 + length (parent_hashes (header b)) * 32 + length (transactions b) * (24 + 256 + 8)
   + 8 + 8 + 4 + 4 + 20 + 8)%nat.

Definition default_block : Block :=
  new [] 0 [] 0 0 0 (replicate 20 0) (replicate 32 0).

(** ** The hash *)

Lemma calculate_hash_with_hash b h : calculate_hash (with_hash b h) = calculate_hash b.
Proof. done. Qed.

Lemma new_hash ps ts txs n d bf p sr :
  block_hash (new ps ts txs n d bf p sr) = calculate_hash (new ps ts txs n d bf p sr).
Proof. done. Qed.

Lemma set_consensus_metadata_hash b sp s c t :
  block_hash (set_consensus_metadata b sp s c t)
  = calculate_hash (set_consensus_metadata b sp s c t).
Proof. done. Qed.

(** Field widths of a block. *)
Definition block_wf (b : Block) : Prop :=
  Forall (fun p => length p = 32%nat) (parent_hashes (header b)) /\
  length (state_root (header b)) = 32%nat /\
  length (producer b) = 20%nat /\
  (forall p, selected_parent (header b) = Some p -> length p = 32%nat) /\
  is_u64 (timestamp (header b)) /\ is_u64 (header_nonce (header b)) /\
  0 <= difficulty (header b) <= u32_max /\ is_u64 (base_fee (header b)) /\
  0 <= version (header b) <= u32_max /\
  is_u64 (blue_score (header b)) /\ is_u64 (chain_height (header b)) /\
  is_u64 (topo_index (header b)).

(** The part of it that consensus annotation leaves alone. *)
Definition fields_wf (b : Block) : Prop :=
  Forall (fun p => length p = 32%nat) (parent_hashes (header b)) /\
  length (state_root (header b)) = 32%nat /\
  length (producer b) = 20%nat /\
  is_u64 (timestamp (header b)) /\ is_u64 (header_nonce (header b)) /\
  0 <= difficulty (header b) <= u32_max /\ is_u64 (base_fee (header b)) /\
  0 <= version (header b) <= u32_max.

Lemma block_wf_fields b : block_wf b -> fields_wf b.
Proof. unfold block_wf, fields_wf. tauto. Qed.

Lemma selected_parent_length b :
  block_wf b -> length (default (replicate 32 0) (selected_parent (header b))) = 32%nat.
Proof.
  intros (_ & _ & _ & Hsp & _). destruct (selected_parent (header b)) eqn:E; simpl; auto.
Qed.

Lemma header_preimage_inj hd hd' :
  length (state_root hd) = length (state_root hd') ->
  header_preimage hd = header_preimage hd' ->
  u64_to_le_bytes (timestamp hd) = u64_to_le_bytes (timestamp hd') /\
  u64_to_le_bytes (header_nonce hd) = u64_to_le_bytes (header_nonce hd') /\
  u32_to_le_bytes (difficulty hd) = u32_to_le_bytes (difficulty hd') /\
  u64_to_le_bytes (base_fee hd) = u64_to_le_bytes (base_fee hd') /\
  state_root hd = state_root hd' /\
  u32_to_le_bytes (version hd) = u32_to_le_bytes (version hd') /\
  u64_to_le_bytes (blue_score hd) = u64_to_le_bytes (blue_score hd') /\
  u64_to_le_bytes (chain_height hd) = u64_to_le_bytes (chain_height hd') /\
  u64_to_le_bytes (topo_index hd) = u64_to_le_bytes (topo_index hd').
Proof.
  intros Hsr Heq. unfold header_preimage in Heq.
  repeat (apply app_inv_length in Heq as [? Heq];
    [|first [done | unfold u64_to_le_bytes, u32_to_le_bytes; by rewrite !le_bytes_length]]).
  by repeat split.
Qed.

Lemma header_preimage_length hd :
  length (header_preimage hd) = (56 + length (state_root hd))%nat.
Proof.
  unfold header_preimage, u64_to_le_bytes, u32_to_le_bytes.
  rewrite !length_app, !le_bytes_length. lia.
Qed.

(** The variable-length part of the preimage and the header fields. *)
Lemma block_preimage_inj b b' :
  block_wf b -> block_wf b' -> block_preimage b = block_preimage b' ->
  concat (parent_hashes (header b)) ++ concat (hash <$> transactions b) =
  concat (parent_hashes (header b')) ++ concat (hash <$> transactions b') /\
  header_preimage (header b) = header_preimage (header b') /\
  default (replicate 32 0) (selected_parent (header b)) =
  default (replicate 32 0) (selected_parent (header b')) /\
  producer b = producer b'.
Proof.
  intros Hwf Hwf' Heq. unfold block_preimage in Heq.
  pose proof (selected_parent_length _ Hwf) as Hs.
  pose proof (selected_parent_length _ Hwf') as Hs'.
  destruct Hwf as (_ & Hsr & Hp & _), Hwf' as (_ & Hsr' & Hp' & _).
  rewrite !app_assoc in Heq.
  apply app_inv_length_r in Heq as [Heq ?]; [|lia].
  apply app_inv_length_r in Heq as [Heq ?]; [|lia].
  apply app_inv_length_r in Heq as [Heq ?]; [|rewrite !header_preimage_length; lia].
  done.
Qed.

(** The fixed-width part of what the hash commits to. *)
Lemma hash_commits_header b b' :
  block_wf b -> block_wf b' -> calculate_hash b = calculate_hash b' ->
  (timestamp (header b) = timestamp (header b') /\
   header_nonce (header b) = header_nonce (header b') /\
   base_fee (header b) = base_fee (header b') /\
   state_root (header b) = state_root (header b') /\
   blue_score (header b) = blue_score (header b') /\
   chain_height (header b) = chain_height (header b') /\
   topo_index (header b) = topo_index (header b') /\
   difficulty (header b) = difficulty (header b') /\
   version (header b) = version (header b') /\
   producer b = producer b') \/ sha256_collision [block_preimage b; block_preimage b'].
Proof.
  unfold calculate_hash. intros Hwf Hwf' Heq.
  apply sha256_inj_or_collision in Heq as [Heq|]; [|by right]. left.
  apply block_preimage_inj in Heq as (_ & Hh & _ & Hp); [|done..].
  apply header_preimage_inj in Hh as (H1 & H2 & H3 & H4 & H5 & H6 & H7 & H8 & H9);
    [|unfold block_wf in *; destruct_and!; congruence].
  unfold block_wf in *; destruct_and!.
  repeat split; auto using u64_to_le_bytes_inj, u32_to_le_bytes_inj.
Qed.

Lemma tx_hashes_width `{!Sha256Laws} (txs : list Transaction) : Forall (fun h => length h = 32%nat) (hash <$> txs).
Proof. apply Forall_fmap, Forall_true. intros tx. apply sha256_length. Qed.

(** C31: the block hash commits to the content it is computed from.  Two well-formed blocks
    with one hash agree on every header field of fixed width, on the producer, on the selected
    parent (no parent counting as the zero hash), and on the parents and the transaction hashes
    as one run of hashes; when they have as many parents, or as many transactions, they have
    the same parents and the same transaction hashes - or their hash inputs differ and
    collide under SHA-256. *)
Theorem block_hash_commits `{!Sha256Laws} b b' :
  block_wf b -> block_wf b' -> calculate_hash b = calculate_hash b' ->
  (timestamp (header b) = timestamp (header b') /\
   header_nonce (header b) = header_nonce (header b') /\
   difficulty (header b) = difficulty (header b') /\
   base_fee (header b) = base_fee (header b') /\
   state_root (header b) = state_root (header b') /\
   version (header b) = version (header b') /\
   blue_score (header b) = blue_score (header b') /\
   chain_height (header b) = chain_height (header b') /\
   topo_index (header b) = topo_index (header b') /\
   default (replicate 32 0) (selected_parent (header b)) =
     default (replicate 32 0) (selected_parent (header b')) /\
   producer b = producer b' /\
   parent_hashes (header b) ++ (hash <$> transactions b) =
     parent_hashes (header b') ++ (hash <$> transactions b') /\
   (length (parent_hashes (header b)) = length (parent_hashes (header b')) \/
      length (transactions b) = length (transactions b') ->
    parent_hashes (header b) = parent_hashes (header b') /\
    hash <$> transactions b = hash <$> transactions b')) \/
  sha256_collision [block_preimage b; block_preimage b'].
Proof.
  intros Hwf Hwf' Heq. destruct (hash_commits_header b b' Hwf Hwf' Heq) as [Hf|]; [|by right].
  unfold calculate_hash in Heq. apply sha256_inj_or_collision in Heq as [Hp|]; [|by right].
  destruct (block_preimage_inj b b' Hwf Hwf' Hp) as (Hc & _ & Hs & _). left.
  assert (parent_hashes (header b) ++ (hash <$> transactions b) =
    parent_hashes (header b') ++ (hash <$> transactions b')) as Hrun.
  { pose proof (Forall_app_2 _ _ _ (proj1 Hwf) (tx_hashes_width (transactions b))) as Hw.
    pose proof (Forall_app_2 _ _ _ (proj1 Hwf') (tx_hashes_width (transactions b'))) as Hw'.
    rewrite <- !concat_app in Hc.
    apply (concat_fixed_inj 32 _ _ [] []); [done|done| |by rewrite Hc].
    apply (f_equal length) in Hc. rewrite !(length_concat_fixed 32) in Hc by done. lia. }
  destruct Hf as (? & ? & ? & ? & ? & ? & ? & ? & ? & ?). do 12 (split; [done|]).
  intros Hlen. apply app_inj_1 in Hrun; [done|].
  apply (f_equal length) in Hrun. rewrite !length_app, !length_fmap in Hrun. lia.
Qed.

(** The hash does not separate parents from transactions: moving
    the last parent of a block to the front of its transaction list, as a
    transaction with that hash, leaves the block hash unchanged. *)
Theorem parents_transactions_ambiguous ps tx txs ts n d bf p sr :
  calculate_hash (new (ps ++ [hash tx]) ts txs n d bf p sr) =
  calculate_hash (new ps ts (tx :: txs) n d bf p sr).
Proof.
  unfold calculate_hash, block_preimage, new; cbn -[header_preimage].
  rewrite concat_app; simpl. rewrite app_nil_r. by rewrite <- !app_assoc.
Qed.

(** ** Validation *)

Lemma size_list_to_set_NoDup {A} `{Countable A} (l : list A) :
  size (list_to_set l : gset A) = length l <-> NoDup l.
Proof.
  split; [|intros; by apply size_list_to_set].
  induction l as [|x l IH]; [by constructor|]. simpl. intros Hs.
  assert (size (list_to_set l : gset A) <= length l)%nat as Hle.
  { clear. induction l as [|y l IH]; [by rewrite list_to_set_nil, size_empty|].
    rewrite list_to_set_cons, size_union_alt, size_singleton. simpl.
    assert (size (list_to_set l ∖ {[y]} : gset A) <= size (list_to_set l : gset A))%nat
      by (apply subseteq_size; set_solver). lia. }
  destruct (decide (x ∈ l)) as [Hin|Hin].
  - assert ({[x]} ∪ list_to_set l = (list_to_set l : gset A)) as Heq by set_solver.
    rewrite Heq in Hs. lia.
  - constructor; [done|]. apply IH.
    rewrite size_union, size_singleton in Hs by set_solver. lia.
Qed.

(** [validate_basic] accepts a block exactly when its hash is the
    hash of its content, the hash meets the difficulty (0 meaning no proof of
    work), the reward is the one of its transaction count, no two transactions
    have the same hash, and the timestamp is at most an hour ahead. *)
Theorem validate_basic_iff now b :
  validate_basic now b = Ok tt <->
  block_hash b = calculate_hash b /\
  (0 < difficulty (header b) -> meets_difficulty (block_hash b) (difficulty (header b)) = true) /\
  reward b = calculate_reward (length (transactions b)) /\
  NoDup (hash <$> transactions b) /\
  timestamp (header b) <= u64_add now 3600.
Proof.
  unfold validate_basic.
  rewrite <- size_list_to_set_NoDup, length_fmap.
  case_bool_decide as Hh; simpl; [|split; [done|tauto]].
  destruct ((0 <? difficulty (header b)) && negb _) eqn:Hpow.
  { split; [done|]. intros (_ & Hd & _). apply andb_true_iff in Hpow as [Hlt Hm].
    apply Z.ltb_lt in Hlt. by rewrite Hd in Hm. }
  assert (0 < difficulty (header b) ->
    meets_difficulty (block_hash b) (difficulty (header b)) = true) as Hd.
  { intros Hlt. apply Z.ltb_lt in Hlt. rewrite Hlt in Hpow. simpl in Hpow.
    by apply negb_false_iff in Hpow. }
  destruct (Z.eqb_spec (reward b) (calculate_reward (length (transactions b)))); simpl;
    [|split; [done|tauto]].
  destruct (Nat.eqb_spec (size (list_to_set (hash <$> transactions b) : gset Hash))
    (length (transactions b))); simpl; [|split; [done|tauto]].
  destruct (Z.ltb_spec (u64_add now 3600) (timestamp (header b))).
  - split; [done|]. lia.
  - split; [intros _|done]. auto 10.
Qed.

(** A block built by [new] without proof of work is accepted. *)
Lemma new_block_valid now ps ts txs n bf p sr :
  NoDup (hash <$> txs) -> ts <= u64_add now 3600 ->
  validate_basic now (new ps ts txs n 0 bf p sr) = Ok tt.
Proof.
  intros Hn Ht. apply validate_basic_iff. repeat split; auto.
Qed.

(** ** Consensus metadata *)

Lemma set_consensus_metadata_fields b sp s c t :
  let b' := set_consensus_metadata b sp s c t in
  parent_hashes (header b') = parent_hashes (header b) /\
  transactions b' = transactions b /\ selected_parent (header b') = sp /\
  blue_score (header b') = s /\ chain_height (header b') = c /\ height b' = c /\
  topo_index (header b') = t /\ difficulty (header b') = difficulty (header b) /\
  reward b' = reward b /\ producer b' = producer b /\ timestamp (header b') = timestamp (header b).
Proof. done. Qed.
End Block.

(** ** Witnesses *)

Definition sample_block : Block :=
  @new checksum_sha constant_exp [replicate 32 7] 1000 [sample_tx] 42 0 1
    (replicate 20 9) (replicate 32 0).

Lemma sample_block_wf : block_wf sample_block.
Proof.
  repeat split; try done; try (vm_compute; discriminate); repeat constructor.
Qed.

(** The same content with other signatures and under another claimed hash. *)
Definition resigned_block : Block :=
  {| block_hash := replicate 32 1; header := header sample_block;
     transactions := (fun tx => set_signature tx (Build_Signature Secp256k1 [1])) <$> transactions sample_block;
     producer := producer sample_block; reward := 0; height := 9 |}.
Lemma resigned_block_wf : block_wf resigned_block.
Proof. exact sample_block_wf. Qed.

Lemma block_hash_commits_witness :
  sample_block <> resigned_block /\
  (parent_hashes (header sample_block) = parent_hashes (header resigned_block) /\
   @hash checksum_sha <$> transactions sample_block = @hash checksum_sha <$> transactions resigned_block \/
   @sha256_collision checksum_sha
    [@block_preimage checksum_sha sample_block; @block_preimage checksum_sha resigned_block]).
Proof.
  split; [intros Heq; apply (f_equal height) in Heq; discriminate Heq|].
  destruct (@block_hash_commits checksum_sha checksum_laws sample_block resigned_block)
    as [(_ & _ & _ & _ & _ & _ & _ & _ & _ & _ & _ & _ & Hp)|Hc];
    [apply sample_block_wf|apply resigned_block_wf|vm_compute; reflexivity|left|right; exact Hc].
  apply Hp. left. reflexivity.
Defined.
