(* ===== verification/StateTree.v ===== *)
(** Accounts and the Merkle tree over them: [src/src/state/state_tree.rs]. *)
From S2P Require Import Prelude Crypto.

Record Account := {
  balance : Z;
  account_nonce : Z
}.

#[export] Instance Account_eq_dec : EqDecision Account.
Proof. solve_decision. Defined.

Definition Account_new (balance nonce : Z) : Account :=
  {| balance := balance; account_nonce := nonce |}.

Definition account_ok (a : Account) : Prop := is_u64 (balance a) /\ is_u64 (account_nonce a).

(** A node stores its hash; leaves carry a key and a value, internal nodes two
    children. *)
Inductive MerkleNode :=
  | Node (node_hash : Hash) (left right : option MerkleNode)
         (key : option Address) (value : option Account).

Definition node_hash (n : MerkleNode) : Hash := let 'Node h _ _ _ _ := n in h.
Definition is_leaf (n : MerkleNode) : bool :=
  let 'Node _ _ _ k v := n in
  match k, v with Some _, Some _ => true | _, _ => false end.

Record SparseMerkleTree := {
  root : option MerkleNode;
  leaves : gmap Address Account
}.

Definition SparseMerkleTree_new : SparseMerkleTree := {| root := None; leaves := ∅ |}.

Definition get_account (t : SparseMerkleTree) (address : Address) : option Account :=
  leaves t !! address.

Definition calculate_root (t : SparseMerkleTree) : Hash :=
  match root t with Some r => node_hash r | None => replicate 32 0 end.

Section StateTree.
Context `{Sha256} `{HashOrder}.

Definition account_hash (a : Account) : Hash :=
  sha256 (u64_to_le_bytes (balance a) ++ u64_to_le_bytes (account_nonce a)).

Definition new_leaf (key : Address) (value : Account) : MerkleNode :=
  Node (sha256 (key ++ account_hash value)) None None (Some key) (Some value).

Definition new_internal (left right : MerkleNode) : MerkleNode :=
  Node (sha256 (node_hash left ++ node_hash right)) (Some left) (Some right) None None.

(** One round of the [while nodes.len() > 1] loop: the nodes two by two, an odd
    last one is carried over. *)
Fixpoint pair_up (nodes : list MerkleNode) : list MerkleNode :=
  match nodes with
  | a :: b :: rest => new_internal a b :: pair_up rest
  | _ => nodes
  end.

Fixpoint merge_loop (fuel : nat) (nodes : list MerkleNode) : list MerkleNode :=
  match fuel with
  | O => nodes
  | S fuel' => if (1 <? length nodes)%nat then merge_loop fuel' (pair_up nodes) else nodes
  end.

Definition rebuild_tree (t : SparseMerkleTree) : SparseMerkleTree :=
  if decide (leaves t = ∅) then {| root := None; leaves := leaves t |}
  else
    let nodes := (fun kv => new_leaf kv.1 kv.2) <$> hm_iter (leaves t) in
    {| root := head (merge_loop (length nodes) nodes); leaves := leaves t |}.

Definition update_account (address : Address) (account : Account) (t : SparseMerkleTree)
    : SparseMerkleTree :=
  rebuild_tree {| root := root t; leaves := <[address := account]> (leaves t) |}.

(** [iter_accounts] folds over the leaves in table order. *)
Definition iter_accounts {A} (f : A -> Address -> Account -> A) (a : A) (t : SparseMerkleTree) : A :=
  foldl (fun acc kv => f acc kv.1 kv.2) a (hm_iter (leaves t)).

(** ** Structure of the tree *)

(** The accounts of the leaves from left to right. *)
Fixpoint leaf_list (n : MerkleNode) : list (Address * Account) :=
  let 'Node _ l r k v := n in
  match k, v with
  | Some k, Some v => [(k, v)]
  | _, _ =>
      match l with Some l => leaf_list l | None => [] end ++
      match r with Some r => leaf_list r | None => [] end
  end.

(** The byte strings hashed to compute the hashes of a node. *)
Definition account_preimage (a : Account) : Bytes :=
  u64_to_le_bytes (balance a) ++ u64_to_le_bytes (account_nonce a).
Fixpoint hash_inputs (n : MerkleNode) : list Bytes :=
  let 'Node _ l r k v := n in
  match k, v, l, r with
  | Some k, Some v, _, _ => [account_preimage v; k ++ account_hash v]
  | _, _, Some l, Some r => (node_hash l ++ node_hash r) :: hash_inputs l ++ hash_inputs r
  | _, _, _, _ => []
  end.
Definition tree_inputs (t : SparseMerkleTree) : list Bytes :=
  match root t with Some r => hash_inputs r | None => [] end.

(** Nodes built by the two constructors. *)
Inductive node_ok : MerkleNode -> Prop :=
  | leaf_ok k v : length k = 20%nat -> account_ok v -> node_ok (new_leaf k v)
  | internal_ok l r : node_ok l -> node_ok r -> node_ok (new_internal l r).

Lemma list_pair_ind (A : Type) (P : list A -> Prop) :
  P [] -> (forall a, P [a]) -> (forall a b l, P l -> P (a :: b :: l)) -> forall l, P l.
Proof.
  intros Hnil Hone Hmore. fix IH 1. intros [|a [|b l]]; [exact Hnil|apply Hone|apply Hmore, IH].
Qed.

Lemma pair_up_leaves nodes : pair_up nodes ≫= leaf_list = nodes ≫= leaf_list.
Proof.
  induction nodes as [|a|a b l IH] using list_pair_ind; [done..|].
  cbn. by rewrite IH, app_assoc.
Qed.

Lemma pair_up_ok nodes : Forall node_ok nodes -> Forall node_ok (pair_up nodes).
Proof.
  induction nodes as [|a|a b l IH] using list_pair_ind; [done..|].
  intros Hf. apply Forall_cons in Hf as [Ha Hf]. apply Forall_cons in Hf as [Hb Hl].
  simpl. constructor; [by constructor|auto].
Qed.

Lemma pair_up_length nodes :
  (1 < length nodes -> 1 <= length (pair_up nodes) < length nodes)%nat /\
  (length (pair_up nodes) <= length nodes)%nat.
Proof.
  induction nodes as [|a|a b l IH] using list_pair_ind; simpl in *; lia.
Qed.

Lemma merge_loop_spec fuel nodes :
  (length nodes <= fuel)%nat -> nodes <> [] -> Forall node_ok nodes ->
  exists n, merge_loop fuel nodes = [n] /\ node_ok n /\ leaf_list n = nodes ≫= leaf_list.
Proof.
  revert nodes. induction fuel as [|fuel IH]; intros nodes Hf Hne Hok.
  - destruct nodes; simpl in *; [done|lia].
  - simpl. destruct (Nat.ltb_spec 1 (length nodes)) as [Hlt|Hge].
    + pose proof (proj1 (pair_up_length nodes) Hlt).
      destruct (IH (pair_up nodes)) as (n & Hn & Hokn & Hl);
        [lia| |by apply pair_up_ok|].
      { intros E. rewrite E in *. simpl in *. lia. }
      exists n. by rewrite Hn, Hl, pair_up_leaves.
    + destruct nodes as [|n [|]]; simpl in *; [done| |lia].
      exists n. rewrite app_nil_r. apply Forall_cons in Hok. tauto.
Qed.

(** The accounts stored in the tree have well-formed keys and fields. *)
Definition leaves_ok (m : gmap Address Account) : Prop :=
  map_Forall (fun k v => length k = 20%nat /\ account_ok v) m.

(** The root mirrors the leaf table. *)
Definition tree_ok (t : SparseMerkleTree) : Prop :=
  leaves_ok (leaves t) /\
  match root t with
  | None => leaves t = ∅
  | Some r => leaves t <> ∅ /\ node_ok r /\ leaf_list r = hm_iter (leaves t)
  end.

Lemma tree_ok_new : tree_ok SparseMerkleTree_new.
Proof. split; [apply map_Forall_empty|done]. Qed.

Lemma leaf_nodes_list l :
  ((fun kv => new_leaf kv.1 kv.2) <$> l) ≫= leaf_list = l.
Proof. induction l as [|[k v] l IH]; [done|]. cbn. f_equal. exact IH. Qed.

Lemma rebuild_tree_ok t : leaves_ok (leaves t) -> tree_ok (rebuild_tree t).
Proof.
  intros Hl. unfold rebuild_tree. case_decide as He; [by split|].
  split; [done|]. cbn [root leaves].
  edestruct (merge_loop_spec (length ((fun kv => new_leaf kv.1 kv.2) <$> hm_iter (leaves t)))
    ((fun kv => new_leaf kv.1 kv.2) <$> hm_iter (leaves t))) as (n & Hn & Hok & Hll).
  - done.
  - intros E. apply fmap_nil_inv in E. pose proof (hm_iter_perm _ _ (leaves t)) as Hp.
    rewrite E in Hp. apply Permutation_nil, map_to_list_empty_iff in Hp. done.
  - apply Forall_fmap, Forall_forall. intros [k v] Hin%elem_of_hm_iter; simpl.
    apply Hl in Hin as [? ?]. by constructor.
  - rewrite Hn. simpl. by rewrite Hll, leaf_nodes_list.
Qed.

Lemma update_tree_ok a acc t :
  length a = 20%nat -> account_ok acc -> tree_ok t ->
  tree_ok (update_account a acc t) /\
  leaves (update_account a acc t) = <[a := acc]> (leaves t) /\
  is_Some (root (update_account a acc t)).
Proof.
  intros Ha Hacc [Hl _].
  assert (tree_ok (update_account a acc t)) as Hok.
  { apply rebuild_tree_ok. simpl. apply map_Forall_insert_2; [done|done]. }
  assert (leaves (update_account a acc t) = <[a := acc]> (leaves t)) as Hlv.
  { unfold update_account, rebuild_tree. by case_decide. }
  split; [done|]. split; [done|].
  destruct Hok as [_ Hr]. destruct (root _); [by eexists|].
  rewrite Hlv in Hr. by apply insert_non_empty in Hr.
Qed.

(** Updating an account keeps the tree well formed: the new root is
    built from exactly the updated account table (each account once, in table
    order, with correctly computed hashes), whatever the tree was before. *)
Theorem update_account_ok a acc t :
  length a = 20%nat -> account_ok acc -> tree_ok t ->
  tree_ok (update_account a acc t) /\ is_Some (root (update_account a acc t)) /\
  forall a', get_account (update_account a acc t) a' =
    if decide (a = a') then Some acc else get_account t a'.
Proof.
  intros Ha Hacc Ht. destruct (update_tree_ok a acc t Ha Hacc Ht) as (Hok & Hl & Hr).
  split; [exact Hok|]. split; [exact Hr|]. intros a'. unfold get_account. rewrite Hl.
  case_decide as Hd; [by subst; apply lookup_insert_eq|by apply lookup_insert_ne].
Qed.

Lemma update_account_leaves a acc t :
  leaves (update_account a acc t) = <[a := acc]> (leaves t).
Proof. unfold update_account, rebuild_tree. by case_decide. Qed.

Lemma get_update_account a a' acc t :
  get_account (update_account a acc t) a' =
    if decide (a = a') then Some acc else get_account t a'.
Proof. unfold get_account. by rewrite update_account_leaves, lookup_insert. Qed.

(** ** The root commits to the accounts *)

Lemma account_hash_inj `{!Sha256Laws} a b :
  account_ok a -> account_ok b -> account_hash a = account_hash b ->
  a = b \/ sha256_collision [account_preimage a; account_preimage b].
Proof.
  unfold account_hash. fold (account_preimage a) (account_preimage b). intros [Ha1 Ha2] [Hb1 Hb2] Heq. apply sha256_inj_or_collision in Heq as [Heq|]; [|by right].
  left. unfold account_preimage in Heq. apply app_inv_length in Heq as [E1 E2];
    [|unfold u64_to_le_bytes; by rewrite !le_bytes_length].
  apply u64_to_le_bytes_inj in E1, E2; [|done..].
  destruct a, b; simpl in *; congruence.
Qed.

Lemma node_hash_length `{!Sha256Laws} n : node_ok n -> length (node_hash n) = 32%nat.
Proof. destruct 1; simpl; apply sha256_length. Qed.

Lemma node_hash_binding `{!Sha256Laws} n n' :
  node_ok n -> node_ok n' -> node_hash n = node_hash n' ->
  leaf_list n = leaf_list n' \/ sha256_collision (hash_inputs n ++ hash_inputs n').
Proof.
  intros Hn. revert n'. induction Hn as [k v Hk Hv|l r Hl IHl Hr IHr]; intros n' Hn' Heq;
    destruct Hn' as [k' v' Hk' Hv'|l' r' Hl' Hr']; simpl in Heq;
    apply sha256_inj_or_collision in Heq as [Heq|Hc];
    try (collide Hc).
  - apply app_inv_length in Heq as [-> Heq]; [|lia].
    apply account_hash_inj in Heq as [->|Hc]; [by left| |done..].
    collide Hc.
  - apply (f_equal length) in Heq. rewrite !length_app, !node_hash_length in Heq by done.
    unfold account_hash in Heq. rewrite sha256_length in Heq. lia.
  - apply (f_equal length) in Heq. rewrite !length_app, !node_hash_length in Heq by done.
    unfold account_hash in Heq. rewrite sha256_length in Heq. lia.
  - apply app_inv_length in Heq as [E1 E2]; [|by rewrite !node_hash_length].
    destruct (IHl _ Hl' E1) as [El|Hc];
      [|collide Hc].
    destruct (IHr _ Hr' E2) as [Er|Hc];
      [|collide Hc].
    left. simpl. by rewrite El, Er.
Qed.

Lemma root_determines_leaves `{!Sha256Laws} t t' :
  tree_ok t -> tree_ok t' -> leaves t <> ∅ -> leaves t' <> ∅ ->
  calculate_root t = calculate_root t' ->
  leaves t = leaves t' \/ sha256_collision (tree_inputs t ++ tree_inputs t').
Proof.
  intros [_ Ht] [_ Ht'] Hne Hne' Heq. unfold calculate_root in Heq.
  unfold tree_inputs.
  destruct (root t) as [r|]; [|done]. destruct (root t') as [r'|]; [|done].
  destruct Ht as (_ & Hok & Hl), Ht' as (_ & Hok' & Hl').
  destruct (node_hash_binding r r' Hok Hok' Heq) as [E|]; [left|by right].
  rewrite Hl, Hl' in E.
  rewrite <- (list_to_map_to_list (leaves t)), <- (list_to_map_to_list (leaves t')).
  rewrite <- (list_to_map_proper (hm_iter (leaves t)) (map_to_list (leaves t)));
    [|apply NoDup_hm_iter_fst|apply hm_iter_perm].
  rewrite E.
  apply list_to_map_proper; [apply NoDup_hm_iter_fst|apply hm_iter_perm].
Qed.

(** C9: the state root commits to the accounts: two well-formed non-empty
    trees with the same root hold the same account table, or two different byte
    strings hashed while building the two trees collide under SHA-256. *)
Theorem state_root_binding `{!Sha256Laws} t t' :
  tree_ok t -> tree_ok t' -> leaves t <> ∅ -> leaves t' <> ∅ ->
  calculate_root t = calculate_root t' ->
  leaves t = leaves t' \/ sha256_collision (tree_inputs t ++ tree_inputs t').
Proof. apply root_determines_leaves. Qed.
End StateTree.

(** ** Witnesses and the order of the leaves *)

Definition sample_tree `{Sha256} `{HashOrder} : SparseMerkleTree :=
  update_account (replicate 20 2) (Account_new 7 1)
    (update_account (replicate 20 1) (Account_new 5 0) SparseMerkleTree_new).

(** The state root depends on the iteration order of the hash table:
    two nodes that hold the same two accounts compute different roots when
    their tables iterate in opposite orders. *)
Theorem state_root_order_dependent :
  let t1 := @sample_tree checksum_sha canonical_order in
  let t2 := @sample_tree checksum_sha reverse_order in
  leaves t1 = leaves t2 /\ calculate_root t1 <> calculate_root t2.
Proof. split; [vm_compute; reflexivity | vm_compute; discriminate]. Qed.

Lemma sample_tree_ok : @tree_ok checksum_sha canonical_order (@sample_tree checksum_sha canonical_order).
Proof.
  unfold sample_tree.
  repeat (apply (@update_tree_ok checksum_sha canonical_order);
    [done|split; vm_compute; split; discriminate|]).
  apply tree_ok_new.
Qed.

Lemma sample_tree_nonempty : leaves (@sample_tree checksum_sha canonical_order) <> ∅.
Proof. unfold sample_tree. rewrite update_account_leaves. apply insert_non_empty. Qed.

Lemma update_account_ok_witness :
  let t := @sample_tree checksum_sha canonical_order in
  let t' := @update_account checksum_sha canonical_order (replicate 20 3) (Account_new 9 0) t in
  @tree_ok checksum_sha canonical_order t' /\ is_Some (root t') /\
  forall a', get_account t' a' = if decide (replicate 20 3 = a') then Some (Account_new 9 0) else get_account t a'.
Proof.
  apply (@update_account_ok checksum_sha canonical_order (replicate 20 3) (Account_new 9 0)
    (@sample_tree checksum_sha canonical_order));
    [reflexivity | split; vm_compute; split; discriminate | apply sample_tree_ok].
Defined.

Lemma state_root_binding_witness :
  leaves (@sample_tree checksum_sha canonical_order) =
  leaves (@sample_tree checksum_sha canonical_order) \/
  @sha256_collision checksum_sha
    (@tree_inputs checksum_sha (@sample_tree checksum_sha canonical_order) ++
     @tree_inputs checksum_sha (@sample_tree checksum_sha canonical_order)).
Proof.
  exact (@state_root_binding checksum_sha canonical_order checksum_laws _ _
    sample_tree_ok sample_tree_ok sample_tree_nonempty sample_tree_nonempty eq_refl).
Defined.
