(* ===== verification/StateManager.v ===== *)
(** Balances, nonces, fees and supply: [src/src/state/state_manager.rs].

    [snapshot_and_prune] delegates to the pruner and is modelled there. *)
From S2P Require Import Prelude Crypto Transaction Mining Block StateTree.

Definition GENESIS_WALLET : Address := replicate 20 1.
Definition EMISSION_STATE_ACCOUNT : Address := replicate 20 255.

Record StateManager := {
  state_tree : SparseMerkleTree;
  current_state_root : Hash
}.

Section StateManager.
Context `{Sha256} `{HashOrder}.

(** [update_account] followed by refreshing the root, the way every operation
    ends; [put_account] is the bare update. *)
Definition put_account (a : Address) (acc : Account) (st : StateManager) : StateManager :=
  {| state_tree := update_account a acc (state_tree st);
     current_state_root := current_state_root st |}.
Definition refresh_root (st : StateManager) : StateManager :=
  {| state_tree := state_tree st; current_state_root := calculate_root (state_tree st) |}.

Definition account_or_zero (st : StateManager) (a : Address) : Account :=
  default (Account_new 0 0) (get_account (state_tree st) a).

Definition new : StateManager :=
  let t := update_account GENESIS_WALLET (Account_new 0 0) SparseMerkleTree_new in
  let t := update_account EMISSION_STATE_ACCOUNT (Account_new 0 0) t in
  {| state_tree := t; current_state_root := calculate_root t |}.

(** [if get_account(a).is_none() { update_account(a, Account::new(0, 0)) }]. *)
Definition ensure_account (a : Address) (st : StateManager) : StateManager :=
  match get_account (state_tree st) a with
  | None => put_account a (Account_new 0 0) st
  | Some _ => st
  end.

Definition initialize_tokenomics (st : StateManager) : StateManager :=
  let st := ensure_account GENESIS_WALLET st in
  let genesis_account := account_or_zero st GENESIS_WALLET in
  let st := if balance genesis_account =? 0
            then put_account GENESIS_WALLET
                   (Account_new 100000000 (account_nonce genesis_account)) st
            else st in
  refresh_root (ensure_account EMISSION_STATE_ACCOUNT st).

Definition get_emitted_supply (st : StateManager) : Z :=
  match get_account (state_tree st) EMISSION_STATE_ACCOUNT with
  | Some acc => balance acc
  | None => 0
  end.

Definition add_emitted_supply (amount : Z) (st : StateManager) : StateManager :=
  if amount =? 0 then st
  else
    let acc := account_or_zero st EMISSION_STATE_ACCOUNT in
    let remaining := saturating_sub CTS_MINING_SUPPLY (balance acc) in
    if remaining =? 0 then st
    else
      let to_add := Z.min amount remaining in
      refresh_root
        (put_account EMISSION_STATE_ACCOUNT
           (Account_new (saturating_add (balance acc) to_add) (account_nonce acc)) st).

Definition get_total_supply (st : StateManager) : Z :=
  iter_accounts
    (fun total addr account =>
       if decide (addr = EMISSION_STATE_ACCOUNT) then total
       else saturating_add total (balance account))
    0 (state_tree st).

Definition apply_transfer (from to : Address) (amount nonce fee : Z) : M StateManager unit :=
  fun st =>
  if amount =? 0 then (err "Amount must be greater than 0", st)
  else
    let sender_account := account_or_zero st from in
    if negb (account_nonce sender_account =? nonce) then
      (errorf "Invalid nonce: expected {}, got {}"
         [ArgNum (account_nonce sender_account); ArgNum nonce], st)
    else
      let total_cost := saturating_add amount fee in
      if balance sender_account <? total_cost
      then (err "Insufficient balance for amount and fee", st)
      else
        let st := put_account from
          (Account_new (u64_sub (balance sender_account) total_cost)
             (u64_add (account_nonce sender_account) 1)) st in
        let receiver_account := account_or_zero st to in
        let st := put_account to
          (Account_new (u64_add (balance receiver_account) amount)
             (account_nonce receiver_account)) st in
        (Ok tt, refresh_root st).

Definition apply_transaction (tx : Transaction) : M StateManager unit :=
  let fee := saturating_mul (gas_limit tx) (gas_price tx) in
  match payload tx with
  | Transfer to amount => apply_transfer (from tx) to amount (nonce tx) fee
  | _ => mret tt
  end.

Definition apply_block (_transactions : list Transaction) : M StateManager unit := mret tt.

Definition get_state_root (st : StateManager) : Hash := current_state_root st.

Definition get_balance (st : StateManager) (addr : Address) : Z :=
  match get_account (state_tree st) addr with Some acc => balance acc | None => 0 end.

Definition deduct_fee (from : Address) (fee : Z) : M StateManager unit := fun st =>
  if fee =? 0 then (Ok tt, st)
  else
    let account := account_or_zero st from in
    if balance account <? fee then (err "Insufficient balance for fee", st)
    else
      (Ok tt, refresh_root
         (put_account from (Account_new (u64_sub (balance account) fee) (account_nonce account)) st)).

Definition credit_account (to : Address) (amount : Z) : M StateManager unit := fun st =>
  if amount =? 0 then (Ok tt, st)
  else
    let current_supply := get_total_supply st in
    if CTS_MAX_SUPPLY <? saturating_add current_supply amount
    then (err "Cannot mint beyond maximum supply", st)
    else
      let account := account_or_zero st to in
      (Ok tt, refresh_root
         (put_account to (Account_new (u64_add (balance account) amount) (account_nonce account)) st)).

Definition manager_get_account (st : StateManager) (a : Address) : option Account :=
  get_account (state_tree st) a.

Definition get_active_account_count (st : StateManager) : Z :=
  iter_accounts
    (fun count _ account => if 0 <? balance account then u64_add count 1 else count)
    0 (state_tree st).

Definition rebuild_from_blocks (blocks : list Block) : M StateManager unit := fun st =>
  let st := {| state_tree := SparseMerkleTree_new;
               current_state_root := calculate_root SparseMerkleTree_new |} in
  for_each blocks (fun block => for_each (transactions block) apply_transaction) st.

(** ** Totals *)

(** The sum of all balances, the emission counter included. *)
Definition total_balance (m : gmap Address Account) : Z :=
  map_fold (fun _ a s => balance a + s) 0 m.

Definition balance_of (m : gmap Address Account) (a : Address) : Z :=
  match m !! a with Some acc => balance acc | None => 0 end.

Lemma total_balance_insert_new m k a :
  m !! k = None -> total_balance (<[k := a]> m) = balance a + total_balance m.
Proof.
  intros Hk. unfold total_balance.
  rewrite (map_fold_insert_L (fun _ a s => balance a + s) 0 k a m); [done| |done].
  intros; lia.
Qed.

Lemma total_balance_insert m k a :
  total_balance (<[k := a]> m) = total_balance m - balance_of m k + balance a.
Proof.
  unfold balance_of. destruct (m !! k) as [b|] eqn:Hk.
  - pose proof (total_balance_insert_new (delete k m) k b (lookup_delete_eq m k)) as Hb.
    pose proof (total_balance_insert_new (delete k m) k a (lookup_delete_eq m k)) as Ha.
    rewrite insert_delete_id in Hb by done. rewrite insert_delete_eq in Ha. lia.
  - rewrite total_balance_insert_new by done. lia.
Qed.

Lemma total_balance_nonneg m : leaves_ok m -> 0 <= total_balance m.
Proof.
  unfold leaves_ok. induction m as [|k a m Hk IH] using map_ind; [done|]. intros Hok.
  apply map_Forall_insert in Hok as [[_ [Hb _]] Hok]; [|done].
  rewrite total_balance_insert_new by done. specialize (IH Hok).
  unfold is_u64 in Hb. lia.
Qed.

Lemma balance_of_le_total m k : leaves_ok m -> 0 <= balance_of m k <= total_balance m.
Proof.
  intros Hok. unfold balance_of. destruct (m !! k) as [b|] eqn:Hk;
    [|pose proof (total_balance_nonneg m Hok); lia].
  rewrite <- (insert_delete_id m k b) by done.
  rewrite total_balance_insert_new by apply lookup_delete_eq.
  assert (0 <= total_balance (delete k m)).
  { apply total_balance_nonneg, map_Forall_delete, Hok. }
  apply Hok in Hk as [_ [Hb _]]. unfold is_u64 in Hb. lia.
Qed.

Lemma balance_of_two m k1 k2 :
  leaves_ok m -> k1 <> k2 -> balance_of m k1 + balance_of m k2 <= total_balance m.
Proof.
  intros Hok Hne.
  pose proof (total_balance_insert m k1 (Account_new 0 0)) as Ht. simpl in Ht.
  assert (leaves_ok (<[k1 := Account_new 0 0]> m) \/ m !! k1 = None) as [Hok'|Hn].
  { destruct (m !! k1) as [b|] eqn:Hk1; [left|by right].
    apply map_Forall_insert_2; [|done]. apply Hok in Hk1 as [? _].
    split; [done|]. repeat split; unfold u64_max; simpl; lia. }
  - pose proof (balance_of_le_total _ k2 Hok') as Hle. unfold balance_of at 2 in Hle.
    unfold balance_of at 1 in Hle. rewrite lookup_insert_ne in Hle by done.
    unfold balance_of in *. lia.
  - unfold balance_of at 1. rewrite Hn. pose proof (balance_of_le_total m k2 Hok). lia.
Qed.

(** The state of the manager in terms of its account table. *)
Definition accounts (st : StateManager) : gmap Address Account := leaves (state_tree st).

Definition state_ok (st : StateManager) : Prop :=
  tree_ok (state_tree st) /\ current_state_root st = calculate_root (state_tree st).

Lemma put_account_accounts a acc st :
  accounts (put_account a acc st) = <[a := acc]> (accounts st).
Proof. apply update_account_leaves. Qed.
Lemma refresh_root_accounts st : accounts (refresh_root st) = accounts st.
Proof. done. Qed.
Lemma account_or_zero_balance st a : balance (account_or_zero st a) = balance_of (accounts st) a.
Proof. unfold account_or_zero, balance_of, get_account, accounts. by destruct (_ !! _). Qed.

Lemma account_or_zero_ok st a : leaves_ok (accounts st) -> account_ok (account_or_zero st a).
Proof.
  intros Hok. unfold account_or_zero, get_account.
  destruct (leaves (state_tree st) !! a) as [acc|] eqn:E; simpl.
  - by apply Hok in E as [_ ?].
  - repeat split; unfold u64_max; simpl; lia.
Qed.

Lemma put_account_tree_ok a acc st :
  length a = 20%nat -> account_ok acc -> tree_ok (state_tree st) ->
  tree_ok (state_tree (put_account a acc st)).
Proof. intros. by apply update_tree_ok. Qed.

Lemma refresh_state_ok st : tree_ok (state_tree st) -> state_ok (refresh_root st).
Proof. by split. Qed.

Lemma balance_of_insert m k a k' :
  balance_of (<[k := a]> m) k' = if decide (k = k') then balance a else balance_of m k'.
Proof. unfold balance_of. rewrite lookup_insert. by case_decide. Qed.

Lemma get_balance_accounts st a : get_balance st a = balance_of (accounts st) a.
Proof. done. Qed.
Lemma get_emitted_accounts st :
  get_emitted_supply st = balance_of (accounts st) EMISSION_STATE_ACCOUNT.
Proof. done. Qed.

(** The folds of the code do not depend on the order of the table. *)
Lemma foldl_saturating_supply (l : list (Address * Account)) s :
  0 <= s <= u64_max -> Forall (fun kv => 0 <= balance kv.2) l ->
  foldl (fun total kv => if decide (kv.1 = EMISSION_STATE_ACCOUNT) then total
                         else saturating_add total (balance kv.2)) s l =
  Z.min u64_max
    (s + foldr (fun kv t => (if decide (kv.1 = EMISSION_STATE_ACCOUNT) then 0 else balance kv.2) + t)
       0 l).
Proof.
  revert s. induction l as [|[k a] l IH]; intros s Hs Hl; simpl.
  { lia. }
  apply Forall_cons in Hl as [Ha Hl]; simpl in Ha.
  assert (0 <= foldr (fun kv t => (if decide (kv.1 = EMISSION_STATE_ACCOUNT) then 0
    else balance kv.2) + t) 0 l).
  { clear IH. induction Hl as [|[k' a'] l Ha' _ IH']; simpl in *; [done|]. case_decide; lia. }
  case_decide.
  - rewrite IH by done. f_equal.
  - rewrite IH; [|unfold saturating_add, u64_max in *; lia|done].
    unfold saturating_add, u64_max in *. lia.
Qed.

(** [get_total_supply] is the sum of all balances except the emission
    counter, cut off at [u64::MAX], in whatever order the table iterates. *)
Theorem get_total_supply_spec st :
  state_ok st ->
  get_total_supply st =
  Z.min u64_max (total_balance (accounts st) - get_emitted_supply st).
Proof.
  intros [[Hok _] _]. unfold get_total_supply, iter_accounts.
  set (f := fun (kv : Address * Account) (t : Z) =>
    (if decide (kv.1 = EMISSION_STATE_ACCOUNT) then 0 else balance kv.2) + t).
  assert (Forall (fun kv : Address * Account => 0 <= balance kv.2)
    (hm_iter (leaves (state_tree st)))) as Hnn.
  { apply Forall_forall. intros [k a] Hin%elem_of_hm_iter. by apply Hok in Hin as [_ [[? _] _]]. }
  rewrite foldl_saturating_supply by (unfold u64_max; done || lia). f_equal. simpl.
  fold f.
  assert (forall a1 a2 t, f a1 (f a2 t) = f a2 (f a1 t)) as Hcomm
    by (intros; unfold f; repeat case_decide; lia).
  rewrite (foldr_permutation_proper eq f 0 Hcomm _ _ (hm_iter_perm _ _ _)).
  rewrite get_emitted_accounts, Z.add_0_l. unfold accounts. clear Hok Hnn.
  generalize (leaves (state_tree st)) as m. clear st.
  intros m. induction m as [|k a m Hk IH] using map_ind.
  { by rewrite map_to_list_empty. }
  rewrite (foldr_permutation_proper eq f 0 Hcomm _ _ (map_to_list_insert m k a Hk)).
  simpl. rewrite IH.
  rewrite total_balance_insert_new, balance_of_insert by done.
  unfold f; simpl. case_decide; [subst|lia].
  unfold balance_of. rewrite Hk. lia.
Qed.

(** ** Transfers *)

(** What a transfer needs: a positive amount, the sender's current nonce and
    the funds for the amount and the fee. *)
Definition transfer_allowed (m : gmap Address Account) (from : Address) (amount nonce cost : Z) : Prop :=
  amount <> 0 /\ account_nonce (default (Account_new 0 0) (m !! from)) = nonce /\
  cost <= balance_of m from.

Lemma apply_transfer_cases from to amount nonce fee st :
  let cost := saturating_add amount fee in
  let s := account_or_zero st from in
  let m' := <[from := Account_new (u64_sub (balance s) cost) (u64_add (account_nonce s) 1)]>
              (accounts st) in
  (exists e, apply_transfer from to amount nonce fee st = (Err e, st) /\
     ~ transfer_allowed (accounts st) from amount nonce cost) \/
  (transfer_allowed (accounts st) from amount nonce cost /\
   exists st', apply_transfer from to amount nonce fee st = (Ok tt, st') /\
     accounts st' =
       <[to := Account_new (u64_add (balance_of m' to) amount)
                 (account_nonce (default (Account_new 0 0) (m' !! to)))]> m' /\
     (tree_ok (state_tree st) -> length from = 20%nat -> length to = 20%nat ->
      account_ok (account_or_zero st from) -> state_ok st')).
Proof.
  intros cost s m'. unfold apply_transfer, transfer_allowed, err, errorf. fold s cost.
  rewrite <- account_or_zero_balance. fold s.
  destruct (Z.eqb_spec amount 0) as [->|Ha]; [left; eexists; split; [done|tauto]|].
  change (default (Account_new 0 0) (accounts st !! from)) with s.
  destruct (Z.eqb_spec (account_nonce s) nonce) as [Hn|Hn]; simpl;
    [|left; eexists; split; [done|tauto]].
  destruct (Z.ltb_spec (balance s) cost); [left; eexists; split; [done|lia]|].
  right. split; [done|]. eexists. split; [reflexivity|].
  set (st1 := put_account from _ st).
  assert (accounts st1 = m') as Hm' by apply put_account_accounts.
  split.
  - rewrite refresh_root_accounts, put_account_accounts.
    rewrite account_or_zero_balance, Hm'. f_equal. f_equal.
    unfold account_or_zero, get_account. fold (accounts st1). by rewrite Hm'.
  - intros Hok Hf Ht Hs. apply refresh_state_ok.
    assert (tree_ok (state_tree st1)) as Hok1.
    { apply put_account_tree_ok; [done| |done].
      split; simpl; unfold u64_sub, u64_add; auto with machine. }
    apply put_account_tree_ok; [done| |done]. split; simpl; [unfold u64_add; auto with machine|].
    by destruct (account_or_zero_ok st1 to (proj1 Hok1)).
Qed.

(** The two updates of a transfer on the balances and the nonces. *)
Lemma transfer_effect m from to amount cost :
  leaves_ok m -> total_balance m < u64_max -> 0 < amount <= cost -> cost <= balance_of m from ->
  let s := default (Account_new 0 0) (m !! from) in
  let m1 := <[from := Account_new (u64_sub (balance s) cost) (u64_add (account_nonce s) 1)]> m in
  let m2 := <[to := Account_new (u64_add (balance_of m1 to) amount)
                      (account_nonce (default (Account_new 0 0) (m1 !! to)))]> m1 in
  (forall a, balance_of m2 a = balance_of m a - (if decide (from = a) then cost else 0)
                               + (if decide (to = a) then amount else 0)) /\
  (forall a, account_nonce (default (Account_new 0 0) (m2 !! a)) =
     if decide (from = a) then u64_add (account_nonce s) 1
     else account_nonce (default (Account_new 0 0) (m !! a))) /\
  total_balance m2 = total_balance m - cost + amount.
Proof.
  intros Hok Htot Ha Hc s m1 m2.
  assert (balance s = balance_of m from) as Hs by (unfold s, balance_of; by destruct (m !! from)).
  pose proof (balance_of_le_total m from Hok) as Hbf.
  assert (u64_sub (balance s) cost = balance_of m from - cost) as Hsub.
  { rewrite Hs. apply u64_sub_small. lia. }
  assert (balance_of m1 to = balance_of m to - (if decide (from = to) then cost else 0)) as Hb1.
  { unfold m1. rewrite balance_of_insert. simpl. rewrite Hsub. case_decide; subst; lia. }
  assert (0 <= balance_of m1 to /\ balance_of m1 to + amount <= total_balance m) as Hb2.
  { rewrite Hb1. pose proof (balance_of_le_total m to Hok). case_decide; [subst; lia|].
    pose proof (balance_of_two m from to Hok ltac:(done)). lia. }
  assert (u64_add (balance_of m1 to) amount = balance_of m1 to + amount) as Hadd
    by (apply u64_add_small; lia).
  split; [|split].
  - intros a. unfold m2. rewrite balance_of_insert. simpl. rewrite Hadd, Hb1.
    unfold m1. rewrite balance_of_insert. simpl. rewrite Hsub.
    repeat case_decide; subst; done || lia.
  - intros a. unfold m2, m1. rewrite !lookup_insert.
    repeat case_decide; subst; simpl; done.
  - unfold m2. rewrite total_balance_insert. simpl. rewrite Hadd.
    unfold m1. rewrite total_balance_insert. simpl. rewrite Hsub. lia.
Qed.

Definition fee_of (tx : Transaction) : Z := gas_limit tx * gas_price tx.

Lemma saturating_cost tx amount b :
  0 <= amount -> is_u64 (gas_limit tx) -> is_u64 (gas_price tx) -> b < u64_max ->
  saturating_add amount (saturating_mul (gas_limit tx) (gas_price tx)) <= b <->
  amount + fee_of tx <= b.
Proof.
  intros Ha Hl Hp Hb. unfold fee_of.
  assert (0 <= gas_limit tx * gas_price tx) by (unfold is_u64 in *; nia). machine.
Qed.
Lemma saturating_cost_eq tx amount b :
  0 <= amount -> is_u64 (gas_limit tx) -> is_u64 (gas_price tx) -> b < u64_max ->
  amount + fee_of tx <= b ->
  saturating_add amount (saturating_mul (gas_limit tx) (gas_price tx)) = amount + fee_of tx.
Proof.
  intros Ha Hl Hp Hb. unfold fee_of.
  assert (0 <= gas_limit tx * gas_price tx) by (unfold is_u64 in *; nia). machine.
Qed.

Lemma transfer_spec st tx to amount :
  state_ok st -> tx_wf tx -> payload tx = Transfer to amount ->
  total_balance (accounts st) < u64_max ->
  let '(r, st') := apply_transaction tx st in
  (r = Ok tt <->
     transfer_allowed (accounts st) (from tx) amount (nonce tx) (amount + fee_of tx)) /\
  (r <> Ok tt -> st' = st) /\
  (r = Ok tt ->
     state_ok st' /\
     (forall a, get_balance st' a = get_balance st a
        - (if decide (from tx = a) then amount + fee_of tx else 0)
        + (if decide (to = a) then amount else 0)) /\
     (forall a, account_nonce (account_or_zero st' a) =
        if decide (from tx = a) then u64_add (nonce tx) 1
        else account_nonce (account_or_zero st a)) /\
     total_balance (accounts st') = total_balance (accounts st) - fee_of tx).
Proof.
  intros [Hok Hroot] (Hf & Hp & Hn & Hl & Hg) Hpl Htot.
  rewrite Hpl in Hp. destruct Hp as [Hto Ham]. unfold apply_transaction. rewrite Hpl.
  pose proof (proj1 Hok) as Hlv. fold (accounts st) in Hlv.
  pose proof (balance_of_le_total (accounts st) (from tx) Hlv) as Hbl.
  pose proof (saturating_cost tx amount (balance_of (accounts st) (from tx))
    (proj1 Ham) Hl Hg ltac:(lia)) as Hcost.
  assert (0 <= fee_of tx) by (unfold fee_of, is_u64 in *; nia).
  destruct (apply_transfer_cases (from tx) to amount (nonce tx)
    (saturating_mul (gas_limit tx) (gas_price tx)) st) as [(e & -> & Hna)|(Hal & st' & -> & Hm & Hst')].
  - split; [|split; [done|done]]. split; [done|]. intros (? & ? & ?).
    exfalso. apply Hna. repeat split; [done..|]. by apply Hcost.
  - destruct Hal as (Ha0 & Hnon & Hle). pose proof (proj1 Hcost Hle) as Hle'.
    pose proof (saturating_cost_eq tx amount (balance_of (accounts st) (from tx))
      (proj1 Ham) Hl Hg ltac:(lia) Hle') as Heq.
    split; [split; [by repeat split|done]|]. split; [done|]. intros _.
    destruct (transfer_effect (accounts st) (from tx) to amount (amount + fee_of tx) Hlv Htot)
      as (Hbal & Hnonce & Htotal); [unfold is_u64 in Ham; lia|done|].
    rewrite Heq in Hm.
    split; [apply Hst'; [done..|by apply account_or_zero_ok]|].
    split; [intros a; rewrite !get_balance_accounts, Hm; apply Hbal|].
    split; [intros a; unfold account_or_zero, get_account; fold (accounts st') (accounts st);
            rewrite Hm, <- Hnon; apply Hnonce|].
    rewrite Hm. etransitivity; [apply Htotal|lia].
Qed.

(** C30: a transfer succeeds exactly when its amount is positive, its
    nonce is the sender's and the sender can pay the amount and the full gas
    limit; then the sender pays both, the receiver gets the amount (sender and
    receiver may be the same), the sender's nonce advances, no other account
    changes, and the fee leaves circulation. A transfer that fails leaves the
    state as it was. *)
Theorem apply_transaction_transfer st tx to amount :
  state_ok st -> tx_wf tx -> payload tx = Transfer to amount ->
  total_balance (accounts st) < u64_max ->
  let '(r, st') := apply_transaction tx st in
  (r = Ok tt <->
     transfer_allowed (accounts st) (from tx) amount (nonce tx) (amount + fee_of tx)) /\
  (r <> Ok tt -> st' = st) /\
  (r = Ok tt ->
     state_ok st' /\
     (forall a, get_balance st' a = get_balance st a
        - (if decide (from tx = a) then amount + fee_of tx else 0)
        + (if decide (to = a) then amount else 0)) /\
     (forall a, account_nonce (account_or_zero st' a) =
        if decide (from tx = a) then u64_add (nonce tx) 1
        else account_nonce (account_or_zero st a)) /\
     total_balance (accounts st') = total_balance (accounts st) - fee_of tx).
Proof.
  intros Hok Hwf Hpl Htot. pose proof (transfer_spec st tx to amount Hok Hwf Hpl Htot) as Hc.
  destruct (apply_transaction tx st) as [r st']. exact Hc.
Qed.

(** ** Fees, credits and the supply cap *)

(** The circulating supply: all balances but the emission counter. *)
Definition supply (st : StateManager) : Z :=
  total_balance (accounts st) - get_emitted_supply st.

Lemma put_refresh_ok a acc st :
  state_ok st -> length a = 20%nat -> account_ok acc ->
  state_ok (refresh_root (put_account a acc st)).
Proof. intros [Hok _] ? ?. apply refresh_state_ok. by apply put_account_tree_ok. Qed.

Lemma put_supply a acc st :
  a <> EMISSION_STATE_ACCOUNT ->
  supply (refresh_root (put_account a acc st))
    = supply st - get_balance st a + balance acc /\
  get_emitted_supply (refresh_root (put_account a acc st)) = get_emitted_supply st.
Proof.
  intros Ha. unfold supply.
  rewrite !get_emitted_accounts, !refresh_root_accounts, !put_account_accounts.
  rewrite total_balance_insert, balance_of_insert, decide_False by done.
  split; [|done]. unfold get_balance, balance_of, accounts, get_account. lia.
Qed.

Lemma supply_nonneg st a :
  state_ok st -> a <> EMISSION_STATE_ACCOUNT -> 0 <= get_balance st a <= supply st.
Proof.
  intros [[Hok _] _] Ha. unfold supply. rewrite get_emitted_accounts, get_balance_accounts.
  pose proof (balance_of_two (accounts st) a EMISSION_STATE_ACCOUNT Hok Ha).
  pose proof (balance_of_le_total (accounts st) a Hok). lia.
Qed.

(** Crediting succeeds exactly when the circulating supply stays
    within [CTS_MAX_SUPPLY] (or there is nothing to credit); it then adds
    exactly the amount to the account and to the supply, and otherwise changes
    nothing. *)
Theorem credit_account_spec st to amount :
  state_ok st -> supply st <= u64_max -> length to = 20%nat ->
  to <> EMISSION_STATE_ACCOUNT -> is_u64 amount ->
  let '(r, st') := credit_account to amount st in
  (r = Ok tt <-> amount = 0 \/ supply st + amount <= CTS_MAX_SUPPLY) /\
  (r <> Ok tt -> st' = st) /\
  (r = Ok tt ->
     state_ok st' /\ supply st' = supply st + amount /\
     get_emitted_supply st' = get_emitted_supply st /\
     get_balance st' to = get_balance st to + amount).
Proof.
  intros Hok Hsup Hlen Hne Ham. unfold credit_account.
  destruct (Z.eqb_spec amount 0) as [->|Ha0].
  { split; [tauto|]. split; [done|]. intros _. split; [done|]. split; [lia|]. split; [done|lia]. }
  rewrite get_total_supply_spec by done. fold (supply st).
  pose proof (supply_nonneg st to Hok Hne) as Hb.
  replace (Z.min u64_max (supply st)) with (supply st) by lia.
  unfold CTS_MAX_SUPPLY, saturating_add, u64_max, is_u64 in *.
  destruct (Z.ltb_spec 600000000 (Z.min (supply st + amount) 18446744073709551615)).
  { split; [split; [done|lia]|]. split; done. }
  split; [split; [lia|done]|]. split; [done|]. intros _.
  destruct (put_supply to (Account_new (u64_add (balance (account_or_zero st to)) amount)
    (account_nonce (account_or_zero st to))) st Hne) as [Hs Hem].
  assert (u64_add (balance (account_or_zero st to)) amount = get_balance st to + amount) as Hadd.
  { rewrite account_or_zero_balance, <- get_balance_accounts.
    apply u64_add_small. unfold u64_max. lia. }
  split; [|split; [|split]].
  - apply put_refresh_ok; [done..|]. split; simpl; [unfold u64_add; auto with machine|].
    apply account_or_zero_ok, Hok.
  - rewrite Hs. simpl. rewrite Hadd. lia.
  - done.
  - rewrite get_balance_accounts, refresh_root_accounts, put_account_accounts, balance_of_insert.
    rewrite decide_True by done. done.
Qed.

Lemma deduct_fee_spec st a fee :
  state_ok st -> length a = 20%nat -> a <> EMISSION_STATE_ACCOUNT -> is_u64 fee ->
  supply st <= u64_max ->
  let '(r, st') := deduct_fee a fee st in
  (r = Ok tt <-> fee <= get_balance st a) /\
  (r <> Ok tt -> st' = st) /\
  (r = Ok tt ->
     state_ok st' /\ supply st' = supply st - fee /\
     get_emitted_supply st' = get_emitted_supply st /\
     get_balance st' a = get_balance st a - fee).
Proof.
  intros Hok Hlen Hne Hfee Hsup. unfold deduct_fee.
  pose proof (supply_nonneg st a Hok Hne) as Hb.
  destruct (Z.eqb_spec fee 0) as [->|Hf0].
  { split; [split; [lia|done]|]. split; [done|]. intros _. split; [done|]. split; [lia|]. split; [done|lia]. }
  pose proof (account_or_zero_balance st a) as Hba. rewrite <- get_balance_accounts in Hba.
  rewrite Hba.
  destruct (Z.ltb_spec (get_balance st a) fee).
  { split; [split; [done|lia]|]. split; done. }
  split; [split; [lia|done]|]. split; [done|]. intros _.
  destruct (put_supply a (Account_new (u64_sub (get_balance st a) fee)
    (account_nonce (account_or_zero st a))) st Hne) as [Hs Hem].
  unfold is_u64 in Hfee.
  assert (u64_sub (get_balance st a) fee = get_balance st a - fee) as Hsub
    by (apply u64_sub_small; unfold u64_max in *; lia).
  split; [|split; [|split]].
  - apply put_refresh_ok; [done..|]. split; simpl; [unfold u64_sub; auto with machine|].
    apply account_or_zero_ok, Hok.
  - rewrite Hs. simpl. rewrite Hsub. lia.
  - done.
  - rewrite get_balance_accounts, refresh_root_accounts, put_account_accounts, balance_of_insert.
    by rewrite decide_True.
Qed.

Lemma add_emitted_supply_spec st amount :
  state_ok st -> 0 <= amount -> get_emitted_supply st <= CTS_MINING_SUPPLY ->
  let st' := add_emitted_supply amount st in
  state_ok st' /\ supply st' = supply st /\
  get_emitted_supply st' = Z.min CTS_MINING_SUPPLY (get_emitted_supply st + amount).
Proof.
  intros Hok Ha Hem. cbv zeta. unfold add_emitted_supply.
  pose proof (proj1 (balance_of_le_total (accounts st) EMISSION_STATE_ACCOUNT (proj1 (proj1 Hok)))) as Hb.
  rewrite account_or_zero_balance. rewrite get_emitted_accounts in *.
  destruct (Z.eqb_spec amount 0) as [->|Ha0].
  { split; [done|]. split; [done|]. rewrite get_emitted_accounts. lia. }
  unfold saturating_sub, saturating_add, CTS_MINING_SUPPLY, CTS_MAX_SUPPLY,
    CTS_GENESIS_ALLOCATION, u64_max in *.
  set (e := balance_of (accounts st) EMISSION_STATE_ACCOUNT) in *.
  destruct (Z.eqb_spec (Z.max (600000000 - 100000000 - e) 0) 0).
  { split; [done|]. split; [done|]. rewrite get_emitted_accounts. fold e. lia. }
  set (acc := Account_new _ _).
  assert (balance acc = Z.min (600000000 - 100000000) (e + amount)) as Hacc by (simpl; lia).
  split; [|split].
  - apply put_refresh_ok; [done|done|]. split; [rewrite Hacc; unfold is_u64, u64_max; lia|].
    apply account_or_zero_ok, Hok.
  - unfold supply. rewrite !get_emitted_accounts, refresh_root_accounts, put_account_accounts.
    rewrite total_balance_insert, balance_of_insert, decide_True by done. unfold e. lia.
  - rewrite !get_emitted_accounts, refresh_root_accounts, put_account_accounts,
      balance_of_insert, decide_True by done. fold e. lia.
Qed.

Lemma transfer_supply st tx to amount :
  state_ok st -> tx_wf tx -> payload tx = Transfer to amount ->
  total_balance (accounts st) < u64_max ->
  from tx <> EMISSION_STATE_ACCOUNT -> to <> EMISSION_STATE_ACCOUNT ->
  let st' := (apply_transaction tx st).2 in
  state_ok st' /\ supply st' <= supply st /\ get_emitted_supply st' = get_emitted_supply st.
Proof.
  intros Hok Hwf Hpl Htot Hf Ht. cbv zeta.
  pose proof (transfer_spec st tx to amount Hok Hwf Hpl Htot) as Hspec.
  destruct (apply_transaction tx st) as [r st']. destruct Hspec as (_ & Herr & Hgood). simpl.
  destruct r as [[]|e]; [|by rewrite Herr].
  destruct (Hgood eq_refl) as (Hok' & Hbal & _ & Htotal).
  assert (get_emitted_supply st' = get_emitted_supply st) as Hem.
  { specialize (Hbal EMISSION_STATE_ACCOUNT). rewrite !decide_False in Hbal by done.
    change (get_emitted_supply st') with (get_balance st' EMISSION_STATE_ACCOUNT).
    rewrite Hbal. change (get_emitted_supply st) with (get_balance st EMISSION_STATE_ACCOUNT). lia. }
  split; [done|]. split; [|done]. unfold supply. rewrite Htotal, Hem.
  destruct Hwf as (_ & _ & _ & Hl & Hg). unfold fee_of, is_u64 in *. nia.
Qed.

(** The operations that change balances, with any arguments of their types.
    Nothing in them sets the emission counter's account apart: it can be the
    sender or the receiver of a transfer, be credited or pay a fee. *)
Inductive operation :=
  | Apply (tx : Transaction)
  | Deduct (a : Address) (fee : Z)
  | Credit (to : Address) (amount : Z)
  | Emit (amount : Z).

Definition op_wf (op : operation) : Prop :=
  match op with
  | Apply tx => tx_wf tx
  | Deduct a fee => length a = 20%nat /\ is_u64 fee
  | Credit to amount => length to = 20%nat /\ is_u64 amount
  | Emit amount => is_u64 amount
  end.

Definition run_op (op : operation) : M StateManager unit :=
  match op with
  | Apply tx => apply_transaction tx
  | Deduct a fee => deduct_fee a fee
  | Credit to amount => credit_account to amount
  | Emit amount => fun st => (Ok tt, add_emitted_supply amount st)
  end.

Definition run_ops (ops : list operation) (st : StateManager) : StateManager :=
  foldl (fun st op => (run_op op st).2) st ops.

Definition is_counter (a : Address) : bool := bool_decide (a = EMISSION_STATE_ACCOUNT).

(** What an operation that succeeds moves from the emission counter's account
    to another one, and what it moves to it from outside. *)
Definition op_paid_out (op : operation) : Z :=
  match op with
  | Apply tx =>
      match payload tx with
      | Transfer to amount => if is_counter (from tx) && negb (is_counter to) then amount else 0
      | _ => 0
      end
  | _ => 0
  end.
Definition op_paid_in (op : operation) : Z :=
  match op with
  | Apply tx =>
      match payload tx with
      | Transfer to amount => if is_counter to && negb (is_counter (from tx)) then amount else 0
      | _ => 0
      end
  | Credit to amount => if is_counter to then amount else 0
  | _ => 0
  end.

(** The sum of a measure over the operations of a run that succeed. *)
Fixpoint sum_ok (f : operation -> Z) (ops : list operation) (st : StateManager) : Z :=
  match ops with
  | [] => 0
  | op :: ops =>
      (match (run_op op st).1 with Ok _ => f op | Err _ => 0 end) + sum_ok f ops (run_op op st).2
  end.
Definition paid_out : list operation -> StateManager -> Z := sum_ok op_paid_out.
Definition paid_in : list operation -> StateManager -> Z := sum_ok op_paid_in.

(** One update of an account on the supply and the counter. *)
Lemma insert_supply m a acc :
  let sup m := total_balance m - balance_of m EMISSION_STATE_ACCOUNT in
  sup (<[a := acc]> m) = sup m + (if is_counter a then 0 else balance acc - balance_of m a) /\
  balance_of (<[a := acc]> m) EMISSION_STATE_ACCOUNT =
    balance_of m EMISSION_STATE_ACCOUNT + (if is_counter a then balance acc - balance_of m a else 0).
Proof.
  cbv zeta. unfold is_counter. rewrite total_balance_insert, balance_of_insert.
  case_bool_decide; [subst; rewrite decide_True by done|rewrite decide_False by done]; lia.
Qed.

Lemma u64_add_le x y : 0 <= x -> 0 <= y -> u64_add x y <= x + y.
Proof. intros. unfold u64_add, u64_wrap. apply Z.mod_le; lia. Qed.

Definition balances_u64 (m : gmap Address Account) : Prop := forall a, is_u64 (balance_of m a).

Lemma state_ok_balances st : state_ok st -> balances_u64 (accounts st).
Proof.
  intros [[Hok _] _] a. unfold balance_of, accounts.
  destruct (leaves (state_tree st) !! a) as [acc|] eqn:E; [by apply Hok in E as (_ & ? & _)|].
  unfold is_u64, u64_max. lia.
Qed.

(** Writing an account and refreshing the root. *)
Lemma put_refresh_supply a acc st :
  let st' := refresh_root (put_account a acc st) in
  let d := balance acc - get_balance st a in
  supply st' = supply st + (if is_counter a then 0 else d) /\
  get_emitted_supply st' = get_emitted_supply st + (if is_counter a then d else 0).
Proof.
  cbv zeta. unfold supply.
  rewrite !get_emitted_accounts, get_balance_accounts, refresh_root_accounts, put_account_accounts.
  apply insert_supply.
Qed.

Lemma supply_pos st : state_ok st -> 0 <= supply st /\ 0 <= get_emitted_supply st.
Proof.
  intros [[Hok _] _]. unfold supply. rewrite get_emitted_accounts.
  pose proof (balance_of_le_total (accounts st) EMISSION_STATE_ACCOUNT Hok). lia.
Qed.

(** What an operation may add to the supply and to the counter. *)
Definition step_bounds (st st' : StateManager) (out inn : Z) : Prop :=
  0 <= out /\ 0 <= inn /\ state_ok st' /\
  supply st' <= Z.max CTS_MAX_SUPPLY (supply st + out) /\
  get_emitted_supply st' <= Z.max CTS_MINING_SUPPLY (get_emitted_supply st + inn).

Lemma step_bounds_refl st : state_ok st -> step_bounds st st 0 0.
Proof. intros Hok. split; [done|]. split; [done|]. split; [done|]. lia. Qed.

Lemma deduct_bounds a fee st :
  state_ok st -> length a = 20%nat -> is_u64 fee -> step_bounds st (deduct_fee a fee st).2 0 0.
Proof.
  intros Hok Ha Hfee. unfold deduct_fee. destruct (fee =? 0); [by apply step_bounds_refl|].
  destruct (Z.ltb_spec (balance (account_or_zero st a)) fee) as [|Hle]; [by apply step_bounds_refl|].
  pose proof (state_ok_balances _ Hok a) as Hb.
  rewrite account_or_zero_balance in Hle. cbn [snd].
  set (acc := Account_new _ _).
  assert (balance acc = balance_of (accounts st) a - fee) as Hacc.
  { unfold acc. cbn [balance Account_new]. rewrite account_or_zero_balance.
    apply u64_sub_small. unfold is_u64 in *. lia. }
  destruct (put_refresh_supply a acc st) as [Hs He].
  rewrite get_balance_accounts, Hacc in Hs, He.
  split; [done|]. split; [done|]. split; [|unfold is_u64 in Hfee; destruct (is_counter a); lia].
  apply put_refresh_ok; [done..|]. split; [rewrite Hacc; unfold is_u64 in *; lia|].
  apply account_or_zero_ok, Hok.
Qed.

Lemma cap_check s amount :
  0 <= s -> is_u64 amount ->
  saturating_add (Z.min u64_max s) amount <= CTS_MAX_SUPPLY -> s + amount <= CTS_MAX_SUPPLY.
Proof. unfold saturating_add, is_u64, u64_max, CTS_MAX_SUPPLY. lia. Qed.

Lemma credit_bounds to amount st :
  state_ok st -> length to = 20%nat -> is_u64 amount ->
  step_bounds st (credit_account to amount st).2 0
    (match (credit_account to amount st).1 with Ok _ => if is_counter to then amount else 0
     | Err _ => 0 end).
Proof.
  intros Hok Ha Ham. unfold credit_account.
  destruct (Z.eqb_spec amount 0) as [->|Hne].
  { cbn [fst snd]. destruct (is_counter to); by apply step_bounds_refl. }
  destruct (Z.ltb_spec CTS_MAX_SUPPLY (saturating_add (get_total_supply st) amount)) as [|Hcap];
    [by apply step_bounds_refl|].
  rewrite get_total_supply_spec in Hcap by done. fold (supply st) in Hcap.
  pose proof (supply_pos st Hok) as [Hs0 He0].
  assert (supply st + amount <= CTS_MAX_SUPPLY) as Hcap'.
  { by apply cap_check. }
  pose proof (state_ok_balances _ Hok to) as Hb. unfold is_u64 in Ham, Hb.
  cbn [fst snd]. set (acc := Account_new _ _).
  assert (balance acc <= balance_of (accounts st) to + amount) as Hacc.
  { unfold acc. cbn [balance Account_new]. rewrite account_or_zero_balance. apply u64_add_le; lia. }
  destruct (put_refresh_supply to acc st) as [Hs He]. rewrite get_balance_accounts in Hs, He.
  split; [done|]. split; [destruct (is_counter to); lia|]. split; [|destruct (is_counter to); lia].
  apply put_refresh_ok; [done..|].
  split; [unfold acc; cbn [balance Account_new]; unfold u64_add; apply u64_wrap_range|].
  apply account_or_zero_ok, Hok.
Qed.

Lemma emit_bounds amount st :
  state_ok st -> is_u64 amount -> step_bounds st (add_emitted_supply amount st) 0 0.
Proof.
  intros Hok Ham. unfold add_emitted_supply.
  destruct (amount =? 0); [by apply step_bounds_refl|].
  destruct (Z.eqb_spec (saturating_sub CTS_MINING_SUPPLY
    (balance (account_or_zero st EMISSION_STATE_ACCOUNT))) 0) as [|Hrem];
    [by apply step_bounds_refl|].
  set (acc := Account_new _ _).
  pose proof (state_ok_balances _ Hok EMISSION_STATE_ACCOUNT) as Hb.
  assert (0 <= balance acc <= CTS_MINING_SUPPLY) as Hacc.
  { unfold acc. rewrite account_or_zero_balance in *.
    unfold saturating_sub, saturating_add, is_u64, u64_max, CTS_MINING_SUPPLY, CTS_MAX_SUPPLY,
      CTS_GENESIS_ALLOCATION in *. cbn [balance Account_new]. lia. }
  destruct (put_refresh_supply EMISSION_STATE_ACCOUNT acc st) as [Hs He].
  unfold is_counter in Hs, He. rewrite bool_decide_true in Hs, He by done.
  cbv iota in Hs, He.
  rewrite get_balance_accounts, <- get_emitted_accounts in He.
  split; [done|]. split; [done|]. split; [|lia].
  apply put_refresh_ok; [done..|]. split; [|apply account_or_zero_ok, Hok].
  unfold is_u64, u64_max, CTS_MINING_SUPPLY, CTS_MAX_SUPPLY, CTS_GENESIS_ALLOCATION in *. lia.
Qed.

Lemma transfer_bounds from to amount nonce fee st :
  state_ok st -> length from = 20%nat -> length to = 20%nat -> is_u64 amount -> 0 <= fee ->
  let r := apply_transfer from to amount nonce fee st in
  let paid (b : bool) := match r.1 with Ok _ => if b then amount else 0 | Err _ => 0 end in
  step_bounds st r.2 (paid (is_counter from && negb (is_counter to)))
                     (paid (is_counter to && negb (is_counter from))).
Proof.
  intros Hok Hf Ht Ham Hfee. cbv zeta.
  destruct (apply_transfer_cases from to amount nonce fee st)
    as [(e & -> & _)|(Hal & st' & -> & Hm & Hst')]; [by apply step_bounds_refl|].
  cbn [fst snd]. destruct Hal as (Ha0 & _ & Hc).
  specialize (Hst' (proj1 Hok) Hf Ht (account_or_zero_ok _ _ (proj1 (proj1 Hok)))).
  pose proof (state_ok_balances _ Hok from) as Hb. unfold is_u64 in Ham, Hb.
  set (cost := saturating_add amount fee) in *.
  assert (amount <= cost \/ u64_max < amount) as Hcost
    by (unfold cost, saturating_add, u64_max in *; lia).
  set (s1 := Account_new (u64_sub _ _) _) in *. set (m1 := <[from := s1]> (accounts st)) in *.
  assert (balance s1 = balance_of (accounts st) from - cost) as Hs1.
  { unfold s1. cbn [balance Account_new]. rewrite account_or_zero_balance. apply u64_sub_small. lia. }
  destruct (insert_supply (accounts st) from s1) as [Hsup1 Hem1]. fold m1 in Hsup1, Hem1.
  assert (0 <= balance_of m1 to) as Hb1.
  { unfold m1. rewrite balance_of_insert. case_decide; [lia|].
    apply (state_ok_balances _ Hok). }
  set (s2 := Account_new (u64_add _ _) _) in Hm.
  assert (balance s2 <= balance_of m1 to + amount) as Hs2 by (apply u64_add_le; lia).
  destruct (insert_supply m1 to s2) as [Hsup2 Hem2].
  unfold step_bounds, supply. rewrite !get_emitted_accounts, Hm.
  destruct (is_counter from), (is_counter to); cbn [andb negb];
    (split; [lia|]; split; [lia|]; split; [done|]); lia.
Qed.

(** What every operation does to the supply and the counter, whatever the
    accounts it names and whether or not a sum wraps. *)
Lemma run_op_supply op st :
  state_ok st -> op_wf op ->
  let paid f := match (run_op op st).1 with Ok _ => f op | Err _ => 0 end in
  step_bounds st (run_op op st).2 (paid op_paid_out) (paid op_paid_in).
Proof.
  intros Hok Hwf. destruct op as [tx|a fee|to amount|amount]; cbn [run_op op_wf] in *.
  - destruct Hwf as (Hf & Hp & _ & Hl & Hg). unfold apply_transaction, op_paid_out, op_paid_in.
    destruct (payload tx) as [to amount| |]; [|by apply step_bounds_refl..].
    apply transfer_bounds; [done..|apply Hp|apply Hp|].
    unfold saturating_mul, is_u64, u64_max in *. nia.
  - destruct Hwf. cbv zeta. unfold op_paid_out, op_paid_in.
    pose proof (deduct_bounds a fee st Hok) as Hd.
    destruct (deduct_fee a fee st) as [[[]|e] st']; by apply Hd.
  - destruct Hwf. cbv zeta. unfold op_paid_out, op_paid_in.
    pose proof (credit_bounds to amount st Hok) as Hd.
    destruct (credit_account to amount st) as [[[]|e] st']; by apply Hd.
  - by apply emit_bounds.
Qed.

Definition supply_ok (st : StateManager) : Prop :=
  state_ok st /\ supply st <= CTS_MAX_SUPPLY /\ get_emitted_supply st <= CTS_MINING_SUPPLY.

Lemma supply_ok_total st : supply_ok st -> total_balance (accounts st) < u64_max.
Proof.
  intros (_ & Hs & He). unfold supply, CTS_MAX_SUPPLY, CTS_MINING_SUPPLY,
    CTS_GENESIS_ALLOCATION, u64_max in *. unfold CTS_MAX_SUPPLY in *. lia.
Qed.

(** [initialize_tokenomics] on the account table. *)
Definition ensure_entry (a : Address) (m : gmap Address Account) : gmap Address Account :=
  match m !! a with None => <[a := Account_new 0 0]> m | Some _ => m end.
Definition initialize_accounts (m : gmap Address Account) : gmap Address Account :=
  let m := ensure_entry GENESIS_WALLET m in
  let g := default (Account_new 0 0) (m !! GENESIS_WALLET) in
  let m := if balance g =? 0
           then <[GENESIS_WALLET := Account_new 100000000 (account_nonce g)]> m else m in
  ensure_entry EMISSION_STATE_ACCOUNT m.

Lemma ensure_account_accounts a st :
  accounts (ensure_account a st) = ensure_entry a (accounts st).
Proof.
  unfold ensure_account, ensure_entry, get_account. fold (accounts st).
  by destruct (accounts st !! a); rewrite ?put_account_accounts.
Qed.

Lemma initialize_tokenomics_accounts st :
  accounts (initialize_tokenomics st) = initialize_accounts (accounts st).
Proof.
  unfold initialize_tokenomics, initialize_accounts.
  rewrite refresh_root_accounts, ensure_account_accounts.
  unfold account_or_zero, get_account.
  fold (accounts (ensure_account GENESIS_WALLET st)). rewrite ensure_account_accounts.
  f_equal. by destruct (_ =? 0); rewrite ?put_account_accounts, ensure_account_accounts.
Qed.

Lemma accounts_new :
  accounts new = <[EMISSION_STATE_ACCOUNT := Account_new 0 0]>
                   (<[GENESIS_WALLET := Account_new 0 0]> ∅).
Proof. unfold new, accounts. cbn [state_tree]. by rewrite !update_account_leaves. Qed.

Lemma genesis_accounts :
  initialize_accounts (accounts new) =
    <[GENESIS_WALLET := Account_new 100000000 0]>
      (<[EMISSION_STATE_ACCOUNT := Account_new 0 0]> ∅).
Proof.
  rewrite accounts_new. unfold initialize_accounts, ensure_entry.
  rewrite lookup_insert_ne, lookup_insert_eq by done. cbn [default].
  rewrite lookup_insert_ne, lookup_insert_eq by done. simpl (balance _ =? 0). cbv iota.
  rewrite lookup_insert_ne, lookup_insert_eq by done.
  rewrite (insert_insert_ne _ GENESIS_WALLET EMISSION_STATE_ACCOUNT) by done.
  by rewrite insert_insert_eq.
Qed.

Lemma ensure_account_ok a st :
  length a = 20%nat -> tree_ok (state_tree st) -> tree_ok (state_tree (ensure_account a st)).
Proof.
  intros Ha Hok. unfold ensure_account. destruct (get_account _ _); [done|].
  apply put_account_tree_ok; [done|repeat split; done|done].
Qed.

Lemma initialize_tokenomics_ok st :
  tree_ok (state_tree st) -> state_ok (initialize_tokenomics st).
Proof.
  intros Hok. apply refresh_state_ok, ensure_account_ok; [done|].
  assert (tree_ok (state_tree (ensure_account GENESIS_WALLET st))) as Hok1
    by by apply ensure_account_ok.
  destruct (_ =? 0); [|done]. apply put_account_tree_ok; [done| |done].
  destruct (account_or_zero_ok (ensure_account GENESIS_WALLET st) GENESIS_WALLET (proj1 Hok1)).
  by split.
Qed.

Lemma new_ok : tree_ok (state_tree new).
Proof.
  unfold new. cbn [state_tree].
  apply update_tree_ok; [done|repeat split; done|].
  apply update_tree_ok; [done|repeat split; done|apply tree_ok_new].
Qed.

Lemma genesis_supply_ok : supply_ok (initialize_tokenomics new).
Proof.
  split; [apply initialize_tokenomics_ok, new_ok|].
  unfold supply. rewrite get_emitted_accounts, initialize_tokenomics_accounts, genesis_accounts.
  split; vm_compute; discriminate.
Qed.

Lemma run_ops_supply ops : forall st,
  state_ok st -> Forall op_wf ops ->
  0 <= paid_out ops st /\ 0 <= paid_in ops st /\ state_ok (run_ops ops st) /\
  supply (run_ops ops st) <= Z.max CTS_MAX_SUPPLY (supply st) + paid_out ops st /\
  get_emitted_supply (run_ops ops st)
    <= Z.max CTS_MINING_SUPPLY (get_emitted_supply st) + paid_in ops st.
Proof.
  unfold paid_out, paid_in, run_ops.
  induction ops as [|op ops IH]; intros st Hok Hops; cbn [sum_ok foldl].
  { split; [done|]. split; [done|]. split; [done|]. lia. }
  apply Forall_cons in Hops as [Hop Hops].
  destruct (run_op_supply op st Hok Hop) as (Hout & Hin & Hok' & Hs & He).
  destruct (IH _ Hok' Hops) as (? & ? & ? & ? & ?).
  split; [lia|]. split; [lia|]. split; [done|]. lia.
Qed.

(** C2: the monetary policy. From the genesis state, whatever
    transactions the node applies, fees it deducts, accounts it credits and
    emission it records, in whatever order and whether or not they succeed, the
    circulating supply reported by [get_total_supply] never exceeds the 600M cap
    by more than what successful transfers have moved from the account that
    counts the emission to other accounts, and the counter never exceeds the
    500M mining supply by more than what successful transfers and credits have
    moved to that account.  So both caps hold exactly as long as no transfer
    or credit names that account, and the theorem says by how much they can
    fail otherwise: no operation refuses it.  The root stored in the state is always
    the root of its tree. *)
Theorem supply_cap ops :
  Forall op_wf ops ->
  let st := run_ops ops (initialize_tokenomics new) in
  get_total_supply st <= CTS_MAX_SUPPLY + paid_out ops (initialize_tokenomics new) /\
  get_emitted_supply st <= CTS_MINING_SUPPLY + paid_in ops (initialize_tokenomics new) /\
  current_state_root st = calculate_root (state_tree st).
Proof.
  intros Hops. destruct genesis_supply_ok as (Hok & Hs & He). cbv zeta.
  destruct (run_ops_supply ops _ Hok Hops) as (_ & _ & Hok' & Hs' & He').
  rewrite get_total_supply_spec by done.
  fold (supply (run_ops ops (initialize_tokenomics new))).
  split; [lia|]. split; [lia|apply Hok'].
Qed.

(** Initializing twice is not idempotent once the genesis wallet has
    been spent: on any state whose genesis balance is zero,
    [initialize_tokenomics] adds another 100M to the circulating supply. *)
Theorem initialize_tokenomics_remints st :
  state_ok st -> is_Some (accounts st !! GENESIS_WALLET) ->
  is_Some (accounts st !! EMISSION_STATE_ACCOUNT) ->
  get_balance st GENESIS_WALLET = 0 ->
  supply (initialize_tokenomics st) = supply st + CTS_GENESIS_ALLOCATION.
Proof.
  intros Hok [g Hg] [e He] Hz. unfold supply.
  rewrite !get_emitted_accounts, initialize_tokenomics_accounts.
  rewrite get_balance_accounts in Hz. unfold balance_of in Hz. rewrite Hg in Hz.
  unfold initialize_accounts, ensure_entry. rewrite Hg. cbn [default]. rewrite Hg. simpl default.
  rewrite Hz. simpl (0 =? 0). cbv iota.
  rewrite lookup_insert_ne, He by done.
  rewrite total_balance_insert, balance_of_insert, decide_False by done.
  unfold balance_of at 1. rewrite Hg, Hz. simpl.
  unfold CTS_GENESIS_ALLOCATION. lia.
Qed.

(** ** Rebuilding after a reorganization *)

Definition empty_manager : StateManager :=
  {| state_tree := SparseMerkleTree_new; current_state_root := calculate_root SparseMerkleTree_new |}.

Definition is_transfer (tx : Transaction) : Prop :=
  match payload tx with Transfer _ _ => True | _ => False end.

Lemma balance_of_empty a : balance_of ∅ a = 0.
Proof. unfold balance_of. by rewrite lookup_empty. Qed.

Lemma accounts_empty : accounts empty_manager = ∅.
Proof. reflexivity. Qed.

Lemma saturating_cost_pos amount l p :
  amount <> 0 -> is_u64 amount -> is_u64 l -> is_u64 p ->
  0 < saturating_add amount (saturating_mul l p).
Proof.
  intros Ha Ham Hl Hp. unfold saturating_add, saturating_mul, is_u64, u64_max in *.
  assert (0 <= l * p) by (apply Z.mul_nonneg_nonneg; lia). lia.
Qed.

Lemma apply_transfer_empty from to amount nonce l p :
  is_u64 amount -> is_u64 l -> is_u64 p ->
  exists e, apply_transfer from to amount nonce (saturating_mul l p) empty_manager
            = (Err e, empty_manager).
Proof.
  intros Ham Hl Hp.
  destruct (apply_transfer_cases from to amount nonce (saturating_mul l p) empty_manager)
    as [(e & He & _)|(Hal & _)]; [by exists e|].
  exfalso. destruct Hal as (Ha & _ & Hc). rewrite accounts_empty, balance_of_empty in Hc.
  pose proof (saturating_cost_pos amount l p Ha Ham Hl Hp). lia.
Qed.

Lemma apply_transaction_empty tx :
  tx_wf tx ->
  (~ is_transfer tx /\ apply_transaction tx empty_manager = (Ok tt, empty_manager)) \/
  (is_transfer tx /\ exists e, apply_transaction tx empty_manager = (Err e, empty_manager)).
Proof.
  intros (_ & Hp & _ & Hl & Hg). unfold is_transfer, apply_transaction.
  destruct (payload tx) as [to amount| |]; [right|left; split; [tauto|reflexivity]..].
  split; [done|]. by apply apply_transfer_empty; [destruct Hp| |].
Qed.

Lemma for_each_empty txs :
  Forall tx_wf txs ->
  let '(r, st) := for_each txs apply_transaction empty_manager in
  st = empty_manager /\ (r = Ok tt <-> Forall (fun tx => ~ is_transfer tx) txs).
Proof.
  induction 1 as [|tx txs Hwf _ IH]; [done|]. cbn [for_each]. unfold mbind, M_bind.
  destruct (apply_transaction_empty tx Hwf) as [[Hn ->]|[Hy [e ->]]].
  - destruct (for_each txs apply_transaction empty_manager) as [r st].
    destruct IH as [-> IH]. split; [done|]. rewrite Forall_cons. tauto.
  - split; [done|]. rewrite Forall_cons. split; [done|tauto].
Qed.

(** Rebuilding the state from a block history cannot succeed once a
    block holds a transfer: the replay starts from an empty account table, in
    which no sender can pay, and the state it leaves is the empty one. *)
Theorem rebuild_from_blocks_spec blocks st :
  Forall (fun b => Forall tx_wf (transactions b)) blocks ->
  let '(r, st') := rebuild_from_blocks blocks st in
  st' = empty_manager /\
  (r = Ok tt <-> Forall (fun b => Forall (fun tx => ~ is_transfer tx) (transactions b)) blocks).
Proof.
  unfold rebuild_from_blocks. fold empty_manager.
  induction 1 as [|b blocks Hb _ IH]; [done|]. cbn [for_each]. unfold mbind, M_bind.
  pose proof (for_each_empty _ Hb) as Ht.
  destruct (for_each (transactions b) apply_transaction empty_manager) as [r st1].
  destruct Ht as [-> Ht]. destruct r as [[]|e].
  - destruct (for_each blocks _ empty_manager) as [r st2]. destruct IH as [-> IH].
    rewrite Forall_cons. tauto.
  - rewrite Forall_cons. split; [done|]. split; [done|]. tauto.
Qed.

End StateManager.

(** ** Witnesses *)

#[local] Existing Instance checksum_sha.
#[local] Existing Instance canonical_order.

Definition genesis_state : StateManager := initialize_tokenomics new.

Definition genesis_transfer : Transaction :=
  new_transfer GENESIS_WALLET (replicate 20 2) 1000 0 21000 2.

Lemma genesis_transfer_wf : tx_wf genesis_transfer.
Proof. repeat split; try done; vm_compute; discriminate. Qed.

Lemma genesis_total : total_balance (accounts genesis_state) = 100000000.
Proof. unfold genesis_state. rewrite initialize_tokenomics_accounts, genesis_accounts. done. Qed.

Lemma apply_transaction_transfer_witness :
  let '(r, st') := apply_transaction genesis_transfer genesis_state in
  (r = Ok tt <->
     transfer_allowed (accounts genesis_state) GENESIS_WALLET 1000 0
       (1000 + fee_of genesis_transfer)) /\
  (r <> Ok tt -> st' = genesis_state) /\
  (r = Ok tt ->
     state_ok st' /\
     (forall a, get_balance st' a = get_balance genesis_state a
        - (if decide (GENESIS_WALLET = a) then 1000 + fee_of genesis_transfer else 0)
        + (if decide (replicate 20 2 = a) then 1000 else 0)) /\
     (forall a, account_nonce (account_or_zero st' a) =
        if decide (GENESIS_WALLET = a) then u64_add 0 1
        else account_nonce (account_or_zero genesis_state a)) /\
     total_balance (accounts st') = total_balance (accounts genesis_state) - fee_of genesis_transfer).
Proof.
  apply (apply_transaction_transfer genesis_state genesis_transfer (replicate 20 2) 1000);
    [apply genesis_supply_ok | apply genesis_transfer_wf | reflexivity
    | rewrite genesis_total; reflexivity].
Defined.

(** A run that mines the whole supply and then spends the counter. *)
Definition counter_run : list operation :=
  [Apply genesis_transfer; Deduct GENESIS_WALLET 5; Emit 500000000;
   Credit (replicate 20 2) 500000000;
   Apply (new_transfer EMISSION_STATE_ACCOUNT (replicate 20 3) 400000000 0 0 0)].

Lemma supply_cap_witness :
  let st := run_ops counter_run genesis_state in
  get_total_supply st <= CTS_MAX_SUPPLY + paid_out counter_run genesis_state /\
  get_emitted_supply st <= CTS_MINING_SUPPLY + paid_in counter_run genesis_state /\
  current_state_root st = calculate_root (state_tree st).
Proof.
  apply (supply_cap counter_run).
  repeat constructor; vm_compute; done || discriminate.
Defined.

(** The excess is real: once the supply is mined out, a transfer from the
    counter's account takes it past the cap. *)
Lemma counter_breaks_cap :
  Forall op_wf counter_run /\ CTS_MAX_SUPPLY < get_total_supply (run_ops counter_run genesis_state).
Proof. split; [repeat constructor; vm_compute; done || discriminate|reflexivity]. Qed.

(** And a payment to the counter's account is recorded as emission. *)
Lemma payment_counts_as_emission :
  get_emitted_supply
    (run_ops [Apply (new_transfer GENESIS_WALLET EMISSION_STATE_ACCOUNT 1000 0 0 0)] genesis_state)
  = 1000.
Proof. vm_compute. reflexivity. Qed.

Lemma get_total_supply_spec_witness :
  get_total_supply genesis_state =
  Z.min u64_max (total_balance (accounts genesis_state) - get_emitted_supply genesis_state).
Proof. apply (get_total_supply_spec genesis_state). apply genesis_supply_ok. Defined.

Lemma credit_account_spec_witness :
  let '(r, st') := credit_account (replicate 20 2) 100 genesis_state in
  (r = Ok tt <-> 100 = 0 \/ supply genesis_state + 100 <= CTS_MAX_SUPPLY) /\
  (r <> Ok tt -> st' = genesis_state) /\
  (r = Ok tt ->
     state_ok st' /\ supply st' = supply genesis_state + 100 /\
     get_emitted_supply st' = get_emitted_supply genesis_state /\
     get_balance st' (replicate 20 2) = get_balance genesis_state (replicate 20 2) + 100).
Proof.
  apply (credit_account_spec genesis_state (replicate 20 2) 100).
  - apply genesis_supply_ok.
  - pose proof (proj1 (proj2 genesis_supply_ok)) as Hs.
    unfold genesis_state, CTS_MAX_SUPPLY, u64_max in *. lia.
  - reflexivity.
  - discriminate.
  - split; vm_compute; discriminate.
Defined.

Lemma remint_accounts :
  accounts (new) !! GENESIS_WALLET = Some (Account_new 0 0) /\
  accounts (new) !! EMISSION_STATE_ACCOUNT = Some (Account_new 0 0).
Proof. rewrite accounts_new. split; reflexivity. Qed.

Lemma initialize_tokenomics_remints_witness :
  supply (initialize_tokenomics new) = supply new + CTS_GENESIS_ALLOCATION.
Proof.
  apply (initialize_tokenomics_remints new).
  - split; [apply new_ok|reflexivity].
  - eexists. apply remint_accounts.
  - eexists. apply remint_accounts.
  - rewrite get_balance_accounts. unfold balance_of.
    destruct remint_accounts as [-> _]. reflexivity.
Defined.

Lemma rebuild_from_blocks_spec_witness :
  let blocks := [@Block.new checksum_sha Floats.constant_exp [] 0 [genesis_transfer] 0 0 0
                   (replicate 20 0) (replicate 32 0)] in
  let '(r, st') := rebuild_from_blocks blocks genesis_state in
  st' = empty_manager /\
  (r = Ok tt <-> Forall (fun b => Forall (fun tx => ~ is_transfer tx) (transactions b)) blocks).
Proof.
  apply (rebuild_from_blocks_spec
    [@Block.new checksum_sha Floats.constant_exp [] 0 [genesis_transfer] 0 0 0
       (replicate 20 0) (replicate 32 0)] genesis_state).
  constructor; [|constructor]. constructor; [apply genesis_transfer_wf|constructor].
Defined.
