(* ===== verification/Graph.v ===== *)
(** Breadth-first search over hash-linked graphs.

    The DAG index, the traversal helpers and the finality engine walk the same
    graph with two loop shapes: mark a node when it is first seen
    ([bfs]), or mark it when it is taken from the queue ([worklist]).  Both are
    proved to compute reachability. *)
From S2P Require Import Prelude.

(** [y] is reached from [x] in one or more steps. *)
Definition reach (next : BlockHash -> list BlockHash) : BlockHash -> BlockHash -> Prop :=
  tc (fun a b => b ∈ next a).

(** A set that holds the successors of [x] and is closed holds all of [x]'s
    reachable nodes. *)
Lemma reach_closed next (P : BlockHash -> Prop) x y :
  (forall z, z ∈ next x -> P z) -> (forall u z, P u -> z ∈ next u -> P z) ->
  reach next x y -> P y.
Proof. intros Hx Hcl Hr. revert Hx. induction Hr as [x y|x y z Hxy _ IH]; intros Hx; eauto. Qed.

Lemma reach_snoc next x y z : reach next x y -> z ∈ next y -> reach next x z.
Proof. intros Hy Hz. eapply tc_r; [exact Hy|done]. Qed.
Lemma reach_cons next x y z : y ∈ next x -> reach next y z -> reach next x z.
Proof. intros Hy Hz. eapply tc_l; [exact Hy|done]. Qed.

(** A list has at most as many distinct members as entries. *)
Lemma size_list_to_set_le (l : list BlockHash) :
  (size (list_to_set l : gset BlockHash) <= length l)%nat.
Proof.
  change (size (list_to_set l : gset BlockHash))
    with (length (elements (list_to_set l : gset BlockHash))).
  apply submseteq_length, NoDup_submseteq; [apply NoDup_elements|].
  intros x Hx%elem_of_elements. by apply elem_of_list_to_set in Hx.
Qed.

(** A set with more than one member has two different ones. *)
Lemma gset_size_2 (s : gset BlockHash) :
  (1 < size s)%nat -> exists x y, x ∈ s /\ y ∈ s /\ x <> y.
Proof.
  intros Hs. change (size s) with (length (elements s)) in Hs.
  pose proof (NoDup_elements s) as Hnd.
  destruct (elements s) as [|x [|y l]] eqn:He; simpl in Hs; [lia|lia|].
  exists x, y. rewrite <- !elem_of_elements, He. apply NoDup_cons in Hnd as [Hx _].
  split; [left|]. split; [right; left|]. intros ->. apply Hx. left.
Qed.

(** [for x in xs { if !acc.contains(x) { acc.insert(x); queue.push_back(x) } }] *)
Definition visit_all (st : gset BlockHash * list BlockHash) (xs : list BlockHash)
    : gset BlockHash * list BlockHash :=
  foldl (fun '(acc, queue) x =>
    if decide (x ∈ acc) then (acc, queue) else ({[x]} ∪ acc, queue ++ [x])) st xs.

Lemma visit_all_acc xs acc queue :
  (visit_all (acc, queue) xs).1 = list_to_set xs ∪ acc.
Proof.
  revert acc queue. induction xs as [|x xs IH]; intros acc queue; simpl; [set_solver|].
  case_decide; rewrite IH; set_solver.
Qed.

Lemma visit_all_new xs acc queue :
  exists new, (visit_all (acc, queue) xs).2 = queue ++ new /\ NoDup new /\
    (forall x, x ∈ new <-> x ∈ xs /\ x ∉ acc).
Proof.
  revert acc queue. induction xs as [|x xs IH]; intros acc queue; simpl.
  - exists []. rewrite app_nil_r. split; [done|]. split; [constructor|].
    intros x. split; [by intros ?%not_elem_of_nil|by intros [?%not_elem_of_nil _]].
  - case_decide as Hx.
    + destruct (IH acc queue) as (new & Hq & Hnd & Hin). exists new.
      split; [done|]. split; [done|]. intros y. rewrite Hin, elem_of_cons.
      clear -Hx. naive_solver.
    + destruct (IH ({[x]} ∪ acc) (queue ++ [x])) as (new & Hq & Hnd & Hin).
      exists (x :: new). rewrite Hq, <- app_assoc. split; [done|].
      split.
      * constructor; [|done]. rewrite Hin. clear. set_solver.
      * intros y. rewrite !elem_of_cons, Hin, elem_of_union, elem_of_singleton.
        clear -Hx. destruct (decide (y = x)); naive_solver.
Qed.

Section Bfs.
Context (next : BlockHash -> list BlockHash).

Fixpoint bfs (fuel : nat) (queue : list BlockHash) (acc : gset BlockHash) : gset BlockHash :=
  match queue with
  | [] => acc
  | current :: queue' =>
      match fuel with
      | O => acc
      | S fuel' =>
          let '(acc', queue'') := visit_all (acc, queue') (next current) in
          bfs fuel' queue'' acc'
      end
  end.

Context (root : BlockHash) (universe : gset BlockHash).
Hypothesis next_universe : forall x y, y ∈ next x -> y ∈ universe.

(** The loop invariant: everything marked is reachable, everything queued is
    the root or marked, and every node already expanded has its successors
    marked. *)
Definition bfs_inv (queue : list BlockHash) (acc : gset BlockHash) : Prop :=
  acc ⊆ universe /\
  (forall y, y ∈ acc -> reach next root y) /\
  (forall y, y ∈ queue -> y = root \/ y ∈ acc) /\
  (forall y, y = root \/ y ∈ acc -> y ∈ queue \/ forall z, z ∈ next y -> z ∈ acc).

Lemma reach_step y z : y = root \/ reach next root y -> z ∈ next y -> reach next root z.
Proof.
  intros [->|Hy] Hz; [by apply tc_once|]. eapply tc_r; [exact Hy|done].
Qed.

Lemma bfs_done acc y : bfs_inv [] acc -> y ∈ acc <-> reach next root y.
Proof.
  intros (_ & Hr & _ & Hc). split; [apply Hr|].
  assert (forall z, z = root \/ z ∈ acc -> forall w, w ∈ next z -> w ∈ acc) as Hcl.
  { intros z Hz. destruct (Hc z Hz) as [[]%not_elem_of_nil|?]; auto. }
  apply (reach_closed next (fun z => z ∈ acc)); eauto.
Qed.

Lemma bfs_correct fuel queue acc :
  bfs_inv queue acc -> (length queue + size (universe ∖ acc) <= fuel)%nat ->
  forall y, y ∈ bfs fuel queue acc <-> reach next root y.
Proof.
  revert queue acc. induction fuel as [|fuel IH]; intros queue acc (Hu & Hr & Hq & Hc) Hf y.
  - destruct queue as [|x queue]; [|simpl in Hf; lia]. simpl. by apply bfs_done.
  - destruct queue as [|x queue]; simpl.
    { by apply bfs_done. }
    pose proof (visit_all_acc (next x) acc queue) as Hacc.
    destruct (visit_all_new (next x) acc queue) as (new & Hq' & Hnd & Hin).
    destruct (visit_all (acc, queue) (next x)) as [acc' queue']; simpl in Hacc, Hq'.
    subst queue'.
    assert (forall w, w ∈ acc' <-> w ∈ next x \/ w ∈ acc) as Hacc1.
    { intros w. by rewrite Hacc, elem_of_union, elem_of_list_to_set. }
    assert (forall w, w ∈ acc' <-> w ∈ new \/ w ∈ acc) as Hacc2.
    { intros w. rewrite Hacc1, Hin. destruct (decide (w ∈ acc)); naive_solver. }
    apply IH.
    + split; [|split; [|split]].
      * intros w [Hw|Hw]%Hacc1; [by eapply next_universe|by apply Hu].
      * intros z [Hz|Hz]%Hacc1; [|auto]. apply (reach_step x); [|done].
        destruct (Hq x) as [->|Hx]; [left|by left|by right; apply Hr].
      * intros z [Hz|Hz]%elem_of_app; [|right; apply Hacc2; by left].
        destruct (Hq z) as [|Hz']; [by right|by left|right; apply Hacc2; by right].
      * intros z Hz. destruct (decide (z = x)) as [->|Hzx].
        { right. intros w Hw. apply Hacc1. by left. }
        destruct (decide (z ∈ new)) as [|Hzn]; [left; apply elem_of_app; by right|].
        destruct (Hc z) as [Hzq|Hzn'].
        { destruct Hz as [|Hz]; [by left|right]. apply Hacc2 in Hz as [|]; done. }
        { left. apply elem_of_app; left. by apply elem_of_cons in Hzq as [|]. }
        { right. intros w Hw. apply Hacc1. right. auto. }
    + rewrite length_app. simpl in Hf.
      assert (size (universe ∖ acc) = length new + size (universe ∖ acc'))%nat as Hsz; [|lia].
      rewrite <- (size_list_to_set (C := gset BlockHash) new) by done.
      rewrite <- size_union.
      2:{ intros w Hw1 Hw2. apply elem_of_list_to_set in Hw1.
          apply elem_of_difference in Hw2 as [_ []]. apply Hacc2. by left. }
      f_equal. apply set_eq. intros w.
      rewrite elem_of_union, !elem_of_difference, elem_of_list_to_set, Hacc2.
      pose proof (Hin w) as Hinw. pose proof (next_universe x w). destruct (decide (w ∈ new)); naive_solver.
Qed.

(** Started from the root with nothing marked, [1 + |universe|] rounds suffice. *)
Lemma bfs_reach fuel y :
  (size universe < fuel)%nat -> y ∈ bfs fuel [root] ∅ <-> reach next root y.
Proof.
  intros Hf. apply bfs_correct.
  - split; [set_solver|]. split; [set_solver|]. split; [set_solver|].
    intros z [->|Hz]; [left; set_solver|set_solver].
  - simpl. replace (universe ∖ ∅) with universe by set_solver. lia.
Qed.
End Bfs.

(** ** Marking on removal *)

Section Worklist.
Context (next : BlockHash -> list BlockHash).

(** [while let Some(c) = queue.pop_front() { if visited.contains(c) continue;
    visited.insert(c); for p in next(c) if !visited.contains(p) push p }],
    stopping early at the first node that satisfies [stop]. *)
Fixpoint worklist (stop : BlockHash -> bool) (fuel : nat) (queue : list BlockHash)
    (visited : gset BlockHash) : option BlockHash * gset BlockHash :=
  match queue with
  | [] => (None, visited)
  | current :: queue' =>
      match fuel with
      | O => (None, visited)
      | S fuel' =>
          if decide (current ∈ visited) then worklist stop fuel' queue' visited
          else
            let visited' := {[current]} ∪ visited in
            if stop current then (Some current, visited')
            else
              worklist stop fuel'
                (queue' ++ filter (fun p => p ∉ visited') (next current)) visited'
      end
  end.

Definition reach_refl (x y : BlockHash) : Prop := x = y \/ reach next x y.

Lemma reach_refl_step x y z : reach_refl x y -> z ∈ next y -> reach_refl x z.
Proof. intros [->|Hy] Hz; right; [by apply tc_once|]. eapply tc_r; eauto. Qed.

Context (starts : list BlockHash) (universe : gset BlockHash).
Hypothesis starts_universe : forall x, x ∈ starts -> x ∈ universe.
Hypothesis next_universe : forall x y, x ∈ universe -> y ∈ next x -> y ∈ universe.

Definition from_starts (y : BlockHash) : Prop := exists x, x ∈ starts /\ reach_refl x y.

(** Work still owed: the queue and the successors of the unvisited nodes. *)
Definition owed (visited : gset BlockHash) : nat :=
  set_fold (fun x n => length (next x) + n)%nat 0%nat (universe ∖ visited).

Lemma owed_visit x visited :
  x ∈ universe -> x ∉ visited ->
  owed visited = (length (next x) + owed ({[x]} ∪ visited))%nat.
Proof.
  intros Hx Hv. unfold owed.
  assert (universe ∖ visited = {[x]} ∪ (universe ∖ ({[x]} ∪ visited))) as ->.
  { apply set_eq. intros w. rewrite elem_of_union, !elem_of_difference, elem_of_union, elem_of_singleton.
    destruct (decide (w = x)) as [->|]; naive_solver. }
  rewrite (set_fold_disj_union_strong eq); [|by intros ? ? ? ->|intros; cbn; lia|clear; set_solver].
  rewrite set_fold_singleton.
  assert (forall (s : gset BlockHash) a b, set_fold (fun x n => length (next x) + n)%nat (a + b)%nat s
    = (a + set_fold (fun x n => length (next x) + n)%nat b s)%nat) as Hadd.
  { intros s a b. unfold set_fold; simpl.
    induction (elements s) as [|e l IH]; simpl; [done|]. rewrite IH. lia. }
  rewrite Hadd. lia.
Qed.

Definition worklist_inv (queue : list BlockHash) (visited : gset BlockHash) : Prop :=
  (forall y, y ∈ queue -> from_starts y /\ y ∈ universe) /\
  (forall y, y ∈ visited -> from_starts y) /\
  (forall y, y ∈ starts -> y ∈ queue \/ y ∈ visited) /\
  (forall y z, y ∈ visited -> z ∈ next y -> z ∈ queue \/ z ∈ visited).

Lemma from_starts_step y z : from_starts y -> z ∈ next y -> from_starts z.
Proof. intros (x & Hx & Hy) Hz. exists x. split; [done|]. by eapply reach_refl_step. Qed.

Lemma worklist_done visited y :
  worklist_inv [] visited -> y ∈ visited <-> from_starts y.
Proof.
  intros (_ & Hv & Hs & Hc). split; [apply Hv|]. intros (x & Hx & Hr).
  assert (x ∈ visited) as Hxv by (destruct (Hs x Hx) as [[]%not_elem_of_nil|]; done).
  destruct Hr as [->|Hr]; [done|].
  apply (reach_closed next (fun z => z ∈ visited) x y); [| |done].
  - intros z Hz. destruct (Hc x z Hxv Hz) as [[]%not_elem_of_nil|]; done.
  - intros u z Hu Hz. destruct (Hc u z Hu Hz) as [[]%not_elem_of_nil|]; done.
Qed.

Lemma worklist_inv_skip x queue visited :
  x ∈ visited -> worklist_inv (x :: queue) visited -> worklist_inv queue visited.
Proof.
  intros Hx (Hq & Hv & Hs & Hc). split; [|split; [done|split]].
  - intros y Hy. apply Hq. by right.
  - intros y Hy. destruct (Hs y Hy) as [[->|?]%elem_of_cons|?]; auto.
  - intros y z Hy Hz. destruct (Hc y z Hy Hz) as [[->|?]%elem_of_cons|?]; auto.
Qed.

Lemma worklist_inv_visit x queue visited :
  worklist_inv (x :: queue) visited ->
  worklist_inv (queue ++ filter (fun p => p ∉ {[x]} ∪ visited) (next x)) ({[x]} ∪ visited).
Proof.
  intros (Hq & Hv & Hs & Hc). destruct (Hq x) as [Hfx Hxu]; [left|].
  assert (forall z, z ∈ next x -> z ∈ queue ++ filter (fun p => p ∉ {[x]} ∪ visited) (next x) \/
    z ∈ {[x]} ∪ visited) as Hnx.
  { intros z Hz. destruct (decide (z ∈ {[x]} ∪ visited)); [by right|left].
    apply elem_of_app; right. by apply list_elem_of_filter. }
  assert (forall y, y ∈ x :: queue \/ y ∈ visited ->
    y ∈ queue ++ filter (fun p => p ∉ {[x]} ∪ visited) (next x) \/ y ∈ {[x]} ∪ visited) as Hmove.
  { intros y [[->|Hy]%elem_of_cons|Hy].
    - right. apply elem_of_union; left. by apply elem_of_singleton.
    - left. apply elem_of_app; by left.
    - right. apply elem_of_union; by right. }
  split; [|split; [|split]].
  - intros y [Hy|Hy]%elem_of_app; [apply Hq; by right|].
    apply list_elem_of_filter in Hy as [_ Hy]. split; [by eapply from_starts_step|].
    by eapply next_universe.
  - intros y [Hy|Hy]%elem_of_union; [|auto]. by apply elem_of_singleton in Hy as ->.
  - intros y Hy. apply Hmove, Hs, Hy.
  - intros y z [Hy|Hy]%elem_of_union Hz.
    + apply elem_of_singleton in Hy as ->. by apply Hnx.
    + apply Hmove. by apply (Hc y).
Qed.

Lemma worklist_spec stop fuel queue visited :
  worklist_inv queue visited -> (forall y, y ∈ visited -> stop y = false) ->
  (length queue + owed visited <= fuel)%nat ->
  match worklist stop fuel queue visited with
  | (Some c, _) => stop c = true /\ from_starts c
  | (None, seen) =>
      (forall y, y ∈ seen <-> from_starts y) /\ (forall y, from_starts y -> stop y = false)
  end.
Proof.
  revert queue visited. induction fuel as [|fuel IH]; intros queue visited Hinv Hstop Hf;
    (destruct queue as [|x queue]; simpl;
      [split; [intros y; by apply worklist_done|
               intros y Hy; apply Hstop; by apply (worklist_done visited y Hinv)]|]).
  { simpl in Hf. lia. }
  simpl in Hf. case_decide as Hx.
  { apply IH; [by eapply worklist_inv_skip|done|lia]. }
  pose proof Hinv as (Hq & _). destruct (Hq x) as [Hfx Hxu]; [left|].
  destruct (stop x) eqn:Hsx; [done|].
  apply IH.
  - by apply worklist_inv_visit.
  - intros y [Hy|Hy]%elem_of_union; [|auto]. by apply elem_of_singleton in Hy as ->.
  - rewrite (owed_visit x visited) in Hf by done. rewrite length_app.
    pose proof (length_filter (fun p => p ∉ {[x]} ∪ visited) (next x)). lia.
Qed.

Lemma worklist_start stop fuel :
  (length starts + owed ∅ <= fuel)%nat ->
  match worklist stop fuel starts ∅ with
  | (Some c, _) => stop c = true /\ from_starts c
  | (None, seen) =>
      (forall y, y ∈ seen <-> from_starts y) /\ (forall y, from_starts y -> stop y = false)
  end.
Proof.
  intros Hf. apply worklist_spec; [|by intros y ?%not_elem_of_empty|done].
  split; [|split; [by intros y ?%not_elem_of_empty|split; [by left|by intros y z ?%not_elem_of_empty]]].
  intros y Hy. split; [|auto]. exists y. split; [done|by left].
Qed.

(** The work owed at the start is bounded by the successor lists of any set of
    nodes outside which there are no successors. *)
Lemma owed_bound support :
  (forall x, next x <> [] -> x ∈ support) ->
  (owed ∅ <= length (concat (next <$> support)))%nat.
Proof.
  intros Hout. unfold owed. replace (universe ∖ ∅) with universe by (clear; set_solver).
  unfold set_fold. simpl. pose proof (NoDup_elements universe) as Hnd. revert Hnd.
  generalize (elements universe) as l. intros l Hnd.
  assert (foldr (fun x n => length (next x) + n)%nat 0%nat l =
    length (concat (next <$> filter (fun x => next x <> []) l))) as ->.
  { clear. induction l as [|x l IH]; [done|]. rewrite filter_cons. simpl. rewrite IH.
    case_decide as Hx; simpl; [by rewrite length_app|].
    by rewrite Hx. }
  destruct (submseteq_Permutation (filter (fun x => next x <> []) l) support) as [k ->].
  - apply NoDup_submseteq; [by apply NoDup_filter|].
    intros x [Hx _]%list_elem_of_filter. auto.
  - rewrite fmap_app, concat_app, length_app. lia.
Qed.
End Worklist.
