(* ===== verification/Store.v ===== *)
(** The interface the rest of the node uses of the block store
    [src/src/storage/block_store.rs].

    The DAG engine, the consensus helpers and the pruning code see a
    [BlockStore] only through these operations; [BlockStoreLaws] is what the
    store promises them.  [BlockStore.v] discharges the laws for the cached
    RocksDB store of the source; [MemStore] below is the smallest instance. *)
From S2P Require Import Prelude Crypto Transaction Floats Mining Block.

(** The view of a store in state [st]: what each [&self] method returns, and
    the state [insert_block] leaves. *)
Class BlockStoreI (S : Type) := {
  get_block : S -> BlockHash -> option Block;
  block_exists : S -> BlockHash -> bool;
  get_all_hashes : S -> list BlockHash;
  insert_block : Block -> S -> result unit * S;
  total_size : S -> Z
}.

Section Derived.
Context {St : Type} `{BlockStoreI St}.

(** [get_all_hashes().into_iter().filter_map(|h| self.get_block(&h))] *)
Definition get_all_blocks (st : St) : list Block := omap (get_block st) (get_all_hashes st).
Definition block_count (st : St) : nat := length (get_all_hashes st).

(** [get_blocks_by_parent] *)
Definition get_blocks_by_parent (st : St) (parent : BlockHash) : list Block :=
  filter (fun b => parent ∈ parent_hashes (header b)) (get_all_blocks st).

Definition verify_integrity `{Sha256} (st : St) : result unit :=
  foldr (fun b k =>
      if decide (block_hash b = calculate_hash b) then k
      else errorf "Block hash mismatch detected: stored={} computed={}"
             [ArgHex (block_hash b); ArgHex (calculate_hash b)])
    (Ok tt) (get_all_blocks st).

(** The parents named by the stored block [h], empty when it is absent. *)
Definition parents_of (st : St) (h : BlockHash) : list BlockHash :=
  match get_block st h with Some b => parent_hashes (header b) | None => [] end.
End Derived.

(** What a store in a good state ([store_ok]) promises. *)
Class BlockStoreLaws (St : Type) `{BlockStoreI St} := {
  store_ok : St -> Prop;
  exists_get st h : store_ok st -> block_exists st h = bool_decide (is_Some (get_block st h));
  hashes_get st h : store_ok st -> h ∈ get_all_hashes st <-> is_Some (get_block st h);
  hashes_nodup st : store_ok st -> NoDup (get_all_hashes st);
  get_hash st h b : store_ok st -> get_block st h = Some b -> block_hash b = h;
  insert_keeps_ok st b : store_ok st -> length (block_hash b) = 32%nat ->
    store_ok (insert_block b st).2;
  insert_ok_get st b h : store_ok st -> length (block_hash b) = 32%nat ->
    is_ok (insert_block b st).1 = true ->
    get_block (insert_block b st).2 h =
      if decide (h = block_hash b) then Some b else get_block st h;
  insert_err_get st b h : store_ok st -> length (block_hash b) = 32%nat ->
    is_ok (insert_block b st).1 = false ->
    get_block (insert_block b st).2 h = get_block st h
}.

Section StoreFacts.
Context {St : Type} `{BlockStoreLaws St}.
Implicit Types st : St.

Lemma elem_of_get_all_blocks st b :
  store_ok st -> b ∈ get_all_blocks st <-> get_block st (block_hash b) = Some b.
Proof.
  intros Hok. unfold get_all_blocks. rewrite list_elem_of_omap. split.
  - intros (h & Hh & Hb). by rewrite (get_hash st h b Hok Hb).
  - intros Hb. exists (block_hash b). split; [|done]. apply hashes_get; eauto.
Qed.

Lemma get_all_blocks_hashes st :
  store_ok st -> block_hash <$> get_all_blocks st = get_all_hashes st.
Proof.
  intros Hok. unfold get_all_blocks.
  assert (forall l : list BlockHash, (forall h, h ∈ l -> is_Some (get_block st h)) ->
    block_hash <$> omap (get_block st) l = l) as Hl.
  { induction l as [|h l IH]; intros Hin; [done|]. simpl.
    destruct (Hin h) as [b Hb]; [left|]. rewrite Hb. simpl.
    rewrite (get_hash st h b Hok Hb). f_equal. apply IH. intros h' ?. apply Hin. by right. }
  apply Hl. intros h. by apply hashes_get.
Qed.

Lemma get_all_blocks_length st : store_ok st -> length (get_all_blocks st) = block_count st.
Proof. intros Hok. rewrite <- (length_fmap block_hash). by rewrite get_all_blocks_hashes. Qed.

Lemma NoDup_get_all_blocks st : store_ok st -> NoDup (get_all_blocks st).
Proof.
  intros Hok. apply (NoDup_fmap_1 block_hash). rewrite get_all_blocks_hashes by done.
  by apply hashes_nodup.
Qed.

Lemma elem_of_get_blocks_by_parent st parent b :
  store_ok st -> b ∈ get_blocks_by_parent st parent <->
    get_block st (block_hash b) = Some b /\ parent ∈ parent_hashes (header b).
Proof.
  intros Hok. unfold get_blocks_by_parent.
  rewrite list_elem_of_filter, elem_of_get_all_blocks by done. naive_solver.
Qed.

Lemma elem_of_parents_of st h p :
  p ∈ parents_of st h <-> exists b, get_block st h = Some b /\ p ∈ parent_hashes (header b).
Proof.
  unfold parents_of. destruct (get_block st h) as [b|]; split.
  - eauto.
  - by intros (? & [= <-] & ?).
  - by intros ?%not_elem_of_nil.
  - by intros (? & ? & ?).
Qed.

(** Inserting a new block adds one hash. *)
Lemma insert_ok_count st b :
  store_ok st -> length (block_hash b) = 32%nat -> is_ok (insert_block b st).1 = true ->
  get_block st (block_hash b) = None ->
  block_count (insert_block b st).2 = S (block_count st).
Proof.
  intros Hok Hl Hi Hnone. pose proof (insert_keeps_ok st b Hok Hl) as Hok'.
  assert (get_all_hashes (insert_block b st).2 ≡ₚ block_hash b :: get_all_hashes st) as Hp.
  { apply NoDup_Permutation; [by apply hashes_nodup| |].
    - constructor; [|by apply hashes_nodup]. rewrite hashes_get, Hnone by done. by intros [].
    - intros h. rewrite elem_of_cons, !hashes_get, insert_ok_get by done.
      case_decide as Hd; [subst; split; [by left|eauto]|]. split; [by right|by intros [|]]. }
  unfold block_count. by rewrite Hp.
Qed.
End StoreFacts.

(** ** The in-memory instance *)

Definition MemStore : Type := gmap BlockHash Block.

#[export] Instance mem_store : BlockStoreI MemStore := {
  get_block st h := st !! h;
  block_exists st h := bool_decide (is_Some (st !! h));
  get_all_hashes st := (map_to_list st).*1;
  insert_block b st := (Ok tt, <[block_hash b := b]> st);
  total_size st := 0
}.

Definition mem_ok (st : MemStore) : Prop := forall h b, st !! h = Some b -> block_hash b = h.

#[export, refine] Instance mem_store_laws : BlockStoreLaws MemStore := { store_ok := mem_ok }.
Proof.
  - done.
  - intros st h _. simpl. rewrite list_elem_of_fmap. split.
    + intros ([h' b] & -> & Hin%elem_of_map_to_list). simpl. eauto.
    + intros [b Hb]. exists (h, b). split; [done|]. by apply elem_of_map_to_list.
  - intros st _. apply NoDup_fst_map_to_list.
  - intros st h b Hok Hb. by apply Hok.
  - intros st b Hok _ h b'. simpl. intros [[<- <-]|[_ Hb]]%lookup_insert_Some; [done|].
    by apply Hok.
  - intros st b h _ _ _. simpl. destruct (decide (h = block_hash b)) as [->|Hne].
    + apply lookup_insert_eq.
    + by apply lookup_insert_ne.
  - by intros st b h _ _ ?.
Defined.

Lemma mem_ok_empty : mem_ok ∅.
Proof. intros h b Hb. by apply lookup_empty_Some in Hb. Qed.
