(* ===== verification/DagIndex.v ===== *)
(** The DAG index: [src/src/dag/dag_index.rs].

    Children lists and tips, the ancestor and descendant searches, the lowest
    common ancestor, Kahn's topological order and the block depth, all over the
    store interface of [Store.v].  [index_ok] relates an index to its store;
    [dag_shape] is what makes the store a DAG. *)
From S2P Require Import Prelude Crypto Transaction Floats Mining Block Graph Store.

Record DAGIndex := {
  parent_to_children : gmap BlockHash (list BlockHash);
  tips : gset BlockHash
}.

Definition new : DAGIndex := {| parent_to_children := ∅; tips := ∅ |}.

(** [entry(p).or_insert_with(Vec::new).push(c)] *)
Definition push_child (c : BlockHash) (m : gmap BlockHash (list BlockHash)) (p : BlockHash)
    : gmap BlockHash (list BlockHash) := <[p := default [] (m !! p) ++ [c]]> m.

Definition add_edges (m : gmap BlockHash (list BlockHash)) (b : Block) :=
  foldl (push_child (block_hash b)) m (parent_hashes (header b)).

Definition remove_parents (t : gset BlockHash) (b : Block) : gset BlockHash :=
  foldl (fun t p => t ∖ {[p]}) t (parent_hashes (header b)).

Definition get_children (idx : DAGIndex) (h : BlockHash) : list BlockHash :=
  default [] (parent_to_children idx !! h).

Definition update_tips_after_insert (b : Block) (idx : DAGIndex) : DAGIndex :=
  {| parent_to_children := add_edges (parent_to_children idx) b;
     tips := remove_parents ({[block_hash b]} ∪ tips idx) b |}.

Definition is_tip (idx : DAGIndex) (h : BlockHash) : bool := bool_decide (h ∈ tips idx).

Definition get_tips `{HashOrder} (idx : DAGIndex) : list BlockHash := hs_iter (tips idx).

(** Every child listed, with repetitions: bounds the descendant search. *)
Definition all_children (idx : DAGIndex) : list BlockHash :=
  concat (map_to_list (parent_to_children idx)).*2.

Definition get_all_descendants (idx : DAGIndex) (h : BlockHash) : gset BlockHash :=
  bfs (get_children idx) (S (length (all_children idx))) [h] ∅.

(** The inner loop of Kahn's algorithm; [*count -= 1] is a [usize]. *)
Definition release_children (st : gmap BlockHash Z * list BlockHash) (children : list BlockHash)
    : gmap BlockHash Z * list BlockHash :=
  foldl (fun '(in_degree, queue) child =>
    match in_degree !! child with
    | Some count =>
        let count' := u64_sub count 1 in
        (<[child := count']> in_degree, if count' =? 0 then queue ++ [child] else queue)
    | None => (in_degree, queue)
    end) st children.

Fixpoint kahn (idx : DAGIndex) (fuel : nat) (in_degree : gmap BlockHash Z)
    (queue result : list BlockHash) : list BlockHash :=
  match queue with
  | [] => result
  | current :: queue' =>
      match fuel with
      | O => result
      | S fuel' =>
          let '(in_degree', queue'') :=
            release_children (in_degree, queue') (get_children idx current) in
          kahn idx fuel' in_degree' queue'' (result ++ [current])
      end
  end.

Section Index.
Context {St : Type} `{BlockStoreI St}.

Definition build_from_store (st : St) : DAGIndex :=
  let blocks := get_all_blocks st in
  {| parent_to_children := foldl add_edges ∅ blocks;
     tips := foldl remove_parents (list_to_set (block_hash <$> blocks)) blocks |}.

(** Every parent named by a stored block: bounds the ancestor searches. *)
Definition all_parents (st : St) : list BlockHash :=
  concat ((fun b => parent_hashes (header b)) <$> get_all_blocks st).

Definition get_all_ancestors (h : BlockHash) (st : St) : gset BlockHash :=
  bfs (parents_of st) (S (length (all_parents st))) [h] ∅.

Definition find_lca (hash1 hash2 : BlockHash) (st : St) : option BlockHash :=
  let ancestors1 := get_all_ancestors hash1 st in
  (worklist (parents_of st)
     (fun current => bool_decide (current ∈ ancestors1) || bool_decide (hash1 = current))
     (1 + length (all_parents st)) [hash2] ∅).1.

Definition get_reachable_blocks (hashes : list BlockHash) (st : St) : gset BlockHash :=
  (worklist (parents_of st) (fun _ => false)
     (length hashes + length (all_parents st)) hashes ∅).2.

Definition initial_degrees (st : St) : gmap BlockHash Z :=
  foldl (fun m b => <[block_hash b := Z.of_nat (length (parent_hashes (header b)))]> m)
    ∅ (get_all_blocks st).

Definition get_topological_order (idx : DAGIndex) (st : St) : list BlockHash :=
  let queue :=
    block_hash <$> filter (fun b => parent_hashes (header b) = []) (get_all_blocks st) in
  kahn idx (block_count st) (initial_degrees st) queue [].

(** One round of [get_block_depth]: the parents of the whole queue, each once. *)
Definition next_layer (st : St) (queue : list BlockHash) : list BlockHash :=
  foldl (fun acc p => if decide (p ∈ acc) then acc else acc ++ [p])
    [] (concat (parents_of st <$> queue)).

Fixpoint depth_loop (st : St) (fuel : nat) (queue : list BlockHash) (depth : nat) : nat :=
  match fuel with
  | O => depth
  | S fuel' =>
      match next_layer st queue with
      | [] => depth
      | next_queue => depth_loop st fuel' next_queue (S depth)
      end
  end.

Definition get_block_depth (h : BlockHash) (st : St) : nat :=
  depth_loop st (S (block_count st)) [h] 0.

Definition is_ancestor (ancestor_hash h : BlockHash) (st : St) : bool :=
  bool_decide (ancestor_hash ∈ get_all_ancestors h st).

Definition get_coparents (idx : DAGIndex) (h : BlockHash) (st : St) : gset BlockHash :=
  foldr (fun p acc => list_to_set (filter (fun c => c <> h) (get_children idx p)) ∪ acc)
    ∅ (parents_of st h).
End Index.

(** ** Counting occurrences *)

Definition occ (x : BlockHash) (l : list BlockHash) : nat := length (filter (fun y => y = x) l).

Lemma occ_nil x : occ x [] = 0%nat.
Proof. done. Qed.
Lemma occ_cons x y l : occ x (y :: l) = ((if decide (y = x) then 1 else 0) + occ x l)%nat.
Proof. unfold occ. rewrite filter_cons. by case_decide. Qed.
Lemma occ_app x l1 l2 : occ x (l1 ++ l2) = (occ x l1 + occ x l2)%nat.
Proof. unfold occ. by rewrite filter_app, length_app. Qed.
Lemma occ_single x y : occ x [y] = if decide (y = x) then 1%nat else 0%nat.
Proof. rewrite occ_cons, occ_nil. case_decide; lia. Qed.
Lemma elem_of_occ x l : x ∈ l <-> (0 < occ x l)%nat.
Proof.
  induction l as [|y l IH]; [rewrite occ_nil; split; [by intros ?%not_elem_of_nil|lia]|].
  rewrite elem_of_cons, IH, occ_cons. case_decide; naive_solver lia.
Qed.
Lemma not_elem_of_occ x l : x ∉ l <-> occ x l = 0%nat.
Proof. rewrite elem_of_occ. lia. Qed.

(** Lists with the same occurrence counts are permutations of each other. *)
Lemma occ_Permutation l1 l2 : (forall x, occ x l1 = occ x l2) -> l1 ≡ₚ l2.
Proof.
  revert l2. induction l1 as [|x l1 IH]; intros l2 Hocc.
  - destruct l2 as [|y l2]; [done|]. specialize (Hocc y). rewrite occ_nil, occ_cons in Hocc.
    rewrite decide_True in Hocc by done. lia.
  - assert (x ∈ l2) as (l & k & ->)%list_elem_of_split.
    { apply elem_of_occ. rewrite <- Hocc, occ_cons, decide_True by done. lia. }
    rewrite <- Permutation_middle. constructor. apply IH. intros y.
    specialize (Hocc y). rewrite occ_app, !occ_cons in Hocc. rewrite occ_app. lia.
Qed.

(** ** The index of a store *)

Lemma get_children_add_edges m b tips p c :
  occ c (get_children {| parent_to_children := add_edges m b; tips := tips |} p) =
  (occ c (default [] (m !! p)) +
   if decide (c = block_hash b) then occ p (parent_hashes (header b)) else 0)%nat.
Proof.
  unfold get_children, add_edges. simpl. generalize (parent_hashes (header b)) as ps.
  intros ps. revert m. induction ps as [|q ps IH]; intros m.
  - simpl. case_decide; [rewrite occ_nil|]; lia.
  - simpl. rewrite IH. unfold push_child. rewrite occ_cons.
    destruct (decide (q = p)) as [->|Hne].
    + rewrite lookup_insert_eq. simpl. rewrite occ_app, occ_single.
      repeat case_decide; simplify_eq; lia.
    + rewrite lookup_insert_ne by done. repeat case_decide; lia.
Qed.

Lemma elem_of_remove_parents t b h :
  h ∈ remove_parents t b <-> h ∈ t /\ h ∉ parent_hashes (header b).
Proof.
  unfold remove_parents. generalize (parent_hashes (header b)) as ps. intros ps. revert t.
  induction ps as [|p ps IH]; intros t; simpl.
  - split; [split; [done|apply not_elem_of_nil]|by intros [? _]].
  - rewrite IH, elem_of_difference, elem_of_singleton, not_elem_of_cons. naive_solver.
Qed.

Section IndexFacts.
Context {St : Type} `{BlockStoreLaws St}.
Implicit Types (st : St) (idx : DAGIndex).

(** An index mirrors a store: a child is listed under a parent once for every
    time it names it, and the tips are the stored blocks nothing refers to. *)
Definition index_ok (idx : DAGIndex) (st : St) : Prop :=
  (forall p c, occ c (get_children idx p) = occ p (parents_of st c)) /\
  (forall h, h ∈ tips idx <-> is_Some (get_block st h) /\ forall c, h ∉ parents_of st c).

(** What makes the store a DAG: every parent is stored, parents have a smaller
    rank than their children, and parent lists fit in a [Vec]. *)
Record dag_shape (rank : BlockHash -> nat) (st : St) : Prop := {
  shape_ok : store_ok st;
  shape_closed : forall c p, p ∈ parents_of st c -> is_Some (get_block st p);
  shape_rank : forall c p, p ∈ parents_of st c -> (rank p < rank c)%nat;
  shape_sized : forall c, Z.of_nat (length (parents_of st c)) <= u64_max
}.

Lemma get_children_elem idx st p c :
  index_ok idx st -> c ∈ get_children idx p <-> p ∈ parents_of st c.
Proof. intros [Hc _]. by rewrite !elem_of_occ, Hc. Qed.

Lemma parents_of_stored st c p : p ∈ parents_of st c -> is_Some (get_block st c).
Proof. rewrite elem_of_parents_of. intros (b & -> & _). eauto. Qed.

Lemma parents_of_get st c b :
  get_block st c = Some b -> parents_of st c = parent_hashes (header b).
Proof. intros Hc. unfold parents_of. by rewrite Hc. Qed.

(** The occurrences contributed by the block with hash [c], summed over a list. *)
Definition sum_at (c : BlockHash) (f : Block -> nat) (blocks : list Block) : nat :=
  foldr (fun b n => (if decide (c = block_hash b) then f b else 0) + n)%nat 0%nat blocks.

Lemma sum_at_absent c f blocks : c ∉ block_hash <$> blocks -> sum_at c f blocks = 0%nat.
Proof.
  induction blocks as [|b blocks IH]; [done|]. simpl.
  intros [Hne Hl]%not_elem_of_cons. rewrite decide_False by done. auto.
Qed.

Lemma sum_at_present b f blocks :
  NoDup (block_hash <$> blocks) -> b ∈ blocks -> sum_at (block_hash b) f blocks = f b.
Proof.
  induction blocks as [|b' blocks IH]; [by intros _ ?%not_elem_of_nil|].
  simpl. intros [Hn Hnd]%NoDup_cons [Heq|Hin]%elem_of_cons.
  - subst b'. rewrite decide_True, sum_at_absent by done. lia.
  - rewrite decide_False; [by apply IH|].
    intros Heq. apply Hn. rewrite <- Heq. by apply list_elem_of_fmap_2.
Qed.

Lemma build_children_occ blocks m p c :
  occ c (default [] (foldl add_edges m blocks !! p)) =
  (occ c (default [] (m !! p)) +
   sum_at c (fun b => occ p (parent_hashes (header b))) blocks)%nat.
Proof.
  revert m. induction blocks as [|b blocks IH]; intros m; simpl; [lia|].
  rewrite IH. pose proof (get_children_add_edges m b ∅ p c) as Hadd.
  unfold get_children in Hadd. simpl in Hadd. rewrite Hadd. lia.
Qed.

Lemma elem_of_remove_all t blocks h :
  h ∈ foldl remove_parents t blocks <->
  h ∈ t /\ forall b, b ∈ blocks -> h ∉ parent_hashes (header b).
Proof.
  revert t. induction blocks as [|b blocks IH]; intros t; simpl.
  - split; [intros ?; split; [done|by intros b ?%not_elem_of_nil]|by intros [? _]].
  - rewrite IH, elem_of_remove_parents. setoid_rewrite elem_of_cons. naive_solver.
Qed.

(** Rebuilding from the store gives an index that mirrors it. *)
Lemma build_from_store_ok st : store_ok st -> index_ok (build_from_store st) st.
Proof.
  intros Hok. assert (NoDup (block_hash <$> get_all_blocks st)) as Hnd.
  { rewrite get_all_blocks_hashes by done. by apply hashes_nodup. }
  split.
  - intros p c. unfold get_children, build_from_store. simpl.
    rewrite build_children_occ, lookup_empty. simpl.
    unfold parents_of. destruct (get_block st c) as [b|] eqn:Hb.
    + pose proof (get_hash st c b Hok Hb) as <-. simpl.
      apply sum_at_present; [done|]. by apply elem_of_get_all_blocks.
    + rewrite sum_at_absent; [done|]. rewrite get_all_blocks_hashes, hashes_get, Hb by done.
      by intros [].
  - intros h. unfold build_from_store. simpl.
    rewrite elem_of_remove_all, elem_of_list_to_set, get_all_blocks_hashes, hashes_get by done.
    apply and_iff_compat_l. split.
    + intros Hb c (b & Hc & Hp)%elem_of_parents_of. apply (Hb b); [|done].
      apply elem_of_get_all_blocks; [done|]. by rewrite (get_hash st c b Hok Hc).
    + intros Hc b Hb%elem_of_get_all_blocks Hp; [|done].
      apply (Hc (block_hash b)). apply elem_of_parents_of. eauto.
Qed.

(** So does updating it incrementally with a new block nothing refers to yet. *)
Lemma update_tips_ok idx st st' b :
  index_ok idx st ->
  (forall h, get_block st' h = if decide (h = block_hash b) then Some b else get_block st h) ->
  get_block st (block_hash b) = None -> (forall c, block_hash b ∉ parents_of st c) ->
  index_ok (update_tips_after_insert b idx) st'.
Proof.
  intros [Hch Htips] Hget Hnew Hunref.
  assert (forall c, parents_of st' c =
    if decide (c = block_hash b) then parent_hashes (header b) else parents_of st c) as Hpar.
  { intros c. unfold parents_of. rewrite Hget. by case_decide. }
  split.
  - intros p c. unfold update_tips_after_insert. rewrite get_children_add_edges.
    fold (get_children idx p). rewrite Hch, Hpar. case_decide as Hc; [|lia].
    subst c. unfold parents_of. rewrite Hnew, occ_nil. lia.
  - intros h. simpl. rewrite elem_of_remove_parents, elem_of_union, elem_of_singleton, Htips, Hget.
    setoid_rewrite Hpar. destruct (decide (h = block_hash b)) as [->|Hne].
    + split.
      * intros [_ Hp]. split; [eauto|]. intros c. by case_decide.
      * intros [_ Hp]. split; [by left|]. specialize (Hp (block_hash b)).
        by rewrite decide_True in Hp.
    + split.
      * intros [[?|[Hs Hc]] Hp]; [done|]. split; [done|]. intros c. by case_decide.
      * intros [Hs Hc]. pose proof (Hc (block_hash b)) as Hp. rewrite decide_True in Hp by done.
        split; [right; split; [done|]|done]. intros c. destruct (decide (c = block_hash b)) as [->|Hcb].
        -- unfold parents_of. rewrite Hnew. apply not_elem_of_nil.
        -- specialize (Hc c). by rewrite decide_False in Hc.
Qed.

(** ** The searches *)

Lemma parents_in_all st c p : store_ok st -> p ∈ parents_of st c -> p ∈ all_parents st.
Proof.
  intros Hok (b & Hb & Hp)%elem_of_parents_of. unfold all_parents.
  apply list_elem_of_In, in_concat. exists (parent_hashes (header b)).
  rewrite <- !list_elem_of_In. split; [|done].
  apply list_elem_of_fmap. exists b. split; [done|]. apply elem_of_get_all_blocks; [done|].
  by rewrite (get_hash st c b Hok Hb).
Qed.

Lemma all_parents_concat st :
  store_ok st -> all_parents st = concat (parents_of st <$> get_all_hashes st).
Proof.
  intros Hok. unfold all_parents. rewrite <- get_all_blocks_hashes by done.
  rewrite <- list_fmap_compose. f_equal. apply list_fmap_ext. intros i b Hb. simpl.
  symmetry. apply parents_of_get. apply elem_of_get_all_blocks; [done|].
  by apply list_elem_of_lookup_2 in Hb.
Qed.

Lemma get_all_ancestors_reach h st x :
  store_ok st -> x ∈ get_all_ancestors h st <-> reach (parents_of st) h x.
Proof.
  intros Hok. unfold get_all_ancestors.
  apply (bfs_reach (parents_of st) h (list_to_set (all_parents st))).
  - intros c p Hp. apply elem_of_list_to_set. by eapply parents_in_all.
  - pose proof (size_list_to_set_le (all_parents st)). lia.
Qed.

Lemma reach_children idx st x y :
  index_ok idx st -> reach (get_children idx) x y <-> reach (parents_of st) y x.
Proof.
  intros Hidx. split; induction 1 as [x y Hxy|x y z Hxy _ IH].
  - apply tc_once. by apply (get_children_elem idx).
  - eapply reach_snoc; [exact IH|]. by apply (get_children_elem idx).
  - apply tc_once. by apply (get_children_elem idx st).
  - eapply reach_snoc; [exact IH|]. by apply (get_children_elem idx st).
Qed.

Lemma get_all_descendants_reach idx h st x :
  index_ok idx st -> x ∈ get_all_descendants idx h <-> reach (parents_of st) x h.
Proof.
  intros Hidx. rewrite <- (reach_children idx) by done. unfold get_all_descendants.
  apply (bfs_reach (get_children idx) h (list_to_set (all_children idx))).
  - intros p c Hc. apply elem_of_list_to_set. unfold get_children in Hc.
    destruct (parent_to_children idx !! p) as [cs|] eqn:Hp; [|by apply not_elem_of_nil in Hc].
    apply list_elem_of_In, in_concat. exists cs. rewrite <- !list_elem_of_In. split; [|done].
    apply list_elem_of_fmap. exists (p, cs). split; [done|]. by apply elem_of_map_to_list.
  - pose proof (size_list_to_set_le (all_children idx)). lia.
Qed.

Lemma worklist_store stop starts st fuel :
  store_ok st -> (length starts + length (all_parents st) <= fuel)%nat ->
  match worklist (parents_of st) stop fuel starts ∅ with
  | (Some c, _) => stop c = true /\ from_starts (parents_of st) starts c
  | (None, seen) =>
      (forall y, y ∈ seen <-> from_starts (parents_of st) starts y) /\
      (forall y, from_starts (parents_of st) starts y -> stop y = false)
  end.
Proof.
  intros Hok Hf.
  apply (worklist_start (parents_of st) starts (list_to_set (starts ++ all_parents st))).
  - intros x Hx. apply elem_of_list_to_set, elem_of_app. by left.
  - intros x y _ Hy. apply elem_of_list_to_set, elem_of_app. right. by eapply parents_in_all.
  - etransitivity; [|exact Hf]. apply Nat.add_le_mono_l. rewrite !all_parents_concat by done.
    apply owed_bound. intros x Hx. apply hashes_get; [done|].
    destruct (parents_of st x) as [|p ps] eqn:Hp; [done|].
    apply (parents_of_stored st x p). rewrite Hp. left.
Qed.

(** A hash and its ancestors. *)
Definition self_or_ancestor (st : St) (x h : BlockHash) : Prop := reach_refl (parents_of st) h x.

(** C19: [get_all_ancestors] returns exactly the blocks reachable over
    parent links, in any store, and on a mirroring index [get_all_descendants]
    is its converse; [is_ancestor] decides the relation. *)
Theorem ancestors_descendants_spec idx st h x :
  store_ok st -> index_ok idx st ->
  (x ∈ get_all_ancestors h st <-> reach (parents_of st) h x) /\
  (x ∈ get_all_descendants idx h <-> h ∈ get_all_ancestors x st) /\
  is_ancestor x h st = bool_decide (h ∈ get_all_descendants idx x).
Proof.
  intros Hok Hidx. unfold is_ancestor.
  rewrite (bool_decide_ext (x ∈ get_all_ancestors h st) (h ∈ get_all_descendants idx x)).
  - by rewrite (get_all_descendants_reach idx h st), !get_all_ancestors_reach.
  - by rewrite (get_all_descendants_reach idx x st), get_all_ancestors_reach.
Qed.

(** [find_lca] returns a block that is [hash1] or one of its ancestors
    and [hash2] or one of its ancestors, and returns nothing only when no such
    block exists. *)
Theorem find_lca_spec st hash1 hash2 :
  store_ok st ->
  match find_lca hash1 hash2 st with
  | Some c => self_or_ancestor st c hash1 /\ self_or_ancestor st c hash2
  | None => forall c, ~ (self_or_ancestor st c hash1 /\ self_or_ancestor st c hash2)
  end.
Proof.
  intros Hok. unfold find_lca.
  set (stop := fun c => bool_decide (c ∈ get_all_ancestors hash1 st) || bool_decide (hash1 = c)).
  assert (forall c, stop c = true <-> self_or_ancestor st c hash1) as Hstop.
  { intros c. unfold stop, self_or_ancestor, reach_refl.
    rewrite orb_true_iff, !bool_decide_eq_true, get_all_ancestors_reach by done. tauto. }
  pose proof (worklist_store stop [hash2] st (1 + length (all_parents st)) Hok (le_n _)) as Hw.
  destruct (worklist _ _ _ _ _) as [[c|] seen]; simpl.
  - destruct Hw as [Hc (x & Hx & Hr)]. apply list_elem_of_singleton in Hx as ->.
    split; [by apply Hstop|done].
  - destruct Hw as [_ Hno]. intros c [H1 H2]. apply Hstop in H1.
    rewrite Hno in H1; [done|]. exists hash2. split; [left|done].
Qed.

(** [get_reachable_blocks] returns the given hashes and all their
    ancestors. *)
Theorem get_reachable_blocks_spec st hashes x :
  store_ok st ->
  x ∈ get_reachable_blocks hashes st <-> exists h, h ∈ hashes /\ self_or_ancestor st x h.
Proof.
  intros Hok. unfold get_reachable_blocks.
  pose proof (worklist_store (fun _ => false) hashes st _ Hok (le_n _)) as Hw.
  destruct (worklist _ _ _ _ _) as [[c|] seen]; simpl; [by destruct Hw|]. apply Hw.
Qed.

(** [get_coparents] returns the other blocks that share a parent. *)
Theorem get_coparents_spec idx st h x :
  index_ok idx st ->
  x ∈ get_coparents idx h st <->
    x <> h /\ exists p, p ∈ parents_of st h /\ p ∈ parents_of st x.
Proof.
  intros Hidx. unfold get_coparents.
  induction (parents_of st h) as [|p ps IH]; simpl.
  - split; [by intros ?%not_elem_of_empty|by intros (_ & p & ?%not_elem_of_nil & _)].
  - rewrite elem_of_union, elem_of_list_to_set, list_elem_of_filter, IH.
    rewrite (get_children_elem idx st p x Hidx). setoid_rewrite elem_of_cons. naive_solver.
Qed.

(** ** Kahn's algorithm *)

Lemma release_children_spec deg queue children (f : BlockHash -> nat) :
  (forall c, match deg !! c with
             | Some n => n = Z.of_nat (f c) /\ n <= u64_max /\ (occ c children <= f c)%nat
             | None => True end) ->
  let '(deg', queue') := release_children (deg, queue) children in
  (forall c, deg' !! c = match deg !! c with
             | Some n => Some (Z.of_nat (f c - occ c children)) | None => None end) /\
  exists fresh, queue' = queue ++ fresh /\ NoDup fresh /\
    forall c, c ∈ fresh <-> c ∈ children /\ is_Some (deg !! c) /\ f c = occ c children.
Proof.
  revert deg queue f. induction children as [|x l IH]; intros deg queue f Hdeg; simpl.
  - split.
    + intros c. specialize (Hdeg c). destruct (deg !! c) as [n|]; [|done].
      destruct Hdeg as [-> _]. rewrite occ_nil. f_equal. lia.
    + exists []. rewrite app_nil_r. split; [done|]. split; [constructor|].
      intros c. split; [by intros ?%not_elem_of_nil|by intros [?%not_elem_of_nil _]].
  - destruct (deg !! x) as [n|] eqn:Hx.
    + pose proof (Hdeg x) as Hdx. rewrite Hx in Hdx. destruct Hdx as (Hn & Hmax & Hocc).
      rewrite occ_cons, decide_True in Hocc by done.
      assert (u64_sub n 1 = Z.of_nat (f x - 1)) as Hsub by (rewrite u64_sub_small; lia).
      set (g := fun c => if decide (c = x) then (f x - 1)%nat else f c).
      specialize (IH (<[x:=u64_sub n 1]> deg)
        (if u64_sub n 1 =? 0 then queue ++ [x] else queue) g).
      destruct (release_children _ l) as [deg' queue'].
      destruct IH as (Hl & fresh & -> & Hnd & Hin).
      { intros c. unfold g. specialize (Hdeg c). rewrite occ_cons in Hdeg.
        destruct (decide (c = x)) as [->|Hne].
        - rewrite lookup_insert_eq, Hsub. lia.
        - rewrite lookup_insert_ne by done. rewrite decide_False in Hdeg by done. exact Hdeg. }
      split.
      { intros c. rewrite Hl, occ_cons. unfold g. destruct (decide (c = x)) as [->|Hne].
        - rewrite lookup_insert_eq, Hx, decide_True by done. do 2 f_equal. lia.
        - rewrite lookup_insert_ne, decide_False by done. done. }
      assert (forall c, is_Some (<[x:=u64_sub n 1]> deg !! c) <-> is_Some (deg !! c)) as Hsome.
      { intros c. rewrite lookup_insert_is_Some'. split; [intros [<-|]; eauto|by right]. }
      setoid_rewrite Hsome in Hin. rewrite Hsub.
      destruct (Z.of_nat (f x - 1) =? 0) eqn:Hz.
      * exists (x :: fresh). rewrite <- app_assoc. split; [done|].
        apply Z.eqb_eq in Hz. assert (x ∉ l) as Hxl by (apply not_elem_of_occ; lia).
        split; [constructor; [|done]; rewrite Hin; by intros [? _]|].
        intros c. rewrite !elem_of_cons, Hin, occ_cons. unfold g.
        destruct (decide (c = x)) as [->|Hne].
        -- rewrite decide_True by done. apply not_elem_of_occ in Hxl.
           split; [intros _|by left]. split; [by left|]. split; [by eauto|]. lia.
        -- rewrite decide_False by done. naive_solver.
      * exists fresh. split; [done|]. split; [done|]. apply Z.eqb_neq in Hz.
        intros c. rewrite elem_of_cons, Hin, occ_cons. unfold g.
        destruct (decide (c = x)) as [->|Hne].
        -- rewrite decide_True, elem_of_occ by done. split; [intros (? & ? & ?)|intros (_ & ? & ?)].
           ++ split; [by left|]. split; [done|lia].
           ++ split; [lia|]. split; [done|lia].
        -- rewrite decide_False by done. naive_solver.
    + specialize (IH deg queue f). destruct (release_children _ l) as [deg' queue'].
      assert (forall c, is_Some (deg !! c) -> c <> x) as Hcx.
      { intros c [? Hc] ->. by rewrite Hx in Hc. }
      destruct IH as (Hl & fresh & -> & Hnd & Hin).
      { intros c. specialize (Hdeg c). rewrite occ_cons in Hdeg.
        destruct (deg !! c) as [m|] eqn:Hc; [|done]. lia. }
      split.
      { intros c. rewrite Hl, occ_cons. destruct (deg !! c) eqn:Hc; [|done].
        rewrite decide_False; [done|]. intros Heq. by apply (Hcx c). }
      exists fresh. split; [done|]. split; [done|]. intros c. rewrite Hin, elem_of_cons, occ_cons.
      split; intros (Hc & Hs & Hf).
      * rewrite decide_False; [|intros Heq; by apply (Hcx c)]. auto.
      * rewrite decide_False in Hf by (intros Heq; by apply (Hcx c)).
        destruct Hc as [->|Hc]; [by destruct (Hcx x)|auto].
Qed.

(** Parents of [c] not yet emitted. *)
Definition waiting (st : St) (done_ : list BlockHash) (c : BlockHash) : nat :=
  length (filter (fun p => p ∉ done_) (parents_of st c)).

Lemma waiting_le st l c : (waiting st l c <= length (parents_of st c))%nat.
Proof. apply length_filter. Qed.

Lemma waiting_snoc st l x c :
  x ∉ l -> waiting st l c = (waiting st (l ++ [x]) c + occ x (parents_of st c))%nat.
Proof.
  intros Hx. unfold waiting, occ. induction (parents_of st c) as [|p ps IH]; [done|].
  rewrite !filter_cons.
  destruct (decide (p = x)) as [->|Hp].
  - rewrite (decide_True (P := x ∉ l)), (decide_False (P := x ∉ l ++ [x]))
      by (rewrite ?elem_of_app, ?list_elem_of_singleton; tauto).
    simpl. lia.
  - destruct (decide (p ∈ l)) as [Hl|Hl].
    + rewrite (decide_False (P := p ∉ l)), (decide_False (P := p ∉ l ++ [x]))
        by (rewrite ?elem_of_app; tauto). done.
    + rewrite (decide_True (P := p ∉ l)), (decide_True (P := p ∉ l ++ [x])); [simpl; lia| |done].
      rewrite elem_of_app, list_elem_of_singleton. tauto.
Qed.

Lemma waiting_zero st l c : waiting st l c = 0%nat <-> forall p, p ∈ parents_of st c -> p ∈ l.
Proof.
  unfold waiting. rewrite length_zero_iff_nil.
  split.
  - intros Hf p Hp. destruct (decide (p ∈ l)); [done|].
    assert (p ∈ filter (fun p => p ∉ l) (parents_of st c)) as Hin by by apply list_elem_of_filter.
    rewrite Hf in Hin. by apply not_elem_of_nil in Hin.
  - intros Hall. destruct (filter _ _) as [|p ps] eqn:Hf; [done|].
    assert (p ∈ filter (fun p => p ∉ l) (parents_of st c)) as Hin by (rewrite Hf; left).
    apply list_elem_of_filter in Hin as [? ?]. naive_solver.
Qed.

(** [l] lists blocks with every parent before its children. *)
Definition topologically_ordered (st : St) (l : list BlockHash) : Prop :=
  forall i c p, l !! i = Some c -> p ∈ parents_of st c -> exists j, (j < i)%nat /\ l !! j = Some p.

Lemma topologically_ordered_snoc st l c :
  topologically_ordered st l -> (forall p, p ∈ parents_of st c -> p ∈ l) ->
  topologically_ordered st (l ++ [c]).
Proof.
  intros Hl Hc i x p Hi Hp. apply lookup_app_Some in Hi as [Hi|[Hlen Hi]].
  - destruct (Hl i x p Hi Hp) as (j & Hj & Hpj). exists j. split; [done|].
    by apply lookup_app_l_Some.
  - apply list_lookup_singleton_Some in Hi as [Hi <-].
    destruct (list_elem_of_lookup_1 _ _ (Hc p Hp)) as [j Hj]. exists j.
    split; [apply lookup_lt_Some in Hj; lia|by apply lookup_app_l_Some].
Qed.

Definition kahn_inv (st : St) (deg : gmap BlockHash Z) (queue res : list BlockHash) : Prop :=
  (forall c, deg !! c = if decide (is_Some (get_block st c))
                        then Some (Z.of_nat (waiting st res c)) else None) /\
  NoDup (res ++ queue) /\
  (forall c, c ∈ res ++ queue <-> is_Some (get_block st c) /\ waiting st res c = 0%nat) /\
  topologically_ordered st res.

Lemma kahn_inv_step idx st rank deg x queue res :
  dag_shape rank st -> index_ok idx st -> kahn_inv st deg (x :: queue) res ->
  let '(deg', queue') := release_children (deg, queue) (get_children idx x) in
  kahn_inv st deg' queue' (res ++ [x]).
Proof.
  intros Hsh Hidx (Hdeg & Hnd & Hin & Hord).
  assert (x ∉ res) as Hxr.
  { apply NoDup_app in Hnd as (_ & Hd & _). intros Hx. apply (Hd x Hx). left. }
  assert (forall c, occ c (get_children idx x) = occ x (parents_of st c)) as Hocc.
  { intros c. apply (proj1 Hidx). }
  pose proof (release_children_spec deg queue (get_children idx x) (waiting st res)) as Hrel.
  destruct (release_children _ _) as [deg' queue']. destruct Hrel as (Hd' & fresh & -> & Hfn & Hfin).
  { intros c. rewrite Hdeg. case_decide; [|done]. split; [done|].
    pose proof (waiting_le st res c). pose proof (shape_sized rank st Hsh c).
    rewrite Hocc. pose proof (waiting_snoc st res x c Hxr). lia. }
  assert (forall c, is_Some (deg !! c) <-> is_Some (get_block st c)) as Hds.
  { intros c. rewrite Hdeg. case_decide as Hc; split; intros Hs; eauto; [by destruct Hs|done]. }
  setoid_rewrite Hds in Hfin. setoid_rewrite Hocc in Hfin.
  assert (forall c, c ∈ fresh <->
    is_Some (get_block st c) /\ (0 < waiting st res c)%nat /\ waiting st (res ++ [x]) c = 0%nat) as Hfresh.
  { intros c. rewrite Hfin, elem_of_occ, Hocc. pose proof (waiting_snoc st res x c Hxr).
    split; intros (? & ? & ?); (split; [|split]); auto; lia. }
  split; [|split; [|split]].
  - intros c. rewrite Hd', Hdeg, Hocc. case_decide; [|done].
    pose proof (waiting_snoc st res x c Hxr). do 2 f_equal. lia.
  - rewrite <- app_assoc. simpl. change (x :: queue ++ fresh) with ((x :: queue) ++ fresh).
    rewrite app_assoc. apply NoDup_app. split; [done|]. split; [|done].
    intros c [_ Hw]%Hin (_ & Hw' & _)%Hfresh. lia.
  - intros c. transitivity (c ∈ res ++ x :: queue \/ c ∈ fresh).
    { rewrite !elem_of_app, !elem_of_cons, elem_of_nil. tauto. }
    rewrite Hin, Hfresh. pose proof (waiting_snoc st res x c Hxr).
    destruct (decide (waiting st res c = 0%nat)); naive_solver lia.
  - apply topologically_ordered_snoc; [done|]. apply waiting_zero.
    pose proof (waiting_snoc st res x x Hxr). enough (waiting st res x = 0%nat) by lia.
    apply Hin, elem_of_app. right. left.
Qed.

Lemma kahn_done st rank deg res :
  dag_shape rank st -> kahn_inv st deg [] res ->
  res ≡ₚ get_all_hashes st /\ topologically_ordered st res.
Proof.
  intros Hsh (_ & Hnd & Hin & Hord). rewrite app_nil_r in Hnd, Hin. split; [|done].
  apply NoDup_Permutation; [done|by apply hashes_nodup, (shape_ok rank)|].
  intros c. rewrite hashes_get by by apply (shape_ok rank). split; [by intros [? _]%Hin|].
  remember (rank c) as r eqn:Hr. revert c Hr. induction r as [r IH] using lt_wf_ind.
  intros c -> Hc. apply Hin. split; [done|]. apply waiting_zero. intros p Hp.
  apply (IH (rank p)); [by apply (shape_rank rank st)|done|by eapply shape_closed].
Qed.

Lemma kahn_inv_length st rank deg queue res :
  dag_shape rank st -> kahn_inv st deg queue res ->
  (length res + length queue <= block_count st)%nat.
Proof.
  intros Hsh (_ & Hnd & Hin & _). rewrite <- length_app. apply submseteq_length, NoDup_submseteq.
  - done.
  - intros c [? _]%Hin. by apply hashes_get; [apply (shape_ok rank)|].
Qed.

Lemma kahn_correct idx st rank fuel deg queue res :
  dag_shape rank st -> index_ok idx st -> kahn_inv st deg queue res ->
  (block_count st <= length res + fuel)%nat ->
  kahn idx fuel deg queue res ≡ₚ get_all_hashes st /\
  topologically_ordered st (kahn idx fuel deg queue res).
Proof.
  intros Hsh Hidx. revert deg queue res. induction fuel as [|fuel IH]; intros deg queue res Hinv Hf;
    (destruct queue as [|x queue]; [by eapply kahn_done|]); simpl.
  { pose proof (kahn_inv_length st rank deg _ res Hsh Hinv) as Hl. simpl in Hl. lia. }
  pose proof (kahn_inv_step idx st rank deg x queue res Hsh Hidx Hinv) as Hs.
  destruct (release_children _ _) as [deg' queue']. apply IH; [done|].
  rewrite length_app. simpl. lia.
Qed.

Lemma degrees_lookup (f : Block -> Z) (blocks : list Block) (m : gmap BlockHash Z) c v :
  (forall b, b ∈ blocks -> block_hash b = c -> f b = v) ->
  foldl (fun m b => <[block_hash b := f b]> m) m blocks !! c =
    if decide (c ∈ block_hash <$> blocks) then Some v else m !! c.
Proof.
  revert m. induction blocks as [|b blocks IH]; intros m Hv.
  - rewrite decide_False; [done|apply not_elem_of_nil].
  - rewrite fmap_cons. cbn [foldl]. rewrite IH by (intros b' Hb'; apply Hv; by right).
    destruct (decide (c ∈ block_hash <$> blocks)) as [Hin|Hin].
    + rewrite decide_True; [done|by right].
    + destruct (decide (c = block_hash b)) as [->|Hne].
      * rewrite decide_True by left. rewrite lookup_insert_eq. f_equal. apply Hv; [left|done].
      * rewrite decide_False by (rewrite elem_of_cons; tauto). by rewrite lookup_insert_ne.
Qed.

Lemma waiting_nil st c : waiting st [] c = length (parents_of st c).
Proof.
  unfold waiting. induction (parents_of st c) as [|p ps IH]; [done|].
  rewrite filter_cons, decide_True by apply not_elem_of_nil.
  change (S (length (filter (fun p => p ∉ []) ps)) = S (length ps)). by f_equal.
Qed.

Lemma initial_degrees_lookup st c :
  store_ok st ->
  initial_degrees st !! c = if decide (is_Some (get_block st c))
                            then Some (Z.of_nat (waiting st [] c)) else None.
Proof.
  intros Hok. unfold initial_degrees. rewrite waiting_nil.
  rewrite (degrees_lookup _ _ _ c (Z.of_nat (length (parents_of st c)))).
  - rewrite get_all_blocks_hashes by done.
    destruct (decide (is_Some (get_block st c))) as [Hc|Hc].
    + by rewrite decide_True by by apply hashes_get.
    + by rewrite decide_False, lookup_empty by by rewrite hashes_get.
  - intros b Hb <-. apply elem_of_get_all_blocks in Hb; [|done].
    by rewrite (parents_of_get st _ b Hb).
Qed.

Lemma kahn_inv_start st rank :
  dag_shape rank st ->
  kahn_inv st (initial_degrees st)
    (block_hash <$> filter (fun b => parent_hashes (header b) = []) (get_all_blocks st)) [].
Proof.
  intros Hsh. pose proof (shape_ok _ _ Hsh) as Hok.
  split; [|split; [|split]].
  - intros c. by apply initial_degrees_lookup.
  - simpl. apply NoDup_fmap_2_strong; [|by apply NoDup_filter, NoDup_get_all_blocks].
    intros b1 b2 Hb1%list_elem_of_filter Hb2%list_elem_of_filter Heq.
    destruct Hb1 as [_ Hb1%elem_of_get_all_blocks]; [|done].
    destruct Hb2 as [_ Hb2%elem_of_get_all_blocks]; [|done]. congruence.
  - intros c. simpl. rewrite waiting_nil, list_elem_of_fmap. setoid_rewrite list_elem_of_filter.
    setoid_rewrite elem_of_get_all_blocks; [|done]. unfold parents_of. split.
    + intros (b & -> & Hp & ->). rewrite Hp. eauto.
    + intros [[b Hb] Hl]. rewrite Hb in Hl. apply nil_length_inv in Hl. exists b.
      rewrite (get_hash st c b Hok Hb). done.
  - by intros i c p ?.
Qed.

Lemma kahn_order idx st rank :
  dag_shape rank st -> index_ok idx st ->
  get_topological_order idx st ≡ₚ get_all_hashes st /\
  topologically_ordered st (get_topological_order idx st).
Proof.
  intros Hsh Hidx. unfold get_topological_order.
  apply (kahn_correct idx st rank); [done|done|by eapply kahn_inv_start|simpl; lia].
Qed.

(** *** The turns of the loop

    [kahn] counts the turns with fuel and [u64_sub] wraps around.  The loop of the code is the
    relation of one turn, and [decrements_safely] says that no count of a turn is taken below zero. *)
Record kahn_state := { k_degrees : gmap BlockHash Z; k_queue : list BlockHash; k_result : list BlockHash }.
Definition kahn_start (st : St) : kahn_state :=
  {| k_degrees := initial_degrees st;
     k_queue := block_hash <$> filter (fun b => parent_hashes (header b) = []) (get_all_blocks st);
     k_result := [] |}.
Inductive kahn_turn (idx : DAGIndex) : kahn_state -> kahn_state -> Prop :=
  | kahn_pops degrees current queue result :
      kahn_turn idx
        {| k_degrees := degrees; k_queue := current :: queue; k_result := result |}
        {| k_degrees := (release_children (degrees, queue) (get_children idx current)).1;
           k_queue := (release_children (degrees, queue) (get_children idx current)).2;
           k_result := result ++ [current] |}.
Definition decrements_safely (idx : DAGIndex) (k : kahn_state) : Prop :=
  forall current queue before child after count,
    k_queue k = current :: queue -> get_children idx current = before ++ child :: after ->
    (release_children (k_degrees k, queue) before).1 !! child = Some count -> 0 < count.

Definition kahn_ok (st : St) (k : kahn_state) : Prop := kahn_inv st (k_degrees k) (k_queue k) (k_result k).

Lemma kahn_turn_ok idx st rank k k' :
  dag_shape rank st -> index_ok idx st -> kahn_ok st k -> kahn_turn idx k k' -> kahn_ok st k'.
Proof.
  intros Hsh Hidx Hk Ht. destruct Ht as [deg x queue res].
  pose proof (kahn_inv_step idx st rank deg x queue res Hsh Hidx Hk) as Hs. unfold kahn_ok.
  by destruct (release_children _ _) as [deg' queue'].
Qed.

Lemma kahn_turns_ok idx st rank k k' :
  dag_shape rank st -> index_ok idx st -> kahn_ok st k -> rtc (kahn_turn idx) k k' -> kahn_ok st k'.
Proof. intros Hsh Hidx Hk Hr. induction Hr as [k|k1 k2 k3 Ht _ IH]; eauto using kahn_turn_ok. Qed.

(** The releases before an occurrence of a child leave the count that is due to it. *)
Lemma kahn_ok_safe idx st rank k :
  dag_shape rank st -> index_ok idx st -> kahn_ok st k -> decrements_safely idx k.
Proof.
  intros Hsh Hidx (Hdeg & Hnd & Hin & _) x queue before child after_ count Hq Hch Hcount.
  assert (x ∉ k_result k) as Hxr.
  { rewrite Hq in Hnd. apply NoDup_app in Hnd as (_ & Hd & _). intros Hx. apply (Hd x Hx). left. }
  assert (forall c, occ c before + (if decide (child = c) then 1 else 0) <= waiting st (k_result k) c)%nat as Hle.
  { intros c. assert (occ c (get_children idx x) = occ x (parents_of st c)) as Hocc by apply (proj1 Hidx).
    rewrite Hch, occ_app, occ_cons in Hocc. pose proof (waiting_snoc st (k_result k) x c Hxr). case_decide; lia. }
  pose proof (release_children_spec (k_degrees k) queue before (waiting st (k_result k))) as Hrel.
  destruct (release_children _ before) as [deg' queue']. destruct Hrel as [Hd' _].
  { intros c. rewrite Hdeg. case_decide; [|done]. split; [done|]. specialize (Hle c).
    pose proof (waiting_le st (k_result k) c). pose proof (shape_sized rank st Hsh c). lia. }
  cbn [fst] in Hcount. rewrite Hd', Hdeg in Hcount. case_decide; [|done]. injection Hcount as <-.
  specialize (Hle child). rewrite decide_True in Hle by done. lia.
Qed.

(** With fuel for every turn that is left, [kahn] is the loop run until its queue is empty. *)
Lemma kahn_runs idx st rank fuel k :
  dag_shape rank st -> index_ok idx st -> kahn_ok st k -> (block_count st = length (k_result k) + fuel)%nat ->
  exists k', nsteps (kahn_turn idx) fuel k k' /\ k_queue k' = [] /\
    k_result k' = kahn idx fuel (k_degrees k) (k_queue k) (k_result k).
Proof.
  intros Hsh Hidx. revert k. induction fuel as [|fuel IH]; intros [deg queue res] Hk Hf; cbn in Hf |- *;
    pose proof (kahn_inv_length st rank deg queue res Hsh Hk) as Hl.
  { destruct queue as [|x queue]; [|cbn in Hl; lia]. eexists. split; [apply nsteps_O|done]. }
  destruct queue as [|x queue].
  { destruct (kahn_done st rank deg res Hsh Hk) as [Hp _]. unfold block_count in Hf. rewrite Hp in Hf. lia. }
  pose proof (kahn_pops idx deg x queue res) as Ht. pose proof (kahn_turn_ok _ _ _ _ _ Hsh Hidx Hk Ht) as Hk'.
  destruct (IH _ Hk') as (k' & Hn & Hq & Hr); [cbn; rewrite length_app; cbn; lia|].
  exists k'. split; [by eapply nsteps_l|]. split; [done|]. rewrite Hr. cbn.
  by destruct (release_children _ _).
Qed.

(** C6: on a DAG with a mirroring index, [get_topological_order] lists every stored block
    exactly once and every parent before its children, for any order in which the
    store lists its blocks.  The loop ends: after exactly [block_count] turns the queue is empty
    and the result is the one of [get_topological_order]; and in no state the loop
    passes is a count decremented that is zero. *)
Theorem get_topological_order_spec idx st rank :
  dag_shape rank st -> index_ok idx st ->
  get_topological_order idx st ≡ₚ get_all_hashes st /\
  topologically_ordered st (get_topological_order idx st) /\
  length (get_topological_order idx st) = block_count st /\
  (exists k, nsteps (kahn_turn idx) (block_count st) (kahn_start st) k /\
     k_queue k = [] /\ k_result k = get_topological_order idx st) /\
  forall k, rtc (kahn_turn idx) (kahn_start st) k -> decrements_safely idx k.
Proof.
  intros Hsh Hidx. destruct (kahn_order idx st rank Hsh Hidx) as [Hp Ht].
  assert (kahn_ok st (kahn_start st)) as Hk by (by eapply kahn_inv_start).
  split; [exact Hp|]. split; [exact Ht|]. split; [unfold block_count; by rewrite Hp|]. split.
  - destruct (kahn_runs idx st rank (block_count st) (kahn_start st) Hsh Hidx Hk) as (k & Hn & Hq & Hr); [done|].
    exists k. split; [exact Hn|]. split; [exact Hq|exact Hr].
  - intros k Hr. apply (kahn_ok_safe idx st rank); [done|done|]. by eapply kahn_turns_ok.
Qed.

(** ** Block depth *)

(** A path of [n] parent links from [h] up to [x]. *)
Definition up_path (st : St) (n : nat) (h x : BlockHash) : Prop :=
  nsteps (fun c p => p ∈ parents_of st c) n h x.

Lemma elem_of_dedup_push (l acc : list BlockHash) x :
  x ∈ foldl (fun acc p => if decide (p ∈ acc) then acc else acc ++ [p]) acc l <->
  x ∈ acc \/ x ∈ l.
Proof.
  revert acc. induction l as [|p l IH]; intros acc; cbn [foldl].
  - rewrite elem_of_nil. tauto.
  - rewrite IH, elem_of_cons. case_decide; [naive_solver|].
    rewrite elem_of_app, list_elem_of_singleton. tauto.
Qed.

Lemma elem_of_next_layer st queue x :
  x ∈ next_layer st queue <-> exists c, c ∈ queue /\ x ∈ parents_of st c.
Proof.
  unfold next_layer. rewrite elem_of_dedup_push, elem_of_nil, list_elem_of_In, in_concat.
  setoid_rewrite <- list_elem_of_In. setoid_rewrite list_elem_of_fmap. naive_solver.
Qed.

(** Round [n] of the loop holds the blocks [n] links above [h]. *)
Definition layer_of (st : St) (h : BlockHash) (n : nat) (queue : list BlockHash) : Prop :=
  forall x, x ∈ queue <-> up_path st n h x.

Lemma layer_of_next st h n queue :
  layer_of st h n queue -> layer_of st h (S n) (next_layer st queue).
Proof.
  intros Hl x. rewrite elem_of_next_layer. split.
  - intros (c & Hc & Hx). apply Hl in Hc. by eapply nsteps_r.
  - intros (c & Hc & Hx)%nsteps_inv_r. exists c. split; [by apply Hl|done].
Qed.

Lemma up_path_nodes st rank n h x :
  dag_shape rank st -> up_path st n h x ->
  exists l, length l = n /\ NoDup (h :: l) /\ (forall y, y ∈ l -> is_Some (get_block st y)) /\
    (forall y, y ∈ l -> (rank y < rank h)%nat).
Proof.
  intros Hsh. induction 1 as [h|n h y x Hy _ (l & Hl & Hnd & Hs & Hr)].
  - exists []. split; [done|]. split; [apply NoDup_singleton|].
    split; intros y Hy; by apply not_elem_of_nil in Hy.
  - pose proof (shape_rank rank st Hsh h y Hy) as Hlt.
    assert (forall z, z ∈ y :: l -> (rank z < rank h)%nat) as Hz.
    { intros z [->|Hz]%elem_of_cons; [done|]. pose proof (Hr z Hz). lia. }
    exists (y :: l). split; [simpl; lia|]. split.
    + constructor; [|done]. intros Hh. apply Hz in Hh. lia.
    + split; [|done]. intros z [->|?]%elem_of_cons; [|auto]. by eapply shape_closed.
Qed.

Lemma up_path_bound st rank n h x :
  dag_shape rank st -> up_path st n h x -> (n <= block_count st)%nat.
Proof.
  intros Hsh Hp. destruct (up_path_nodes st rank n h x Hsh Hp) as (l & <- & [_ Hnd]%NoDup_cons & Hs & _).
  apply submseteq_length, NoDup_submseteq; [done|].
  intros y Hy. apply hashes_get; [by apply (shape_ok rank)|auto].
Qed.

Lemma up_path_prefix st n m h x : up_path st (n + m) h x -> exists y, up_path st n h y.
Proof.
  intros (y & Hy & _)%nsteps_add_inv. by exists y.
Qed.

Lemma depth_loop_spec st rank h fuel queue depth :
  dag_shape rank st -> layer_of st h depth queue -> (exists x, up_path st depth h x) ->
  (block_count st < depth + fuel)%nat ->
  let d := depth_loop st fuel queue depth in
  (exists x, up_path st d h x) /\ forall n x, up_path st n h x -> (n <= d)%nat.
Proof.
  intros Hsh. revert queue depth. induction fuel as [|fuel IH]; intros queue depth Hl Hex Hf; simpl.
  - split; [done|]. intros n x Hn. pose proof (up_path_bound st rank n h x Hsh Hn). lia.
  - pose proof (layer_of_next st h depth queue Hl) as Hnext.
    destruct (next_layer st queue) as [|y l].
    + split; [done|]. intros n x Hn. destruct (decide (n <= depth)%nat) as [|Hgt]; [done|].
      replace n with (S depth + (n - S depth))%nat in Hn by lia.
      apply up_path_prefix in Hn as [y Hy]. apply Hnext in Hy. by apply not_elem_of_nil in Hy.
    + apply IH; [done| |lia]. exists y. apply Hnext. left.
Qed.

Lemma block_depth_longest st rank h :
  dag_shape rank st ->
  (exists x, up_path st (get_block_depth h st) h x) /\
  forall n x, up_path st n h x -> (n <= get_block_depth h st)%nat.
Proof.
  intros Hsh. apply (depth_loop_spec st rank h (S (block_count st)) [h] 0 Hsh).
  - intros x. rewrite list_elem_of_singleton. split; [intros ->; constructor|by inversion 1].
  - exists h. constructor.
  - lia.
Qed.

(** C37: on a DAG [get_block_depth] is the length of the longest path of
    parent links from the block, and the loop ends within [block_count + 1]
    rounds. *)
Theorem get_block_depth_spec st rank h :
  dag_shape rank st ->
  (exists x, up_path st (get_block_depth h st) h x) /\
  (forall n x, up_path st n h x -> (n <= get_block_depth h st)%nat) /\
  forall d, (exists x, up_path st d h x) -> (forall n x, up_path st n h x -> (n <= d)%nat) ->
    d = get_block_depth h st.
Proof.
  intros Hsh. destruct (block_depth_longest st rank h Hsh) as [Hup Hmax].
  split; [exact Hup|]. split; [exact Hmax|]. intros d [x Hx] Hd.
  apply Nat.le_antisymm; [by eapply Hmax|]. destruct Hup as [y Hy]. by eapply Hd.
Qed.

(** C18: updating the index on every insertion and rebuilding it from the
    store agree: same tips, and for every parent the same children with the same
    multiplicities. *)
Theorem incremental_index_rebuilt idx st st' b :
  store_ok st' -> index_ok idx st ->
  (forall h, get_block st' h = if decide (h = block_hash b) then Some b else get_block st h) ->
  get_block st (block_hash b) = None -> (forall c, block_hash b ∉ parents_of st c) ->
  let idx' := update_tips_after_insert b idx in
  tips idx' = tips (build_from_store st') /\
  forall p, get_children idx' p ≡ₚ get_children (build_from_store st') p.
Proof.
  intros Hok Hidx Hget Hnew Hun idx'. subst idx'.
  pose proof (update_tips_ok idx st st' b Hidx Hget Hnew Hun) as [Hc Ht].
  destruct (build_from_store_ok st' Hok) as [Hc' Ht'].
  split; [apply set_eq; intros h; rewrite Ht, Ht'; done|].
  intros p. apply occ_Permutation. intros c. by rewrite Hc, Hc'.
Qed.
End IndexFacts.

(** ** Concrete stores *)

(** A decidable form of [dag_shape] for the in-memory store. *)
Definition mem_shape_check (rank : BlockHash -> nat) (st : MemStore) : bool :=
  bool_decide (map_Forall (fun h b =>
    block_hash b = h /\ Z.of_nat (length (parent_hashes (header b))) <= u64_max /\
    Forall (fun p => is_Some (st !! p) /\ (rank p < rank h)%nat) (parent_hashes (header b))) st).

Lemma mem_shape rank (st : MemStore) : mem_shape_check rank st = true -> dag_shape rank st.
Proof.
  intros Hst%bool_decide_eq_true.
  assert (forall c p, p ∈ parents_of st c -> is_Some (st !! p) /\ (rank p < rank c)%nat) as Hp.
  { intros c p (b & Hb & Hp)%elem_of_parents_of. destruct (Hst c b Hb) as (_ & _ & Hf).
    rewrite Forall_forall in Hf. auto. }
  split.
  - intros h b Hb. by destruct (Hst h b Hb).
  - intros c p Hcp. by apply (Hp c p).
  - intros c p Hcp. by apply (Hp c p).
  - intros c. unfold parents_of. simpl. destruct (st !! c) as [b|] eqn:Hb; [|done].
    by destruct (Hst c b Hb) as (_ & ? & _).
Qed.

(** A block of which only the hash and the parents matter. *)
Definition node (h : BlockHash) (ps : list BlockHash) : Block :=
  {| block_hash := h;
     header := {| parent_hashes := ps; timestamp := 0; header_nonce := 0; difficulty := 0;
                  base_fee := 0; state_root := replicate 32 0; version := 1; blue_score := 0;
                  selected_parent := None; chain_height := 0; topo_index := 0 |};
     transactions := []; producer := replicate 20 0; reward := 0; height := 0 |}.

(** [1 <- 2], [2, 1 <- 3] and [2 <- 4]: a chain, a fork and a shortcut. *)
Definition diamond : MemStore :=
  list_to_map ((fun b => (block_hash b, b)) <$>
    [node [1] []; node [2] [[1]]; node [3] [[1]; [2]]; node [4] [[2]]]).
Definition first_byte (h : BlockHash) : nat := Z.to_nat (hd 0 h).

Lemma diamond_shape : dag_shape first_byte diamond.
Proof. apply mem_shape. vm_compute. reflexivity. Qed.
Lemma diamond_ok : store_ok diamond.
Proof. apply (shape_ok _ _ diamond_shape). Qed.
Lemma diamond_index : index_ok (build_from_store diamond) diamond.
Proof. apply build_from_store_ok, diamond_ok. Qed.

Lemma ancestors_descendants_spec_witness :
  [1] ∈ get_all_ancestors [3] diamond /\
  ([4] ∈ get_all_descendants (build_from_store diamond) [1] <->
   [1] ∈ get_all_ancestors [4] diamond).
Proof.
  split; [by vm_compute|].
  apply (ancestors_descendants_spec _ diamond [1] [4] diamond_ok diamond_index).
Defined.

Lemma find_lca_spec_witness :
  find_lca [4] [2] diamond = Some [2] /\
  self_or_ancestor diamond [2] [4] /\ self_or_ancestor diamond [2] [2].
Proof.
  split; [by vm_compute|]. exact (find_lca_spec diamond [4] [2] diamond_ok).
Defined.

Lemma get_reachable_blocks_spec_witness :
  [2] ∈ get_reachable_blocks [[4]] diamond <->
  exists h, h ∈ [[4]] /\ self_or_ancestor diamond [2] h.
Proof. apply get_reachable_blocks_spec, diamond_ok. Defined.

Lemma get_coparents_spec_witness :
  [4] ∈ get_coparents (build_from_store diamond) [3] diamond <->
  [4] <> [3] /\ exists p, p ∈ parents_of diamond [3] /\ p ∈ parents_of diamond [4].
Proof. apply get_coparents_spec, diamond_index. Defined.

Lemma get_topological_order_spec_witness :
  get_topological_order (build_from_store diamond) diamond ≡ₚ [[1]; [2]; [3]; [4]] /\
  topologically_ordered diamond (get_topological_order (build_from_store diamond) diamond) /\
  exists k, nsteps (kahn_turn (build_from_store diamond)) 4 (kahn_start diamond) k /\ k_queue k = [].
Proof.
  destruct (get_topological_order_spec _ _ _ diamond_shape diamond_index) as (Hp & Ho & _ & (k & Hn & Hq & _) & _).
  split; [|split; [exact Ho|]].
  - rewrite Hp. apply (bool_decide_unpack _). vm_compute. done.
  - exists k. split; [exact Hn|exact Hq].
Defined.

Lemma get_block_depth_spec_witness :
  get_block_depth [3] diamond = 2%nat /\
  forall n x, up_path diamond n [3] x -> (n <= get_block_depth [3]%Z diamond)%nat.
Proof.
  split; [by vm_compute|]. apply (get_block_depth_spec _ _ _ diamond_shape).
Defined.

(** [find_lca] stops at the first common ancestor in breadth-first
    order, which need not be a lowest one: here it answers the genesis although
    its descendant [2] is a common ancestor too. *)
Theorem find_lca_not_lowest :
  find_lca [4] [3] diamond = Some [1] /\
  self_or_ancestor diamond [2] [4] /\ self_or_ancestor diamond [2] [3] /\
  [1] ∈ get_all_ancestors [2] diamond.
Proof.
  split; [by vm_compute|]. split; [|split; [|by vm_compute]].
  - right. apply tc_once. vm_compute. left.
  - right. apply tc_once. vm_compute. right. left.
Qed.

Lemma incremental_index_rebuilt_witness :
  let b := node [5] [[3]; [4]] in
  let idx' := update_tips_after_insert b (build_from_store diamond) in
  let st' := <[[5] := b]> diamond in
  tips idx' = tips (build_from_store st') /\
  forall p, get_children idx' p ≡ₚ get_children (build_from_store st') p.
Proof.
  intros b idx' st'. apply (incremental_index_rebuilt _ diamond).
  - apply (shape_ok first_byte), mem_shape. vm_compute. reflexivity.
  - apply diamond_index.
  - intros h. simpl. unfold st'. case_decide as Hh; [subst h; apply lookup_insert_eq|].
    by apply lookup_insert_ne.
  - by vm_compute.
  - intros c Hc. by destruct (shape_closed _ _ diamond_shape c _ Hc).
Defined.
