(* ===== verification/BlockDag.v ===== *)
(** The blockDAG engine: [src/src/dag/blockdag.rs].

    Insertion with validation and consensus annotation, the queries over store
    and index, and the whole-DAG validation, over the store interface.
    [dag_inv] is the invariant every insertion preserves. *)
From S2P Require Import Prelude Crypto Transaction Floats Mining Block Graph Store DagIndex.

Record BlockDAG (St : Type) := { store : St; index : DAGIndex }.
Arguments Build_BlockDAG {St} _ _.
Arguments store {St} _.
Arguments index {St} _.

Record DAGStats := {
  total_blocks : nat;
  total_transactions : nat;
  num_tips : nat;
  avg_parents_per_block : nat;
  total_size_bytes : Z
}.

Record DAGExport := {
  export_blocks : list Block;
  export_tips : list BlockHash;
  export_statistics : DAGStats
}.

Section BlockDag.
Context `{Sha256} `{LibM} `{HashOrder} {St : Type} `{BlockStoreI St}.
Implicit Types (dag : BlockDAG St) (h : BlockHash).

(** [BlockStore::new()] opens the store; the index starts empty. *)
Definition new (opened : St) : BlockDAG St := {| store := opened; index := DagIndex.new |}.

Definition dag_get_block dag h : option Block := get_block (store dag) h.
Definition dag_block_count dag : nat := block_count (store dag).
Definition dag_get_tips dag : list BlockHash := get_tips (index dag).

(** Steps 2 to 4 of [insert_block]. *)
Definition check_new dag (b : Block) : result unit :=
  if block_exists (store dag) (block_hash b)
  then errorf "Block {} already exists in DAG" [ArgHex (block_hash b)]
  else
    match parent_hashes (header b) with
    | [] =>
        if (0 <? block_count (store dag))%nat
        then err "Non-genesis block cannot have zero parents" else Ok tt
    | ps =>
        foldr (fun p k => if block_exists (store dag) p then k
                          else errorf "Parent block {} does not exist" [ArgHex p]) (Ok tt) ps
    end ≫= fun _ =>
    if existsb (fun e => bool_decide (block_hash e = block_hash b)) (get_all_blocks (store dag))
    then err "Duplicate block detected" else Ok tt.

(** The selected parent: the last parent with the greatest height. *)
Definition better_parent dag (acc : option BlockHash * Z) (p : BlockHash)
    : option BlockHash * Z :=
  match dag_get_block dag p with
  | Some parent => if acc.2 <=? height parent then (Some p, height parent) else acc
  | None => acc
  end.
Definition best_parent dag (ps : list BlockHash) : option BlockHash * Z :=
  foldl (better_parent dag) (None, 0) ps.

Definition compute_blue_score dag (b : Block) : Z :=
  saturating_add
    (foldl (fun m p => match dag_get_block dag p with
                       | Some parent => Z.max m (blue_score (header parent))
                       | None => m end) 0 (parent_hashes (header b))) 1.

(** Step 5: the block as it will be stored. *)
Definition annotate dag (b : Block) : Block :=
  let '(sp, ch) :=
    match parent_hashes (header b) with
    | [] => (None, 0)
    | ps => let '(best, best_height) := best_parent dag ps in
            (best, saturating_add best_height 1)
    end in
  set_consensus_metadata b sp (compute_blue_score dag b) ch (Z.of_nat (dag_block_count dag)).

(** [now] is the wall clock read by [validate_basic]. *)
Definition insert_block (now : Z) (b : Block) : M (BlockDAG St) unit := fun dag =>
  match validate_basic now b ≫= fun _ => check_new dag b with
  | Err e => (Err e, dag)
  | Ok _ =>
      let annotated_block := annotate dag b in
      match Store.insert_block annotated_block (store dag) with
      | (Err e, store') => (Err e, {| store := store'; index := index dag |})
      | (Ok _, store') =>
          (Ok tt, {| store := store';
                     index := update_tips_after_insert annotated_block (index dag) |})
      end
  end.

Definition with_genesis (now : Z) (opened : St) (genesis : Block) : result (BlockDAG St) :=
  let dag := new opened in
  if negb (is_genesis genesis) then err "Block must be genesis block (no parents)"
  else
    let '(r, dag') := insert_block now genesis dag in
    match r with Ok _ => Ok dag' | Err e => Err e end.

Definition create_genesis_block (now : Z) dag : Block * BlockDAG St :=
  let genesis_wallet := replicate 20 0 in
  let genesis_tx :=
    new_transfer (replicate 20 0) genesis_wallet CTS_GENESIS_ALLOCATION 0 0 0 in
  let genesis := Block.new [] now [genesis_tx] 0 0 0 (replicate 20 0) (replicate 32 0) in
  (genesis, (insert_block now genesis dag).2).

Definition create_genesis_if_empty (now : Z) dag : BlockDAG St :=
  if (dag_block_count dag =? 0)%nat then (create_genesis_block now dag).2 else dag.

(** The loop stops at the first failure; what was inserted stays. *)
Fixpoint insert_blocks_from (now : Z) (inserted : nat) (blocks : list Block)
    : M (BlockDAG St) nat := fun dag =>
  match blocks with
  | [] => (Ok inserted, dag)
  | b :: blocks' =>
      match insert_block now b dag with
      | (Ok _, dag') => insert_blocks_from now (S inserted) blocks' dag'
      | (Err e, dag') =>
          (errorf "Failed to insert block {}: {}. Successfully inserted {} blocks"
             [ArgNum (Z.of_nat inserted); ArgErr e; ArgNum (Z.of_nat inserted)], dag')
      end
  end.
Definition insert_blocks (now : Z) (blocks : list Block) : M (BlockDAG St) nat :=
  insert_blocks_from now 0 blocks.

Definition get_tip_blocks dag : list Block := omap (dag_get_block dag) (dag_get_tips dag).

(** [while timestamps.len() < max]: each round pushes one timestamp. *)
Fixpoint walk_back dag (max : nat) (current : Block) : list Z :=
  match max with
  | O => []
  | S max' =>
      timestamp (header current) ::
      match selected_parent (header current) ≫= dag_get_block dag with
      | Some parent => walk_back dag max' parent
      | None => []
      end
  end.

Definition get_recent_timestamps dag (max : nat) : list Z :=
  match get_tip_blocks dag with
  | [] => []
  | t :: _ => reverse (walk_back dag max t)
  end.

Definition get_timestamps_from_start dag (start_hash : BlockHash) (max : nat) : list Z :=
  match dag_get_block dag start_hash with
  | Some b => reverse (walk_back dag max b)
  | None => []
  end.

Definition get_parents dag h : list Block :=
  match dag_get_block dag h with
  | Some b => omap (dag_get_block dag) (parent_hashes (header b))
  | None => []
  end.

Definition check_references dag (b : Block) (k : result unit) : result unit :=
  foldr (fun p k => if block_exists (store dag) p then k
                    else errorf "Block {} references non-existent parent {}"
                           [ArgHex (block_hash b); ArgHex p]) k (parent_hashes (header b)).

Definition validate dag : result unit :=
  let blocks := get_all_blocks (store dag) in
  verify_integrity (store dag) ≫= fun _ =>
  foldr (check_references dag) (Ok tt) blocks ≫= fun _ =>
  let hashes := get_all_hashes (store dag) in
  if negb (length hashes =? size (list_to_set hashes : gset BlockHash))%nat
  then err "Duplicate block hashes detected"
  else if bool_decide (blocks = []) then err "DAG must have at least one block (genesis)"
  else
    let tip_set : gset BlockHash := list_to_set (dag_get_tips dag) in
    if existsb (fun b =>
         bool_decide (parent_hashes (header b) = []) && (1 <? size tip_set)%nat &&
         existsb (fun b' => bool_decide (block_hash b ∈ parent_hashes (header b'))) blocks) blocks
    then err "Genesis block is referenced but still marked as tip" else Ok tt.

Definition sum_nat (l : list nat) : nat := foldr Nat.add 0%nat l.

Definition get_stats dag : DAGStats :=
  let blocks := get_all_blocks (store dag) in
  {| total_blocks := block_count (store dag);
     total_transactions := sum_nat ((fun b => length (transactions b)) <$> blocks);
     num_tips := length (dag_get_tips dag);
     avg_parents_per_block :=
       if bool_decide (blocks = []) then 0%nat
       else (sum_nat ((fun b => length (parent_hashes (header b))) <$> blocks)
             / length blocks)%nat;
     total_size_bytes := total_size (store dag) |}.

Definition dag_get_children dag h : list BlockHash := get_children (index dag) h.
Definition get_ancestors dag h : gset BlockHash := get_all_ancestors h (store dag).
Definition get_descendants dag h : gset BlockHash := get_all_descendants (index dag) h.
Definition dag_is_ancestor dag (a h : BlockHash) : bool := is_ancestor a h (store dag).
Definition dag_find_lca dag (h1 h2 : BlockHash) : option BlockHash := find_lca h1 h2 (store dag).
Definition dag_get_topological_order dag : list BlockHash :=
  get_topological_order (index dag) (store dag).
Definition dag_get_coparents dag h : gset BlockHash := get_coparents (index dag) h (store dag).
Definition dag_get_block_depth dag h : nat := get_block_depth h (store dag).
Definition get_ordering dag : list BlockHash := dag_get_topological_order dag.

Definition create_block_on_tips (now : Z) dag (txs : list Transaction) : Block :=
  Block.new (dag_get_tips dag) now txs 0 0 0 (replicate 20 0) (replicate 32 0).

Definition rebuild_index dag : BlockDAG St :=
  {| store := store dag; index := build_from_store (store dag) |}.

Definition get_block_height dag h : option Z :=
  match dag_get_block dag h with
  | Some b =>
      let stored :=
        if 0 <? chain_height (header b) then chain_height (header b)
        else if 0 <? height b then height b else 0 in
      if 0 <? stored then Some stored else Some (Z.of_nat (dag_get_block_depth dag h))
  | None => None
  end.

Definition get_block_parents dag h : option (list BlockHash) :=
  (fun b => parent_hashes (header b)) <$> dag_get_block dag h.

Definition get_blue_set dag h : option (gset BlockHash) :=
  if block_exists (store dag) h then Some ({[h]} ∪ get_ancestors dag h) else None.

Definition export_dag dag : DAGExport :=
  {| export_blocks := get_all_blocks (store dag);
     export_tips := dag_get_tips dag;
     export_statistics := get_stats dag |}.
End BlockDag.

(** ** The invariant *)

Section Invariant.
Context `{Sha256} `{LibM} `{HashOrder} {St : Type} `{BlockStoreLaws St}.
Implicit Types (dag : BlockDAG St) (b : Block).

(** What insertion records in a block stored among the first [n]: its hash is
    the hash of its annotated content, its parents are stored earlier, its height
    is one more than that of its selected parent, the highest of the parents, and
    its blue score one more than the largest of theirs. *)
Record annotated (get : BlockHash -> option Block) (n : nat) (b : Block) : Prop := {
  ann_wf : block_wf b;
  ann_hash : block_hash b = calculate_hash b;
  ann_sized : Z.of_nat (length (parent_hashes (header b))) <= u64_max;
  ann_topo : 0 <= topo_index (header b) < Z.of_nat n;
  ann_parents : forall p, p ∈ parent_hashes (header b) ->
    exists bp, get p = Some bp /\ topo_index (header bp) < topo_index (header b) /\
      height bp < height b /\ blue_score (header bp) < blue_score (header b);
  ann_height : chain_height (header b) = height b /\ height b <= topo_index (header b);
  ann_selected :
    match selected_parent (header b) with
    | None => parent_hashes (header b) = [] /\ height b = 0
    | Some sp => sp ∈ parent_hashes (header b) /\
                 exists bsp, get sp = Some bsp /\ height b = height bsp + 1
    end;
  ann_blue : 1 <= blue_score (header b) <= topo_index (header b) + 1;
  ann_blue_max : parent_hashes (header b) <> [] -> exists p bp,
    p ∈ parent_hashes (header b) /\ get p = Some bp /\
    blue_score (header b) = blue_score (header bp) + 1
}.

Record dag_inv (dag : BlockDAG St) : Prop := {
  inv_ok : store_ok (store dag);
  inv_index : index_ok (index dag) (store dag);
  inv_annotated : forall h b, dag_get_block dag h = Some b ->
    annotated (dag_get_block dag) (dag_block_count dag) b;
  inv_genesis : forall h h' b b',
    dag_get_block dag h = Some b -> dag_get_block dag h' = Some b' ->
    parent_hashes (header b) = [] -> parent_hashes (header b') = [] -> h = h';
  inv_topo : forall h h' b b',
    dag_get_block dag h = Some b -> dag_get_block dag h' = Some b' ->
    topo_index (header b) = topo_index (header b') -> h = h'
}.

(** Two stores that answer every lookup alike satisfy it alike. *)
Lemma block_count_ext (st st' : St) :
  store_ok st -> store_ok st' -> (forall h, get_block st' h = get_block st h) ->
  block_count st' = block_count st.
Proof.
  intros Hok Hok' Hget. apply Permutation_length, NoDup_Permutation; [by apply hashes_nodup..|].
  intros h. by rewrite !hashes_get, Hget by done.
Qed.

Lemma index_ok_ext idx (st st' : St) :
  (forall h, get_block st' h = get_block st h) -> index_ok idx st -> index_ok idx st'.
Proof.
  intros Hget [Hc Ht]. assert (forall c, parents_of st' c = parents_of st c) as Hp.
  { intros c. unfold parents_of. by rewrite Hget. }
  split; intros; [by rewrite Hp|]. rewrite Hget. setoid_rewrite Hp. apply Ht.
Qed.

Lemma annotated_ext get get' n n' b :
  (forall p, p ∈ parent_hashes (header b) -> get' p = get p) -> (n <= n')%nat ->
  annotated get n b -> annotated get' n' b.
Proof.
  intros Hget Hn [? ? ? ? Hp ? Hs ? Hm]. split; try done.
  - lia.
  - intros p Hin. rewrite Hget by done. auto.
  - destruct (selected_parent (header b)) as [sp|]; [|done].
    destruct Hs as [Hin Hs]. by rewrite Hget.
  - intros Hne. destruct (Hm Hne) as (p & bp & Hin & ?). exists p, bp. by rewrite Hget.
Qed.

Lemma dag_inv_ext dag (st' : St) :
  store_ok st' -> (forall h, get_block st' h = get_block (store dag) h) ->
  dag_inv dag -> dag_inv {| store := st'; index := index dag |}.
Proof.
  intros Hok Hget [Hok0 Hidx Hann Hgen Htopo].
  split; unfold dag_get_block, dag_block_count in *; simpl.
  - done.
  - by eapply index_ok_ext.
  - intros h b. rewrite Hget, (block_count_ext _ _ Hok0 Hok Hget). intros Hb.
    eapply annotated_ext; [|done|by eapply Hann]. intros p _. apply Hget.
  - intros h h' b b'. rewrite !Hget. apply Hgen.
  - intros h h' b b'. rewrite !Hget. apply Htopo.
Qed.

Lemma inv_closed dag c p :
  dag_inv dag -> p ∈ parents_of (store dag) c -> is_Some (dag_get_block dag p).
Proof.
  intros Hinv (b & Hb & Hp)%elem_of_parents_of.
  destruct (ann_parents _ _ _ (inv_annotated _ Hinv c b Hb) p Hp) as (bp & -> & _). eauto.
Qed.

(** The topological index of a stored block ranks it above its parents. *)
Definition topo_rank dag (h : BlockHash) : nat :=
  match dag_get_block dag h with Some b => Z.to_nat (topo_index (header b)) | None => 0%nat end.

Lemma dag_inv_shape dag : dag_inv dag -> dag_shape (topo_rank dag) (store dag).
Proof.
  intros Hinv. split.
  - apply Hinv.
  - intros c p. by apply inv_closed.
  - intros c p (b & Hb & Hp)%elem_of_parents_of. unfold topo_rank, dag_get_block.
    pose proof (inv_annotated _ Hinv c b Hb) as Ha.
    destruct (ann_parents _ _ _ Ha p Hp) as (bp & Hbp & Hlt & _).
    unfold dag_get_block in Hbp. rewrite Hb, Hbp.
    pose proof (ann_topo _ _ _ (inv_annotated _ Hinv p bp Hbp)). lia.
  - intros c. unfold parents_of. destruct (get_block (store dag) c) as [b|] eqn:Hb; [|done].
    apply (ann_sized _ _ _ (inv_annotated _ Hinv c b Hb)).
Qed.

(** ** Annotation *)

Lemma best_parent_spec dag ps :
  (forall p, p ∈ ps -> exists bp, dag_get_block dag p = Some bp /\ 0 <= height bp) -> ps <> [] ->
  exists sp bsp, best_parent dag ps = (Some sp, height bsp) /\ sp ∈ ps /\
    dag_get_block dag sp = Some bsp /\
    forall p bp, p ∈ ps -> dag_get_block dag p = Some bp -> height bp <= height bsp.
Proof.
  intros Hex Hne. unfold best_parent. induction ps as [|p ps IH] using rev_ind; [done|].
  rewrite foldl_snoc. unfold better_parent at 1.
  destruct (Hex p) as (bp & Hbp & Hh); [apply elem_of_app; right; left|]. rewrite Hbp.
  destruct ps as [|q ps].
  - simpl. destruct (Z.leb_spec 0 (height bp)); [|lia]. exists p, bp.
    split; [done|]. split; [left|]. split; [done|].
    intros p' bp' ->%list_elem_of_singleton. rewrite Hbp. intros [= <-]. lia.
  - destruct IH as (sp & bsp & Hbest & Hin & Hsp & Hmax); [|done|].
    { intros p' Hp'. apply Hex, elem_of_app. by left. }
    rewrite Hbest. cbn [snd]. destruct (Z.leb_spec (height bsp) (height bp)) as [Hle|Hlt].
    + exists p, bp. split; [done|]. split; [apply elem_of_app; right; left|]. split; [done|].
      intros p' bp' [Hp'|Hp']%elem_of_app Hget.
      * pose proof (Hmax p' bp' Hp' Hget). lia.
      * apply list_elem_of_singleton in Hp' as ->. rewrite Hbp in Hget. simplify_eq. lia.
    + exists sp, bsp. split; [done|]. split; [apply elem_of_app; by left|]. split; [done|].
      intros p' bp' [Hp'|Hp']%elem_of_app Hget; [by eapply Hmax|].
      apply list_elem_of_singleton in Hp' as ->. rewrite Hbp in Hget. simplify_eq. lia.
Qed.

Lemma max_blue_spec dag ps m :
  (forall p, p ∈ ps -> is_Some (dag_get_block dag p)) ->
  let r := foldl (fun m p => match dag_get_block dag p with
                     | Some parent => Z.max m (blue_score (header parent))
                     | None => m end) m ps in
  m <= r /\ (forall p bp, p ∈ ps -> dag_get_block dag p = Some bp -> blue_score (header bp) <= r) /\
  (r = m \/ exists p bp, p ∈ ps /\ dag_get_block dag p = Some bp /\ r = blue_score (header bp)).
Proof.
  revert m. induction ps as [|p ps IH]; intros m Hex; simpl.
  - split; [lia|]. split; [by intros p bp ?%not_elem_of_nil|by left].
  - destruct (Hex p) as [bp Hbp]; [left|]. rewrite Hbp.
    destruct (IH (Z.max m (blue_score (header bp)))) as (Hm & Hall & Hmax).
    { intros p' Hp'. apply Hex. by right. }
    split; [lia|]. split.
    + intros p' bp' [->|Hp']%elem_of_cons Hget; [|eauto].
      rewrite Hbp in Hget. simplify_eq. lia.
    + destruct Hmax as [->|(p' & bp' & Hp' & Hget & ->)].
      * destruct (Z.max_spec m (blue_score (header bp))) as [[_ ->]|[_ ->]]; [right|by left].
        exists p, bp. split; [left|done].
      * right. exists p', bp'. split; [by right|done].
Qed.

Lemma foldr_result_ok {A} (P : A -> bool) (e : A -> error) (l : list A) :
  foldr (fun x k => if P x then k else Err (e x)) (Ok tt) l = Ok tt <->
  forall x, x ∈ l -> P x = true.
Proof.
  induction l as [|x l IH]; simpl.
  - split; [by intros _ x ?%not_elem_of_nil|done].
  - setoid_rewrite elem_of_cons. destruct (P x) eqn:Hx; [rewrite IH; naive_solver|].
    split; [done|]. intros Hall. rewrite Hall in Hx; [done|by left].
Qed.

(** What steps 2 to 4 of insertion establish: the submitted hash is unknown and
    the parents are stored, and only the first block has none. *)
Lemma check_new_spec dag b :
  store_ok (store dag) ->
  check_new dag b = Ok tt <->
  dag_get_block dag (block_hash b) = None /\
  (forall p, p ∈ parent_hashes (header b) -> is_Some (dag_get_block dag p)) /\
  (parent_hashes (header b) = [] -> dag_block_count dag = 0%nat).
Proof.
  intros Hok. unfold check_new, dag_get_block, dag_block_count. rewrite exists_get by done.
  case_bool_decide as Hex.
  { split; [done|]. intros [Hn _]. rewrite Hn in Hex. by destruct Hex. }
  assert (get_block (store dag) (block_hash b) = None) as Hnone by by apply eq_None_not_Some.
  assert (existsb (fun e => bool_decide (block_hash e = block_hash b)) (get_all_blocks (store dag))
    = false) as ->.
  { apply not_true_is_false. intros (e & He & Heq)%existsb_exists.
    apply bool_decide_eq_true in Heq.
    apply list_elem_of_In, elem_of_get_all_blocks in He; [|done]. congruence. }
  destruct (parent_hashes (header b)) as [|p ps].
  - destruct (Nat.ltb_spec 0 (block_count (store dag))); simpl; (split; [|]).
    + done.
    + intros (_ & _ & Hc). specialize (Hc eq_refl). lia.
    + intros _. split; [done|]. split; [by intros p ?%not_elem_of_nil|lia].
    + done.
  - pose proof (foldr_result_ok (block_exists (store dag))
      (fun p => Error "Parent block {} does not exist" [ArgHex p]) (p :: ps)) as Hf.
    unfold errorf. destruct (foldr _ _ (p :: ps)) as [[]|e] eqn:Hr.
    + split; [intros _|done]. split; [done|]. split; [|done].
      intros q Hq. pose proof (proj1 Hf eq_refl q Hq) as He.
      by rewrite exists_get, bool_decide_eq_true in He.
    + split; [done|]. intros (_ & Hall & _).
      assert (@Err unit e = Ok tt) as Habs; [|done]. apply Hf.
      intros q Hq. rewrite exists_get by done. by apply bool_decide_eq_true, Hall.
Qed.

Lemma annotate_fields dag b :
  let b' := annotate dag b in
  parent_hashes (header b') = parent_hashes (header b) /\
  transactions b' = transactions b /\ producer b' = producer b /\ reward b' = reward b /\
  timestamp (header b') = timestamp (header b) /\ difficulty (header b') = difficulty (header b) /\
  header_nonce (header b') = header_nonce (header b) /\ base_fee (header b') = base_fee (header b) /\
  state_root (header b') = state_root (header b) /\ version (header b') = version (header b) /\
  block_hash b' = calculate_hash b' /\ chain_height (header b') = height b' /\
  topo_index (header b') = Z.of_nat (dag_block_count dag) /\
  blue_score (header b') = compute_blue_score dag b.
Proof.
  unfold annotate. destruct (match parent_hashes (header b) with [] => _ | _ => _ end). by repeat split.
Qed.

Lemma annotate_selected dag b :
  let b' := annotate dag b in
  match parent_hashes (header b) with
  | [] => selected_parent (header b') = None /\ height b' = 0
  | ps => selected_parent (header b') = (best_parent dag ps).1 /\
          height b' = saturating_add (best_parent dag ps).2 1
  end.
Proof.
  unfold annotate. destruct (parent_hashes (header b)) as [|p ps]; [done|].
  by destruct (best_parent dag (p :: ps)).
Qed.

(** Metadata the block came with play no part. *)
Lemma annotate_metadata dag b sp s c t :
  annotate dag (set_consensus_metadata b sp s c t) = annotate dag b.
Proof.
  unfold annotate. change (parent_hashes (header (set_consensus_metadata b sp s c t)))
    with (parent_hashes (header b)).
  by destruct (match parent_hashes (header b) with [] => _ | _ => _ end).
Qed.

(** Heights and scores of stored blocks are bounded by the block count. *)
Lemma stored_bounds dag p bp :
  dag_inv dag -> dag_get_block dag p = Some bp ->
  0 <= height bp < Z.of_nat (dag_block_count dag) /\
  1 <= blue_score (header bp) <= Z.of_nat (dag_block_count dag) /\
  topo_index (header bp) < Z.of_nat (dag_block_count dag).
Proof.
  intros Hinv Hbp. pose proof (inv_annotated _ Hinv p bp Hbp) as Ha.
  pose proof (ann_wf _ _ _ Ha) as (_ & _ & _ & _ & _ & _ & _ & _ & _ & _ & [Hch _] & _).
  pose proof (ann_topo _ _ _ Ha). pose proof (ann_height _ _ _ Ha) as [Hc ?].
  pose proof (ann_blue _ _ _ Ha). lia.
Qed.

(** The hypotheses of an accepted insertion. *)
Definition insertable dag b : Prop :=
  dag_inv dag /\ fields_wf b /\ Z.of_nat (length (parent_hashes (header b))) <= u64_max /\
  Z.of_nat (dag_block_count dag) < u64_max /\ check_new dag b = Ok tt.

Lemma insertable_parents dag b :
  insertable dag b -> forall p, p ∈ parent_hashes (header b) ->
  exists bp, dag_get_block dag p = Some bp /\ 0 <= height bp.
Proof.
  intros (Hinv & _ & _ & _ & Hnew) p Hp.
  apply check_new_spec in Hnew as (_ & Hpar & _); [|apply Hinv].
  destruct (Hpar p Hp) as [bp Hbp]. exists bp. split; [done|].
  by destruct (stored_bounds dag p bp Hinv Hbp) as [[? _] _].
Qed.

(** The blue score is one more than the largest of the parents'. *)
Lemma annotate_blue dag b :
  insertable dag b ->
  let s := compute_blue_score dag b in
  1 <= s <= Z.of_nat (dag_block_count dag) + 1 /\
  (forall p bp, p ∈ parent_hashes (header b) -> dag_get_block dag p = Some bp ->
    blue_score (header bp) < s) /\
  (parent_hashes (header b) <> [] -> exists p bp, p ∈ parent_hashes (header b) /\
    dag_get_block dag p = Some bp /\ s = blue_score (header bp) + 1).
Proof.
  intros Hins. pose proof (insertable_parents dag b Hins) as Hpar.
  destruct Hins as (Hinv & _ & _ & Hcount & _).
  destruct (max_blue_spec dag (parent_hashes (header b)) 0) as (Hb0 & Hall & Hmax).
  { intros p Hp. destruct (Hpar p Hp) as (bp & -> & _). eauto. }
  unfold compute_blue_score, saturating_add. set (mb := foldl _ 0 _) in *.
  assert (0 <= mb <= Z.of_nat (dag_block_count dag)) as Hmb.
  { destruct Hmax as [->|(p & bp & _ & Hbp & ->)]; [lia|].
    pose proof (stored_bounds dag p bp Hinv Hbp). lia. }
  cbv zeta. split; [lia|]. split.
  - intros p bp Hp Hbp. pose proof (Hall p bp Hp Hbp). lia.
  - intros Hne. destruct Hmax as [Hz|(p & bp & Hp & Hbp & Heq)].
    + destruct (parent_hashes (header b)) as [|p ps]; [done|].
      destruct (Hpar p) as (bp & Hbp & _); [left|].
      pose proof (Hall p bp ltac:(left) Hbp). pose proof (stored_bounds dag p bp Hinv Hbp). lia.
    + exists p, bp. split; [done|]. split; [done|]. lia.
Qed.

(** The selected parent is a highest parent; the height is one more than its. *)
Lemma annotate_height dag b :
  insertable dag b ->
  let b' := annotate dag b in
  0 <= height b' <= Z.of_nat (dag_block_count dag) /\
  match selected_parent (header b') with
  | None => parent_hashes (header b) = [] /\ height b' = 0
  | Some sp => sp ∈ parent_hashes (header b) /\
               exists bsp, dag_get_block dag sp = Some bsp /\ height b' = height bsp + 1
  end /\
  (forall p bp, p ∈ parent_hashes (header b) -> dag_get_block dag p = Some bp ->
    height bp < height b').
Proof.
  intros Hins b'. pose proof (insertable_parents dag b Hins) as Hpar.
  pose proof (annotate_selected dag b) as Hs. cbv zeta in Hs. fold b' in Hs.
  destruct Hins as (Hinv & _ & _ & Hcount & _).
  destruct (parent_hashes (header b)) as [|q ps].
  - destruct Hs as [-> ->]. split; [lia|]. split; [done|]. by intros p bp ?%not_elem_of_nil.
  - destruct (best_parent_spec dag (q :: ps) Hpar) as (sp & bsp & Hbest & Hin & Hsp & Hmax); [done|].
    rewrite Hbest in Hs. destruct Hs as [-> ->]. cbn [fst snd]. unfold saturating_add.
    pose proof (stored_bounds dag sp bsp Hinv Hsp). split; [lia|]. split.
    + split; [done|]. exists bsp. split; [done|lia].
    + intros p bp Hp Hbp. pose proof (Hmax p bp Hp Hbp). lia.
Qed.

(** The block built by annotation satisfies the invariant's description with
    respect to the DAG it is inserted in; no [saturating_add] saturates. *)
Lemma annotate_annotated dag b :
  insertable dag b ->
  annotated (dag_get_block dag) (S (dag_block_count dag)) (annotate dag b).
Proof.
  intros Hins. pose proof (annotate_blue dag b Hins) as (Hbl & Hblp & Hblm).
  pose proof (annotate_height dag b Hins) as (Hh & Hsel & Hhp).
  pose proof (insertable_parents dag b Hins) as Hpar.
  pose proof (annotate_fields dag b) as Hf.
  cbv zeta in *. generalize dependent (annotate dag b). intros b' Hh Hsel Hhp Hf.
  destruct Hf as (Ep & _ & Eprod & _ & Ets & Ed & En & Ebf & Esr & Ev & Eh & Ech & Et & Ebl).
  destruct Hins as (Hinv & Hwf & Hsz & Hcount & _).
  split; rewrite ?Ep, ?Et, ?Ebl, ?Ech.
  - destruct Hwf as (Hwp & Hwsr & Hwprod & Hwt & Hwn & Hwd & Hwbf & Hwv).
    unfold block_wf. rewrite Ep, Esr, Eprod, Ets, En, Ed, Ebf, Ev, Ech, Et, Ebl.
    split_and!; try done; try (unfold is_u64; lia); try lia.
    intros p Hp. rewrite Hp in Hsel. destruct Hsel as [Hin _].
    rewrite Forall_forall in Hwp. auto.
  - done.
  - done.
  - lia.
  - intros p Hp. destruct (Hpar p Hp) as (bp & Hbp & _). exists bp. split; [done|].
    pose proof (stored_bounds dag p bp Hinv Hbp). split; [lia|]. eauto.
  - split; [done|lia].
  - done.
  - lia.
  - done.
Qed.

(** ** Insertion *)

Context `{!Sha256Laws}.

Lemma annotate_hash_length dag b : length (block_hash (annotate dag b)) = 32%nat.
Proof.
  destruct (annotate_fields dag b) as (_ & _ & _ & _ & _ & _ & _ & _ & _ & _ & -> & _).
  unfold calculate_hash. apply sha256_length.
Qed.

(** A failed insertion changes no lookup and not the index; a successful one
    adds the annotated block and updates the index with it. *)
Lemma insert_block_cases now b dag :
  store_ok (store dag) ->
  let dag' := (insert_block now b dag).2 in
  store_ok (store dag') /\
  match (insert_block now b dag).1 with
  | Err _ => index dag' = index dag /\
             forall h, dag_get_block dag' h = dag_get_block dag h
  | Ok _ =>
      validate_basic now b = Ok tt /\ check_new dag b = Ok tt /\
      index dag' = update_tips_after_insert (annotate dag b) (index dag) /\
      is_ok (Store.insert_block (annotate dag b) (store dag)).1 = true /\
      store dag' = (Store.insert_block (annotate dag b) (store dag)).2 /\
      forall h, dag_get_block dag' h =
        if decide (h = block_hash (annotate dag b)) then Some (annotate dag b)
        else dag_get_block dag h
  end.
Proof.
  intros Hok dag'. subst dag'. unfold insert_block, dag_get_block.
  pose proof (annotate_hash_length dag b) as Hlen.
  destruct (validate_basic now b) as [[]|e]; [|done]. cbn [mbind result_bind].
  destruct (check_new dag b) as [[]|e]; [|done].
  pose proof (insert_keeps_ok (store dag) (annotate dag b) Hok Hlen) as Hok'.
  pose proof (insert_ok_get (store dag) (annotate dag b)) as Hins.
  pose proof (insert_err_get (store dag) (annotate dag b)) as Herr.
  destruct (Store.insert_block (annotate dag b) (store dag)) as [[[]|e] st']; simpl in *.
  - split; [done|]. split; [done|]. split; [done|]. split; [done|]. split; [done|].
    split; [done|]. intros h. by apply Hins.
  - split; [done|]. split; [done|]. intros h. by apply Herr.
Qed.

(** The annotated block is new: a stored block with its hash would have been
    given the same topological index. *)
Definition annotation_collides dag b : Prop :=
  exists h b', dag_get_block dag h = Some b' /\
    sha256_collision [block_preimage b'; block_preimage (annotate dag b)].

Lemma annotate_fresh dag b :
  insertable dag b ->
  dag_get_block dag (block_hash (annotate dag b)) = None \/ annotation_collides dag b.
Proof.
  intros Hins. pose proof (annotate_annotated dag b Hins) as Ha.
  destruct (dag_get_block dag (block_hash (annotate dag b))) as [b'|] eqn:Hb'; [right|by left].
  pose proof Hins as (Hinv & _). pose proof (inv_annotated _ Hinv _ _ Hb') as Ha'.
  assert (block_hash b' = block_hash (annotate dag b)) as Heq
    by exact (get_hash (store dag) _ _ (inv_ok _ Hinv) Hb').
  rewrite (ann_hash _ _ _ Ha), (ann_hash _ _ _ Ha') in Heq.
  destruct (hash_commits_header _ _ (ann_wf _ _ _ Ha') (ann_wf _ _ _ Ha) Heq) as [Hc|Hc].
  - destruct Hc as (_ & _ & _ & _ & _ & _ & Ht & _).
    pose proof (stored_bounds dag _ b' Hinv Hb') as (_ & _ & Hlt).
    destruct (annotate_fields dag b) as (_ & _ & _ & _ & _ & _ & _ & _ & _ & _ & _ & _ & Ht' & _). lia.
  - by exists (block_hash (annotate dag b)), b'.
Qed.

Lemma insert_success_inv dag dag' b :
  insertable dag b -> store_ok (store dag') ->
  dag_get_block dag (block_hash (annotate dag b)) = None ->
  index dag' = update_tips_after_insert (annotate dag b) (index dag) ->
  dag_block_count dag' = S (dag_block_count dag) ->
  (forall h, dag_get_block dag' h =
    if decide (h = block_hash (annotate dag b)) then Some (annotate dag b)
    else dag_get_block dag h) ->
  dag_inv dag'.
Proof.
  intros Hins Hok' Hnew Hidx Hcount Hget. pose proof (annotate_annotated dag b Hins) as Ha.
  pose proof (annotate_fields dag b) as Hf. cbv zeta in Hf.
  set (b' := annotate dag b) in *. pose proof Hins as (Hinv & _ & _ & _ & Hchk).
  apply check_new_spec in Hchk as (_ & Hpar & Hgen); [|apply Hinv].
  assert (forall h bh, dag_get_block dag h = Some bh -> dag_get_block dag' h = Some bh) as Hmono.
  { intros h bh Hh. rewrite Hget, decide_False; [done|]. intros ->. by rewrite Hnew in Hh. }
  assert (forall p, is_Some (dag_get_block dag p) -> dag_get_block dag' p = dag_get_block dag p) as Hsame.
  { intros p [bp Hp]. by rewrite (Hmono p bp Hp). }
  split.
  - done.
  - rewrite Hidx. apply (update_tips_ok _ (store dag)); [apply Hinv|done|done|].
    intros c Hc. apply inv_closed in Hc; [|done]. rewrite Hnew in Hc. by destruct Hc.
  - intros h bh. rewrite Hget. case_decide as Hh.
    + intros [= <-]. rewrite Hcount. eapply annotated_ext; [|done|exact Ha].
      intros p Hp. apply Hsame, Hpar. destruct Hf as [<- _]. exact Hp.
    + intros Hb. pose proof (inv_annotated _ Hinv h bh Hb) as Hab.
      rewrite Hcount. eapply annotated_ext; [|apply Nat.le_succ_diag_r|exact Hab].
      intros p Hp. apply Hsame. destruct (ann_parents _ _ _ Hab p Hp) as (bp & -> & _). eauto.
  - assert (forall h bh, dag_get_block dag h = Some bh -> parent_hashes (header b') <> []) as Hne.
    { intros h bh Hb Hnil. destruct Hf as [Hp _]. rewrite Hp in Hnil. specialize (Hgen Hnil).
      assert (h ∈ get_all_hashes (store dag)) as Hin by (apply hashes_get; [apply Hinv|eauto]).
      unfold dag_block_count, block_count in Hgen. apply nil_length_inv in Hgen.
      rewrite Hgen in Hin. by apply not_elem_of_nil in Hin. }
    intros h h' bh bh'. rewrite !Hget. repeat case_decide; intros ? ? ? ?; simplify_eq; try done.
    + by destruct (Hne h' bh').
    + by destruct (Hne h bh).
    + by eapply (inv_genesis _ Hinv).
  - assert (forall h bh, dag_get_block dag h = Some bh ->
      topo_index (header bh) <> topo_index (header b')) as Hne.
    { intros h bh Hb. pose proof (stored_bounds dag h bh Hinv Hb) as (_ & _ & ?).
      destruct Hf as (_ & _ & _ & _ & _ & _ & _ & _ & _ & _ & _ & _ & -> & _). lia. }
    intros h h' bh bh'. rewrite !Hget. repeat case_decide; intros ? ? ?; simplify_eq; try done.
    + by destruct (Hne h' bh').
    + by destruct (Hne h bh).
    + by eapply (inv_topo _ Hinv).
Qed.

(** Insertion preserves the invariant when the annotated hash is free. *)
Lemma insert_fresh_inv now b dag :
  dag_inv dag -> fields_wf b -> Z.of_nat (length (parent_hashes (header b))) <= u64_max ->
  Z.of_nat (dag_block_count dag) < u64_max ->
  (insertable dag b -> dag_get_block dag (block_hash (annotate dag b)) = None) ->
  dag_inv (insert_block now b dag).2.
Proof.
  intros Hinv Hwf Hsz Hcount Hfresh. pose proof (inv_ok _ Hinv) as Hok.
  pose proof (insert_block_cases now b dag Hok) as [Hok' Hcase].
  destruct (insert_block now b dag) as [[[]|e] dag']; simpl in *.
  - destruct Hcase as (_ & Hchk & Hidx & Hsto & Hst' & Hget).
    assert (insertable dag b) as Hins by (unfold insertable; tauto).
    pose proof (Hfresh Hins) as Hnew.
    eapply insert_success_inv; [done|done|done|done| |done].
    unfold dag_block_count. rewrite Hst'.
    apply insert_ok_count; [done|apply annotate_hash_length|done|done].
  - destruct Hcase as [Hidx Hget]. destruct dag' as [st' idx']; simpl in *. subst idx'.
    by apply dag_inv_ext.
Qed.

(** What it takes of the block are the fields it arrives with. *)
Lemma insert_keeps_inv now b dag :
  dag_inv dag -> fields_wf b -> Z.of_nat (length (parent_hashes (header b))) <= u64_max ->
  Z.of_nat (dag_block_count dag) < u64_max ->
  dag_inv (insert_block now b dag).2 \/ annotation_collides dag b.
Proof.
  intros Hinv Hwf Hsz Hcount.
  destruct (dag_get_block dag (block_hash (annotate dag b))) eqn:Hb.
  - destruct (check_new dag b) as [[]|e] eqn:Hchk.
    + destruct (annotate_fresh dag b) as [?|Hc]; [unfold insertable; tauto|congruence|by right].
    + left. apply insert_fresh_inv; [done..|]. intros (_ & _ & _ & _ & Hok). congruence.
  - left. by apply insert_fresh_inv.
Qed.

(** A block accepted under a free hash is one block more. *)
Lemma insert_fresh_count now b dag :
  dag_inv dag -> fields_wf b -> Z.of_nat (length (parent_hashes (header b))) <= u64_max ->
  Z.of_nat (dag_block_count dag) < u64_max ->
  (dag_block_count (insert_block now b dag).2 <= S (dag_block_count dag))%nat \/
  annotation_collides dag b.
Proof.
  intros Hinv Hwf Hsz Hcount. pose proof (inv_ok _ Hinv) as Hok.
  pose proof (insert_block_cases now b dag Hok) as [Hok' Hcase].
  destruct (insert_block now b dag) as [[[]|e] dag']; cbn [fst snd] in *.
  - destruct Hcase as (_ & Hchk & _ & Hsto & Hst' & _).
    destruct (annotate_fresh dag b) as [Hnew|Hc]; [unfold insertable; tauto| |by right]. left.
    unfold dag_block_count. rewrite Hst'.
    rewrite insert_ok_count; [done|done|apply annotate_hash_length|done|done].
  - left. destruct Hcase as [_ Hget]. unfold dag_block_count.
    rewrite (block_count_ext (store dag) (store dag')); [lia|done|done|exact Hget].
Qed.

(** C3: [insert_block] preserves the DAG invariant whether it succeeds or
    fails: every stored block carries the hash of its annotated content, parents
    are stored before their children with smaller topological index, height and
    blue score, the selected parent is the parent the height is counted from,
    there is one genesis, and the index mirrors the store.  The exception is a
    SHA-256 collision between the new block and one already stored. *)
Theorem insert_block_inv now b dag :
  dag_inv dag -> block_wf b -> Z.of_nat (length (parent_hashes (header b))) <= u64_max ->
  Z.of_nat (dag_block_count dag) < u64_max ->
  dag_inv (insert_block now b dag).2 \/ annotation_collides dag b.
Proof. intros Hinv Hwf. apply insert_keeps_inv; [done|by apply block_wf_fields]. Qed.

(** An accepted block that was not annotated yet (blue score 0, as
    [Block::new] builds it) is stored under another hash than its own: looking it
    up by its hash finds nothing, submitting it again is accepted again, and a
    block that names it as a parent is rejected.  The exception is a SHA-256
    collision between the block and its annotated form. *)
Theorem insert_block_rehashes now b dag dag' :
  dag_inv dag -> block_wf b -> Z.of_nat (length (parent_hashes (header b))) <= u64_max ->
  Z.of_nat (dag_block_count dag) < u64_max -> blue_score (header b) = 0 ->
  insert_block now b dag = (Ok tt, dag') ->
  (dag_get_block dag' (block_hash b) = None /\
   (parent_hashes (header b) <> [] -> check_new dag' b = Ok tt) /\
   forall c, block_hash b ∈ parent_hashes (header c) -> check_new dag' c <> Ok tt)
  \/ sha256_collision [block_preimage b; block_preimage (annotate dag b)].
Proof.
  intros Hinv Hwf Hsz Hcount Hzero Heq. pose proof (inv_ok _ Hinv) as Hok.
  pose proof (insert_block_cases now b dag Hok) as [Hok' Hcase]. rewrite Heq in Hok', Hcase.
  destruct Hcase as (Hval & Hchk & _ & _ & _ & Hget). simpl in Hok', Hget.
  assert (insertable dag b) as Hins by (pose proof (block_wf_fields b Hwf); unfold insertable; tauto).
  pose proof (annotate_annotated dag b Hins) as Ha.
  apply validate_basic_iff in Hval as (Hbh & _).
  apply check_new_spec in Hchk as (Hnone & Hpar & _); [|done].
  destruct (decide (block_hash b = block_hash (annotate dag b))) as [Hh|Hh].
  { pose proof Hh as Hc. rewrite Hbh, (ann_hash _ _ _ Ha) in Hc.
    apply hash_commits_header in Hc as [Hc|Hc]; [|by right|done|by eapply ann_wf].
    destruct Hc as (_ & _ & _ & _ & Hbs & _). pose proof (ann_blue _ _ _ Ha). lia. }
  left. assert (dag_get_block dag' (block_hash b) = None) as Hlost
    by (rewrite Hget, decide_False by done; exact Hnone).
  split; [done|]. split.
  - intros Hne. apply check_new_spec; [done|]. split; [done|]. split; [|done].
    intros p Hp. rewrite Hget. case_decide; [eauto|]. by apply Hpar.
  - intros c Hc Hchk. apply check_new_spec in Hchk as (_ & Hp & _); [|done].
    apply Hp in Hc. rewrite Hlost in Hc. by destruct Hc.
Qed.

(** ** Tips *)

Lemma exists_max_topo dag (l : list BlockHash) :
  l <> [] -> exists x, x ∈ l /\ forall y, y ∈ l -> (topo_rank dag y <= topo_rank dag x)%nat.
Proof.
  induction l as [|x l IH]; [done|]. intros _. destruct (decide (l = [])) as [->|Hne].
  - exists x. split; [left|]. by intros y ->%list_elem_of_singleton.
  - destruct (IH Hne) as (m & Hm & Hmax).
    destruct (decide (topo_rank dag m <= topo_rank dag x)%nat).
    + exists x. split; [left|]. intros y [->|Hy]%elem_of_cons; [done|]. pose proof (Hmax y Hy). lia.
    + exists m. split; [by right|]. intros y [->|Hy]%elem_of_cons; [lia|auto].
Qed.

Lemma tips_nonempty dag : dag_inv dag -> dag_block_count dag <> 0%nat -> tips (index dag) <> ∅.
Proof.
  intros Hinv Hc Hempty. pose proof (dag_inv_shape dag Hinv) as Hsh.
  destruct (exists_max_topo dag (get_all_hashes (store dag))) as (x & Hx & Hmax).
  { intros E. apply Hc. unfold dag_block_count, block_count. by rewrite E. }
  assert (x ∈ tips (index dag)) as Hin; [|rewrite Hempty in Hin; by apply not_elem_of_empty in Hin].
  apply (proj2 (inv_index _ Hinv)). apply hashes_get in Hx; [|apply Hinv]. split; [done|].
  intros c Hcx. pose proof (shape_rank _ _ Hsh c x Hcx).
  assert (c ∈ get_all_hashes (store dag)) as Hcin.
  { apply hashes_get; [apply Hinv|]. by eapply parents_of_stored. }
  pose proof (Hmax c Hcin). lia.
Qed.

(** The tips are hashes of stored blocks, and no more than there are blocks. *)
Lemma dag_tips_stored dag p :
  dag_inv dag -> p ∈ dag_get_tips dag -> is_Some (dag_get_block dag p).
Proof. by intros Hinv Hp%elem_of_hs_iter%(proj2 (inv_index _ Hinv)) ; destruct Hp as [? _]. Qed.

Lemma stored_hash_length dag p :
  dag_inv dag -> is_Some (dag_get_block dag p) -> length p = 32%nat.
Proof.
  intros Hinv [b Hb].
  rewrite <- (get_hash _ _ _ (inv_ok _ Hinv) Hb), (ann_hash _ _ _ (inv_annotated _ Hinv _ _ Hb)).
  apply sha256_length.
Qed.

Lemma length_tips_le dag : dag_inv dag -> (length (dag_get_tips dag) <= dag_block_count dag)%nat.
Proof.
  intros Hinv. apply submseteq_length, NoDup_submseteq.
  - unfold dag_get_tips, get_tips. rewrite hs_iter_perm. apply NoDup_elements.
  - intros p Hp. apply hashes_get; [apply Hinv|]. by apply dag_tips_stored.
Qed.

(** On a non-empty DAG [create_block_on_tips] builds a block that names
    every unreferenced block, and at least one, as a parent; it passes
    [validate_basic] when its transactions are distinct, and insertion accepts it
    unless its hash is already taken. *)
Theorem create_block_on_tips_accepted now dag txs :
  dag_inv dag -> dag_block_count dag <> 0%nat -> NoDup (hash <$> txs) -> is_u64 (now + 3600) ->
  let b := create_block_on_tips now dag txs in
  (forall p, p ∈ parent_hashes (header b) <->
     is_Some (dag_get_block dag p) /\ forall c, p ∉ parents_of (store dag) c) /\
  parent_hashes (header b) <> [] /\ validate_basic now b = Ok tt /\
  (dag_get_block dag (block_hash b) = None -> check_new dag b = Ok tt).
Proof.
  intros Hinv Hc Hnd Hnow b.
  assert (forall p, p ∈ parent_hashes (header b) <-> p ∈ tips (index dag)) as Hp.
  { intros p. apply elem_of_hs_iter. }
  assert (parent_hashes (header b) <> []) as Hne.
  { intros Hnil. apply (tips_nonempty dag Hinv Hc). apply set_eq. intros p.
    rewrite <- Hp, Hnil, elem_of_nil. split; [done|]. by intros ?%not_elem_of_empty. }
  split; [intros p; rewrite Hp; apply (proj2 (inv_index _ Hinv))|].
  split; [done|]. split.
  - apply new_block_valid; [done|]. unfold u64_add, u64_wrap. rewrite Z.mod_small; machine.
  - intros Hnone. apply check_new_spec; [apply Hinv|]. split; [done|]. split; [|done].
    intros p Hpp. apply Hp in Hpp. by apply (proj2 (inv_index _ Hinv)) in Hpp as [? _].
Qed.

(** ** Whole-DAG validation *)

(** Every stored block is the genesis or descends from it. *)
Lemma genesis_below dag h :
  dag_inv dag -> is_Some (dag_get_block dag h) ->
  exists g bg, dag_get_block dag g = Some bg /\ parent_hashes (header bg) = [] /\
    (h = g \/ exists c, g ∈ parents_of (store dag) c).
Proof.
  intros Hinv. pose proof (dag_inv_shape dag Hinv) as Hsh.
  remember (topo_rank dag h) as r eqn:Hr. revert h Hr.
  induction r as [r IH] using lt_wf_ind. intros h -> [b Hb].
  destruct (parent_hashes (header b)) as [|p ps] eqn:Hp.
  - exists h, b. auto.
  - assert (p ∈ parents_of (store dag) h) as Hph.
    { rewrite (parents_of_get _ _ b Hb), Hp. left. }
    destruct (IH (topo_rank dag p)) with (h := p) as (g & bg & Hg & Hnil & Hor);
      [by apply (shape_rank _ _ Hsh)|done|by eapply shape_closed|].
    exists g, bg. split; [done|]. split; [done|]. right.
    destruct Hor as [->|?]; [by exists h|done].
Qed.

Lemma verify_integrity_ok dag : dag_inv dag -> verify_integrity (store dag) = Ok tt.
Proof.
  intros Hinv. unfold verify_integrity.
  assert (forall l, (forall b, b ∈ l -> block_hash b = calculate_hash b) ->
    foldr (fun b k => if decide (block_hash b = calculate_hash b) then k
      else errorf "Block hash mismatch detected: stored={} computed={}"
             [ArgHex (block_hash b); ArgHex (calculate_hash b)]) (Ok tt) l = Ok tt) as Hl.
  { induction l as [|b l IH]; intros Hall; [done|]. simpl.
    rewrite decide_True by (apply Hall; left). apply IH. intros b' ?. apply Hall. by right. }
  apply Hl. intros b Hb%elem_of_get_all_blocks; [|apply Hinv].
  apply (ann_hash _ _ _ (inv_annotated _ Hinv _ b Hb)).
Qed.

Lemma check_references_ok dag : 
  dag_inv dag -> foldr (check_references dag) (Ok tt) (get_all_blocks (store dag)) = Ok tt.
Proof.
  intros Hinv.
  assert (forall l, (forall b, b ∈ l -> get_block (store dag) (block_hash b) = Some b) ->
    foldr (check_references dag) (Ok tt) l = Ok tt) as Hl.
  { induction l as [|b l IH]; intros Hall; [done|]. simpl.
    rewrite IH by (intros b' ?; apply Hall; by right).
    unfold check_references. apply foldr_result_ok. intros p Hp.
    rewrite exists_get by apply Hinv. apply bool_decide_eq_true.
    assert (p ∈ parents_of (store dag) (block_hash b)) as Hpp.
    { by rewrite (parents_of_get _ _ b) by (apply Hall; left). }
    by apply (inv_closed dag) in Hpp. }
  apply Hl. intros b Hb. by apply elem_of_get_all_blocks in Hb; [|apply Hinv].
Qed.

(** On a DAG built by insertions [validate] succeeds exactly when
    there is a single tip: its genesis check does not ask whether the genesis is
    a tip, so it rejects every DAG with two or more tips. *)
Theorem validate_single_tip dag :
  dag_inv dag -> validate dag = Ok tt <-> size (tips (index dag)) = 1%nat.
Proof.
  intros Hinv. pose proof (inv_ok _ Hinv) as Hok. unfold validate.
  rewrite verify_integrity_ok, check_references_ok by done. cbn [mbind result_bind].
  rewrite size_list_to_set by by apply hashes_nodup. rewrite Nat.eqb_refl. cbn [negb].
  assert ((list_to_set (dag_get_tips dag) : gset BlockHash) = tips (index dag)) as ->.
  { apply set_eq. intros h. rewrite elem_of_list_to_set. apply elem_of_hs_iter. }
  case_bool_decide as Hnil.
  { split; [done|]. intros Hs.
    assert (tips (index dag) <> ∅) as [t Ht]%set_choose_L by (intros E; rewrite E, size_empty in Hs; lia).
    apply (proj2 (inv_index _ Hinv)) in Ht as [Ht _]. apply hashes_get in Ht; [|done].
    rewrite <- get_all_blocks_hashes, Hnil in Ht by done. by apply not_elem_of_nil in Ht. }
  destruct (existsb _ _) eqn:He.
  - split; [done|]. apply existsb_exists in He as (b & _ & Hb).
    apply andb_prop in Hb as [Hb _]. apply andb_prop in Hb as [_ Hb]. apply Nat.ltb_lt in Hb. lia.
  - split; [intros _|done]. assert (size (tips (index dag)) <> 0%nat) as Hnz.
    { rewrite size_non_empty_iff, leibniz_equiv_iff. apply tips_nonempty; [done|].
      unfold dag_block_count. rewrite <- get_all_blocks_length by done.
      by rewrite length_zero_iff_nil. }
    destruct (decide (1 < size (tips (index dag)))%nat) as [Hlt|]; [exfalso|lia].
    destruct (gset_size_2 _ Hlt) as (t1 & t2 & Ht1 & Ht2 & Hne).
    apply (proj2 (inv_index _ Hinv)) in Ht1 as [Hs1 _], Ht2 as [Hs2 _].
    destruct (genesis_below dag t1 Hinv Hs1) as (g & bg & Hg & Hgn & Hg1).
    destruct (genesis_below dag t2 Hinv Hs2) as (g2 & bg2 & Hgb2 & Hgn2 & Hg2).
    rewrite (inv_genesis _ Hinv _ _ _ _ Hgb2 Hg Hgn2 Hgn) in Hg2.
    assert (exists c bc, dag_get_block dag c = Some bc /\ g ∈ parent_hashes (header bc))
      as (c & bc & Hbc & Hgc).
    { assert (exists c, g ∈ parents_of (store dag) c) as [c Hc].
      { destruct Hg1 as [Heq1|]; [|done]. destruct Hg2 as [Heq2|]; [|done]. congruence. }
      apply elem_of_parents_of in Hc as (bc & ? & ?). eauto. }
    assert (existsb (fun b => bool_decide (parent_hashes (header b) = []) &&
      (1 <? size (tips (index dag)))%nat &&
      existsb (fun b' => bool_decide (block_hash b ∈ parent_hashes (header b')))
        (get_all_blocks (store dag))) (get_all_blocks (store dag)) = true) as Htrue; [|congruence].
    pose proof (get_hash _ _ _ Hok Hg) as Hgh. pose proof (get_hash _ _ _ Hok Hbc) as Hch.
    apply existsb_exists. exists bg. rewrite <- list_elem_of_In, elem_of_get_all_blocks by done.
    split; [by rewrite Hgh|]. rewrite bool_decide_true, (proj2 (Nat.ltb_lt _ _) Hlt) by done.
    apply existsb_exists. exists bc. rewrite <- list_elem_of_In, elem_of_get_all_blocks by done.
    split; [by rewrite Hch|]. apply bool_decide_true. by rewrite Hgh.
Qed.

(** ** Heights and the selected-parent chain *)

Lemma up_path_height dag n h x b :
  dag_inv dag -> dag_get_block dag h = Some b -> up_path (store dag) n h x ->
  Z.of_nat n <= height b.
Proof.
  intros Hinv Hb Hp. revert b Hb. induction Hp as [h|n h y x Hy _ IH]; intros b Hb.
  - pose proof (stored_bounds dag h b Hinv Hb). lia.
  - rewrite (parents_of_get _ _ b Hb) in Hy.
    destruct (ann_parents _ _ _ (inv_annotated _ Hinv h b Hb) y Hy) as (by_ & Hy' & _ & Hlt & _).
    pose proof (IH by_ Hy'). lia.
Qed.

(** Each step along the selected parents lowers the height by one. *)
Lemma selected_step dag h b :
  dag_inv dag -> dag_get_block dag h = Some b ->
  match selected_parent (header b) with
  | None => height b = 0
  | Some sp => sp ∈ parents_of (store dag) h /\
               exists bp, dag_get_block dag sp = Some bp /\ height b = height bp + 1
  end.
Proof.
  intros Hinv Hb. pose proof (ann_selected _ _ _ (inv_annotated _ Hinv h b Hb)) as Hs.
  destruct (selected_parent (header b)) as [sp|]; [|tauto].
  by rewrite (parents_of_get _ _ b Hb).
Qed.

Lemma selected_path dag n h b :
  dag_inv dag -> dag_get_block dag h = Some b -> height b = Z.of_nat n ->
  exists x, up_path (store dag) n h x.
Proof.
  intros Hinv. revert h b. induction n as [|n IH]; intros h b Hb Hn.
  - exists h. constructor.
  - pose proof (selected_step dag h b Hinv Hb) as Hs.
    destruct (selected_parent (header b)) as [sp|]; [|lia].
    destruct Hs as (Hin & bp & Hbp & Hh). destruct (IH sp bp Hbp) as [x Hx]; [lia|].
    exists x. by eapply nsteps_l.
Qed.

(** The height recorded in a stored block is the length of the longest
    path of parent links from it, so the stored value and the depth fallback of
    [get_block_height] agree. *)
Theorem get_block_height_depth dag h b :
  dag_inv dag -> dag_get_block dag h = Some b ->
  height b = Z.of_nat (dag_get_block_depth dag h) /\ get_block_height dag h = Some (height b).
Proof.
  intros Hinv Hb. pose proof (stored_bounds dag h b Hinv Hb) as [[Hpos _] _].
  destruct (block_depth_longest (store dag) _ h (dag_inv_shape dag Hinv)) as [[x Hx] Hmax].
  pose proof (up_path_height dag _ h x b Hinv Hb Hx) as Hle.
  destruct (selected_path dag (Z.to_nat (height b)) h b Hinv Hb ltac:(lia)) as [y Hy].
  pose proof (Hmax _ _ Hy).
  assert (height b = Z.of_nat (dag_get_block_depth dag h)) as Hd by (unfold dag_get_block_depth; lia).
  split; [done|]. unfold get_block_height. rewrite Hb.
  pose proof (ann_height _ _ _ (inv_annotated _ Hinv h b Hb)) as [-> _].
  destruct (Z.ltb_spec 0 (height b)) as [Hlt|Hge].
  - by rewrite (proj2 (Z.ltb_lt _ _) Hlt).
  - simpl. rewrite <- Hd. f_equal. 
Qed.

(** Walking back from a stored block collects one timestamp per block of
    its selected-parent chain down to the genesis, at most [max] of them, oldest
    first and ending with the block's own. *)
Theorem get_timestamps_from_start_spec dag h b max :
  dag_inv dag -> dag_get_block dag h = Some b ->
  length (get_timestamps_from_start dag h max) = Nat.min max (S (Z.to_nat (height b))) /\
  (max <> 0%nat -> last (get_timestamps_from_start dag h max) = Some (timestamp (header b))).
Proof.
  intros Hinv Hb. unfold get_timestamps_from_start. rewrite Hb, length_reverse. split.
  - revert h b Hb. induction max as [|max IH]; intros h b Hb; [done|].
    cbn [walk_back length]. pose proof (selected_step dag h b Hinv Hb) as Hs.
    destruct (selected_parent (header b)) as [sp|]; simpl.
    + destruct Hs as (_ & bp & Hbp & Hh). rewrite Hbp, (IH sp bp Hbp).
      pose proof (stored_bounds dag sp bp Hinv Hbp). rewrite Hh. lia.
    + rewrite Hs. simpl. lia.
  - intros Hne. destruct max as [|max]; [done|]. cbn [walk_back].
    rewrite reverse_cons, last_snoc. done.
Qed.

(** The empty DAG satisfies the invariant. *)
Lemma dag_inv_new (st : St) :
  store_ok st -> (forall h, get_block st h = None) -> dag_inv (new st).
Proof.
  intros Hok Hnone. split; unfold dag_get_block; simpl.
  - done.
  - split; [intros p c; unfold parents_of; by rewrite Hnone|].
    intros h. rewrite Hnone. split; [by intros ?%not_elem_of_empty|by intros [[] _]].
  - intros h b Hb. by rewrite Hnone in Hb.
  - intros h h' b b' Hb. by rewrite Hnone in Hb.
  - intros h h' b b' Hb. by rewrite Hnone in Hb.
Qed.
End Invariant.

(** ** A concrete DAG *)

#[local] Existing Instances checksum_sha checksum_laws constant_exp canonical_order.

Lemma fst_ok_pair {A B} (p : A * B) a : p.1 = a -> p = (a, p.2).
Proof. destruct p. by intros <-. Qed.

Definition test_block (parents : list BlockHash) (t : Z) : Block :=
  Block.new parents t [] 0 0 0 (replicate 20 0) (replicate 32 0).
Definition dag0 : BlockDAG MemStore := new (∅ : MemStore).
Definition dag1 : BlockDAG MemStore :=
  Eval vm_compute in (insert_block 0 (test_block [] 1) dag0).2.
Definition dag2 : BlockDAG MemStore :=
  Eval vm_compute in (insert_block 0 (create_block_on_tips 2 dag1 []) dag1).2.
Lemma dag1_eq : dag1 = (insert_block 0 (test_block [] 1) dag0).2.
Proof. vm_compute. reflexivity. Qed.
Lemma dag2_eq : dag2 = (insert_block 0 (create_block_on_tips 2 dag1 []) dag1).2.
Proof. vm_compute. reflexivity. Qed.

Lemma dag0_inv : dag_inv dag0.
Proof. apply dag_inv_new; [apply mem_ok_empty|done]. Qed.

Lemma test_block_wf parents t :
  Forall (fun p => length p = 32%nat) parents -> is_u64 t -> block_wf (test_block parents t).
Proof.
  intros Hp Ht. unfold block_wf, test_block, Block.new, with_hash.
  cbn [header parent_hashes state_root producer selected_parent timestamp header_nonce
       difficulty base_fee version blue_score chain_height topo_index].
  split_and!; try assumption; try reflexivity; try discriminate; machine.
Qed.

Lemma dag1_inv : dag_inv dag1.
Proof.
  rewrite dag1_eq.
  apply insert_fresh_inv; [apply dag0_inv|apply block_wf_fields, test_block_wf; [constructor|machine]|done|done|].
  intros _. vm_compute. done.
Qed.

Lemma create_on_tips_wf (now : Z) (d : BlockDAG MemStore) :
  dag_inv d -> is_u64 now -> block_wf (create_block_on_tips now d []).
Proof.
  intros Hinv Hn. apply test_block_wf; [|done]. apply Forall_forall. intros p Hp.
  apply elem_of_hs_iter, (proj2 (inv_index _ Hinv)) in Hp as [[b Hb] _].
  rewrite <- (get_hash _ _ _ (inv_ok _ Hinv) Hb),
    (ann_hash _ _ _ (inv_annotated _ Hinv _ _ Hb)). apply sha256_length.
Qed.

Lemma dag2_inv : dag_inv dag2.
Proof.
  rewrite dag2_eq.
  apply insert_fresh_inv; [apply dag1_inv|apply block_wf_fields, create_on_tips_wf; [apply dag1_inv|machine]|..].
  - vm_compute. discriminate.
  - vm_compute. reflexivity.
  - intros _. vm_compute. reflexivity.
Qed.

Definition tip2 : BlockHash := Eval vm_compute in hd [] (dag_get_tips dag2).
Definition tip_block2 : Block := Eval vm_compute in default default_block (dag_get_block dag2 tip2).

Lemma tip_block2_stored : dag_get_block dag2 tip2 = Some tip_block2.
Proof. vm_compute. reflexivity. Qed.

Lemma insert_block_inv_witness :
  dag_block_count (insert_block 0 (create_block_on_tips 3 dag2 []) dag2).2 = 3%nat /\
  (dag_inv (insert_block 0 (create_block_on_tips 3 dag2 []) dag2).2 \/
   annotation_collides dag2 (create_block_on_tips 3 dag2 [])).
Proof.
  split; [vm_compute; reflexivity|].
  apply insert_block_inv; [apply dag2_inv|apply create_on_tips_wf; [apply dag2_inv|machine]| |].
  - vm_compute. discriminate.
  - vm_compute. reflexivity.
Defined.

Lemma dag2_inserted : insert_block 0 (create_block_on_tips 2 dag1 []) dag1 = (Ok tt, dag2).
Proof.
  rewrite dag2_eq. apply fst_ok_pair.
  change ((insert_block 0 (create_block_on_tips 2 dag1 []) dag1).1 = Ok tt).
  vm_compute. reflexivity.
Qed.

Lemma insert_block_rehashes_witness :
  let b := create_block_on_tips 2 dag1 [] in
  (dag_get_block dag2 (block_hash b) = None /\
   (parent_hashes (header b) <> [] -> check_new dag2 b = Ok tt) /\
   forall c, block_hash b ∈ parent_hashes (header c) -> check_new dag2 c <> Ok tt)
  \/ sha256_collision [block_preimage b; block_preimage (annotate dag1 b)].
Proof.
  intros b. apply (insert_block_rehashes 0 b dag1 dag2);
    [apply dag1_inv|apply create_on_tips_wf; [apply dag1_inv|machine]|..].
  - vm_compute. discriminate.
  - vm_compute. reflexivity.
  - reflexivity.
  - apply dag2_inserted.
Defined.

Lemma create_block_on_tips_accepted_witness :
  let b := create_block_on_tips 3 dag2 [] in
  (forall p, p ∈ parent_hashes (header b) <->
     is_Some (dag_get_block dag2 p) /\ forall c, p ∉ parents_of (store dag2) c) /\
  parent_hashes (header b) <> [] /\ validate_basic 3 b = Ok tt /\
  (dag_get_block dag2 (block_hash b) = None -> check_new dag2 b = Ok tt).
Proof.
  apply (create_block_on_tips_accepted 3 dag2 []); [apply dag2_inv|by vm_compute|constructor|machine].
Defined.

(** Two children of the genesis: two tips, which [validate] rejects. *)
Definition fork : BlockDAG MemStore :=
  Eval vm_compute in (insert_block 0 (test_block (dag_get_tips dag1) 7) dag2).2.
Lemma fork_eq : fork = (insert_block 0 (test_block (dag_get_tips dag1) 7) dag2).2.
Proof. vm_compute. reflexivity. Qed.
Lemma fork_inv : dag_inv fork.
Proof.
  rewrite fork_eq.
  apply insert_fresh_inv; [apply dag2_inv|apply block_wf_fields|..].
  - apply test_block_wf; [|machine]. apply Forall_forall. vm_compute.
    intros p [->|Hp]%elem_of_cons; [reflexivity|by apply not_elem_of_nil in Hp].
  - vm_compute. discriminate.
  - vm_compute. reflexivity.
  - intros _. vm_compute. reflexivity.
Qed.

Lemma validate_single_tip_witness :
  (validate dag2 = Ok tt <-> size (tips (index dag2)) = 1%nat) /\
  size (tips (index fork)) = 2%nat /\ is_ok (validate fork) = false /\
  (validate fork = Ok tt <-> size (tips (index fork)) = 1%nat).
Proof.
  split; [apply validate_single_tip, dag2_inv|]. split; [vm_compute; reflexivity|].
  split; [vm_compute; reflexivity|]. apply validate_single_tip, fork_inv.
Defined.

Lemma get_block_height_depth_witness :
  height tip_block2 = Z.of_nat (dag_get_block_depth dag2 tip2) /\
  get_block_height dag2 tip2 = Some (height tip_block2).
Proof. apply get_block_height_depth; [apply dag2_inv|apply tip_block2_stored]. Defined.

Lemma get_timestamps_from_start_spec_witness :
  length (get_timestamps_from_start dag2 tip2 5) = Nat.min 5 (S (Z.to_nat (height tip_block2))) /\
  (5%nat <> 0%nat ->
   last (get_timestamps_from_start dag2 tip2 5) = Some (timestamp (header tip_block2))).
Proof. apply get_timestamps_from_start_spec; [apply dag2_inv|apply tip_block2_stored]. Defined.
