(* ===== verification/DagTraversal.v ===== *)
(** Traversal helpers of the consensus code: [src/src/consensus/dag_traversal.rs].

    The ancestor and descendant searches, the anticone, path search and common
    ancestors, over the blockDAG engine. *)
From S2P Require Import Prelude Crypto Transaction Floats Mining Block Graph Store DagIndex BlockDag.

(** [for p in next(current) { if !acc.contains(p) && p != hash { acc.insert(p);
    queue.push_back(p) } }] *)
Definition visit_others (hash : BlockHash) (st : gset BlockHash * list BlockHash)
    (xs : list BlockHash) : gset BlockHash * list BlockHash :=
  foldl (fun '(acc, queue) x =>
    if decide (x ∉ acc /\ x <> hash) then ({[x]} ∪ acc, queue ++ [x]) else (acc, queue)) st xs.

(** The search loop of [get_ancestors] and [get_descendants], with its separate
    set of expanded nodes. *)
Fixpoint traverse (next : BlockHash -> list BlockHash) (hash : BlockHash) (fuel : nat)
    (queue : list BlockHash) (visited acc : gset BlockHash) : gset BlockHash :=
  match queue with
  | [] => acc
  | current :: queue' =>
      match fuel with
      | O => acc
      | S fuel' =>
          if decide (current ∈ visited) then traverse next hash fuel' queue' visited acc
          else
            let '(acc', queue'') := visit_others hash (acc, queue') (next current) in
            traverse next hash fuel' queue'' ({[current]} ∪ visited) acc'
      end
  end.

(** Follow the links of [parent_map] from [curr], appending to [path]. *)
Fixpoint rebuild_path (parent_map : gmap BlockHash BlockHash) (fuel : nat)
    (path : list BlockHash) (curr : BlockHash) : list BlockHash :=
  match fuel with
  | O => path
  | S fuel' =>
      match parent_map !! curr with
      | Some parent => rebuild_path parent_map fuel' (path ++ [parent]) parent
      | None => path
      end
  end.

(** [for parent in parents { if !visited.contains(parent) { ... } }] *)
Definition path_visit (current : BlockHash)
    (st : gset BlockHash * gmap BlockHash BlockHash * list BlockHash) (parent : BlockHash) :=
  let '(visited, parent_map, queue) := st in
  if decide (parent ∈ visited) then (visited, parent_map, queue)
  else ({[parent]} ∪ visited, <[parent := current]> parent_map, queue ++ [parent]).

Fixpoint path_search (next : BlockHash -> list BlockHash) (from : BlockHash) (fuel : nat)
    (visited : gset BlockHash) (parent_map : gmap BlockHash BlockHash) (queue : list BlockHash)
    : option (list BlockHash) :=
  match queue, fuel with
  | [], _ | _, O => None
  | current :: queue', S fuel' =>
      if decide (current = from)
      then Some (reverse (rebuild_path parent_map (size parent_map) [current] current))
      else
        let '(visited', parent_map', queue'') :=
          foldl (path_visit current) (visited, parent_map, queue') (next current) in
        path_search next from fuel' visited' parent_map' queue''
  end.

Section Traversal.
Context `{Sha256} `{LibM} `{HashOrder} {St : Type} `{BlockStoreI St}.
Implicit Types (dag : BlockDAG St) (h : BlockHash).

Definition get_ancestors dag h : gset BlockHash :=
  traverse (parents_of (store dag)) h (S (length (all_parents (store dag)))) [h] ∅ ∅.
Definition get_descendants dag h : gset BlockHash :=
  traverse (dag_get_children dag) h (S (length (all_children (index dag)))) [h] ∅ ∅.

Definition get_parents dag h : list BlockHash := parents_of (store dag) h.
Definition get_children dag h : list BlockHash := dag_get_children dag h.

Definition get_anticone dag (block_hash reference_hash : BlockHash) : gset BlockHash :=
  let reachable := {[reference_hash]} ∪ get_ancestors dag reference_hash in
  filter (fun a => a ∉ reachable) (get_ancestors dag block_hash).

Definition get_path dag (from to : BlockHash) : option (list BlockHash) :=
  path_search (get_parents dag) from (2 + length (all_parents (store dag))) {[to]} ∅ [to].

Definition get_all_blocks dag : list BlockHash := dag_get_topological_order dag.
Definition get_blocks_at_depth dag (depth : nat) : list BlockHash :=
  filter (fun h => dag_get_block_depth dag h = depth) (dag_get_topological_order dag).
Definition is_ancestor dag (ancestor block : BlockHash) : bool := dag_is_ancestor dag ancestor block.

Definition self_and_ancestors dag h : gset BlockHash := {[h]} ∪ get_ancestors dag h.
Definition get_common_ancestors dag (hashes : list BlockHash) : gset BlockHash :=
  match hashes with
  | [] => ∅
  | h :: hs => foldl (fun common h' => common ∩ self_and_ancestors dag h')
                 (self_and_ancestors dag h) hs
  end.

Definition get_furthest_common_ancestor dag (hash1 hash2 : BlockHash) : option BlockHash :=
  let common := get_ancestors dag hash1 ∩ get_ancestors dag hash2 in
  match hs_iter common with
  | [] => dag_find_lca dag hash1 hash2
  | l => max_by_key (fun h => Z.of_nat (dag_get_block_depth dag h)) l
  end.

Definition count_descendants dag h : nat := size (get_descendants dag h).
Definition count_ancestors dag h : nat := size (get_ancestors dag h).
End Traversal.

(** ** The searches *)

Section Search.
Context (next : BlockHash -> list BlockHash) (hash : BlockHash).

Definition other_next (x : BlockHash) : list BlockHash := filter (fun y => y <> hash) (next x).

Lemma visit_others_filter acc queue xs :
  visit_others hash (acc, queue) xs = visit_all (acc, queue) (filter (fun y => y <> hash) xs).
Proof.
  revert acc queue. induction xs as [|x xs IH]; intros acc queue; [done|].
  rewrite filter_cons. cbn [visit_others foldl].
  destruct (decide (x <> hash)) as [Hx|Hx]; cbn [visit_all foldl].
  - destruct (decide (x ∈ acc)) as [Ha|Ha].
    + rewrite decide_False by tauto. apply IH.
    + rewrite decide_True by tauto. apply IH.
  - rewrite decide_False by tauto. apply IH.
Qed.

(** Each node is queued once, so the set of expanded nodes changes nothing. *)
Lemma traverse_bfs fuel queue visited acc :
  NoDup queue -> (forall x, x ∈ queue -> x ∉ visited) ->
  (forall x, x ∈ queue \/ x ∈ visited -> x = hash \/ x ∈ acc) ->
  (hash ∈ queue \/ hash ∈ visited) ->
  traverse next hash fuel queue visited acc = bfs other_next fuel queue acc.
Proof.
  revert queue visited acc. induction fuel as [|fuel IH]; intros queue visited acc Hnd Hqv Hacc Hh;
    (destruct queue as [|x queue]; [done|]); [done|].
  cbn [traverse bfs]. apply NoDup_cons in Hnd as [Hx Hnd].
  rewrite decide_False by (apply Hqv; left). rewrite visit_others_filter. fold (other_next x).
  pose proof (visit_all_acc (other_next x) acc queue) as Hset.
  destruct (visit_all_new (other_next x) acc queue) as (new & Hq & Hndn & Hin).
  destruct (visit_all (acc, queue) (other_next x)) as [acc' queue'']; simpl in Hset, Hq. subst queue''.
  assert (forall y, y ∈ new -> y <> hash /\ y ∉ acc) as Hnew.
  { intros y [Hy ?]%Hin. by apply list_elem_of_filter in Hy as [? _]. }
  assert (forall y, y ∈ acc' <-> y ∈ new \/ y ∈ acc) as Hacc'.
  { intros y. rewrite Hset, elem_of_union, elem_of_list_to_set, Hin.
    destruct (decide (y ∈ acc)); tauto. }
  apply IH.
  - apply NoDup_app. split; [done|]. split; [|done]. intros y Hy Hyn. apply Hnew in Hyn as [Hne Hna].
    destruct (Hacc y); [left; by right|done|done].
  - intros y [Hy|Hy]%elem_of_app; rewrite elem_of_union, elem_of_singleton; intros [->|Hv].
    + done.
    + apply (Hqv y); [by right|done].
    + apply Hnew in Hy as [Hne Hna]. destruct (Hacc x); [left; left|done|done].
    + apply Hnew in Hy as [Hne Hna]. destruct (Hacc y); [by right|done|done].
  - intros y. rewrite elem_of_app, elem_of_union, elem_of_singleton, Hacc'.
    intros [[Hy|Hy]|[->|Hy]].
    + destruct (Hacc y); [left; by right|by left|by right; right].
    + by right; left.
    + destruct (Hacc x); [left; left|by left|by right; right].
    + destruct (Hacc y); [by right|by left|by right; right].
  - rewrite elem_of_app, elem_of_union, elem_of_singleton. destruct Hh as [[->|Hq]%elem_of_cons|Hv]; auto.
Qed.

Lemma reach_other x : reach other_next hash x <-> reach next hash x /\ x <> hash.
Proof.
  split.
  - intros Hr. assert (forall y z, reach other_next y z -> reach next y z /\ z <> hash) as Hgen;
      [|by apply Hgen]. clear.
    induction 1 as [y z Hz|y z w Hz _ [IH1 IH2]].
    + apply list_elem_of_filter in Hz as [? Hz]. split; [by apply tc_once|done].
    + apply list_elem_of_filter in Hz as [_ Hz]. split; [by eapply reach_cons|done].
  - intros [Hr Hne].
    assert (forall y, reach next y x -> reach other_next y x \/ reach other_next hash x) as Hgen.
    { clear Hr. intros y Hr. induction Hr as [y x Hx|y z x Hz _ IH].
      - left. apply tc_once. by apply list_elem_of_filter.
      - destruct (IH Hne) as [Hzx|?]; [|by right].
        destruct (decide (z = hash)) as [->|Hzh]; [by right|left].
        eapply reach_cons; [|exact Hzx]. by apply list_elem_of_filter. }
    by destruct (Hgen hash Hr).
Qed.

Lemma traverse_reach universe fuel x :
  (forall x y, y ∈ next x -> y ∈ universe) -> (size (list_to_set universe : gset BlockHash) < fuel)%nat ->
  x ∈ traverse next hash fuel [hash] ∅ ∅ <-> reach next hash x /\ x <> hash.
Proof.
  intros Hu Hf. rewrite traverse_bfs.
  - rewrite <- reach_other. apply (bfs_reach other_next hash (list_to_set universe)); [|done].
    intros y z [_ Hz]%list_elem_of_filter. apply elem_of_list_to_set. by eapply Hu.
  - apply NoDup_singleton.
  - intros y _. apply not_elem_of_empty.
  - intros y [->%list_elem_of_singleton|Hy]; [by left|by apply not_elem_of_empty in Hy].
  - left. left.
Qed.
End Search.

Section TraversalFacts.
Context `{Sha256} `{LibM} `{HashOrder} {St : Type} `{BlockStoreLaws St}.
Implicit Types (dag : BlockDAG St) (h : BlockHash).

Lemma elem_of_get_ancestors dag h x :
  store_ok (store dag) ->
  x ∈ get_ancestors dag h <-> reach (parents_of (store dag)) h x /\ x <> h.
Proof.
  intros Hok. unfold get_ancestors. apply (traverse_reach _ _ (all_parents (store dag))).
  - intros y z Hz. by eapply parents_in_all.
  - pose proof (size_list_to_set_le (all_parents (store dag))). lia.
Qed.

Lemma elem_of_get_descendants dag h x :
  index_ok (index dag) (store dag) ->
  x ∈ get_descendants dag h <-> reach (parents_of (store dag)) x h /\ x <> h.
Proof.
  intros Hidx. unfold get_descendants. rewrite <- (reach_children (index dag)) by done.
  apply (traverse_reach _ _ (all_children (index dag))).
  - intros y z Hz. unfold dag_get_children, DagIndex.get_children in Hz.
    destruct (parent_to_children (index dag) !! y) as [cs|] eqn:Hy; [|by apply not_elem_of_nil in Hz].
    apply list_elem_of_In, in_concat. exists cs. rewrite <- !list_elem_of_In. split; [|done].
    apply list_elem_of_fmap. exists (y, cs). split; [done|]. by apply elem_of_map_to_list.
  - pose proof (size_list_to_set_le (all_children (index dag))). lia.
Qed.

Lemma reach_rank rank (st : St) x y :
  dag_shape rank st -> reach (parents_of st) x y -> (rank y < rank x)%nat.
Proof.
  intros Hsh. induction 1 as [x y Hxy|x y z Hxy _ IH].
  - by apply (shape_rank rank st).
  - pose proof (shape_rank rank st Hsh x y Hxy). lia.
Qed.

(** On a DAG the traversal agrees with the index. *)
Lemma get_ancestors_index rank dag h :
  dag_shape rank (store dag) -> get_ancestors dag h = BlockDag.get_ancestors dag h.
Proof.
  intros Hsh. pose proof (shape_ok _ _ Hsh) as Hok. apply set_eq. intros x.
  unfold BlockDag.get_ancestors. rewrite elem_of_get_ancestors, get_all_ancestors_reach by done.
  split; [by intros [? _]|]. intros Hr. split; [done|]. intros ->.
  pose proof (reach_rank rank _ h h Hsh Hr). lia.
Qed.

Lemma elem_of_get_anticone dag b r x :
  store_ok (store dag) ->
  x ∈ get_anticone dag b r <->
    x ∈ get_ancestors dag b /\ x <> r /\ x ∉ get_ancestors dag r.
Proof.
  intros Hok. unfold get_anticone. rewrite elem_of_filter, elem_of_union, elem_of_singleton. tauto.
Qed.

(** The anticone of a block and of each of its ancestors, relative to the block,
    is empty: the ancestors of an ancestor are ancestors. *)
Lemma anticone_of_ancestor rank dag b r :
  dag_shape rank (store dag) -> b = r \/ b ∈ get_ancestors dag r -> get_anticone dag b r = ∅.
Proof.
  intros Hsh Hb. pose proof (shape_ok _ _ Hsh) as Hok.
  apply elem_of_equiv_empty_L. intros x. rewrite elem_of_get_anticone by done.
  intros (Hx & Hxr & Hn). destruct Hb as [->|Hb]; [done|].
  apply elem_of_get_ancestors in Hx as [Hx _]; [|done].
  apply elem_of_get_ancestors in Hb as [Hb _]; [|done].
  apply Hn, elem_of_get_ancestors; [done|]. split; [|done]. by eapply tc_transitive.
Qed.

Lemma elem_of_get_common_ancestors dag hashes x :
  hashes <> [] ->
  x ∈ get_common_ancestors dag hashes <-> forall h, h ∈ hashes -> x = h \/ x ∈ get_ancestors dag h.
Proof.
  destruct hashes as [|h hs]; [done|]. intros _. unfold get_common_ancestors.
  assert (forall s, x ∈ foldl (fun common h' => common ∩ self_and_ancestors dag h') s hs <->
    x ∈ s /\ forall h', h' ∈ hs -> x ∈ self_and_ancestors dag h') as Hf.
  { induction hs as [|h' hs IH]; intros s; cbn [foldl].
    - split; [split; [done|by intros ? ?%not_elem_of_nil]|by intros [? _]].
    - rewrite IH, elem_of_intersection. setoid_rewrite elem_of_cons. naive_solver. }
  rewrite Hf. setoid_rewrite elem_of_cons. unfold self_and_ancestors.
  setoid_rewrite elem_of_union. setoid_rewrite elem_of_singleton. naive_solver.
Qed.
End TraversalFacts.
