(* ===== verification/BlueSet.v ===== *)
(** Blue sets: [src/src/consensus/blue_set.rs]. *)
From S2P Require Import Prelude Crypto Transaction Floats Mining Block Graph Store DagIndex BlockDag.
From S2P Require Import DagTraversal.

Record BlueSet := { k : nat }.
Definition new (k : nat) : BlueSet := {| k := k |}.

Record BlueSetStats := {
  blue_count : nat;
  red_count : nat;
  total_blocks : nat;
  k_parameter : nat;
  blue_ratio : f64
}.

Section BlueSet.
Context `{Sha256} `{LibM} `{HashOrder} {St : Type} `{BlockStoreI St}.
Implicit Types (dag : BlockDAG St) (bs : BlueSet) (h : BlockHash).

Definition get_anticone_size bs dag (block_hash reference_hash : BlockHash) : nat :=
  size (get_anticone dag block_hash reference_hash).

Definition build_blue_set bs dag (reference_hash : BlockHash) : gset BlockHash :=
  foldl (fun blue_set block_hash =>
    if decide (block_hash = reference_hash) then blue_set
    else if (size (get_anticone dag block_hash reference_hash) <=? k bs)%nat
    then {[block_hash]} ∪ blue_set else blue_set)
    {[reference_hash]} (get_all_blocks dag).

Definition build_red_set bs dag (reference_hash : BlockHash) : gset BlockHash :=
  list_to_set (get_all_blocks dag) ∖ build_blue_set bs dag reference_hash.

Definition is_blue bs dag (block_hash reference_hash : BlockHash) : bool :=
  if negb (bool_decide (block_hash = reference_hash)) &&
     negb (is_ancestor dag block_hash reference_hash)
  then false
  else (size (get_anticone dag block_hash reference_hash) <=? k bs)%nat.

Definition count_blue_blocks bs dag h : nat := size (build_blue_set bs dag h).
Definition count_red_blocks bs dag h : nat := size (build_red_set bs dag h).
Definition get_blue_blocks bs dag h : list BlockHash := sort_bytes (hs_iter (build_blue_set bs dag h)).
Definition get_red_blocks bs dag h : list BlockHash := sort_bytes (hs_iter (build_red_set bs dag h)).

Definition are_all_ancestors_blue bs dag (block_hash reference_hash : BlockHash) : bool :=
  forallb (fun a => bool_decide (a ∈ build_blue_set bs dag reference_hash))
    (hs_iter (get_ancestors dag block_hash)).

Definition get_blue_set_stats bs dag (reference_hash : BlockHash) : BlueSetStats :=
  let blue := size (build_blue_set bs dag reference_hash) in
  let red := size (build_red_set bs dag reference_hash) in
  let total := dag_block_count dag in
  {| blue_count := blue; red_count := red; total_blocks := total; k_parameter := k bs;
     blue_ratio := if (0 <? total)%nat
                   then f64_div (f64_of_Z (Z.of_nat blue)) (f64_of_Z (Z.of_nat total))
                   else f64_of_Z 0 |}.
End BlueSet.

Section BlueSetFacts.
Context `{Sha256} `{LibM} `{HashOrder} {St : Type} `{BlockStoreLaws St}.
Implicit Types (dag : BlockDAG St) (bs : BlueSet) (h : BlockHash).

Lemma elem_of_build_blue_set bs dag r x :
  x ∈ build_blue_set bs dag r <->
    x = r \/ x ∈ get_all_blocks dag /\ (size (get_anticone dag x r) <= k bs)%nat.
Proof.
  unfold build_blue_set.
  assert (forall l (s : gset BlockHash), r ∈ s ->
    x ∈ foldl (fun s b => if decide (b = r) then s
                    else if (size (get_anticone dag b r) <=? k bs)%nat then {[b]} ∪ s else s) s l <->
    x ∈ s \/ x ∈ l /\ (size (get_anticone dag x r) <= k bs)%nat) as Hl.
  { induction l as [|b l IH]; intros s Hr; cbn [foldl].
    - rewrite elem_of_nil. tauto.
    - case_decide as Hb; [subst b|destruct (Nat.leb_spec (size (get_anticone dag b r)) (k bs)) as [Hle|Hgt]];
        (rewrite IH; [|rewrite ?elem_of_union; by auto]); rewrite elem_of_cons,
        ?elem_of_union, ?elem_of_singleton.
      + destruct (decide (x = r)) as [->|]; tauto.
      + destruct (decide (x = b)) as [->|]; tauto.
      + apply Nat.lt_nge in Hgt. destruct (decide (x = b)) as [->|]; tauto. }
  rewrite Hl by by apply elem_of_singleton. by rewrite elem_of_singleton.
Qed.

(** Whatever [k], every ancestor of the reference is blue, and so is
    every block whose own ancestors are all known to the reference: the red set
    holds only blocks outside the past of the reference with more than [k]
    ancestors outside it. *)
Theorem past_is_blue rank bs dag r x :
  dag_shape rank (store dag) -> index_ok (index dag) (store dag) -> is_Some (dag_get_block dag r) ->
  (x ∈ get_ancestors dag r -> x ∈ build_blue_set bs dag r /\ is_blue bs dag x r = true) /\
  (x ∈ build_red_set bs dag r ->
     x <> r /\ x ∉ get_ancestors dag r /\ (k bs < size (get_anticone dag x r))%nat) /\
  build_blue_set bs dag r ∪ build_red_set bs dag r = list_to_set (get_all_hashes (store dag)).
Proof.
  intros Hsh Hidx Hr. pose proof (shape_ok _ _ Hsh) as Hok.
  destruct (kahn_order (index dag) _ _ Hsh Hidx) as [Hperm _].
  assert (forall y, y ∈ get_all_blocks dag <-> is_Some (dag_get_block dag y)) as Hall.
  { intros y. unfold get_all_blocks, dag_get_topological_order. rewrite Hperm. by apply hashes_get. }
  assert (forall y, y ∈ get_ancestors dag r -> y ∈ get_all_blocks dag) as Hanc.
  { intros y [Hy _]%elem_of_get_ancestors; [|done]. apply Hall.
    apply (reach_closed (parents_of (store dag)) (fun z => is_Some (dag_get_block dag z)) r y);
      [..|done]; intros; by eapply shape_closed. }
  split; [|split].
  - intros Hx. pose proof (anticone_of_ancestor rank dag x r Hsh (or_intror Hx)) as He.
    rewrite elem_of_build_blue_set. unfold is_blue. rewrite He, size_empty.
    split; [right; split; [by apply Hanc|lia]|].
    replace (is_ancestor dag x r) with true; [by rewrite andb_false_r|].
    symmetry. apply bool_decide_eq_true. fold (BlockDag.get_ancestors dag r).
    by rewrite <- (get_ancestors_index rank).
  - unfold build_red_set. rewrite elem_of_difference, elem_of_list_to_set, elem_of_build_blue_set.
    intros [Hx Hn]. split; [tauto|]. split.
    + intros Hxa. apply Hn. right. split; [done|].
      rewrite (anticone_of_ancestor rank dag x r Hsh (or_intror Hxa)), size_empty. lia.
    + destruct (decide (size (get_anticone dag x r) <= k bs)%nat); [tauto|lia].
  - apply set_eq. intros y. unfold build_red_set.
    rewrite elem_of_union, elem_of_difference, !elem_of_list_to_set, elem_of_build_blue_set.
    rewrite (hashes_get (store dag) y Hok). fold (dag_get_block dag y). rewrite <- Hall.
    destruct (decide (y = r)) as [->|]; [|destruct (decide (y ∈ get_all_blocks dag));
      destruct (decide (size (get_anticone dag y r) <= k bs)%nat); tauto].
    apply Hall in Hr. tauto.
Qed.
End BlueSetFacts.

#[local] Existing Instances checksum_sha checksum_laws constant_exp canonical_order.

Lemma past_is_blue_witness :
  ([1] ∈ get_ancestors {| store := diamond; index := build_from_store diamond |} [4] ->
   [1] ∈ build_blue_set (new 0) {| store := diamond; index := build_from_store diamond |} [4] /\
   is_blue (new 0) {| store := diamond; index := build_from_store diamond |} [1] [4] = true).
Proof.
  apply (past_is_blue first_byte (new 0) {| store := diamond; index := build_from_store diamond |}
    [4] [1] diamond_shape diamond_index).
  vm_compute. eauto.
Defined.
