(* ===== verification/GhostDag.v ===== *)
(** The GHOSTDAG engine: [src/src/consensus/ghostdag.rs].

    Blue scores with their cache, parent selection, block annotation, the
    ordering of the DAG and its validation. *)
From S2P Require Import Prelude Crypto Transaction Floats Mining Block Graph Store DagIndex BlockDag.
From S2P Require Import DagTraversal BlueSet.

Record GHOSTDAGEngine (St : Type) := {
  engine_k : nat;
  engine_dag : option (BlockDAG St);
  blue_score_cache : gmap BlockHash Z;
  engine_blue_set : BlueSet
}.
Arguments Build_GHOSTDAGEngine {St} _ _ _ _.
Arguments engine_k {St} _.
Arguments engine_dag {St} _.
Arguments blue_score_cache {St} _.
Arguments engine_blue_set {St} _.

Record GHOSTDAGStats := {
  stat_k : nat;
  stat_total_blocks : nat;
  stat_blue_blocks : nat;
  stat_red_blocks : nat;
  stat_cache_size : nat
}.

(** Higher score first, then smaller hash. *)
Definition score_leb (a b : BlockHash * Z) : bool :=
  if a.2 =? b.2 then bytes_leb a.1 b.1 else b.2 <? a.2.

(** [f(x).unwrap_or(d)]: the error is dropped, the state change stays. *)
Definition or_default {S A} (m : M S A) (d : A) : M S A := fun s =>
  let '(r, s') := m s in (Ok (unwrap_or r d), s').

(** The unprocessed blocks whose parents are all processed. *)
Definition next_blocks (parents : BlockHash -> list BlockHash) (all : list BlockHash)
    (processed : gset BlockHash) : list BlockHash :=
  filter (fun h => h ∉ processed /\ Forall (fun p => p ∈ processed) (parents h)) all.

Definition sort_scored (block_scores : gmap BlockHash Z) (hs : list BlockHash) : list BlockHash :=
  (sort_by score_leb ((fun h => (h, default 0 (block_scores !! h))) <$> hs)).*1.

Fixpoint order_loop (parents : BlockHash -> list BlockHash) (all : list BlockHash)
    (block_scores : gmap BlockHash Z) (fuel : nat) (processed : gset BlockHash)
    (ordering : list BlockHash) : list BlockHash :=
  if (size processed <? length all)%nat then
    match fuel, next_blocks parents all processed with
    | O, _ | _, [] => ordering
    | S fuel', next =>
        let sorted := sort_scored block_scores next in
        order_loop parents all block_scores fuel'
          (list_to_set sorted ∪ processed) (ordering ++ sorted)
    end
  else ordering.

Section GhostDag.
Context `{Sha256} `{LibM} `{HashOrder} {St : Type} `{BlockStoreI St}.
Implicit Types (dag : BlockDAG St) (e : GHOSTDAGEngine St) (h : BlockHash).

Definition new (k : nat) : GHOSTDAGEngine St :=
  {| engine_k := k; engine_dag := None; blue_score_cache := ∅; engine_blue_set := BlueSet.new k |}.

Definition clear_cache e : GHOSTDAGEngine St :=
  {| engine_k := engine_k e; engine_dag := engine_dag e; blue_score_cache := ∅;
     engine_blue_set := engine_blue_set e |}.

Definition attach_dag dag e : GHOSTDAGEngine St :=
  clear_cache {| engine_k := engine_k e; engine_dag := Some dag;
                 blue_score_cache := blue_score_cache e; engine_blue_set := engine_blue_set e |}.

Definition cache_score h (s : Z) e : GHOSTDAGEngine St :=
  {| engine_k := engine_k e; engine_dag := engine_dag e;
     blue_score_cache := <[h := s]> (blue_score_cache e); engine_blue_set := engine_blue_set e |}.

(** [blue_count]: the block itself and its ancestors with a small anticone. *)
Definition count_blue (k : nat) dag h : Z :=
  let self := if (size (get_anticone dag h h) <=? k)%nat then u64_add 0 1 else 0 in
  foldl (fun n a => if (size (get_anticone dag a h) <=? k)%nat then u64_add n 1 else n)
    self (hs_iter (get_ancestors dag h)).

Definition calculate_blue_score_immutable e dag h : result Z :=
  match blue_score_cache e !! h with
  | Some s => Ok s
  | None => Ok (count_blue (engine_k e) dag h)
  end.

Definition calculate_blue_score h : M (GHOSTDAGEngine St) Z := fun e =>
  match engine_dag e with
  | None => (err "DAG not attached", e)
  | Some dag =>
      match blue_score_cache e !! h with
      | Some s => (Ok s, e)
      | None => let s := count_blue (engine_k e) dag h in (Ok s, cache_score h s e)
      end
  end.

Definition get_blue_score h : M (GHOSTDAGEngine St) Z := fun e =>
  match blue_score_cache e !! h with
  | Some s => (Ok s, e)
  | None => calculate_blue_score h e
  end.

(** The loop over [parents.iter().skip(1)]. *)
Fixpoint best_candidate (parents : list BlockHash) (best_parent : BlockHash) (best_score : Z)
    : M (GHOSTDAGEngine St) BlockHash :=
  match parents with
  | [] => mret best_parent
  | p :: ps =>
      or_default (get_blue_score p) 0 ≫= fun score =>
      if (best_score <? score) || ((score =? best_score) && bytes_ltb p best_parent)
      then best_candidate ps p score
      else best_candidate ps best_parent best_score
  end.

Definition select_parent_from_parents (parents : list BlockHash)
    : M (GHOSTDAGEngine St) BlockHash :=
  match parents with
  | [] => lift (err "No parent candidates provided")
  | p :: ps =>
      or_default (get_blue_score p) 0 ≫= fun best_score => best_candidate ps p best_score
  end.

Fixpoint max_parent_score (parents : list BlockHash) (m : Z) : M (GHOSTDAGEngine St) Z :=
  match parents with
  | [] => mret m
  | p :: ps => or_default (get_blue_score p) 0 ≫= fun score => max_parent_score ps (Z.max m score)
  end.

Definition calculate_blue_score_for_new_block (b : Block) : M (GHOSTDAGEngine St) Z :=
  max_parent_score (parent_hashes (header b)) 0 ≫= fun m => mret (saturating_add m 1).

(** [dag] is the caller's DAG; the scores come from the attached one. *)
Definition annotate_block dag (b : Block) : M (GHOSTDAGEngine St) Block :=
  (match parent_hashes (header b) with
   | [] => mret None
   | ps => select_parent_from_parents ps ≫= fun p => mret (Some p)
   end) ≫= fun selected_parent =>
  let chain_height :=
    match selected_parent with
    | Some p => saturating_add (default 0 (get_block_height dag p)) 1
    | None => 0
    end in
  calculate_blue_score_for_new_block b ≫= fun blue_score =>
  mret (set_consensus_metadata b selected_parent blue_score chain_height
          (Z.of_nat (dag_block_count dag))).

Fixpoint score_parents (parents : list BlockHash) : M (GHOSTDAGEngine St) (list (BlockHash * Z)) :=
  match parents with
  | [] => mret []
  | p :: ps =>
      calculate_blue_score p ≫= fun s => score_parents ps ≫= fun l => mret ((p, s) :: l)
  end.

Definition select_parent (block_hash : BlockHash) : M (GHOSTDAGEngine St) BlockHash := fun e =>
  match engine_dag e with
  | None => (err "DAG not attached", e)
  | Some dag =>
      match get_parents dag block_hash with
      | [] => (err "Block has no parents", e)
      | [p] => (Ok p, e)
      | ps =>
          (score_parents ps ≫= fun scores =>
           lift (ok_or (head (sort_by score_leb scores).*1)
                   (Error "index out of bounds" []))) e
      end
  end.

(** The scores collected by the [for] loop of [generate_ordering]. *)
Fixpoint collect_scores e dag (hs : list BlockHash) : result (gmap BlockHash Z) :=
  match hs with
  | [] => Ok ∅
  | h :: hs' =>
      calculate_blue_score_immutable e dag h ≫= fun s =>
      collect_scores e dag hs' ≫= fun m => Ok (<[h := s]> m)
  end.

Definition has_no_parents dag h : bool :=
  match dag_get_block dag h with
  | Some b => bool_decide (parent_hashes (header b) = [])
  | None => false
  end.

Definition generate_ordering e : result (list BlockHash) :=
  match engine_dag e with
  | None => err "DAG not attached"
  | Some dag =>
      let all_blocks := get_all_blocks dag in
      collect_scores e dag all_blocks ≫= fun block_scores =>
      match all_blocks with
      | [] => Ok []
      | _ =>
          let genesis_blocks := sort_bytes (filter (fun h => has_no_parents dag h = true) all_blocks) in
          Ok (order_loop (get_parents dag) all_blocks block_scores (length all_blocks)
                (list_to_set genesis_blocks) genesis_blocks)
      end
  end.

(** [ordering.iter().position(|h| h == x)] *)
Definition position (x : BlockHash) (l : list BlockHash) : option nat :=
  fst <$> list_find (fun y => y = x) l.

Fixpoint check_parent_positions (ordering : list BlockHash) (h : BlockHash) (index : nat)
    (parents : list BlockHash) : result unit :=
  match parents with
  | [] => Ok tt
  | p :: ps =>
      match position p ordering with
      | None => errorf "Parent {} of block {} not in ordering" [ArgHex p; ArgHex h]
      | Some pos =>
          if (index <=? pos)%nat
          then errorf "Parent {} appears after child {} in ordering" [ArgHex p; ArgHex h]
          else check_parent_positions ordering h index ps
      end
  end.

Fixpoint validate_from dag (ordering : list BlockHash) (index : nat) (rest : list BlockHash)
    (seen : gset BlockHash) : result (gset BlockHash) :=
  match rest with
  | [] => Ok seen
  | h :: rest' =>
      match dag_get_block dag h with
      | None => errorf "Block {} not found in DAG" [ArgHex h]
      | Some _ =>
          if decide (h ∈ seen)
          then errorf "Duplicate block {} at position {}" [ArgHex h; ArgNum (Z.of_nat index)]
          else
            check_parent_positions ordering h index (get_parents dag h) ≫= fun _ =>
            validate_from dag ordering (S index) rest' ({[h]} ∪ seen)
      end
  end.

Definition validate_ordering e (ordering : list BlockHash) : result unit :=
  match engine_dag e with
  | None => err "DAG not attached"
  | Some dag =>
      validate_from dag ordering 0 ordering ∅ ≫= fun seen =>
      if (size seen =? dag_block_count dag)%nat then Ok tt
      else errorf "Ordering has {} blocks but DAG has {} blocks"
             [ArgNum (Z.of_nat (size seen)); ArgNum (Z.of_nat (dag_block_count dag))]
  end.

(** [dag.get_tips()[0]] panics when there is no tip: [None]. *)
Definition get_stats e : option GHOSTDAGStats :=
  match engine_dag e with
  | Some dag =>
      tip ← head (dag_get_tips dag);
      Some {| stat_k := engine_k e; stat_total_blocks := dag_block_count dag;
              stat_blue_blocks := size (build_blue_set (engine_blue_set e) dag tip);
              stat_red_blocks := size (build_red_set (engine_blue_set e) dag tip);
              stat_cache_size := size (blue_score_cache e) |}
  | None =>
      Some {| stat_k := engine_k e; stat_total_blocks := 0; stat_blue_blocks := 0;
              stat_red_blocks := 0; stat_cache_size := 0 |}
  end.

Definition get_all_blue_scores e : result (gmap BlockHash Z) :=
  match engine_dag e with
  | None => err "DAG not attached"
  | Some dag => collect_scores e dag (get_all_blocks dag)
  end.

Definition engine_blue_blocks e h : result (list BlockHash) :=
  match engine_dag e with
  | None => err "DAG not attached"
  | Some dag => Ok (get_blue_blocks (engine_blue_set e) dag h)
  end.
Definition engine_red_blocks e h : result (list BlockHash) :=
  match engine_dag e with
  | None => err "DAG not attached"
  | Some dag => Ok (get_red_blocks (engine_blue_set e) dag h)
  end.
End GhostDag.

(** ** The ordering loop *)

Lemma score_leb_total a b : score_leb a b = true \/ score_leb b a = true.
Proof.
  unfold score_leb. destruct (Z.eqb_spec a.2 b.2), (Z.eqb_spec b.2 a.2); try lia.
  apply bytes_leb_total.
Qed.
Lemma score_leb_trans a b c :
  score_leb a b = true -> score_leb b c = true -> score_leb a c = true.
Proof.
  unfold score_leb. destruct (Z.eqb_spec a.2 b.2), (Z.eqb_spec b.2 c.2), (Z.eqb_spec a.2 c.2);
    rewrite ?Z.ltb_lt; try lia. apply bytes_leb_trans.
Qed.
Lemma score_leb_antisym a b : score_leb a b = true -> score_leb b a = true -> a = b.
Proof.
  unfold score_leb. destruct (Z.eqb_spec a.2 b.2), (Z.eqb_spec b.2 a.2); rewrite ?Z.ltb_lt; try lia.
  intros. destruct a, b; simpl in *. f_equal; [by apply bytes_leb_antisym|lia].
Qed.

Lemma sort_scored_perm scores hs : sort_scored scores hs ≡ₚ hs.
Proof.
  unfold sort_scored. rewrite sort_by_perm, <- list_fmap_compose. simpl. by rewrite list_fmap_id.
Qed.

Lemma sort_scored_unique scores scores' hs hs' :
  hs ≡ₚ hs' -> (forall h, h ∈ hs -> scores !! h = scores' !! h) ->
  sort_scored scores hs = sort_scored scores' hs'.
Proof.
  intros Hp Hs. unfold sort_scored. f_equal.
  apply sort_by_unique; eauto using score_leb_total, score_leb_trans, score_leb_antisym.
  rewrite <- Hp. apply Permutation_refl'. apply list_fmap_ext. intros i h Hi.
  rewrite Hs; [done|]. by eapply list_elem_of_lookup_2.
Qed.

Lemma elem_of_next_blocks parents all processed h :
  h ∈ next_blocks parents all processed <->
  h ∈ all /\ h ∉ processed /\ forall p, p ∈ parents h -> p ∈ processed.
Proof. unfold next_blocks. rewrite list_elem_of_filter, Forall_forall. tauto. Qed.

(** [l] has every parent before its children. *)
Definition ordered_by (parents : BlockHash -> list BlockHash) (l : list BlockHash) : Prop :=
  forall i h p, l !! i = Some h -> p ∈ parents h -> exists j, (j < i)%nat /\ l !! j = Some p.

Lemma ordered_by_app parents l k :
  ordered_by parents l -> (forall h p, h ∈ k -> p ∈ parents h -> p ∈ l) ->
  ordered_by parents (l ++ k).
Proof.
  intros Hl Hk i h p Hi Hp. apply lookup_app_Some in Hi as [Hi|[Hlen Hi]].
  - destruct (Hl i h p Hi Hp) as (j & Hj & Hpj). exists j. split; [done|].
    by apply lookup_app_l_Some.
  - apply list_elem_of_lookup_2 in Hi. destruct (list_elem_of_lookup_1 _ _ (Hk h p Hi Hp)) as [j Hj].
    exists j. split; [apply lookup_lt_Some in Hj; lia|by apply lookup_app_l_Some].
Qed.

Section OrderLoop.
Context (parents : BlockHash -> list BlockHash) (all : list BlockHash) (rank : BlockHash -> nat).
Hypothesis all_nodup : NoDup all.
Hypothesis all_closed : forall h p, h ∈ all -> p ∈ parents h -> p ∈ all.
Hypothesis all_ranked : forall h p, h ∈ all -> p ∈ parents h -> (rank p < rank h)%nat.

Definition order_inv (ordering : list BlockHash) : Prop :=
  NoDup ordering /\ (forall h, h ∈ ordering -> h ∈ all) /\ ordered_by parents ordering.

(** While blocks are missing, one of lowest rank can be processed. *)
Lemma next_blocks_progress (processed : gset BlockHash) h :
  h ∈ all -> h ∉ processed -> next_blocks parents all processed <> [].
Proof.
  remember (rank h) as r eqn:Hr. revert h Hr. induction r as [r IH] using lt_wf_ind.
  intros h -> Hin Hnot Hnil.
  destruct (decide (Forall (fun p => p ∈ processed) (parents h))) as [Hall|Hex].
  - rewrite Forall_forall in Hall.
    assert (h ∈ next_blocks parents all processed) as Hh by by apply elem_of_next_blocks.
    rewrite Hnil in Hh. by apply not_elem_of_nil in Hh.
  - apply not_Forall_Exists, Exists_exists in Hex as (p & Hp & Hpn); [|intros ?; apply _].
    apply (IH (rank p)) with (h := p); auto; by eapply all_closed.
Qed.

Lemma order_loop_spec scores fuel ordering :
  order_inv ordering -> (length all <= length ordering + fuel)%nat ->
  let result := order_loop parents all scores fuel (list_to_set ordering) ordering in
  result ≡ₚ all /\ ordered_by parents result.
Proof.
  revert ordering. induction fuel as [|fuel IH]; intros ordering (Hnd & Hin & Hord) Hf; cbn [order_loop];
    rewrite size_list_to_set by done;
    pose proof (submseteq_length _ _ (NoDup_submseteq _ _ Hnd Hin)) as Hle;
    (destruct (Nat.ltb_spec (length ordering) (length all)) as [Hlt|Hge];
      [|split; [|done]; apply submseteq_length_Permutation; [by apply NoDup_submseteq|lia]]); [lia|].
  destruct (next_blocks parents all (list_to_set ordering)) as [|x next] eqn:Hnext.
  - exfalso.
    assert (exists h, h ∈ all /\ h ∉ ordering) as (h & Hh & Hnot).
    { destruct (decide (Forall (fun h => h ∈ ordering) all)) as [Hall|Hex].
      - rewrite Forall_forall in Hall.
        pose proof (submseteq_length _ _ (NoDup_submseteq _ _ all_nodup Hall)). lia.
      - apply not_Forall_Exists, Exists_exists in Hex as (h & ? & ?); [eauto|intros ?; apply _]. }
    apply (next_blocks_progress (list_to_set ordering) h); [done| |done].
    by rewrite elem_of_list_to_set.
  - set (sorted := sort_scored scores (x :: next)).
    assert (sorted ≡ₚ x :: next) as Hperm by apply sort_scored_perm.
    assert (forall h, h ∈ sorted <-> h ∈ all /\ h ∉ ordering /\
      forall p, p ∈ parents h -> p ∈ ordering) as Hs.
    { intros h. rewrite Hperm, <- Hnext, elem_of_next_blocks.
      setoid_rewrite elem_of_list_to_set. done. }
    replace (list_to_set sorted ∪ list_to_set ordering : gset BlockHash)
      with (list_to_set (ordering ++ sorted) : gset BlockHash)
      by (rewrite list_to_set_app_L; apply (comm_L _)).
    apply IH.
    + split; [|split].
      * apply NoDup_app. split; [done|]. split; [intros h Hh [_ [? _]]%Hs; done|].
        rewrite Hperm, <- Hnext. by apply NoDup_filter.
      * intros h [?|[? _]%Hs]%elem_of_app; auto.
      * apply ordered_by_app; [done|]. intros h p (_ & _ & Hp)%Hs Hpp. auto.
    + rewrite length_app, Hperm. simpl. lia.
Qed.
End OrderLoop.

Lemma next_blocks_ext parents parents' all processed :
  (forall h, h ∈ all -> parents h = parents' h) ->
  next_blocks parents all processed = next_blocks parents' all processed.
Proof.
  intros Hpar. unfold next_blocks. revert Hpar.
  induction all as [|h all IH] using rev_ind; intros Hpar; [done|].
  rewrite !filter_app, IH by (intros h' Hh'; apply Hpar, elem_of_app; by left). f_equal.
  rewrite !filter_cons, (Hpar h) by (apply elem_of_app; right; left). done.
Qed.

(** The loop depends only on the sets of blocks, their parents and scores. *)
Lemma order_loop_ext parents parents' all all' scores scores' fuel processed ordering :
  all ≡ₚ all' -> (forall h, h ∈ all -> parents h = parents' h) ->
  (forall h, h ∈ all -> scores !! h = scores' !! h) ->
  order_loop parents all scores fuel processed ordering =
  order_loop parents' all' scores' fuel processed ordering.
Proof.
  intros Hall Hpar Hsc. revert processed ordering.
  induction fuel as [|fuel IH]; intros processed ordering; cbn [order_loop]; rewrite <- Hall.
  { done. }
  assert (next_blocks parents all processed ≡ₚ next_blocks parents' all' processed) as Hnext.
  { rewrite (next_blocks_ext parents parents' all processed Hpar).
    unfold next_blocks. by rewrite Hall. }
  destruct (size processed <? length all)%nat; [|done].
  destruct (next_blocks parents all processed) as [|x next] eqn:E1,
    (next_blocks parents' all' processed) as [|x' next'] eqn:E2.
  - done.
  - by apply Permutation_nil_cons in Hnext.
  - symmetry in Hnext. by apply Permutation_nil_cons in Hnext.
  - rewrite (sort_scored_unique scores scores' (x :: next) (x' :: next') Hnext); [apply IH|].
    intros h Hh. apply Hsc. rewrite <- E1 in Hh. by apply elem_of_next_blocks in Hh as [? _].
Qed.

Section GhostDagFacts.
Context `{Sha256} `{LibM} `{HashOrder} {St : Type} `{BlockStoreLaws St}.
Implicit Types (dag : BlockDAG St) (e : GHOSTDAGEngine St) (h : BlockHash).

(** ** Blue scores *)

Lemma foldl_count (P : BlockHash -> bool) l n :
  (forall a, a ∈ l -> P a = true) -> 0 <= n -> n + Z.of_nat (length l) <= u64_max ->
  foldl (fun n a => if P a then u64_add n 1 else n) n l = n + Z.of_nat (length l).
Proof.
  revert n. induction l as [|a l IH]; intros n HP Hn Hl; [simpl; lia|]. cbn [foldl length] in *.
  rewrite HP by left. rewrite IH.
  - rewrite u64_add_small; lia.
  - intros b Hb. apply HP. by right.
  - rewrite u64_add_small; lia.
  - rewrite u64_add_small; lia.
Qed.

(** Every anticone the score counts is empty, so the score is the number of
    ancestors plus one, whatever [k]. *)
Lemma count_blue_ancestors rank k dag h :
  dag_shape rank (store dag) -> Z.of_nat (size (get_ancestors dag h)) < u64_max ->
  count_blue k dag h = 1 + Z.of_nat (size (get_ancestors dag h)).
Proof.
  intros Hsh Hsz. unfold count_blue.
  rewrite (anticone_of_ancestor rank dag h h Hsh (or_introl eq_refl)), size_empty. cbn [Nat.leb].
  rewrite <- hs_iter_length. rewrite <- hs_iter_length in Hsz. rewrite u64_add_small by lia.
  apply (foldl_count (fun a => size (get_anticone dag a h) <=? k)%nat); [|lia|lia].
  intros a Ha%elem_of_hs_iter.
  by rewrite (anticone_of_ancestor rank dag a h Hsh (or_intror Ha)), size_empty.
Qed.

Lemma size_ancestors_le rank dag h :
  dag_shape rank (store dag) -> (size (get_ancestors dag h) <= block_count (store dag))%nat.
Proof.
  intros Hsh. apply submseteq_length, NoDup_submseteq; [apply NoDup_elements|].
  intros x Hx%elem_of_elements. pose proof (shape_ok _ _ Hsh) as Hok.
  apply elem_of_get_ancestors in Hx as [Hx _]; [|done]. apply hashes_get; [done|].
  apply (reach_closed (parents_of (store dag)) (fun z => is_Some (get_block (store dag) z)) h x);
    [..|done]; intros; by eapply shape_closed.
Qed.

(** A cached score is the score of the attached DAG. *)
Definition cache_ok e : Prop :=
  forall dag h s, engine_dag e = Some dag -> blue_score_cache e !! h = Some s ->
    s = count_blue (engine_k e) dag h.

Lemma attach_dag_cache_ok dag e : cache_ok (attach_dag dag e).
Proof. intros dag' h s _ Hs. simpl in Hs. by rewrite lookup_empty in Hs. Qed.

Lemma get_blue_score_spec e dag h :
  engine_dag e = Some dag -> cache_ok e ->
  let '(r, e') := get_blue_score h e in
  r = Ok (count_blue (engine_k e) dag h) /\ engine_dag e' = Some dag /\
  engine_k e' = engine_k e /\ cache_ok e'.
Proof.
  intros Hd Hc. unfold get_blue_score, calculate_blue_score.
  destruct (blue_score_cache e !! h) as [s|] eqn:Hs.
  - by rewrite (Hc dag h s Hd Hs).
  - rewrite Hd. split; [done|]. split; [done|]. split; [done|].
    intros dag' h' s'. simpl. rewrite Hd. intros [= <-].
    intros [[<- <-]|[_ Hh']]%lookup_insert_Some; [done|]. by apply (Hc dag h').
Qed.

(** Through the cache or not, the blue score of a block of an attached
    DAG is one more than its number of ancestors; [k] plays no part. *)
Theorem blue_score_counts_ancestors rank e dag h :
  engine_dag e = Some dag -> cache_ok e -> dag_shape rank (store dag) ->
  Z.of_nat (block_count (store dag)) < u64_max ->
  (get_blue_score h e).1 = Ok (1 + Z.of_nat (size (BlockDag.get_ancestors dag h))) /\
  cache_ok (get_blue_score h e).2.
Proof.
  intros Hd Hc Hsh Hsz. pose proof (get_blue_score_spec e dag h Hd Hc) as Hg.
  destruct (get_blue_score h e) as [r e']. destruct Hg as (-> & _ & _ & Hc'). split; [|done]. simpl.
  rewrite <- (get_ancestors_index rank) by done.
  rewrite (count_blue_ancestors rank); [done|done|].
  pose proof (size_ancestors_le rank dag h Hsh). lia.
Qed.

(** An engine attached to a DAG stays attached, with a right cache, through
    every computation it does. *)
Definition attached dag e : Prop := engine_dag e = Some dag /\ cache_ok e.
Definition stays {A} dag (m : M (GHOSTDAGEngine St) A) : Prop :=
  forall e, attached dag e -> attached dag (m e).2.

Lemma attach_dag_attached dag e : attached dag (attach_dag dag e).
Proof. split; [done|apply attach_dag_cache_ok]. Qed.
Lemma stays_ret {A} dag (x : A) : stays dag (mret x).
Proof. by intros e. Qed.
Lemma stays_lift {A} dag (r : result A) : stays dag (lift r).
Proof. by intros e. Qed.
Lemma stays_bind {A B} dag (m : M _ A) (f : A -> M _ B) :
  stays dag m -> (forall x, stays dag (f x)) -> stays dag (m ≫= f).
Proof.
  intros Hm Hf e He. unfold mbind, M_bind. specialize (Hm e He).
  destruct (m e) as [[x|er] e']; [|exact Hm]. by apply Hf.
Qed.
Lemma stays_score dag h : stays dag (or_default (get_blue_score h) 0).
Proof.
  intros e [Hd Hc]. unfold or_default. pose proof (get_blue_score_spec e dag h Hd Hc) as Hg.
  destruct (get_blue_score h e) as [r e']. by destruct Hg as (_ & ? & _ & ?).
Qed.
#[local] Hint Resolve stays_ret stays_lift stays_bind stays_score : core.

Lemma stays_best_candidate dag ps p s : stays dag (best_candidate ps p s).
Proof.
  revert p s. induction ps as [|q ps IH]; intros p s; cbn [best_candidate]; [auto|].
  apply stays_bind; [auto|]. intros s'. by destruct (_ || _).
Qed.
Lemma stays_max_parent_score dag ps m : stays dag (max_parent_score ps m).
Proof. revert m. induction ps as [|q ps IH]; intros m; cbn [max_parent_score]; auto. Qed.
#[local] Hint Resolve stays_best_candidate stays_max_parent_score : core.

Lemma stays_annotate_block dag dag' b : stays dag (annotate_block dag' b).
Proof.
  unfold annotate_block, calculate_blue_score_for_new_block.
  apply stays_bind; [|auto]. destruct (parent_hashes (header b)) as [|p ps]; [auto|].
  unfold select_parent_from_parents. auto.
Qed.

(** ** Parent selection *)

Lemma best_candidate_spec e dag ps best :
  engine_dag e = Some dag -> cache_ok e ->
  let score h := count_blue (engine_k e) dag h in
  exists p e', best_candidate ps best (score best) e = (Ok p, e') /\ p ∈ best :: ps /\
    forall q, q ∈ best :: ps -> score_leb (p, score p) (q, score q) = true.
Proof.
  intros Hd Hc score. revert e best Hd Hc score. induction ps as [|q ps IH]; intros e best Hd Hc score.
  - exists best, e. split; [done|]. split; [left|]. intros q ->%list_elem_of_singleton.
    destruct (score_leb_total (best, score best) (best, score best)); done.
  - pose proof (get_blue_score_spec e dag q Hd Hc) as Hg. cbn [best_candidate].
    unfold mbind, M_bind, or_default. destruct (get_blue_score q e) as [r e'].
    destruct Hg as (-> & Hd' & Hk & Hc'). cbn [unwrap_or]. fold (score q).
    assert (forall h, count_blue (engine_k e') dag h = score h) as Hsc by (intros; by rewrite Hk).
    destruct ((score best <? score q) || ((score q =? score best) && bytes_ltb q best)) eqn:Hcmp.
    + destruct (IH e' q Hd' Hc') as (p & e2 & Hp & Hin & Hmax). rewrite Hsc in Hp.
      exists p, e2. split; [done|]. split; [by right|]. intros x [->|Hx]%elem_of_cons.
      * pose proof (Hmax q ltac:(left)) as Hpq. rewrite !Hsc in Hpq.
        eapply score_leb_trans; [exact Hpq|]. unfold score_leb. cbn [fst snd].
        apply orb_true_iff in Hcmp as [Hlt|[Heq Hlt]%andb_prop].
        -- apply Z.ltb_lt in Hlt. rewrite (proj2 (Z.eqb_neq _ _)) by lia. by apply Z.ltb_lt.
        -- rewrite Heq. by apply bytes_ltb_leb.
      * pose proof (Hmax x Hx) as Hpx. by rewrite !Hsc in Hpx.
    + destruct (IH e' best Hd' Hc') as (p & e2 & Hp & Hin & Hmax). rewrite Hsc in Hp.
      exists p, e2. split; [done|].
      assert (forall x, x ∈ best :: ps -> score_leb (p, score p) (x, score x) = true) as Hmax'.
      { intros x Hx. pose proof (Hmax x Hx) as Hpx. by rewrite !Hsc in Hpx. }
      split; [apply elem_of_cons in Hin as [->|]; [left|by do 2 right]|].
      intros x [->|[->|Hx]%elem_of_cons]%elem_of_cons; [apply Hmax'; left| |apply Hmax'; by right].
      eapply score_leb_trans; [apply Hmax'; left|]. unfold score_leb. cbn [fst snd].
      apply orb_false_iff in Hcmp as [Hge Hne]. apply Z.ltb_ge in Hge.
      destruct (Z.eqb_spec (score best) (score q)) as [Heq|]; [|by apply Z.ltb_lt; lia].
      rewrite <- Heq, Z.eqb_refl in Hne. simpl in Hne. by apply bytes_ltb_false.
Qed.

(** [select_parent_from_parents] picks, among the candidates, one with
    the highest blue score and the smallest hash among those; the pick does not
    depend on the order of the candidates. *)
Theorem select_parent_from_parents_best e dag ps ps' :
  engine_dag e = Some dag -> cache_ok e -> ps <> [] -> ps ≡ₚ ps' ->
  exists p, (select_parent_from_parents ps e).1 = Ok p /\
    (select_parent_from_parents ps' e).1 = Ok p /\ p ∈ ps /\
    forall q, q ∈ ps -> score_leb (p, count_blue (engine_k e) dag p)
                          (q, count_blue (engine_k e) dag q) = true.
Proof.
  intros Hd Hc Hne Hperm.
  assert (forall l, l <> [] -> exists p, (select_parent_from_parents l e).1 = Ok p /\ p ∈ l /\
    forall q, q ∈ l -> score_leb (p, count_blue (engine_k e) dag p)
                         (q, count_blue (engine_k e) dag q) = true) as Hsel.
  { intros [|q l] Hl; [done|]. unfold select_parent_from_parents, mbind, M_bind, or_default.
    pose proof (get_blue_score_spec e dag q Hd Hc) as Hg.
    destruct (get_blue_score q e) as [r e']. destruct Hg as (-> & Hd' & Hk & Hc'). cbn [unwrap_or].
    destruct (best_candidate_spec e' dag l q Hd' Hc') as (p & e2 & Hp & Hin & Hmax).
    rewrite Hk in Hp, Hmax. rewrite Hp. by exists p. }
  destruct (Hsel ps Hne) as (p & Hp & Hin & Hmax).
  destruct (Hsel ps') as (p' & Hp' & Hin' & Hmax').
  { intros ->. by apply Permutation_sym, Permutation_nil in Hperm. }
  exists p. split; [done|]. split; [|done]. rewrite Hp'. f_equal.
  pose proof (score_leb_antisym (p', count_blue (engine_k e) dag p')
    (p, count_blue (engine_k e) dag p)) as Heq.
  rewrite Hmax', Hmax in Heq; [by injection (Heq eq_refl eq_refl)|by rewrite Hperm|by rewrite <- Hperm].
Qed.

(** ** The ordering *)

Definition cached_score e dag h : Z :=
  default (count_blue (engine_k e) dag h) (blue_score_cache e !! h).

Lemma collect_scores_spec e dag hs :
  exists m, collect_scores e dag hs = Ok m /\
    forall h, h ∈ hs -> m !! h = Some (cached_score e dag h).
Proof.
  induction hs as [|h hs (m & Hm & Hall)].
  - exists ∅. split; [done|]. by intros h ?%not_elem_of_nil.
  - exists (<[h := cached_score e dag h]> m). cbn [collect_scores]. rewrite Hm. split.
    + unfold calculate_blue_score_immutable, cached_score. by destruct (blue_score_cache e !! h).
    + intros h' [->|Hh']%elem_of_cons; [apply lookup_insert_eq|].
      destruct (decide (h = h')) as [->|Hne]; [apply lookup_insert_eq|].
      rewrite lookup_insert_ne by done. auto.
Qed.

Lemma position_lookup (l : list BlockHash) i x :
  NoDup l -> l !! i = Some x -> position x l = Some i.
Proof.
  intros Hnd Hi. unfold position. 
  destruct (list_find (fun y => y = x) l) as [[j y]|] eqn:Hf; simpl.
  - apply list_find_Some in Hf as (Hj & -> & _). f_equal. by eapply NoDup_lookup.
  - apply list_find_None in Hf. rewrite Forall_forall in Hf.
    destruct (Hf x); [by eapply list_elem_of_lookup_2|done].
Qed.

Lemma check_parent_positions_ok ordering h i ps :
  NoDup ordering ->
  (forall p, p ∈ ps -> exists j, (j < i)%nat /\ ordering !! j = Some p) ->
  check_parent_positions ordering h i ps = Ok tt.
Proof.
  intros Hnd. induction ps as [|p ps IH]; intros Hps; [done|]. cbn [check_parent_positions].
  destruct (Hps p) as (j & Hj & Hp); [left|].
  rewrite (position_lookup ordering j p Hnd Hp), (proj2 (Nat.leb_gt _ _) Hj).
  apply IH. intros q Hq. apply Hps. by right.
Qed.

Lemma validate_from_ok dag pre rest :
  let ordering := pre ++ rest in
  NoDup ordering -> (forall h, h ∈ rest -> is_Some (dag_get_block dag h)) ->
  ordered_by (get_parents dag) ordering ->
  validate_from dag ordering (length pre) rest (list_to_set pre) = Ok (list_to_set ordering).
Proof.
  revert pre. induction rest as [|h rest IH]; intros pre; cbv zeta; intros Hnd Hst Hord.
  - simpl. by rewrite app_nil_r.
  - cbn [validate_from]. destruct (Hst h) as [b Hb]; [left|]. rewrite Hb.
    assert (h ∉ pre) as Hpre.
    { apply NoDup_app in Hnd as (_ & Hd & _). intros Hh. apply (Hd h Hh). left. }
    rewrite decide_False by by rewrite elem_of_list_to_set.
    rewrite check_parent_positions_ok; [|done|].
    + cbn [mbind result_bind]. replace (S (length pre)) with (length (pre ++ [h]))
        by (rewrite length_app; simpl; lia).
      replace ({[h]} ∪ list_to_set pre : gset BlockHash) with (list_to_set (pre ++ [h]) : gset BlockHash)
        by (rewrite list_to_set_app_L; simpl; rewrite (right_id_L ∅ (∪)); apply (comm_L (∪))).
      replace (pre ++ h :: rest) with ((pre ++ [h]) ++ rest) in * by by rewrite <- app_assoc.
      apply IH; [done| |done]. intros h' ?. apply Hst. by right.
    + intros p Hp. apply (Hord (length pre) h p); [|done].
      rewrite lookup_app_r by done. by rewrite Nat.sub_diag.
Qed.

Lemma genesis_order_inv dag all :
  NoDup all ->
  order_inv (get_parents dag) all (sort_bytes (filter (fun h => has_no_parents dag h = true) all)).
Proof.
  intros Hnd. split; [|split].
  - rewrite sort_bytes_perm. by apply NoDup_filter.
  - intros h. rewrite sort_bytes_perm. by intros [_ ?]%list_elem_of_filter.
  - intros i h p Hi Hp. apply list_elem_of_lookup_2 in Hi. rewrite sort_bytes_perm in Hi.
    apply list_elem_of_filter in Hi as [Hno _]. exfalso. unfold has_no_parents in Hno.
    unfold get_parents, parents_of in Hp. fold (dag_get_block dag h) in Hp.
    destruct (dag_get_block dag h) as [b|]; [|done].
    apply bool_decide_eq_true in Hno. rewrite Hno in Hp. by apply not_elem_of_nil in Hp.
Qed.

(** C7: [generate_ordering] lists every block of the attached DAG exactly
    once with every parent before its children, and [validate_ordering] accepts
    the result. *)
Theorem generate_ordering_valid rank e dag :
  engine_dag e = Some dag -> dag_shape rank (store dag) -> index_ok (index dag) (store dag) ->
  exists l, generate_ordering e = Ok l /\ l ≡ₚ get_all_hashes (store dag) /\
    ordered_by (get_parents dag) l /\ validate_ordering e l = Ok tt.
Proof.
  intros Hd Hsh Hidx. pose proof (shape_ok _ _ Hsh) as Hok.
  destruct (kahn_order (index dag) _ _ Hsh Hidx) as [Hperm _].
  fold (dag_get_topological_order dag) (get_all_blocks dag) in Hperm.
  destruct (collect_scores_spec e dag (get_all_blocks dag)) as (scores & Hsc & _).
  assert (NoDup (get_all_blocks dag)) as Hnd by (rewrite Hperm; by apply hashes_nodup).
  assert (exists l, generate_ordering e = Ok l /\ l ≡ₚ get_all_blocks dag /\
    ordered_by (get_parents dag) l) as (l & Hgen & Hl & Hord).
  { unfold generate_ordering. rewrite Hd, Hsc. cbn [mbind result_bind].
    destruct (get_all_blocks dag) as [|h0 hs] eqn:Hall.
    { exists []. split; [done|]. split; [done|]. intros i h p Hi. by rewrite lookup_nil in Hi. }
    rewrite <- Hall in *. eexists. split; [done|].
    apply (order_loop_spec (get_parents dag) (get_all_blocks dag) rank); [done| | |by apply genesis_order_inv|lia].
    - intros h p _ Hp. rewrite Hperm. apply hashes_get; [done|]. by eapply shape_closed.
    - intros h p _ Hp. by apply (shape_rank _ _ Hsh). }
  exists l. split; [done|]. rewrite Hl at 1. split; [done|]. split; [done|].
  unfold validate_ordering. rewrite Hd.
  pose proof (validate_from_ok dag [] l) as Hv. cbn [app length list_to_set] in Hv.
  change (list_to_set [] : gset BlockHash) with (∅ : gset BlockHash) in Hv. rewrite Hv.
  - cbn [mbind result_bind]. rewrite size_list_to_set by by rewrite Hl.
    by rewrite Hl, Hperm, Nat.eqb_refl.
  - by rewrite Hl.
  - intros h Hh. rewrite Hl, Hperm in Hh. by apply hashes_get in Hh.
  - done.
Qed.

Lemma cached_score_value rank e dag h :
  engine_dag e = Some dag -> cache_ok e -> dag_shape rank (store dag) ->
  Z.of_nat (block_count (store dag)) < u64_max ->
  cached_score e dag h = 1 + Z.of_nat (size (get_ancestors dag h)).
Proof.
  intros Hd Hc Hsh Hsz. unfold cached_score.
  assert (count_blue (engine_k e) dag h = 1 + Z.of_nat (size (get_ancestors dag h))) as Hcb.
  { apply (count_blue_ancestors rank); [done|]. pose proof (size_ancestors_le rank dag h Hsh). lia. }
  destruct (blue_score_cache e !! h) as [s|] eqn:Hs; simpl; [|done].
  by rewrite (Hc dag h s Hd Hs).
Qed.

Lemma ancestors_ext dag dag' h :
  store_ok (store dag) -> store_ok (store dag') ->
  (forall x, get_parents dag x = get_parents dag' x) ->
  get_ancestors dag h = get_ancestors dag' h.
Proof.
  intros Hok Hok' Hpar. apply set_eq. intros x. rewrite !elem_of_get_ancestors by done.
  apply and_iff_compat_r. unfold get_parents in Hpar.
  split; induction 1 as [y z Hz|y z w Hz _ IH];
    [apply tc_once; by rewrite <- Hpar|eapply reach_cons; [by rewrite <- Hpar|exact IH]
    |apply tc_once; by rewrite Hpar|eapply reach_cons; [by rewrite Hpar|exact IH]].
Qed.

(** C40: two nodes whose engines have consistent caches and whose
    attached DAGs answer every block lookup alike compute the same ordering,
    whatever the order in which their stores list the blocks, their indexes list
    the children and their parameters [k]. *)
Theorem generate_ordering_deterministic rank rank' e e' dag dag' :
  engine_dag e = Some dag -> engine_dag e' = Some dag' -> cache_ok e -> cache_ok e' ->
  dag_shape rank (store dag) -> index_ok (index dag) (store dag) ->
  dag_shape rank' (store dag') -> index_ok (index dag') (store dag') ->
  (forall h, dag_get_block dag h = dag_get_block dag' h) ->
  Z.of_nat (block_count (store dag)) < u64_max ->
  generate_ordering e = generate_ordering e'.
Proof.
  intros Hd Hd' Hc Hc' Hsh Hidx Hsh' Hidx' Hsame Hsz.
  pose proof (shape_ok _ _ Hsh) as Hok. pose proof (shape_ok _ _ Hsh') as Hok'.
  assert (forall h, get_parents dag h = get_parents dag' h) as Hpar.
  { intros h. unfold get_parents, parents_of. fold (dag_get_block dag h) (dag_get_block dag' h).
    by rewrite Hsame. }
  destruct (kahn_order (index dag) _ _ Hsh Hidx) as [Hperm _].
  destruct (kahn_order (index dag') _ _ Hsh' Hidx') as [Hperm' _].
  fold (dag_get_topological_order dag) (get_all_blocks dag) in Hperm.
  fold (dag_get_topological_order dag') (get_all_blocks dag') in Hperm'.
  assert (get_all_blocks dag ≡ₚ get_all_blocks dag') as Hall.
  { rewrite Hperm, Hperm'. apply NoDup_Permutation; [by apply hashes_nodup..|].
    intros h. rewrite !hashes_get by done. fold (dag_get_block dag h) (dag_get_block dag' h).
    by rewrite Hsame. }
  destruct (collect_scores_spec e dag (get_all_blocks dag)) as (m & Hm & Hms).
  destruct (collect_scores_spec e' dag' (get_all_blocks dag')) as (m' & Hm' & Hms').
  assert (forall h, h ∈ get_all_blocks dag -> m !! h = m' !! h) as Hscores.
  { intros h Hh. rewrite Hms, Hms' by (by rewrite <- ?Hall). f_equal.
    rewrite (cached_score_value rank e dag), (cached_score_value rank' e' dag'); try done.
    - by rewrite (ancestors_ext dag dag').
    - rewrite (block_count_ext (store dag) (store dag')); [done..|]. intros x. symmetry. apply Hsame. }
  unfold generate_ordering. rewrite Hd, Hd', Hm, Hm'. cbn [mbind result_bind].
  assert (sort_bytes (filter (fun h => has_no_parents dag h = true) (get_all_blocks dag)) =
    sort_bytes (filter (fun h => has_no_parents dag' h = true) (get_all_blocks dag'))) as Hgen.
  { apply sort_bytes_unique. rewrite Hall. apply Permutation_refl', list_filter_iff.
    intros h. unfold has_no_parents. by rewrite Hsame. }
  destruct (get_all_blocks dag) as [|h0 hs] eqn:E, (get_all_blocks dag') as [|h0' hs'] eqn:E'; try done.
  { by apply Permutation_nil_cons in Hall. }
  { symmetry in Hall. by apply Permutation_nil_cons in Hall. }
  rewrite Hgen. f_equal. rewrite (Permutation_length Hall).
  by apply order_loop_ext.
Qed.
End GhostDagFacts.


(** ** Concrete engines *)

#[local] Existing Instances checksum_sha checksum_laws constant_exp canonical_order.

Definition sample_dag : BlockDAG MemStore :=
  {| store := diamond; index := build_from_store diamond |}.
Definition sample_engine (k : nat) : GHOSTDAGEngine MemStore := attach_dag sample_dag (new k).

Lemma sample_engine_cache k : cache_ok (sample_engine k).
Proof. apply attach_dag_cache_ok. Qed.

Lemma blue_score_counts_ancestors_witness :
  (get_blue_score [3] (sample_engine 0)).1 =
    Ok (1 + Z.of_nat (size (BlockDag.get_ancestors sample_dag [3]))) /\
  cache_ok (get_blue_score [3] (sample_engine 0)).2.
Proof.
  apply (blue_score_counts_ancestors first_byte);
    [reflexivity|apply sample_engine_cache|apply diamond_shape|vm_compute; reflexivity].
Defined.

Lemma select_parent_from_parents_best_witness :
  exists p, (select_parent_from_parents [[4]; [3]] (sample_engine 0)).1 = Ok p /\
    (select_parent_from_parents [[3]; [4]] (sample_engine 0)).1 = Ok p /\ p ∈ [[4]; [3]] /\
    forall q, q ∈ [[4]; [3]] -> score_leb (p, count_blue 0 sample_dag p)
                                 (q, count_blue 0 sample_dag q) = true.
Proof.
  apply (select_parent_from_parents_best (sample_engine 0) sample_dag);
    [reflexivity|apply sample_engine_cache|discriminate|apply Permutation_swap].
Defined.

Lemma generate_ordering_valid_witness :
  exists l, generate_ordering (sample_engine 0) = Ok l /\ l ≡ₚ get_all_hashes diamond /\
    ordered_by (get_parents sample_dag) l /\ validate_ordering (sample_engine 0) l = Ok tt.
Proof.
  apply (generate_ordering_valid first_byte (sample_engine 0) sample_dag);
    [reflexivity|apply diamond_shape|apply diamond_index].
Defined.

(** The same blocks with the children listed in another order. *)
Definition sample_dag' : BlockDAG MemStore :=
  {| store := diamond;
     index := {| parent_to_children := reverse <$> parent_to_children (build_from_store diamond);
                 tips := tips (build_from_store diamond) |} |}.
Lemma sample_dag'_index : index_ok (index sample_dag') diamond.
Proof.
  destruct diamond_index as [Hc Ht]. split; [|exact Ht]. intros p c. rewrite <- Hc.
  unfold DagIndex.get_children, sample_dag'. cbn [index parent_to_children].
  rewrite lookup_fmap. destruct (parent_to_children (build_from_store diamond) !! p) as [l|]; [|done].
  cbn [fmap option_fmap option_map default]. unfold occ. apply Permutation_length.
  by rewrite reverse_Permutation.
Qed.

Lemma generate_ordering_deterministic_witness :
  generate_ordering (sample_engine 0) = generate_ordering (attach_dag sample_dag' (new 5)).
Proof.
  apply (generate_ordering_deterministic first_byte first_byte _ _ sample_dag sample_dag');
    [reflexivity|reflexivity|apply sample_engine_cache|apply attach_dag_cache_ok
    |apply diamond_shape|apply diamond_index|apply diamond_shape|apply sample_dag'_index
    |reflexivity|vm_compute; reflexivity].
Defined.
