(* ===== verification/Daa.v ===== *)
(** Difficulty adjustment and base fee: [src/src/consensus/daa.rs] and
    [src/src/consensus/fee_market.rs]. *)
From S2P Require Import Prelude Crypto Transaction Floats Mining Block Graph Store DagIndex BlockDag.

Definition DAA_WINDOW : nat := 263.
Definition TARGET_BLOCK_TIME : Z := 1.
Definition MIN_ADJUST_RATIO : f64 := f64_lit 1 4.
Definition MAX_ADJUST_RATIO : f64 := f64_of_Z 4.
Definition MAX_GAP : Z := TARGET_BLOCK_TIME * 4.

(** The loop over [recent[1..]]: the clamped gaps added up. *)
Definition add_gap (acc : Z * Z) (blk : Block) : Z * Z :=
  let '(actual, prev_ts) := acc in
  let ts := timestamp (header blk) in
  let delta := if prev_ts <? ts then u64_sub ts prev_ts else 0 in
  (saturating_add actual (Z.min delta MAX_GAP), ts).
Definition actual_timespan (recent : list Block) : Z :=
  match recent with
  | [] => 0
  | b :: bs => (foldl add_gap (0, timestamp (header b)) bs).1
  end.

Definition clamp_ratio (ratio : f64) : f64 :=
  if f64_ltb ratio MIN_ADJUST_RATIO then MIN_ADJUST_RATIO
  else if f64_ltb MAX_ADJUST_RATIO ratio then MAX_ADJUST_RATIO else ratio.

Definition clamp_next (next : f64) : f64 :=
  let next := if f64_ltb next (f64_of_Z 1) then f64_of_Z 1 else next in
  if f64_ltb (f64_of_Z u32_max) next then f64_of_Z u32_max else next.

Definition scale_difficulty (actual prev_diff : Z) : Z :=
  let expected := Z.of_nat DAA_WINDOW * TARGET_BLOCK_TIME in
  let ratio := clamp_ratio (f64_div (f64_of_Z actual) (f64_of_Z expected)) in
  f64_to_u32 (clamp_next (f64_round (f64_mul (f64_of_Z prev_diff) ratio))).

Definition last_difficulty (blocks : list Block) : Z :=
  match last blocks with Some b => difficulty (header b) | None => 1 end.

Definition calculate_next_difficulty (blocks : list Block) : Z :=
  if (length blocks <? DAA_WINDOW)%nat then last_difficulty blocks
  else
    let recent := drop (length blocks - DAA_WINDOW) blocks in
    scale_difficulty (actual_timespan recent) (last_difficulty recent).

Definition BASE_FEE_ADJUST_UP_PERCENT : Z := 10.
Definition BASE_FEE_ADJUST_DOWN_PERCENT : Z := 10.
Definition BASE_FEE_MIN : Z := 1.

(** The new fee for a last block with [tx_count] transactions. *)
Definition adjust_base_fee (base_fee tx_count : Z) : Z :=
  let prev_base := Z.max base_fee BASE_FEE_MIN in
  let target := 1000 in
  let new_fee :=
    if target <? u64_mul tx_count 2
    then u64_add prev_base (u64_mul prev_base BASE_FEE_ADJUST_UP_PERCENT / 100)
    else saturating_sub prev_base (u64_mul prev_base BASE_FEE_ADJUST_DOWN_PERCENT / 100) in
  Z.max new_fee BASE_FEE_MIN.

Section Daa.
Context {St : Type} `{BlockStoreI St}.

Definition next_difficulty (dag : BlockDAG St) : Z :=
  let order := dag_get_topological_order dag in
  calculate_next_difficulty
    (reverse (omap (dag_get_block dag) (take DAA_WINDOW (reverse order)))).

Definition next_base_fee (dag : BlockDAG St) : Z :=
  match last (dag_get_topological_order dag) ≫= dag_get_block dag with
  | Some last_block =>
      adjust_base_fee (base_fee (header last_block)) (Z.of_nat (length (transactions last_block)))
  | None => BASE_FEE_MIN
  end.
End Daa.

(** ** Difficulty *)

(** Consecutive gaps of at least [MAX_GAP] seconds. *)
Definition slow_blocks (blocks : list Block) : Prop :=
  forall i b b', blocks !! i = Some b -> blocks !! S i = Some b' ->
    is_u64 (timestamp (header b)) /\ is_u64 (timestamp (header b')) /\
    timestamp (header b) + MAX_GAP <= timestamp (header b').
(** No progress of the timestamps at all. *)
Definition instant_blocks (blocks : list Block) : Prop :=
  forall i b b', blocks !! i = Some b -> blocks !! S i = Some b' ->
    timestamp (header b') <= timestamp (header b).

Lemma gaps_slow b bs acc :
  slow_blocks (b :: bs) -> 0 <= acc -> acc + MAX_GAP * Z.of_nat (length bs) <= u64_max ->
  (foldl add_gap (acc, timestamp (header b)) bs).1 = acc + MAX_GAP * Z.of_nat (length bs).
Proof.
  revert b acc. induction bs as [|b' bs IH]; intros b acc Hs Ha Hb; [simpl; lia|].
  destruct (Hs 0%nat b b' eq_refl eq_refl) as (Hu & Hu' & Hgap).
  unfold is_u64, MAX_GAP, TARGET_BLOCK_TIME in *. cbn [length] in *.
  cbn [foldl add_gap]. rewrite (proj2 (Z.ltb_lt _ _)) by lia.
  rewrite u64_sub_small by lia. unfold MAX_GAP, TARGET_BLOCK_TIME. rewrite Z.min_r by lia.
  unfold saturating_add. rewrite Z.min_l by lia.
  rewrite IH; [lia| |lia|lia].
  intros i c c' Hc Hc'. by apply (Hs (S i)).
Qed.

Lemma gaps_instant b bs acc :
  instant_blocks (b :: bs) -> is_u64 acc ->
  (foldl add_gap (acc, timestamp (header b)) bs).1 = acc.
Proof.
  revert b. induction bs as [|b' bs IH]; intros b Hs Ha; [done|].
  pose proof (Hs 0%nat b b' eq_refl eq_refl) as Hle.
  cbn [foldl add_gap]. rewrite (proj2 (Z.ltb_ge _ _)) by lia.
  replace (saturating_add acc (Z.min 0 MAX_GAP)) with acc
    by (unfold saturating_add, MAX_GAP, TARGET_BLOCK_TIME, is_u64 in *; lia).
  apply IH; [|done]. intros i c c' Hc Hc'. by apply (Hs (S i)).
Qed.

(** The difficulty moves with the block time instead of against it: over a
    full window, blocks that are four or more seconds apart (the target is one
    second) raise a difficulty of 20 to 80, and blocks that do not advance the
    clock lower it to 5. *)
Theorem slow_blocks_raise_difficulty blocks :
  length blocks = DAA_WINDOW -> last_difficulty blocks = 20 ->
  (slow_blocks blocks -> calculate_next_difficulty blocks = 80) /\
  (instant_blocks blocks -> calculate_next_difficulty blocks = 5).
Proof.
  intros Hlen Hlast. unfold calculate_next_difficulty. rewrite Hlen, Nat.ltb_irrefl, Nat.sub_diag.
  rewrite drop_0, Hlast. destruct blocks as [|b bs]; [done|].
  unfold actual_timespan. assert (length bs = 262%nat) as Hbs by (cbn [length] in Hlen; unfold DAA_WINDOW in Hlen; lia).
  split; intros Hs.
  - rewrite gaps_slow; [|done|lia|rewrite Hbs; vm_compute; discriminate].
    rewrite Hbs. vm_compute. reflexivity.
  - rewrite gaps_instant; [|done|machine]. vm_compute. reflexivity.
Qed.

(** ** Base fee *)

(** The next base fee is at least the minimum and within ten percent of
    the last block's, unless the last fee is so large that the percentage
    overflows; and a fee below 10 never moves, so a chain that starts at the
    minimum stays there however full its blocks are. *)
Theorem adjust_base_fee_spec base_fee tx_count :
  is_u64 base_fee -> is_u64 tx_count ->
  BASE_FEE_MIN <= adjust_base_fee base_fee tx_count /\
  (base_fee * 11 <= u64_max ->
     Z.max base_fee 1 - Z.max base_fee 1 / 10 <= adjust_base_fee base_fee tx_count
       <= Z.max base_fee 1 + Z.max base_fee 1 / 10) /\
  (base_fee < 10 -> adjust_base_fee base_fee tx_count = Z.max base_fee 1).
Proof.
  intros Hb Ht. unfold adjust_base_fee, BASE_FEE_MIN, BASE_FEE_ADJUST_UP_PERCENT,
    BASE_FEE_ADJUST_DOWN_PERCENT.
  split; [lia|].
  assert (base_fee * 11 <= u64_max -> u64_mul (Z.max base_fee 1) 10 / 100 = Z.max base_fee 1 / 10) as Hd.
  { intros Hle. unfold u64_mul, u64_wrap. rewrite Z.mod_small by machine.
    change 100 with (10 * 10). rewrite Z.div_mul_cancel_r; lia. }
  assert (base_fee * 11 <= u64_max ->
    u64_add (Z.max base_fee 1) (Z.max base_fee 1 / 10) = Z.max base_fee 1 + Z.max base_fee 1 / 10) as Hadd.
  { intros Hle. apply u64_add_small. pose proof (Z.div_le_upper_bound (Z.max base_fee 1) 10 (Z.max base_fee 1)).
    pose proof (Z.mul_div_le (Z.max base_fee 1) 10). pose proof (Z.div_pos (Z.max base_fee 1) 10). machine. }
  split.
  - intros Hle. rewrite (Hd Hle), (Hadd Hle). unfold saturating_sub.
    pose proof (Z.mul_div_le (Z.max base_fee 1) 10). pose proof (Z.div_pos (Z.max base_fee 1) 10).
    destruct (1000 <? _); lia.
  - intros Hlt. assert (base_fee * 11 <= u64_max) as Hle by machine.
    rewrite (Hd Hle). rewrite Z.div_small by (unfold is_u64 in Hb; lia).
    rewrite u64_add_small by machine. unfold saturating_sub. destruct (1000 <? _); lia.
Qed.

(** ** The results fit their fields *)

Lemma last_difficulty_range blocks :
  Forall block_wf blocks -> 0 <= last_difficulty blocks <= u32_max.
Proof.
  intros Hwf. unfold last_difficulty. destruct (last blocks) as [b|] eqn:Hb; [|machine].
  apply last_Some in Hb as [l ->]. apply Forall_app in Hwf as [_ Hb].
  apply Forall_cons in Hb as [Hb _]. by destruct Hb as (_ & _ & _ & _ & _ & _ & ? & _).
Qed.

Lemma calculate_next_difficulty_range blocks :
  Forall block_wf blocks -> 0 <= calculate_next_difficulty blocks <= u32_max.
Proof.
  intros Hwf. unfold calculate_next_difficulty.
  destruct (_ <? _)%nat; [by apply last_difficulty_range|]. apply f64_to_u32_range.
Qed.

Lemma adjust_base_fee_range base_fee tx_count :
  is_u64 base_fee -> is_u64 (adjust_base_fee base_fee tx_count).
Proof.
  intros Hb. unfold adjust_base_fee. cbv zeta. set (prev := Z.max base_fee BASE_FEE_MIN).
  assert (is_u64 prev) as Hp by (unfold prev, BASE_FEE_MIN; machine).
  assert (is_u64 (u64_add prev (u64_mul prev BASE_FEE_ADJUST_UP_PERCENT / 100))) as Hadd
    by (unfold u64_add; apply u64_wrap_range).
  assert (0 <= u64_mul prev BASE_FEE_ADJUST_DOWN_PERCENT / 100) as Hd.
  { apply Z.div_pos; [|lia]. unfold u64_mul. apply u64_wrap_range. }
  unfold saturating_sub, BASE_FEE_MIN, is_u64 in *. destruct (_ <? _); unfold u64_max in *; lia.
Qed.

Section Ranges.
Context `{Sha256Laws} `{LibM} `{HashOrder} {St : Type} `{BlockStoreLaws St}.
Implicit Types dag : BlockDAG St.

Lemma stored_wf dag h b : dag_inv dag -> dag_get_block dag h = Some b -> block_wf b.
Proof. intros Hinv Hb. apply (ann_wf _ _ _ (inv_annotated _ Hinv h b Hb)). Qed.

Lemma next_difficulty_range dag : dag_inv dag -> 0 <= next_difficulty dag <= u32_max.
Proof.
  intros Hinv. apply calculate_next_difficulty_range. apply Forall_forall. intros b Hb.
  rewrite elem_of_reverse in Hb. apply list_elem_of_omap in Hb as (h & _ & Hb). by eapply stored_wf.
Qed.

Lemma next_base_fee_range dag : dag_inv dag -> is_u64 (next_base_fee dag).
Proof.
  intros Hinv. unfold next_base_fee.
  destruct (last (dag_get_topological_order dag) ≫= dag_get_block dag) as [b|] eqn:Hb;
    [|unfold BASE_FEE_MIN; machine].
  apply bind_Some in Hb as (h & _ & Hb). apply adjust_base_fee_range.
  pose proof (stored_wf dag h b Hinv Hb) as (_ & _ & _ & _ & _ & _ & _ & ? & _). done.
Qed.
End Ranges.

(** ** Witnesses *)

Definition timed_block (t : Z) : Block :=
  {| block_hash := []; header := {| parent_hashes := []; timestamp := t; header_nonce := 0;
       difficulty := 20; base_fee := 1; state_root := []; version := 1; blue_score := 0;
       selected_parent := None; chain_height := 0; topo_index := 0 |};
     transactions := []; producer := []; reward := 0; height := 0 |}.
Definition window (gap : Z) : list Block :=
  (fun i => timed_block (1000 + gap * Z.of_nat i)) <$> seq 0 DAA_WINDOW.

Lemma window_gaps gap i b b' :
  window gap !! i = Some b -> window gap !! S i = Some b' ->
  (i < DAA_WINDOW)%nat /\ timestamp (header b) = 1000 + gap * Z.of_nat i /\
  timestamp (header b') = 1000 + gap * Z.of_nat (S i).
Proof.
  unfold window. intros (j & -> & Hj)%list_lookup_fmap_Some (j' & -> & Hj')%list_lookup_fmap_Some.
  apply lookup_seq in Hj as [-> Hi], Hj' as [-> _]. done.
Qed.

Lemma slow_blocks_raise_difficulty_witness :
  calculate_next_difficulty (window 5) = 80 /\ calculate_next_difficulty (window 0) = 5.
Proof.
  split.
  - apply (slow_blocks_raise_difficulty (window 5)); [reflexivity|reflexivity|].
    intros i b b' Hb Hb'. destruct (window_gaps 5 i b b' Hb Hb') as (Hi & -> & ->).
    unfold DAA_WINDOW in Hi. unfold is_u64, MAX_GAP, TARGET_BLOCK_TIME, u64_max. lia.
  - apply (slow_blocks_raise_difficulty (window 0)); [reflexivity|reflexivity|].
    intros i b b' Hb Hb'. destruct (window_gaps 0 i b b' Hb Hb') as (_ & -> & ->). lia.
Defined.

Lemma adjust_base_fee_spec_witness :
  BASE_FEE_MIN <= adjust_base_fee 1 1000 /\
  (1 * 11 <= u64_max -> Z.max 1 1 - Z.max 1 1 / 10 <= adjust_base_fee 1 1000 <= Z.max 1 1 + Z.max 1 1 / 10) /\
  (1 < 10 -> adjust_base_fee 1 1000 = Z.max 1 1).
Proof. apply (adjust_base_fee_spec 1 1000); machine. Defined.
