(* ===== verification/Finality.v ===== *)
(** The finality engine: [src/src/finality/finality_engine.rs].

    The interval tree over the topological order, reachability queries with
    their caches, virtual selected parents, and score-based finality. *)
From S2P Require Import Prelude Crypto Transaction Floats Mining Block Graph Store DagIndex BlockDag.

(** The [RefCell] caches live in the nodes. *)
Inductive IntervalNode :=
  | INode (node_hash : BlockHash) (node_height node_score : Z)
          (left right : option IntervalNode) (reachability_cache : gmap BlockHash bool).

Record AnticoneEntry := { anticone : gset BlockHash; computed_at : Z; entry_size : nat }.
Record VirtualSelectedParent := {
  vsp_hash : BlockHash; vsp_height : Z; vsp_score : Z; vsp_blue_score : Z
}.

Record FinalityEngine := {
  confirmation_depth : Z;
  fin_k : Z;
  interval_tree : option IntervalNode;
  anticone_cache : gmap BlockHash AnticoneEntry;
  vsp_cache : gmap BlockHash VirtualSelectedParent;
  finalized_blocks : gmap Z (gset BlockHash);
  block_heights : gmap BlockHash Z;
  block_scores : gmap BlockHash Z;
  blue_scores : gmap BlockHash Z;
  max_cache_size : Z
}.

Record FinalityStats := {
  interval_tree_built : bool; anticone_cache_size : nat; vsp_cache_size : nat;
  total_finalized_blocks : nat; stat_confirmation_depth : Z; k_cluster_protection : Z
}.

Definition new_with_k (depth k : Z) : FinalityEngine :=
  {| confirmation_depth := depth; fin_k := k; interval_tree := None; anticone_cache := ∅;
     vsp_cache := ∅; finalized_blocks := ∅; block_heights := ∅; block_scores := ∅;
     blue_scores := ∅; max_cache_size := 10000 |}.
Definition new (depth : Z) : FinalityEngine := new_with_k depth 8.

Definition set_tree (t : option IntervalNode) (heights scores : gmap BlockHash Z)
    (e : FinalityEngine) : FinalityEngine :=
  {| confirmation_depth := confirmation_depth e; fin_k := fin_k e; interval_tree := t;
     anticone_cache := anticone_cache e; vsp_cache := vsp_cache e;
     finalized_blocks := finalized_blocks e; block_heights := heights; block_scores := scores;
     blue_scores := blue_scores e; max_cache_size := max_cache_size e |}.
Definition set_anticone_cache (c : gmap BlockHash AnticoneEntry) (e : FinalityEngine) : FinalityEngine :=
  {| confirmation_depth := confirmation_depth e; fin_k := fin_k e; interval_tree := interval_tree e;
     anticone_cache := c; vsp_cache := vsp_cache e; finalized_blocks := finalized_blocks e;
     block_heights := block_heights e; block_scores := block_scores e;
     blue_scores := blue_scores e; max_cache_size := max_cache_size e |}.
Definition set_vsp_cache (c : gmap BlockHash VirtualSelectedParent) (e : FinalityEngine) : FinalityEngine :=
  {| confirmation_depth := confirmation_depth e; fin_k := fin_k e; interval_tree := interval_tree e;
     anticone_cache := anticone_cache e; vsp_cache := c; finalized_blocks := finalized_blocks e;
     block_heights := block_heights e; block_scores := block_scores e;
     blue_scores := blue_scores e; max_cache_size := max_cache_size e |}.
Definition set_finalized (f : gmap Z (gset BlockHash)) (e : FinalityEngine) : FinalityEngine :=
  {| confirmation_depth := confirmation_depth e; fin_k := fin_k e; interval_tree := interval_tree e;
     anticone_cache := anticone_cache e; vsp_cache := vsp_cache e; finalized_blocks := f;
     block_heights := block_heights e; block_scores := block_scores e;
     blue_scores := blue_scores e; max_cache_size := max_cache_size e |}.
Definition set_blue_scores (b : gmap BlockHash Z) (e : FinalityEngine) : FinalityEngine :=
  {| confirmation_depth := confirmation_depth e; fin_k := fin_k e; interval_tree := interval_tree e;
     anticone_cache := anticone_cache e; vsp_cache := vsp_cache e;
     finalized_blocks := finalized_blocks e; block_heights := block_heights e;
     block_scores := block_scores e; blue_scores := b; max_cache_size := max_cache_size e |}.

Definition inode_hash (n : IntervalNode) : BlockHash := let 'INode h _ _ _ _ _ := n in h.
Definition inode_height (n : IntervalNode) : Z := let 'INode _ h _ _ _ _ := n in h.
Definition inode_cache (n : IntervalNode) : gmap BlockHash bool := let 'INode _ _ _ _ _ c := n in c.
Definition with_children (n : IntervalNode) (l r : option IntervalNode) : IntervalNode :=
  let 'INode h ht s _ _ c := n in INode h ht s l r c.

(** [swap_remove(i)]: the element, and the rest with the last one in its place. *)
Definition swap_remove {A} (i : nat) (l : list A) : option (A * list A) :=
  x ← l !! i;
  match last l with
  | Some y => Some (x, if (S i =? length l)%nat then take i l
                       else take i l ++ y :: removelast (drop (S i) l))
  | None => None
  end.

Fixpoint build_balanced_tree (fuel : nat) (nodes : list IntervalNode) : option IntervalNode :=
  match fuel with
  | O => None
  | S fuel' =>
      let nodes := sort_by_key inode_height nodes in
      match nodes with
      | [n] => Some n
      | _ =>
          '(node, rest) ← swap_remove (length nodes / 2) nodes;
          let left_nodes := filter (fun n => inode_height n < inode_height node) rest in
          let right_nodes := filter (fun n => ~ inode_height n < inode_height node) rest in
          let left := match left_nodes with [] => None | _ => build_balanced_tree fuel' left_nodes end in
          let right := match right_nodes with [] => None | _ => build_balanced_tree fuel' right_nodes end in
          Some (with_children node left right)
      end
  end.

(** The first node in preorder with the given hash. *)
Fixpoint find_node (t : IntervalNode) (target : BlockHash) : option IntervalNode :=
  let 'INode h _ _ l r _ := t in
  if decide (h = target) then Some t
  else
    match (match l with Some l => find_node l target | None => None end) with
    | Some n => Some n
    | None => match r with Some r => find_node r target | None => None end
    end.

(** Update the cache of the node [find_node] returns. *)
Fixpoint update_node (f : gmap BlockHash bool -> gmap BlockHash bool) (t : IntervalNode)
    (target : BlockHash) : IntervalNode :=
  let 'INode h ht s l r c := t in
  if decide (h = target) then INode h ht s l r (f c)
  else
    match (match l with Some l => find_node l target | None => None end) with
    | Some _ => INode h ht s (match l with Some l => Some (update_node f l target) | None => None end) r c
    | None => INode h ht s l (match r with Some r => Some (update_node f r target) | None => None end) c
    end.

Definition compute_reachability (e : FinalityEngine) (from to : BlockHash) : result bool :=
  from_height ← ok_or (block_heights e !! from) (Error "From block height not found" []);
  to_height ← ok_or (block_heights e !! to) (Error "To block height not found" []);
  from_score ← ok_or (block_scores e !! from) (Error "From block score not found" []);
  to_score ← ok_or (block_scores e !! to) (Error "To block score not found" []);
  Ok ((from_height <=? to_height) && (from_score <=? to_score)).

(** Insert an answer; a cache that has grown past the limit is emptied. *)
Definition remember (limit : Z) (to : BlockHash) (b : bool) (c : gmap BlockHash bool)
    : gmap BlockHash bool :=
  let c := <[to := b]> c in if limit <? Z.of_nat (size c) then ∅ else c.

Definition can_reach (from to : BlockHash) : M FinalityEngine bool := fun e =>
  match interval_tree e with
  | None => (err "Interval tree not built", e)
  | Some tree =>
      match find_node tree from ≫= fun n => inode_cache n !! to with
      | Some cached => (Ok cached, e)
      | None =>
          match compute_reachability e from to with
          | Err er => (Err er, e)
          | Ok b =>
              (Ok b, set_tree (Some (update_node (remember (max_cache_size e / 100) to b) tree from))
                       (block_heights e) (block_scores e) e)
          end
      end
  end.

Definition max_score `{HashOrder} (e : FinalityEngine) : Z :=
  max_list_or 0 (hm_iter (block_scores e)).*2.

Definition calculate_finality_threshold (e : FinalityEngine) (head_score : Z) : Z :=
  let threshold := saturating_sub head_score (fin_k e) in
  let safety_margin := f64_to_u64 (f64_mul (f64_of_Z head_score) (f64_lit 1 10)) in
  saturating_sub threshold safety_margin.

Definition reset (e : FinalityEngine) : FinalityEngine :=
  {| confirmation_depth := confirmation_depth e; fin_k := fin_k e; interval_tree := None;
     anticone_cache := ∅; vsp_cache := ∅; finalized_blocks := ∅; block_heights := ∅;
     block_scores := ∅; blue_scores := ∅; max_cache_size := max_cache_size e |}.

Definition is_finalized (e : FinalityEngine) (h : BlockHash) : bool :=
  existsb (fun kv : Z * gset BlockHash => bool_decide (h ∈ kv.2)) (map_to_list (finalized_blocks e)).
Definition get_finalized_at_height (e : FinalityEngine) (ht : Z) : option (gset BlockHash) :=
  finalized_blocks e !! ht.
(** The keys of a [BTreeMap] are sorted: the last is the largest. *)
Definition get_finalization_height (e : FinalityEngine) : option Z :=
  last (sort_by_key id (map_to_list (finalized_blocks e)).*1).
Definition get_block_height (e : FinalityEngine) (h : BlockHash) : option Z := block_heights e !! h.
Definition get_block_score (e : FinalityEngine) (h : BlockHash) : option Z := block_scores e !! h.
Definition get_virtual_selected_parent (e : FinalityEngine) (h : BlockHash)
    : option VirtualSelectedParent := vsp_cache e !! h.

Section Finality.
Context `{Sha256} `{LibM} `{HashOrder} {St : Type} `{BlockStoreI St}.
Implicit Types (dag : BlockDAG St) (e : FinalityEngine).

(** The loop over [ordering.iter().enumerate()]. *)
Fixpoint interval_nodes dag (index : Z) (ordering : list BlockHash) (heights scores : gmap BlockHash Z)
    : result (list IntervalNode * gmap BlockHash Z * gmap BlockHash Z) :=
  match ordering with
  | [] => Ok ([], heights, scores)
  | h :: rest =>
      ht ← ok_or (BlockDag.get_block_height dag h) (Error "Block height not found for {:?}" [ArgHex h]);
      '(nodes, heights', scores') ←
        interval_nodes dag (index + 1) rest (<[h := ht]> heights) (<[h := index]> scores);
      Ok (INode h ht index None None ∅ :: nodes, heights', scores')
  end.

Definition build_interval_tree (ordering : list BlockHash) dag : M FinalityEngine unit := fun e =>
  match ordering with
  | [] => (Ok tt, e)
  | _ =>
      match interval_nodes dag 0 ordering ∅ ∅ with
      | Err er => (Err er, e)
      | Ok (nodes, heights, scores) =>
          (Ok tt, set_tree (build_balanced_tree (length nodes) nodes) heights scores e)
      end
  end.

Definition get_blue_score (h : BlockHash) dag : M FinalityEngine Z := fun e =>
  match blue_scores e !! h with
  | Some s => (Ok s, e)
  | None =>
      match get_blue_set dag h with
      | None => (errorf "Blue set not found for block {:?}" [ArgHex h], e)
      | Some s =>
          let score := Z.of_nat (size s) in
          (Ok score, set_blue_scores (<[h := score]> (blue_scores e)) e)
      end
  end.

Fixpoint best_blue_parent (parents : list BlockHash) dag (best : option BlockHash) (best_score : Z)
    : M FinalityEngine (option BlockHash * Z) :=
  match parents with
  | [] => mret (best, best_score)
  | p :: ps =>
      get_blue_score p dag ≫= fun s =>
      if best_score <? s then best_blue_parent ps dag (Some p) s
      else best_blue_parent ps dag best best_score
  end.

Definition compute_single_vsp (h : BlockHash) dag : M FinalityEngine VirtualSelectedParent :=
  lift (ok_or (get_block_parents dag h) (Error "Parents not found for block {:?}" [ArgHex h])) ≫= fun parents =>
  match parents with
  | [] => mret {| vsp_hash := h; vsp_height := 0; vsp_score := 0; vsp_blue_score := 0 |}
  | first :: _ =>
      best_blue_parent parents dag None 0 ≫= fun '(best, best_blue_score) =>
      let selected_parent := default first best in
      lift (ok_or (BlockDag.get_block_height dag selected_parent)
              (Error "Selected parent height not found" [])) ≫= fun ht =>
      gets (fun e => default 0 (block_scores e !! selected_parent)) ≫= fun score =>
      mret {| vsp_hash := selected_parent; vsp_height := ht; vsp_score := score;
              vsp_blue_score := best_blue_score |}
  end.

Fixpoint vsps_of (hs : list BlockHash) dag (acc : gmap BlockHash VirtualSelectedParent)
    : M FinalityEngine (gmap BlockHash VirtualSelectedParent) :=
  match hs with
  | [] => mret acc
  | h :: hs' => compute_single_vsp h dag ≫= fun v => vsps_of hs' dag (<[h := v]> acc)
  end.

Definition compute_virtual_selected_parents dag : M FinalityEngine unit :=
  vsps_of (get_all_hashes (store dag)) dag ∅ ≫= fun c => modify (set_vsp_cache c).

(** [finalized.entry(height).or_insert_with(HashSet::new).insert(hash)] *)
Definition finalize (e : FinalityEngine) (threshold : Z) (f : gmap Z (gset BlockHash))
    (kv : BlockHash * Z) : gmap Z (gset BlockHash) :=
  if kv.2 <=? threshold
  then
    let ht := default 0 (block_heights e !! kv.1) in
    <[ht := {[kv.1]} ∪ default ∅ (f !! ht)]> f
  else f.

Definition calculate_score_based_finality : M FinalityEngine unit := fun e =>
  let threshold := calculate_finality_threshold e (max_score e) in
  (Ok tt, set_finalized (foldl (finalize e threshold) ∅ (hm_iter (block_scores e))) e).

Definition compute_finality dag : M FinalityEngine unit :=
  let ordering := get_ordering dag in
  match ordering with
  | [] => lift (err "Empty DAG ordering")
  | _ =>
      build_interval_tree ordering dag ≫= fun _ =>
      compute_virtual_selected_parents dag ≫= fun _ =>
      calculate_score_based_finality
  end.

Fixpoint anticone_from (h : BlockHash) (block_height : Z) (others : list BlockHash)
    (acc : gset BlockHash) : M FinalityEngine (gset BlockHash) :=
  match others with
  | [] => mret acc
  | o :: os =>
      if decide (o = h) then anticone_from h block_height os acc
      else
        gets (fun e => default 0 (block_heights e !! o)) ≫= fun other_height =>
        if block_height <=? other_height
        then can_reach h o ≫= fun r : bool =>
             anticone_from h block_height os (if r then acc else {[o]} ∪ acc : gset BlockHash)
        else anticone_from h block_height os acc
  end.

Definition compute_anticone (h : BlockHash) dag : M FinalityEngine (gset BlockHash) := fun e =>
  match block_heights e !! h with
  | None => (err "Block height not found", e)
  | Some ht => anticone_from h ht (get_all_hashes (store dag)) ∅ e
  end.

Definition evict_oldest (c : gmap BlockHash AnticoneEntry) : gmap BlockHash AnticoneEntry :=
  let keys := sort_by_key
    (fun key : BlockHash => match c !! key with Some en => computed_at en | None => 0 end) (hm_iter c).*1 in
  foldl (fun c (key : BlockHash) => delete key c) c (take (size c / 10) keys).

Definition get_anticone (now : Z) (h : BlockHash) dag : M FinalityEngine (gset BlockHash) := fun e =>
  match anticone_cache e !! h with
  | Some en => (Ok (anticone en), e)
  | None =>
      match compute_anticone h dag e with
      | (Err er, e') => (Err er, e')
      | (Ok a, e') =>
          let c := <[h := {| anticone := a; computed_at := now; entry_size := size a |}]>
                     (anticone_cache e') in
          let c := if max_cache_size e' <? Z.of_nat (size c) then evict_oldest c else c in
          (Ok a, set_anticone_cache c e')
      end
  end.

Definition get_finality_confidence e (h : BlockHash) : f64 :=
  match block_scores e !! h with
  | None => f64_of_Z 0
  | Some block_score =>
      let head_score := max_score e in
      if head_score =? 0 then f64_of_Z 0
      else
        let distance := saturating_sub head_score block_score in
        let confidence :=
          f64_sub (f64_of_Z 1) (f64_div (f64_of_Z distance) (f64_of_Z head_score)) in
        f64_min (f64_max confidence (f64_of_Z 0)) (f64_of_Z 1)
  end.

Definition get_stats e : FinalityStats :=
  {| interval_tree_built := match interval_tree e with Some _ => true | None => false end;
     anticone_cache_size := size (anticone_cache e);
     vsp_cache_size := size (vsp_cache e);
     total_finalized_blocks := sum_nat ((fun kv : Z * gset BlockHash => size kv.2) <$> map_to_list (finalized_blocks e));
     stat_confirmation_depth := confirmation_depth e;
     k_cluster_protection := fin_k e |}.
End Finality.

(** ** The interval tree *)

Fixpoint inode_list (t : IntervalNode) : list IntervalNode :=
  let 'INode _ _ _ l r _ := t in
  t :: match l with Some l => inode_list l | None => [] end ++
       match r with Some r => inode_list r | None => [] end.
Definition inode_hashes (t : IntervalNode) : list BlockHash := inode_hash <$> inode_list t.

Definition on_child (P : IntervalNode -> Prop) (o : option IntervalNode) : Prop :=
  match o with Some x => P x | None => True end.

Lemma inode_ind' (P : IntervalNode -> Prop) :
  (forall h ht s l r c, on_child P l -> on_child P r -> P (INode h ht s l r c)) -> forall t, P t.
Proof.
  intros Hstep. fix IH 1. intros [h ht s l r c]. apply Hstep.
  - destruct l as [l|]; [apply IH|exact I].
  - destruct r as [r|]; [apply IH|exact I].
Qed.

Lemma swap_remove_spec {A} i (l : list A) :
  (i < length l)%nat -> exists x rest, swap_remove i l = Some (x, rest) /\ l ≡ₚ x :: rest.
Proof.
  intros Hi. unfold swap_remove. destruct (lookup_lt_is_Some_2 l i Hi) as [x Hx]. rewrite Hx.
  cbn [mbind option_bind]. destruct (last l) as [y|] eqn:Hy.
  2:{ apply last_None in Hy. subst l. simpl in Hi. lia. }
  pose proof (take_drop_middle l i x Hx) as Hl.
  destruct (Nat.eqb_spec (S i) (length l)) as [He|Hne].
  - exists x, (take i l). split; [done|]. rewrite <- Hl at 1. rewrite (drop_ge l (S i)) by lia.
    by rewrite Permutation_app_comm.
  - exists x, (take i l ++ y :: removelast (drop (S i) l)). split; [done|].
    assert (drop (S i) l <> []) as Hd.
    { intros E. apply (f_equal length) in E. rewrite length_drop in E. simpl in E. lia. }
    assert (drop (S i) l ≡ₚ y :: removelast (drop (S i) l)) as Hp.
    { rewrite (app_removelast_last y Hd) at 1. rewrite Permutation_app_comm. simpl.
      replace (List.last (drop (S i) l) y) with y; [done|].
      rewrite <- Hl, last_app, last_cons in Hy. destruct (last (drop (S i) l)) as [z|] eqn:Hz.
      - apply last_Some in Hz as [l' ->]. rewrite last_last. simpl in Hy. congruence.
      - by apply last_None in Hz. }
    rewrite <- Hl at 1. revert Hp. generalize (removelast (drop (S i) l)) as k. intros k Hp.
    rewrite Hp. by rewrite <- Permutation_middle.
Qed.

Definition leaf (n : IntervalNode) : Prop :=
  let 'INode _ _ _ l r c := n in l = None /\ r = None /\ c = ∅.

Definition no_caches (t : IntervalNode) : Prop := Forall (fun n => inode_cache n = ∅) (inode_list t).

Lemma build_balanced_tree_ok fuel nodes :
  nodes <> [] -> (length nodes <= fuel)%nat -> Forall leaf nodes ->
  exists t, build_balanced_tree fuel nodes = Some t /\
    inode_hashes t ≡ₚ inode_hash <$> nodes /\ no_caches t.
Proof.
  revert nodes. induction fuel as [|fuel IH]; intros nodes Hne Hf Hleaf.
  { destruct nodes; simpl in *; [done|lia]. }
  cbn [build_balanced_tree]. pose proof (sort_by_perm (fun x y => inode_height x <=? inode_height y) nodes) as Hp.
  fold (sort_by_key inode_height nodes) in Hp.
  assert (length (sort_by_key inode_height nodes) = length nodes) as Hlen by by rewrite Hp.
  assert (Forall leaf (sort_by_key inode_height nodes)) as Hsl by by rewrite Hp.
  enough (exists t, match sort_by_key inode_height nodes with
      | [n] => Some n
      | _ =>
          '(node, rest) ← swap_remove (length (sort_by_key inode_height nodes) / 2)
                            (sort_by_key inode_height nodes);
          Some (with_children node
            (match filter (fun n => inode_height n < inode_height node) rest with
             | [] => None
             | _ => build_balanced_tree fuel (filter (fun n => inode_height n < inode_height node) rest)
             end)
            (match filter (fun n => ~ inode_height n < inode_height node) rest with
             | [] => None
             | _ => build_balanced_tree fuel (filter (fun n => ~ inode_height n < inode_height node) rest)
             end)) end = Some t /\
      inode_hashes t ≡ₚ inode_hash <$> sort_by_key inode_height nodes /\ no_caches t)
    as (t & Ht & Hh & Hnc).
  { exists t. split; [rewrite <- Ht; by destruct (sort_by_key inode_height nodes) as [|? [|? ?]]|].
    split; [|done]. rewrite Hh. by apply fmap_Permutation. }
  revert Hlen Hsl. generalize (sort_by_key inode_height nodes) as sorted. intros sorted Hlen Hsl.
  assert (forall sub, sub <> [] -> (length sub < length nodes)%nat -> Forall leaf sub ->
    exists t, build_balanced_tree fuel sub = Some t /\ inode_hashes t ≡ₚ inode_hash <$> sub /\
      no_caches t) as IH'.
  { intros sub ? ?. apply IH; [done|lia]. }
  destruct sorted as [|n1 [|n2 rest0]] eqn:Hsorted.
  { destruct nodes; simpl in Hlen; [done|lia]. }
  { exists n1. apply Forall_cons in Hsl as [Hl _]. destruct n1 as [h ht s l r c].
    destruct Hl as (-> & -> & ->). split; [done|]. split; [done|]. by repeat constructor. }
  rewrite <- Hsorted in *.
  destruct (swap_remove_spec (length sorted / 2) sorted) as (node & rest & Hsw & Hperm).
  { apply Nat.div_lt; [rewrite Hsorted; simpl|]; lia. }
  rewrite Hsw. cbn [mbind option_bind].
  set (lefts := filter (fun n => inode_height n < inode_height node) rest).
  set (rights := filter (fun n => ~ inode_height n < inode_height node) rest).
  assert (rest ≡ₚ lefts ++ rights) as Hsplit by (symmetry; apply filter_app_complement).
  assert (length rest < length nodes)%nat as Hrl by (rewrite <- Hlen, Hperm; simpl; lia).
  rewrite Hperm in Hsl. apply Forall_cons in Hsl as [Hnl Hrest].
  rewrite Hsplit, Forall_app in Hrest. destruct Hrest as [Hll Hlr].
  rewrite Hsplit, length_app in Hrl.
  assert (forall sub, (length sub < length nodes)%nat -> Forall leaf sub ->
    exists o, match sub with [] => None | _ => build_balanced_tree fuel sub end = o /\
      inode_hash <$> match o with Some t => inode_list t | None => [] end ≡ₚ inode_hash <$> sub /\
      (forall t, o = Some t -> no_caches t)) as Hsub.
  { intros [|n sub] Hsl Hsf; [by exists None|].
    destruct (IH' (n :: sub)) as (t & -> & Ht & Hnc); [done|done|done|].
    exists (Some t). split; [done|]. split; [done|]. by intros t' [= <-]. }
  destruct (Hsub lefts) as (ol & -> & Hol & Hcl); [lia|done|].
  destruct (Hsub rights) as (or & -> & Hor & Hcr); [lia|done|].
  destruct node as [h ht s l r c]. destruct Hnl as (-> & -> & ->).
  eexists. split; [done|]. split.
  - unfold inode_hashes. cbn [with_children inode_list fmap list_fmap inode_hash].
    rewrite fmap_app, Hol, Hor, <- fmap_app, <- Hsplit. rewrite Hperm. done.
  - unfold no_caches. cbn [with_children inode_list]. constructor; [done|]. apply Forall_app. split.
    + destruct ol; [by apply Hcl|constructor].
    + destruct or; [by apply Hcr|constructor].
Qed.

Section FinalityFacts.
Context `{Sha256} `{LibM} `{HashOrder} {St : Type} `{BlockStoreLaws St} `{!Sha256Laws}.
Implicit Types (dag : BlockDAG St) (e : FinalityEngine).

Lemma get_block_height_some dag h :
  is_Some (BlockDag.get_block_height dag h) <-> is_Some (dag_get_block dag h).
Proof.
  unfold BlockDag.get_block_height. destruct (dag_get_block dag h) as [b|]; [|done].
  split; [eauto|]. intros _. case_match; eauto.
Qed.

(** ** Scores are positions in the ordering *)

Lemma interval_nodes_spec dag ordering index heights scores :
  NoDup ordering -> (forall h, h ∈ ordering -> is_Some (dag_get_block dag h)) ->
  exists nodes heights' scores',
    interval_nodes dag index ordering heights scores = Ok (nodes, heights', scores') /\
    inode_hash <$> nodes = ordering /\ Forall leaf nodes /\
    (forall i h, ordering !! i = Some h ->
       scores' !! h = Some (index + Z.of_nat i) /\
       heights' !! h = BlockDag.get_block_height dag h) /\
    (forall h, h ∉ ordering -> scores' !! h = scores !! h /\ heights' !! h = heights !! h).
Proof.
  revert index heights scores. induction ordering as [|h rest IH]; intros index heights scores Hnd Hst.
  - exists [], heights, scores. repeat split; try done. 
  - apply NoDup_cons in Hnd as [Hh Hnd].
    assert (is_Some (BlockDag.get_block_height dag h)) as [ht Hht]
      by (apply get_block_height_some, Hst; left).
    destruct (IH (index + 1) (<[h := ht]> heights) (<[h := index]> scores) Hnd)
      as (nodes & heights' & scores' & Hn & Hhs & Hleaf & Hin & Hout).
    { intros h' Hh'. apply Hst. by right. }
    exists (INode h ht index None None ∅ :: nodes), heights', scores'.
    cbn [interval_nodes]. rewrite Hht. cbn [ok_or mbind result_bind]. rewrite Hn.
    destruct (Hout h Hh) as [Hsh Hhh]. rewrite lookup_insert_eq in Hsh, Hhh.
    split; [done|]. split; [simpl; by f_equal|]. split; [by constructor|]. split.
    + intros [|i] h' Hi; simpl in Hi.
      * injection Hi as <-. rewrite Hsh, Hhh, Hht. split; [f_equal; lia|done].
      * destruct (Hin i h' Hi) as [-> ->]. split; [f_equal; lia|done].
    + intros h' [Hne Hn']%not_elem_of_cons. destruct (Hout h' Hn') as [-> ->].
      by rewrite !lookup_insert_ne by done.
Qed.

(** ** Virtual selected parents touch only their caches *)

Definition same_core (e e' : FinalityEngine) : Prop :=
  interval_tree e' = interval_tree e /\ block_heights e' = block_heights e /\
  block_scores e' = block_scores e /\ fin_k e' = fin_k e /\ max_cache_size e' = max_cache_size e /\
  anticone_cache e' = anticone_cache e.

Lemma same_core_refl e : same_core e e.
Proof. done. Qed.
Lemma same_core_trans e1 e2 e3 : same_core e1 e2 -> same_core e2 e3 -> same_core e1 e3.
Proof. intros (? & ? & ? & ? & ? & ?) (? & ? & ? & ? & ? & ?). split_and!; congruence. Qed.

Lemma get_blue_score_ok dag e h :
  store_ok (store dag) -> is_Some (dag_get_block dag h) ->
  exists s e', get_blue_score h dag e = (Ok s, e') /\ same_core e e'.
Proof.
  intros Hok Hh. unfold get_blue_score. destruct (blue_scores e !! h) as [s|]; [by exists s, e|].
  unfold get_blue_set. rewrite exists_get, bool_decide_true by done. eexists _, _. by split.
Qed.

Lemma best_blue_parent_ok dag ps best s e :
  store_ok (store dag) -> (forall p, p ∈ ps -> is_Some (dag_get_block dag p)) ->
  exists best' s' e', best_blue_parent ps dag best s e = (Ok (best', s'), e') /\ same_core e e' /\
    (best' = best \/ exists p, best' = Some p /\ p ∈ ps).
Proof.
  intros Hok. revert best s e. induction ps as [|p ps IH]; intros best s e Hps.
  - exists best, s, e. split; [done|]. split; [done|by left].
  - cbn [best_blue_parent]. destruct (get_blue_score_ok dag e p Hok) as (sp & e1 & Hsp & Hc1).
    { apply Hps. left. }
    unfold mbind, M_bind. rewrite Hsp.
    assert (forall q, q ∈ ps -> is_Some (dag_get_block dag q)) as Hps'.
    { intros q Hq. apply Hps. by right. }
    destruct (s <? sp).
    + destruct (IH (Some p) sp e1 Hps') as (b' & s' & e' & Heq & Hc & Hb).
      exists b', s', e'. split; [done|]. split; [by eapply same_core_trans|].
      right. destruct Hb as [->|(q & -> & Hq)]; [exists p; split; [done|left]|].
      exists q. split; [done|by right].
    + destruct (IH best s e1 Hps') as (b' & s' & e' & Heq & Hc & Hb).
      exists b', s', e'. split; [done|]. split; [by eapply same_core_trans|].
      destruct Hb as [->|(q & -> & Hq)]; [by left|right]. exists q. split; [done|by right].
Qed.

Lemma compute_single_vsp_ok dag e h :
  dag_inv dag -> is_Some (dag_get_block dag h) ->
  exists v e', compute_single_vsp h dag e = (Ok v, e') /\ same_core e e'.
Proof.
  intros Hinv [b Hb]. unfold compute_single_vsp, get_block_parents. rewrite Hb.
  unfold mbind, M_bind, lift. cbn [fmap option_fmap option_map ok_or].
  pose proof (ann_parents _ _ _ (inv_annotated _ Hinv h b Hb)) as Hpar.
  destruct (parent_hashes (header b)) as [|p ps]; [eexists _, _; by split|].
  destruct (best_blue_parent_ok dag (p :: ps) None 0 e) as (best & s & e' & Heq & Hc & Hbest).
  { apply Hinv. }
  { intros q Hq. destruct (Hpar q Hq) as (bq & -> & _). eauto. }
  rewrite Heq. destruct (get_block_height_some dag (default p best)) as [_ Hht].
  destruct Hht as [ht Hht].
  { assert (default p best ∈ p :: ps) as Hin.
    { destruct Hbest as [->|(q & -> & Hq)]; [left|done]. }
    destruct (Hpar _ Hin) as (bq & -> & _). eauto. }
  rewrite Hht. cbn [ok_or]. eexists _, _. by split.
Qed.

Lemma vsps_of_ok dag hs acc e :
  dag_inv dag -> (forall h, h ∈ hs -> is_Some (dag_get_block dag h)) ->
  exists c e', vsps_of hs dag acc e = (Ok c, e') /\ same_core e e'.
Proof.
  intros Hinv. revert acc e. induction hs as [|h hs IH]; intros acc e Hhs.
  - by exists acc, e.
  - cbn [vsps_of]. destruct (compute_single_vsp_ok dag e h Hinv) as (v & e1 & Hv & Hc1).
    { apply Hhs. left. }
    unfold mbind, M_bind. rewrite Hv.
    destruct (IH (<[h := v]> acc) e1) as (c & e' & Heq & Hc).
    { intros h' Hh'. apply Hhs. by right. }
    exists c, e'. split; [exact Heq|by eapply same_core_trans].
Qed.

(** ** The finalized set *)

Definition in_finalized (f : gmap Z (gset BlockHash)) (h : BlockHash) : Prop :=
  exists ht s, f !! ht = Some s /\ h ∈ s.

Lemma is_finalized_in e h : is_finalized e h = true <-> in_finalized (finalized_blocks e) h.
Proof.
  unfold is_finalized, in_finalized. rewrite existsb_exists. split.
  - intros ([ht s] & Hin & Hh%bool_decide_eq_true). apply list_elem_of_In, elem_of_map_to_list in Hin.
    by exists ht, s.
  - intros (ht & s & Hf & Hh). exists (ht, s). rewrite <- list_elem_of_In, elem_of_map_to_list.
    split; [done|]. by apply bool_decide_true.
Qed.

Lemma finalize_in e thr f kv h :
  in_finalized (finalize e thr f kv) h <-> in_finalized f h \/ kv.1 = h /\ kv.2 <= thr.
Proof.
  unfold finalize. destruct (Z.leb_spec kv.2 thr) as [Hle|Hgt]; [|split; [by left|intros [?|[_ ?]]; [done|lia]]].
  set (ht := default 0 _). unfold in_finalized. split.
  - intros (ht' & s & [[<- <-]|[Hne Hs]]%lookup_insert_Some & Hh).
    + apply elem_of_union in Hh as [->%elem_of_singleton|Hh]; [by right|left].
      destruct (f !! ht) as [s|] eqn:Hf; [by exists ht, s|by apply not_elem_of_empty in Hh].
    + left. by exists ht', s.
  - intros [(ht' & s & Hs & Hh)|[<- _]].
    + destruct (decide (ht = ht')) as [->|Hne].
      * exists ht', ({[kv.1]} ∪ s). rewrite Hs, lookup_insert_eq. split; [done|].
        apply elem_of_union. by right.
      * exists ht', s. by rewrite lookup_insert_ne.
    + eexists ht, _. rewrite lookup_insert_eq. split; [done|].
      apply elem_of_union. left. by apply elem_of_singleton.
Qed.

Lemma foldl_finalize_in e thr l f h :
  in_finalized (foldl (finalize e thr) f l) h <->
  in_finalized f h \/ exists s, (h, s) ∈ l /\ s <= thr.
Proof.
  revert f. induction l as [|[h' s'] l IH]; intros f; cbn [foldl].
  - split; [by left|intros [?|(s & ?%not_elem_of_nil & _)]; done].
  - rewrite IH, finalize_in. setoid_rewrite elem_of_cons. cbn [fst snd]. split.
    + intros [[?|[-> ?]]|(s & ? & ?)]; [by left|right; exists s'; auto|right; exists s; auto].
    + intros [?|(s & [[= -> ->]|?] & ?)]; [by left; left|by left; right|right; by exists s].
Qed.

(** What [compute_finality] leaves behind. *)
Record computed dag (k : Z) (e : FinalityEngine) : Prop := {
  cmp_scores : forall h s, block_scores e !! h = Some s <->
    exists i, get_ordering dag !! i = Some h /\ s = Z.of_nat i;
  cmp_heights : forall h, block_heights e !! h = BlockDag.get_block_height dag h;
  cmp_tree : exists nodes, inode_hash <$> nodes = get_ordering dag /\ Forall leaf nodes /\
    interval_tree e = build_balanced_tree (length nodes) nodes;
  cmp_k : fin_k e = k;
  cmp_finalized : forall h, in_finalized (finalized_blocks e) h <->
    exists s, block_scores e !! h = Some s /\ s <= calculate_finality_threshold e (max_score e)
}.

Lemma ordering_perm dag : dag_inv dag -> get_ordering dag ≡ₚ get_all_hashes (store dag).
Proof.
  intros Hinv. unfold get_ordering, dag_get_topological_order.
  by destruct (kahn_order (index dag) _ _ (dag_inv_shape dag Hinv) (inv_index _ Hinv)).
Qed.

Lemma ordering_ordered dag :
  dag_inv dag -> topologically_ordered (store dag) (get_ordering dag).
Proof.
  intros Hinv. unfold get_ordering, dag_get_topological_order.
  by destruct (kahn_order (index dag) _ _ (dag_inv_shape dag Hinv) (inv_index _ Hinv)).
Qed.

Lemma elem_of_ordering dag h :
  dag_inv dag -> h ∈ get_ordering dag <-> is_Some (dag_get_block dag h).
Proof. intros Hinv. rewrite ordering_perm by done. by apply hashes_get, Hinv. Qed.

Lemma NoDup_ordering dag : dag_inv dag -> NoDup (get_ordering dag).
Proof. intros Hinv. rewrite ordering_perm by done. by apply hashes_nodup, Hinv. Qed.

Lemma build_interval_tree_ok dag e :
  dag_inv dag -> get_ordering dag <> [] ->
  exists e', build_interval_tree (get_ordering dag) dag e = (Ok tt, e') /\ fin_k e' = fin_k e /\
    (forall h s, block_scores e' !! h = Some s <->
       exists i, get_ordering dag !! i = Some h /\ s = Z.of_nat i) /\
    (forall h, block_heights e' !! h = BlockDag.get_block_height dag h) /\
    exists nodes, inode_hash <$> nodes = get_ordering dag /\ Forall leaf nodes /\
      interval_tree e' = build_balanced_tree (length nodes) nodes.
Proof.
  intros Hinv Hne.
  destruct (interval_nodes_spec dag (get_ordering dag) 0 ∅ ∅) as
    (nodes & heights & scores & Hn & Hhs & Hleaf & Hin & Hout).
  { by apply NoDup_ordering. }
  { intros h Hh. by apply elem_of_ordering in Hh. }
  unfold build_interval_tree. destruct (get_ordering dag) as [|h0 rest] eqn:Ho; [done|].
  rewrite <- Ho in *. rewrite Hn. eexists. split; [done|]. split; [done|]. cbn [block_scores block_heights set_tree interval_tree].
  split; [|split; [|by exists nodes]].
  - intros h s. destruct (decide (h ∈ get_ordering dag)) as [Hh|Hh].
    + apply list_elem_of_lookup in Hh as [i Hi]. destruct (Hin i h Hi) as [-> _]. split.
      * intros [= <-]. by exists i.
      * intros (j & Hj & ->). f_equal. rewrite (NoDup_lookup _ i j h (NoDup_ordering dag Hinv) Hi Hj). done.
    + destruct (Hout h Hh) as [-> _]. rewrite lookup_empty. split; [done|].
      intros (i & Hi & _). destruct Hh. by eapply list_elem_of_lookup_2.
  - intros h. destruct (decide (h ∈ get_ordering dag)) as [Hh|Hh].
    + apply list_elem_of_lookup in Hh as [i Hi]. by destruct (Hin i h Hi) as [_ ->].
    + destruct (Hout h Hh) as [_ ->]. rewrite lookup_empty. symmetry.
      apply eq_None_not_Some. rewrite get_block_height_some. by rewrite <- elem_of_ordering.
Qed.

Lemma compute_finality_ok dag e :
  dag_inv dag -> dag_block_count dag <> 0%nat ->
  exists e', compute_finality dag e = (Ok tt, e') /\ computed dag (fin_k e) e'.
Proof.
  intros Hinv Hc. assert (get_ordering dag <> []) as Hne.
  { intros Hnil. pose proof (ordering_perm dag Hinv) as Hp. rewrite Hnil in Hp.
    apply Permutation_nil in Hp. apply Hc. unfold dag_block_count, block_count. by rewrite Hp. }
  destruct (build_interval_tree_ok dag e Hinv Hne) as (e1 & He1 & Hk & Hsc & Hht & Htree).
  destruct (vsps_of_ok dag (get_all_hashes (store dag)) ∅ e1 Hinv) as (c & e2 & He2 & Hcore).
  { intros h Hh. by apply hashes_get in Hh; [|apply Hinv]. }
  unfold compute_finality. destruct (get_ordering dag) as [|h0 rest] eqn:Ho; [done|].
  rewrite <- Ho in *. unfold mbind, M_bind. rewrite He1.
  unfold compute_virtual_selected_parents, mbind, M_bind. rewrite He2. unfold modify.
  eexists. split; [reflexivity|]. destruct Hcore as (Ht & Hh & Hs & Hk2 & _).
  split; cbn [block_scores block_heights set_finalized set_vsp_cache interval_tree fin_k finalized_blocks].
  - intros h s. rewrite Hs. apply Hsc.
  - intros h. rewrite Hh. apply Hht.
  - by rewrite Ht.
  - congruence.
  - intros h. rewrite foldl_finalize_in. setoid_rewrite elem_of_hm_iter.
    split; [intros [(ht & s & Hf & _)|Hex]; [by rewrite lookup_empty in Hf|exact Hex]|by right].
Qed.

Lemma max_score_head dag k e :
  dag_inv dag -> dag_block_count dag <> 0%nat -> computed dag k e ->
  max_score e = Z.of_nat (dag_block_count dag) - 1.
Proof.
  intros Hinv Hc Hcmp. unfold max_score.
  assert (length (get_ordering dag) = dag_block_count dag) as Hlen by by rewrite ordering_perm.
  assert (forall s, s ∈ (hm_iter (block_scores e)).*2 <->
    exists i, is_Some (get_ordering dag !! i) /\ s = Z.of_nat i) as Hvals.
  { intros s. rewrite elem_of_hm_iter_snd. setoid_rewrite (cmp_scores _ _ _ Hcmp). split.
    - intros (h & i & Hi & ->). exists i. eauto.
    - intros (i & [h Hi] & ->). by exists h, i. }
  assert (Z.of_nat (dag_block_count dag) - 1 ∈ (hm_iter (block_scores e)).*2) as Hin.
  { apply Hvals. exists (dag_block_count dag - 1)%nat. split; [|lia]. apply lookup_lt_is_Some. lia. }
  pose proof (max_list_or_ge 0 _ _ Hin) as Hge.
  assert ((hm_iter (block_scores e)).*2 <> []) as Hne.
  { intros E. rewrite E in Hin. by apply not_elem_of_nil in Hin. }
  pose proof (max_list_or_in 0 _ Hne) as Hmax. apply Hvals in Hmax as (i & Hi & Heq).
  apply lookup_lt_is_Some in Hi. lia.
Qed.

Lemma threshold_bounds e head :
  0 <= head -> 0 <= fin_k e ->
  0 <= calculate_finality_threshold e head <= Z.max 0 (head - fin_k e).
Proof.
  intros Hh Hk. unfold calculate_finality_threshold, saturating_sub.
  pose proof (f64_to_u64_range (f64_mul (f64_of_Z head) (f64_lit 1 10))) as Hr.
  generalize dependent (f64_to_u64 (f64_mul (f64_of_Z head) (f64_lit 1 10))). unfold is_u64. lia.
Qed.

Lemma computed_final dag k e h :
  computed dag k e ->
  is_finalized e h = true <->
    exists i, get_ordering dag !! i = Some h /\ Z.of_nat i <= calculate_finality_threshold e (max_score e).
Proof.
  intros Hcmp. rewrite is_finalized_in, (cmp_finalized _ _ _ Hcmp).
  setoid_rewrite (cmp_scores _ _ _ Hcmp). split.
  - intros (s & (i & Hi & ->) & Hle). by exists i.
  - intros (i & Hi & Hle). eexists. split; [by exists i|done].
Qed.

(** Final blocks are blocks of the DAG, and so are their parents final. *)
Lemma computed_final_closed dag k e h :
  dag_inv dag -> computed dag k e -> is_finalized e h = true ->
  is_Some (dag_get_block dag h) /\
  forall p, p ∈ parents_of (store dag) h -> is_finalized e p = true.
Proof.
  intros Hinv Hcmp (i & Hi & Hle)%(computed_final dag k e h Hcmp). split.
  - apply elem_of_ordering; [done|]. by eapply list_elem_of_lookup_2.
  - intros p Hp. apply (computed_final dag k e p Hcmp).
    destruct (ordering_ordered dag Hinv i h p Hi Hp) as (j & Hj & Hpj). exists j. split; [done|lia].
Qed.

(** C8: on a non-empty DAG [compute_finality] succeeds, and the final blocks are exactly the
    first [n] of the topological ordering, where [n - 1] is the index of the last block of
    the ordering less the engine's [k] and less a tenth of that index, rounded
    down in floating point, and at least 0.  [n] is at least one and, the first block
    apart, leaves the last [k] blocks out; so the first block is always final, and the
    parents of a final block are final. *)
Theorem compute_finality_spec dag e :
  dag_inv dag -> dag_block_count dag <> 0%nat -> 0 <= fin_k e ->
  exists e' n, compute_finality dag e = (Ok tt, e') /\
    (forall h, is_finalized e' h = true <-> h ∈ take n (get_ordering dag)) /\
    (let head := Z.of_nat (dag_block_count dag) - 1 in
     let margin := f64_to_u64 (f64_mul (f64_of_Z head) (f64_lit 1 10)) in
     Z.of_nat n = Z.max 0 (Z.max 0 (head - fin_k e) - margin) + 1) /\
    (1 <= n <= dag_block_count dag)%nat /\
    Z.of_nat n <= Z.max 1 (Z.of_nat (dag_block_count dag) - fin_k e) /\
    (forall h, head (get_ordering dag) = Some h -> is_finalized e' h = true) /\
    forall h p, is_finalized e' h = true -> p ∈ parents_of (store dag) h -> is_finalized e' p = true.
Proof.
  intros Hinv Hc Hk. destruct (compute_finality_ok dag e Hinv Hc) as (e' & He' & Hcmp).
  set (thr := calculate_finality_threshold e (Z.of_nat (dag_block_count dag) - 1)).
  pose proof (threshold_bounds e (Z.of_nat (dag_block_count dag) - 1)) as Hb. fold thr in Hb.
  specialize (Hb ltac:(lia) Hk).
  assert (forall h, is_finalized e' h = true <-> h ∈ take (Z.to_nat (thr + 1)) (get_ordering dag)) as Hfin.
  { intros h. rewrite (computed_final dag _ e' h Hcmp), (max_score_head dag _ e' Hinv Hc Hcmp).
    replace (calculate_finality_threshold e' _) with thr
      by (unfold thr, calculate_finality_threshold; by rewrite (cmp_k _ _ _ Hcmp)).
    rewrite list_elem_of_lookup. setoid_rewrite lookup_take_Some.
    split; intros (i & Hi & Hle); exists i; (split; [done|lia]). }
  exists e', (Z.to_nat (thr + 1)). split; [done|]. split; [exact Hfin|].
  split; [cbv zeta; rewrite Z2Nat.id by lia; by unfold thr, calculate_finality_threshold, saturating_sub; rewrite !(Z.max_comm 0)|].
  split; [lia|]. split; [lia|]. split.
  - intros h Hh. apply Hfin. destruct (get_ordering dag) as [|h0 rest]; [done|]. injection Hh as ->.
    replace (Z.to_nat (thr + 1)) with (S (Z.to_nat thr)) by lia. left.
  - intros h p Hh. by apply (computed_final_closed dag _ e' h Hinv Hcmp).
Qed.

(** ** Reachability queries *)

(** The tree lists every block, and every cached answer is the computed one. *)
Record reach_inv dag e : Prop := {
  ri_scores : forall h s, block_scores e !! h = Some s <->
    exists i, get_ordering dag !! i = Some h /\ s = Z.of_nat i;
  ri_heights : forall h, block_heights e !! h = BlockDag.get_block_height dag h;
  ri_tree : exists t, interval_tree e = Some t /\ inode_hashes t ≡ₚ get_ordering dag /\
    forall n to b, n ∈ inode_list t -> inode_cache n !! to = Some b ->
      compute_reachability e (inode_hash n) to = Ok b
}.

Lemma computed_reach_inv dag k e :
  dag_inv dag -> dag_block_count dag <> 0%nat -> computed dag k e -> reach_inv dag e.
Proof.
  intros Hinv Hc Hcmp. split; [apply Hcmp|apply Hcmp|].
  destruct (cmp_tree _ _ _ Hcmp) as (nodes & Hn & Hleaf & Ht).
  destruct (build_balanced_tree_ok (length nodes) nodes) as (t & Hbt & Hperm & Hnc); [|done|done|].
  { intros ->. simpl in Hn. pose proof (ordering_perm dag Hinv) as Hp. rewrite <- Hn in Hp.
    apply Permutation_nil in Hp. apply Hc. unfold dag_block_count, block_count. by rewrite Hp. }
  exists t. rewrite Ht, Hbt. split; [done|]. rewrite <- Hn. split; [done|].
  intros n to b Hin Hcache. unfold no_caches in Hnc. rewrite Forall_forall in Hnc.
  rewrite (Hnc n Hin), lookup_empty in Hcache. done.
Qed.

Lemma find_node_in t h n : find_node t h = Some n -> n ∈ inode_list t /\ inode_hash n = h.
Proof.
  revert n. induction t as [h' ht s l r c IHl IHr] using inode_ind'; intros n.
  cbn [find_node inode_list]. case_decide as Hd.
  - intros [= <-]. split; [left|done].
  - destruct l as [l|]; cbn [on_child] in IHl.
    + destruct (find_node l h) as [n'|].
      * intros [= <-]. destruct (IHl n' eq_refl) as [Hin Hh]. split; [|done].
        right. apply elem_of_app. by left.
      * destruct r as [r|]; [|done]. intros Hn. destruct (IHr n Hn) as [Hin Hh]. split; [|done].
        right. apply elem_of_app. by right.
    + destruct r as [r|]; [|done]. intros Hn. by destruct (IHr n Hn) as [Hin Hh]; split; [right|].
Qed.

(** Updating a cache keeps the hashes; a node of the new tree is an old one or
    the updated one. *)
Lemma update_node_list f t h :
  inode_hashes (update_node f t h) = inode_hashes t /\
  forall n, n ∈ inode_list (update_node f t h) ->
    (exists n', n' ∈ inode_list t /\ inode_hash n = inode_hash n' /\ inode_cache n = inode_cache n') \/
    (exists n', n' ∈ inode_list t /\ inode_hash n = h /\ inode_hash n' = h /\ inode_cache n = f (inode_cache n')).
Proof.
  unfold inode_hashes. induction t as [h' ht s l r c IHl IHr] using inode_ind'.
  cbn [update_node]. case_decide as Hd.
  { subst h'. cbn [inode_list fmap list_fmap inode_hash]. split; [done|].
    intros n [->|Hn]%elem_of_cons.
    - right. eexists. split; [left|]. done.
    - left. exists n. split; [by right|done]. }
  assert (forall n', n' ∈ match l with Some l => inode_list l | None => [] end \/
    n' ∈ match r with Some r => inode_list r | None => [] end ->
    n' ∈ inode_list (INode h' ht s l r c)) as Hsub.
  { intros n' Hn'. cbn [inode_list]. right. by apply elem_of_app. }
  assert (forall n, n = INode h' ht s l r c \/ True -> True) as _ by done.
  destruct (match l with Some l => find_node l h | None => None end).
  - destruct l as [l|]; [|split; [done|intros n Hn; left; by exists n]]. cbn [on_child] in IHl.
    destruct IHl as [IH1 IH2]. split.
    + cbn [inode_list fmap list_fmap inode_hash]. by rewrite !fmap_app, IH1.
    + cbn [inode_list]. intros n [->|[Hn|Hn]%elem_of_app]%elem_of_cons.
      * left. eexists. split; [left|done].
      * destruct (IH2 n Hn) as [(n' & Hin & ?)|(n' & Hin & ?)]; [left|right]; exists n';
          (split; [apply Hsub; by left|done]).
      * left. exists n. split; [apply Hsub; by right|done].
  - destruct r as [r|]; [|split; [done|intros n Hn; left; by exists n]]. cbn [on_child] in IHr.
    destruct IHr as [IH1 IH2]. split.
    + cbn [inode_list fmap list_fmap inode_hash]. by rewrite !fmap_app, IH1.
    + cbn [inode_list]. intros n [->|[Hn|Hn]%elem_of_app]%elem_of_cons.
      * left. eexists. split; [left|done].
      * left. exists n. split; [apply Hsub; by left|done].
      * destruct (IH2 n Hn) as [(n' & Hin & ?)|(n' & Hin & ?)]; [left|right]; exists n';
          (split; [apply Hsub; by right|done]).
Qed.

Lemma can_reach_inv dag e from to :
  reach_inv dag e ->
  let '(r, e') := can_reach from to e in
  r = compute_reachability e from to /\ reach_inv dag e'.
Proof.
  intros [Hs Hh (t & Ht & Hp & Hc)]. unfold can_reach. rewrite Ht.
  destruct (find_node t from ≫= fun n => inode_cache n !! to) as [b|] eqn:Hcached.
  - apply bind_Some in Hcached as (n & Hn & Hb). apply find_node_in in Hn as [Hin <-].
    split; [symmetry; by apply (Hc n)|]. split; eauto.
  - destruct (compute_reachability e from to) as [b|er] eqn:Hr; (split; [done|]); [|split; eauto].
    split; cbn [block_scores block_heights set_tree interval_tree]; [done|done|].
    destruct (update_node_list (remember (max_cache_size e / 100) to b) t from) as [Hhs Hall].
    eexists. split; [done|]. split; [by rewrite Hhs|].
    intros n to' b' Hn Hb'. change (compute_reachability e (inode_hash n) to' = Ok b').
    destruct (Hall n Hn) as [(n' & Hin & -> & Heq)|(n' & Hin & Hfrom & Hfrom' & Heq)].
    + apply (Hc n'); [done|by rewrite <- Heq].
    + rewrite Heq in Hb'. unfold remember in Hb'. case_match; [by rewrite lookup_empty in Hb'|].
      rewrite Hfrom. apply lookup_insert_Some in Hb' as [[<- <-]|[_ Hb']]; [done|].
      rewrite <- Hfrom'. by apply (Hc n').
Qed.

Lemma ancestor_before dag b a bb :
  dag_inv dag -> dag_get_block dag b = Some bb -> reach (parents_of (store dag)) b a ->
  exists ba, dag_get_block dag a = Some ba /\ height ba < height bb /\
    forall j, get_ordering dag !! j = Some b -> exists i, (i < j)%nat /\ get_ordering dag !! i = Some a.
Proof.
  intros Hinv Hb Hr. revert bb Hb. induction Hr as [b a Hab|b c a Hbc _ IH]; intros bb Hb.
  - pose proof Hab as Hab'. rewrite (parents_of_get _ _ bb Hb) in Hab'.
    destruct (ann_parents _ _ _ (inv_annotated _ Hinv b bb Hb) a Hab') as (ba & Ha & _ & Hlt & _).
    exists ba. split; [done|]. split; [done|]. intros j Hj. by eapply ordering_ordered.
  - pose proof Hbc as Hbc'. rewrite (parents_of_get _ _ bb Hb) in Hbc'.
    destruct (ann_parents _ _ _ (inv_annotated _ Hinv b bb Hb) c Hbc') as (bc & Hc & _ & Hlt & _).
    destruct (IH bc Hc) as (ba & Ha & Hlt' & Hbef). exists ba. split; [done|]. split; [lia|].
    intros j Hj. destruct (ordering_ordered dag Hinv j b c Hj Hbc) as (k & Hk & Hkc).
    destruct (Hbef k Hkc) as (i & Hi & Hia). exists i. split; [lia|done].
Qed.

(** C36: after [compute_finality], and after any further queries, [can_reach]
    on stored blocks answers whether the first is not higher than the second and
    not later in the ordering, from the caches or not; it is true whenever the
    first block is the second or one of its ancestors. *)
Theorem can_reach_spec dag e a b ba bb :
  dag_inv dag -> reach_inv dag e ->
  dag_get_block dag a = Some ba -> dag_get_block dag b = Some bb ->
  let '(r, e') := can_reach a b e in
  reach_inv dag e' /\
  (exists i j, get_ordering dag !! i = Some a /\ get_ordering dag !! j = Some b /\
     r = Ok ((height ba <=? height bb) && (Z.of_nat i <=? Z.of_nat j))) /\
  (self_or_ancestor (store dag) a b -> r = Ok true).
Proof.
  intros Hinv Hri Ha Hb. pose proof (can_reach_inv dag e a b Hri) as Hcr.
  destruct (can_reach a b e) as [r e']. destruct Hcr as [-> Hri']. split; [done|].
  assert (exists i, get_ordering dag !! i = Some a) as [i Hi].
  { apply list_elem_of_lookup, elem_of_ordering; eauto. }
  assert (exists j, get_ordering dag !! j = Some b) as [j Hj].
  { apply list_elem_of_lookup, elem_of_ordering; eauto. }
  destruct (get_block_height_depth dag a ba Hinv Ha) as [_ Hha].
  destruct (get_block_height_depth dag b bb Hinv Hb) as [_ Hhb].
  assert (compute_reachability e a b =
    Ok ((height ba <=? height bb) && (Z.of_nat i <=? Z.of_nat j))) as Hr.
  { unfold compute_reachability. rewrite !(ri_heights _ _ Hri), Hha, Hhb.
    rewrite (proj2 (ri_scores _ _ Hri a (Z.of_nat i))) by eauto.
    by rewrite (proj2 (ri_scores _ _ Hri b (Z.of_nat j))) by eauto. }
  split; [by exists i, j|]. rewrite Hr. intros [->|Hanc].
  - rewrite Ha in Hb. injection Hb as <-.
    rewrite (NoDup_lookup _ i j a (NoDup_ordering dag Hinv) Hi Hj). by rewrite !Z.leb_refl.
  - destruct (ancestor_before dag b a bb Hinv Hb Hanc) as (ba' & Ha' & Hlt & Hbefore).
    rewrite Ha in Ha'. injection Ha' as <-.
    destruct (Hbefore j Hj) as (i' & Hi' & Hi2).
    rewrite (NoDup_lookup _ i i' a (NoDup_ordering dag Hinv) Hi Hi2).
    by rewrite (proj2 (Z.leb_le _ _)), (proj2 (Z.leb_le _ _)) by lia.
Qed.
End FinalityFacts.

(** ** Concrete DAGs *)

#[local] Existing Instances checksum_sha checksum_laws constant_exp canonical_order.

Definition diamond_dag : BlockDAG MemStore :=
  {| store := diamond; index := build_from_store diamond |}.

(** A chain of [n] blocks, each the parent of the next. *)
Definition chain_nodes (n : nat) : list Block :=
  (fun i => node [Z.of_nat i] (match i with O => [] | S j => [[Z.of_nat j]] end)) <$> seq 0 n.
Definition chain_store (n : nat) : MemStore :=
  list_to_map ((fun b => (block_hash b, b)) <$> chain_nodes n).
Definition chain_dag (n : nat) : BlockDAG MemStore :=
  {| store := chain_store n; index := build_from_store (chain_store n) |}.
(** The same DAG after one more child of the genesis is inserted. *)
Definition late_sibling : Block := node [100] [[0]].
Definition chain_dag_after (n : nat) : BlockDAG MemStore :=
  {| store := <[[100] := late_sibling]> (chain_store n);
     index := update_tips_after_insert late_sibling (index (chain_dag n)) |}.

(** Finality can be taken back: in a chain of 20 blocks the eleventh
    is final, and after one more child of the genesis is inserted and finality is
    computed again it is not, because it moves down one place in the ordering
    while the safety margin grows. *)
Theorem finality_reversal :
  let e1 := (compute_finality (chain_dag 20) (new 10)).2 in
  let e2 := (compute_finality (chain_dag_after 20) e1).2 in
  is_finalized e1 [10] = true /\ is_finalized e2 [10] = false /\
  [10] ∈ get_ordering (chain_dag_after 20).
Proof.
  split; [vm_compute; reflexivity|]. split; [vm_compute; reflexivity|].
  apply (bool_decide_unpack _). vm_compute. exact I.
Qed.

(** [can_reach] also answers yes for unrelated blocks. *)
Example can_reach_false_positive :
  (can_reach [3] [4] (compute_finality diamond_dag (new 10)).2).1 = Ok true /\
  dag_is_ancestor diamond_dag [3] [4] = false.
Proof. split; vm_compute; reflexivity. Qed.

Lemma compute_finality_spec_witness :
  exists e' n, compute_finality fork (new 10) = (Ok tt, e') /\
    (forall h, is_finalized e' h = true <-> h ∈ take n (get_ordering fork)) /\
    (1 <= n)%nat /\ (forall p, is_finalized e' tip2 = true -> p ∈ parents_of (store fork) tip2 -> is_finalized e' p = true).
Proof.
  destruct (compute_finality_spec fork (new 10)) as (e' & n & He & Hfin & _ & [Hn _] & _ & _ & Hcl);
    [apply fork_inv|by vm_compute|by vm_compute|].
  exists e', n. split; [exact He|]. split; [exact Hfin|]. split; [exact Hn|]. intros p. apply Hcl.
Defined.

Lemma can_reach_spec_witness :
  exists e, reach_inv dag2 e /\
  let '(r, e') := can_reach tip2 tip2 e in
  reach_inv dag2 e' /\
  (exists i j, get_ordering dag2 !! i = Some tip2 /\ get_ordering dag2 !! j = Some tip2 /\
     r = Ok ((height tip_block2 <=? height tip_block2) && (Z.of_nat i <=? Z.of_nat j))) /\
  (self_or_ancestor (store dag2) tip2 tip2 -> r = Ok true).
Proof.
  destruct (compute_finality_ok dag2 (new 10) dag2_inv) as (e & _ & Hc); [by vm_compute|].
  assert (dag_block_count dag2 <> 0%nat) as Hn by by vm_compute.
  pose proof (computed_reach_inv dag2 _ e dag2_inv Hn Hc) as Hri. exists e. split; [exact Hri|].
  exact (can_reach_spec dag2 e tip2 tip2 tip_block2 tip_block2 dag2_inv Hri
    tip_block2_stored tip_block2_stored).
Defined.
