(* ===== verification/Mempool.v ===== *)
(** The transaction mempool: [src/src/mempool/tx_dag_mempool.rs].

    Admission with rate limit, eviction and fee threshold, dependency tracking,
    removal and the queries.  The locks are taken and released within one call,
    so a call is one step; the shared [StateManager] is an argument. *)
From S2P Require Import Prelude Crypto Transaction Floats Mining Block StateTree StateManager.

Definition RATE_LIMIT_WINDOW_SECS : Z := 60.
Definition MAX_TX_PER_SOURCE : nat := 100.
Definition DEFAULT_MIN_GAS_PRICE : Z := 1.

Record MempoolTransaction := {
  transaction : Transaction;
  parent_tx_hashes : list Hash;
  added_at : Z;
  is_ready : bool
}.

Definition mempool_tx (tx : Transaction) (parents : list Hash) (timestamp : Z) : MempoolTransaction :=
  {| transaction := tx; parent_tx_hashes := parents; added_at := timestamp;
     is_ready := match parents with [] => true | _ => false end |}.
Definition set_ready (m : MempoolTransaction) (r : bool) : MempoolTransaction :=
  {| transaction := transaction m; parent_tx_hashes := parent_tx_hashes m;
     added_at := added_at m; is_ready := r |}.

Record TxDagMempool := {
  txs : gmap Hash MempoolTransaction;
  parent_child_map : gmap Hash (gset Hash);
  pending_by_sender : gmap Address (list Hash);
  max_size : nat;
  current_base_fee : Z;
  rate_limits : gmap string (nat * Z);
  min_gas_price : Z
}.

Definition new (max_size : nat) (min_gas_price : Z) : TxDagMempool :=
  {| txs := ∅; parent_child_map := ∅; pending_by_sender := ∅; max_size := max_size;
     current_base_fee := min_gas_price; rate_limits := ∅; min_gas_price := min_gas_price |}.

Definition set_txs (t : gmap Hash MempoolTransaction) (p : TxDagMempool) : TxDagMempool :=
  {| txs := t; parent_child_map := parent_child_map p; pending_by_sender := pending_by_sender p;
     max_size := max_size p; current_base_fee := current_base_fee p;
     rate_limits := rate_limits p; min_gas_price := min_gas_price p |}.
Definition set_links (pc : gmap Hash (gset Hash)) (pend : gmap Address (list Hash))
    (p : TxDagMempool) : TxDagMempool :=
  {| txs := txs p; parent_child_map := pc; pending_by_sender := pend;
     max_size := max_size p; current_base_fee := current_base_fee p;
     rate_limits := rate_limits p; min_gas_price := min_gas_price p |}.
Definition set_rates (r : gmap string (nat * Z)) (p : TxDagMempool) : TxDagMempool :=
  {| txs := txs p; parent_child_map := parent_child_map p; pending_by_sender := pending_by_sender p;
     max_size := max_size p; current_base_fee := current_base_fee p;
     rate_limits := r; min_gas_price := min_gas_price p |}.
Definition set_base_fee (fee : Z) (p : TxDagMempool) : TxDagMempool :=
  {| txs := txs p; parent_child_map := parent_child_map p; pending_by_sender := pending_by_sender p;
     max_size := max_size p; current_base_fee := fee;
     rate_limits := rate_limits p; min_gas_price := min_gas_price p |}.

(** One visit of a source at time [now]: whether it may proceed, and its entry
    afterwards. *)
Definition rate_limit (now : Z) (entry : option (nat * Z)) : bool * (nat * Z) :=
  let '(count, start) := default (0%nat, now) entry in
  let '(count, start) :=
    if u64_add start RATE_LIMIT_WINDOW_SECS <=? now then (0%nat, now) else (count, start) in
  if (MAX_TX_PER_SOURCE <=? count)%nat then (false, (count, start))
  else (true, (S count, start)).

Definition check_rate (now : Z) (source : option string) : M TxDagMempool unit := fun p =>
  match source with
  | None => (Ok tt, p)
  | Some src =>
      let '(pass, entry) := rate_limit now (rate_limits p !! src) in
      ((if pass then Ok tt else err "Rate limit exceeded for source"),
       set_rates (<[src := entry]> (rate_limits p)) p)
  end.

Section Mempool.
Context `{Sha256} `{SecpOps} `{HashOrder}.

(** Make room for [tx] when the pool is full. *)
Definition check_capacity (tx : Transaction) : M TxDagMempool unit := fun p =>
  if (max_size p <=? size (txs p))%nat then
    match min_by_key (fun kv => gas_price (transaction kv.2)) (hm_iter (txs p)) with
    | Some (low_hash, low_tx) =>
        if gas_price (transaction low_tx) <? gas_price tx
        then (Ok tt, set_txs (delete low_hash (txs p)) p)
        else (err "Mempool is full", p)
    | None => (err "Mempool is full", p)
    end
  else (Ok tt, p).

Definition admission_threshold (p : TxDagMempool) : Z := Z.max (current_base_fee p) (min_gas_price p).

(** The checks between eviction and insertion. *)
Definition check_admission (st : StateManager) (tx : Transaction) (p : TxDagMempool) : result unit :=
  if bool_decide (data (signature tx) = [])
  then err "Transaction must be signed before adding to mempool"
  else if gas_price tx <? admission_threshold p
  then errorf "Gas price {} below minimum {}" [ArgNum (gas_price tx); ArgNum (admission_threshold p)]
  else if get_balance st (from tx) =? 0 then err "Sender account has zero balance"
  else if negb (length (hash tx) =? 32)%nat then err "Invalid transaction hash"
  else if bool_decide (is_Some (txs p !! hash tx)) then err "Transaction already in mempool"
  else Ok tt.

Definition ready_on_entry (p : TxDagMempool) (parents : list Hash) : bool :=
  forallb (fun h => negb (bool_decide (is_Some (txs p !! h)))) parents.

Definition add_child (child : Hash) (pc : gmap Hash (gset Hash)) (parent : Hash) : gmap Hash (gset Hash) :=
  <[parent := {[child]} ∪ default ∅ (pc !! parent)]> pc.

Definition insert_tx (now : Z) (tx : Transaction) (parents : list Hash) (p : TxDagMempool) : TxDagMempool :=
  let h := hash tx in
  let entry := set_ready (mempool_tx tx parents now) (ready_on_entry p parents) in
  set_links (foldl (add_child h) (parent_child_map p) parents)
    (<[from tx := default [] (pending_by_sender p !! from tx) ++ [h]]> (pending_by_sender p))
    (set_txs (<[h := entry]> (txs p)) p).

(** [now] and [now'] are the two reads of the clock. *)
Definition add_transaction (now now' : Z) (st : StateManager) (tx : Transaction) (parents : list Hash)
    (source : option string) : M TxDagMempool unit :=
  check_rate now source ≫= fun _ =>
  check_capacity tx ≫= fun _ =>
  gets (check_admission st tx) ≫= fun r =>
  lift r ≫= fun _ =>
  modify (insert_tx now' tx parents).

Definition validate_transaction (tx : Transaction) : result unit :=
  Transaction.validate_basic tx ≫= fun _ =>
  if match payload tx with Transfer _ amount => amount =? 0 | _ => false end
  then err "Transaction amount must be > 0"
  else if gas_limit tx =? 0 then err "Gas limit must be > 0"
  else Ok tt.

Definition get_all_transactions (p : TxDagMempool) : list MempoolTransaction := (hm_iter (txs p)).*2.
Definition get_ready_transactions (p : TxDagMempool) : list MempoolTransaction :=
  filter (fun m => is_ready m = true) (get_all_transactions p).
Definition tx_count (p : TxDagMempool) : nat := size (txs p).
Definition mempool_size (p : TxDagMempool) : nat := size (txs p).
Definition get_transaction (p : TxDagMempool) (h : Hash) : option MempoolTransaction := txs p !! h.
Definition get_sender_pending (p : TxDagMempool) (a : Address) : list Hash :=
  default [] (pending_by_sender p !! a).

(** [child2.is_ready = all_dependencies_fulfilled] for one child. *)
Definition refresh_child (t : gmap Hash MempoolTransaction) (child : Hash) : gmap Hash MempoolTransaction :=
  match t !! child with
  | Some m =>
      <[child := set_ready m
          (forallb (fun h => negb (bool_decide (is_Some (t !! h)))) (parent_tx_hashes m))]> t
  | None => t
  end.

(** The entry of the parent-child map is removed before it is read. *)
Definition remove_transaction (h : Hash) (p : TxDagMempool) : option MempoolTransaction * TxDagMempool :=
  match txs p !! h with
  | None => (None, p)
  | Some removed =>
      let t := delete h (txs p) in
      let parent_child := delete h (parent_child_map p) in
      let t := match parent_child !! h with
               | Some children => foldl refresh_child t (hs_iter children)
               | None => t
               end in
      let pending :=
        match pending_by_sender p !! from (transaction removed) with
        | Some l => <[from (transaction removed) := filter (fun h' => h' <> h) l]> (pending_by_sender p)
        | None => pending_by_sender p
        end in
      (Some removed, set_links parent_child pending (set_txs t p))
  end.

Definition clear (p : TxDagMempool) : TxDagMempool := set_links ∅ ∅ (set_txs ∅ p).

(** ** Admission *)

(** The rate limiter touches its own table only. *)
Lemma check_rate_rates now source p :
  exists r rates, check_rate now source p = (r, set_rates rates p).
Proof.
  unfold check_rate. destruct source as [src|]; [|exists (Ok tt), (rate_limits p); by destruct p].
  destruct (rate_limit now (rate_limits p !! src)). eauto.
Qed.


(** What holds of every pool: entries are filed under their transaction's hash,
    were signed and paid at least the minimum price, the pool is within its size,
    and every entry is pending for its sender. *)
Record pool_ok (p : TxDagMempool) : Prop := {
  ok_hash : forall h m, txs p !! h = Some m -> h = hash (transaction m);
  ok_signed : forall h m, txs p !! h = Some m -> data (signature (transaction m)) <> [];
  ok_price : forall h m, txs p !! h = Some m -> min_gas_price p <= gas_price (transaction m);
  ok_size : (size (txs p) <= max_size p)%nat;
  ok_pending : forall h m, txs p !! h = Some m -> h ∈ get_sender_pending p (from (transaction m))
}.

Lemma pool_ok_new n g : pool_ok (new n g).
Proof. split; try (intros h m Hm; simpl in Hm; by rewrite lookup_empty in Hm). simpl. by rewrite map_size_empty; lia. Qed.

Lemma pool_ok_shrink t p : t ⊆ txs p -> pool_ok p -> pool_ok (set_txs t p).
Proof.
  intros Ht [? ? ? ? ?]. assert (forall h m, t !! h = Some m -> txs p !! h = Some m) as Hsub.
  { intros h m Hm. by eapply lookup_weaken. }
  split; simpl; eauto. pose proof (map_subseteq_size _ _ Ht). lia.
Qed.

(** The effect of the capacity check: nothing, or the removal of an entry with
    the lowest price, which is lower than the new transaction's. *)
Lemma check_capacity_spec tx p :
  match check_capacity tx p with
  | (Ok _, p') =>
      (size (txs p) < max_size p)%nat /\ p' = p \/
      (max_size p <= size (txs p))%nat /\
      exists low m, txs p !! low = Some m /\ p' = set_txs (delete low (txs p)) p /\
        gas_price (transaction m) < gas_price tx /\
        forall h m', txs p !! h = Some m' -> gas_price (transaction m) <= gas_price (transaction m')
  | (Err _, p') =>
      p' = p /\ (max_size p <= size (txs p))%nat /\
      (txs p = ∅ \/ exists h m, txs p !! h = Some m /\ gas_price tx <= gas_price (transaction m) /\
        forall h' m', txs p !! h' = Some m' -> gas_price (transaction m) <= gas_price (transaction m'))
  end.
Proof.
  unfold check_capacity. destruct (Nat.leb_spec (max_size p) (size (txs p))) as [Hfull|]; [|by left].
  destruct (min_by_key _ (hm_iter (txs p))) as [[low m]|] eqn:Hmin.
  - apply min_by_key_spec in Hmin as [Hin Hmin]. apply elem_of_hm_iter in Hin.
    assert (forall h m', txs p !! h = Some m' -> gas_price (transaction m) <= gas_price (transaction m')) as Hle.
    { intros h m' Hm'. by apply (Hmin (h, m')), elem_of_hm_iter. }
    destruct (Z.ltb_spec (gas_price (transaction m)) (gas_price tx)).
    + right. split; [done|]. by exists low, m.
    + split; [done|]. split; [done|]. right. by exists low, m.
  - split; [done|]. split; [done|]. left.
    destruct (hm_iter (txs p)) as [|[h m] l] eqn:Hl; [|simpl in Hmin; by destruct (min_by_key _ l)].
    pose proof (hm_iter_perm _ _ (txs p)) as Hp. rewrite Hl in Hp.
    by apply Permutation_nil, map_to_list_empty_iff in Hp.
Qed.

Lemma check_admission_ok st tx p :
  check_admission st tx p = Ok tt ->
  data (signature tx) <> [] /\ admission_threshold p <= gas_price tx /\ get_balance st (from tx) <> 0 /\
  length (hash tx) = 32%nat /\ txs p !! hash tx = None.
Proof.
  unfold check_admission. case_bool_decide; [done|].
  destruct (Z.ltb_spec (gas_price tx) (admission_threshold p)); [done|].
  destruct (Z.eqb_spec (get_balance st (from tx)) 0); [done|].
  destruct (Nat.eqb_spec (length (hash tx)) 32); [|done]. cbn [negb].
  case_bool_decide as Hs; [done|]. intros _. by rewrite <- eq_None_not_Some in Hs.
Qed.

Lemma check_admission_err st tx p :
  data (signature tx) = [] \/ gas_price tx < admission_threshold p \/ get_balance st (from tx) = 0 \/
    length (hash tx) <> 32%nat \/ is_Some (txs p !! hash tx) ->
  is_ok (check_admission st tx p) = false.
Proof.
  intros Hbad. destruct (check_admission st tx p) as [[]|] eqn:Hc; [|done].
  apply check_admission_ok in Hc as (? & ? & ? & ? & Hn). rewrite Hn in Hbad.
  destruct Hbad as [?|[?|[?|[?|[]]]]]; [done|lia|done|done|done].
Qed.

Lemma insert_tx_ok now tx parents p :
  pool_ok p -> (size (txs p) < max_size p)%nat ->
  data (signature tx) <> [] -> min_gas_price p <= gas_price tx -> txs p !! hash tx = None ->
  pool_ok (insert_tx now tx parents p).
Proof.
  intros [Hh Hs Hp Hz Hq] Hlt Hsig Hprice Hnew.
  split; unfold insert_tx; cbn [txs set_links set_txs min_gas_price max_size get_sender_pending pending_by_sender].
  - intros h m [[<- <-]|[_ Hm]]%lookup_insert_Some; [done|auto].
  - intros h m [[<- <-]|[_ Hm]]%lookup_insert_Some; [done|eauto].
  - intros h m [[<- <-]|[_ Hm]]%lookup_insert_Some; [done|eauto].
  - rewrite map_size_insert_None by done. lia.
  - intros h m. unfold get_sender_pending. cbn [pending_by_sender set_links set_txs].
    intros [[<- <-]|[_ Hm]]%lookup_insert_Some.
    + cbn [transaction set_ready mempool_tx]. rewrite lookup_insert_eq. cbn [default]. apply elem_of_app. right. left.
    + specialize (Hq h m Hm). unfold get_sender_pending in Hq.
      destruct (decide (from tx = from (transaction m))) as [->|Hne].
      * rewrite lookup_insert_eq. apply elem_of_app. by left.
      * by rewrite lookup_insert_ne.
Qed.

Lemma add_transaction_cases now now' st tx parents source p :
  pool_ok p ->
  let '(r, p') := add_transaction now now' st tx parents source p in
  pool_ok p' /\
  (r = Ok tt ->
     data (signature tx) <> [] /\ admission_threshold p <= gas_price tx /\ get_balance st (from tx) <> 0 /\
     exists base, txs p' = <[hash tx := set_ready (mempool_tx tx parents now')
                       (forallb (fun h => negb (bool_decide (is_Some (base !! h)))) parents)]> base /\
       base !! hash tx = None /\
       (base = txs p \/ size (txs p) = max_size p /\ exists low m, txs p !! low = Some m /\
          base = delete low (txs p) /\ gas_price (transaction m) < gas_price tx /\
          forall h m', txs p !! h = Some m' -> gas_price (transaction m) <= gas_price (transaction m'))).
Proof.
  intros Hok. unfold add_transaction, mbind, M_bind.
  destruct (check_rate_rates now source p) as (r1 & rates & ->).
  assert (pool_ok (set_rates rates p)) as Hok1 by by destruct Hok.
  destruct r1 as [[]|e]; [|by split].
  pose proof (check_capacity_spec tx (set_rates rates p)) as Hcap.
  destruct (check_capacity tx (set_rates rates p)) as [[[]|e] p2].
  2:{ destruct Hcap as [-> _]. by split. }
  assert (pool_ok p2 /\ (size (txs p2) < max_size p2)%nat /\
    min_gas_price p2 = min_gas_price p /\ admission_threshold p2 = admission_threshold p /\
    (txs p2 = txs p \/ size (txs p) = max_size p /\ exists low m, txs p !! low = Some m /\
          txs p2 = delete low (txs p) /\ gas_price (transaction m) < gas_price tx /\
          forall h m', txs p !! h = Some m' -> gas_price (transaction m) <= gas_price (transaction m')))
    as (Hok2 & Hsz & Hmin & Hthr & Hbase).
  { destruct Hcap as [[Hlt ->]|(Hge & low & m & Hm & -> & Hlt & Hle)].
    - do 4 (split; [done|]). by left.
    - split; [apply pool_ok_shrink; [apply delete_subseteq|done]|]. cbn in Hm, Hge, Hle |- *.
      pose proof (ok_size _ Hok) as Hs. pose proof (map_size_delete_Some low (txs p) ltac:(eauto)) as Hd.
      assert (size (txs p) <> 0%nat) as Hnz.
      { intros Hz. apply map_size_empty_inv in Hz. rewrite Hz, lookup_empty in Hm. done. }
      split; [lia|]. split; [done|]. split; [done|]. right. split; [lia|]. by exists low, m. }
  unfold gets, lift. destruct (check_admission st tx p2) as [[]|e] eqn:Hadm; [|by split].
  apply check_admission_ok in Hadm as (Hsig & Hpr & Hbal & _ & Hnew). rewrite Hthr in Hpr.
  unfold modify. split.
  - apply insert_tx_ok; try done. rewrite Hmin. unfold admission_threshold in Hpr. lia.
  - intros _. split; [done|]. split; [done|]. split; [done|]. exists (txs p2). split; [done|]. by split.
Qed.

(** C28: [add_transaction] keeps the pool well formed whether it accepts or
    rejects; when it accepts, the transaction was signed, pays at least the base
    fee and the minimum price, comes from a funded account and was not in the
    pool, and the pool gains exactly its entry, marked ready when no declared
    parent is in the pool, after losing at most one entry, a cheapest one that
    is cheaper than it. *)
Theorem add_transaction_spec now now' st tx parents source p :
  pool_ok p ->
  let '(r, p') := add_transaction now now' st tx parents source p in
  pool_ok p' /\
  (r = Ok tt ->
     data (signature tx) <> [] /\ admission_threshold p <= gas_price tx /\ get_balance st (from tx) <> 0 /\
     exists base, txs p' = <[hash tx := set_ready (mempool_tx tx parents now')
                       (forallb (fun h => negb (bool_decide (is_Some (base !! h)))) parents)]> base /\
       base !! hash tx = None /\
       (base = txs p \/ size (txs p) = max_size p /\ exists low m, txs p !! low = Some m /\
          base = delete low (txs p) /\ gas_price (transaction m) < gas_price tx /\
          forall h m', txs p !! h = Some m' -> gas_price (transaction m) <= gas_price (transaction m'))).
Proof.
  intros Hok. pose proof (add_transaction_cases now now' st tx parents source p Hok) as Hc.
  destruct (add_transaction now now' st tx parents source p) as [r p']. exact Hc.
Qed.

(** Eviction happens before the checks and is kept when they fail: on a
    full pool a transaction that offers more than the cheapest entry is rejected
    for having no signature, and the cheapest entry is gone all the same. *)
Theorem rejected_transaction_evicts now now' st tx parents p low m :
  pool_ok p -> size (txs p) = max_size p -> txs p !! low = Some m ->
  gas_price (transaction m) < gas_price tx -> data (signature tx) = [] ->
  let '(r, p') := add_transaction now now' st tx parents None p in
  r = err "Transaction must be signed before adding to mempool" /\
  exists h m', txs p !! h = Some m' /\ txs p' = delete h (txs p) /\
    S (size (txs p')) = size (txs p) /\ h ∈ get_sender_pending p' (from (transaction m')).
Proof.
  intros Hok Hfull Hlow Hlt Hunsigned. unfold add_transaction, mbind, M_bind, check_rate.
  pose proof (check_capacity_spec tx p) as Hcap.
  destruct (check_capacity tx p) as [[[]|e] p2].
  - destruct Hcap as [[Hsz _]|(_ & h & m' & Hm' & -> & _ & _)]; [lia|].
    unfold gets, lift, check_admission. rewrite bool_decide_true by done.
    split; [done|]. exists h, m'. cbn [txs set_txs]. split; [done|]. split; [done|]. split.
    + rewrite map_size_delete_Some by eauto.
      assert (size (txs p) <> 0%nat); [|lia].
      intros Hz. apply map_size_empty_inv in Hz. by rewrite Hz, lookup_empty in Hm'.
    + by apply (ok_pending _ Hok).
  - destruct Hcap as (_ & _ & [He|(h & m' & Hm' & Hle & Hmin)]).
    + by rewrite He, lookup_empty in Hlow.
    + pose proof (Hmin low m Hlow). lia.
Qed.

(** ** Dependencies *)

(** One call on the pool; the results are dropped. *)
Inductive pool_op :=
  | AddTx (now now' : Z) (st : StateManager) (tx : Transaction) (parents : list Hash)
          (source : option string)
  | RemoveTx (h : Hash)
  | SetBaseFee (fee : Z).
Definition run_op (p : TxDagMempool) (op : pool_op) : TxDagMempool :=
  match op with
  | AddTx now now' st tx parents source => (add_transaction now now' st tx parents source p).2
  | RemoveTx h => (remove_transaction h p).2
  | SetBaseFee fee => set_base_fee fee p
  end.

(** Removing a transaction updates no other entry. *)
Lemma remove_transaction_txs h p : txs (remove_transaction h p).2 = delete h (txs p).
Proof.
  unfold remove_transaction. destruct (txs p !! h) as [m|] eqn:Hh; cbn [snd].
  - rewrite lookup_delete_eq. done.
  - symmetry. by apply delete_id.
Qed.

Lemma add_transaction_other now now' st tx parents source p c :
  hash tx <> c ->
  txs (add_transaction now now' st tx parents source p).2 !! c = txs p !! c \/
  txs (add_transaction now now' st tx parents source p).2 !! c = None.
Proof.
  intros Hne. unfold add_transaction, mbind, M_bind.
  destruct (check_rate_rates now source p) as (r1 & rates & ->).
  destruct r1 as [[]|e]; [|by left].
  pose proof (check_capacity_spec tx (set_rates rates p)) as Hcap.
  destruct (check_capacity tx (set_rates rates p)) as [[[]|e] p2].
  2:{ destruct Hcap as [-> _]. by left. }
  assert (txs p2 !! c = txs p !! c \/ txs p2 !! c = None) as Hc.
  { destruct Hcap as [[_ ->]|(_ & low & m & _ & -> & _)]; [by left|]. cbn [txs set_txs set_rates].
    rewrite lookup_delete. case_decide; [by right|by left]. }
  unfold gets, lift. destruct (check_admission st tx p2) as [[]|e]; [|done].
  unfold modify, insert_tx. cbn [snd txs set_links set_txs]. by rewrite lookup_insert_ne.
Qed.

(** Removal keeps the pool well formed. *)
Lemma remove_transaction_ok h p : pool_ok p -> pool_ok (remove_transaction h p).2.
Proof.
  intros Hok. unfold remove_transaction. destruct (txs p !! h) as [removed|] eqn:Hh; [|done].
  cbn [snd]. rewrite lookup_delete_eq.
  pose proof (pool_ok_shrink (delete h (txs p)) p (delete_subseteq _ _) Hok) as [? ? ? ? Hq].
  split; cbn [txs set_links set_txs min_gas_price max_size] in *; try done.
  intros h' m Hm. pose proof Hm as [Hne _]%lookup_delete_Some. specialize (Hq h' m Hm).
  unfold get_sender_pending in *. cbn [pending_by_sender set_links set_txs] in *.
  destruct (pending_by_sender p !! from (transaction removed)) as [l|] eqn:Hl; [|done].
  destruct (decide (from (transaction removed) = from (transaction m))) as [Heq|Hd].
  - rewrite Heq, lookup_insert_eq. rewrite <- Heq, Hl in Hq. cbn [default] in *.
    apply list_elem_of_filter. by split.
  - by rewrite lookup_insert_ne.
Qed.

(** Every entry after a submission is an old one or that of the submitted
    transaction. *)
Lemma add_transaction_entries now now' st tx parents source p h m :
  txs (add_transaction now now' st tx parents source p).2 !! h = Some m ->
  txs p !! h = Some m \/
  h = hash tx /\ data (signature tx) <> [] /\
  exists base, m = set_ready (mempool_tx tx parents now') (ready_on_entry base parents).
Proof.
  unfold add_transaction, mbind, M_bind. destruct (check_rate_rates now source p) as (r1 & rates & ->).
  destruct r1 as [[]|e]; [|by left].
  pose proof (check_capacity_spec tx (set_rates rates p)) as Hcap.
  destruct (check_capacity tx (set_rates rates p)) as [[[]|e] p2].
  2:{ destruct Hcap as [-> _]. by left. }
  assert (txs p2 ⊆ txs p) as Hsub.
  { destruct Hcap as [[_ ->]|(_ & low & m' & _ & -> & _)]; [done|]. apply delete_subseteq. }
  assert (forall h' m', txs p2 !! h' = Some m' -> txs p !! h' = Some m') as Hold.
  { intros h' m' Hm'. by eapply lookup_weaken. }
  unfold gets, lift. destruct (check_admission st tx p2) as [[]|e] eqn:Hadm; [|by left; apply Hold].
  apply check_admission_ok in Hadm as (Hsig & _).
  unfold modify, insert_tx. cbn [snd txs set_links set_txs].
  intros [[<- <-]|[_ Hm]]%lookup_insert_Some; [|left; by apply Hold]. right. eauto.
Qed.

(** An entry that was not ready when it was added never becomes ready:
    through any later additions of other transactions, removals (of its parents
    too) and fee changes it stays as it is until it is removed or evicted, so
    [get_ready_transactions] never offers it. *)
Theorem dependents_never_become_ready p c m ops :
  txs p !! c = Some m -> is_ready m = false ->
  Forall (fun op => match op with AddTx _ _ _ tx _ _ => hash tx <> c | _ => True end) ops ->
  let p' := foldl run_op p ops in
  (txs p' !! c = Some m \/ txs p' !! c = None) /\
  forall m', m' ∈ get_ready_transactions p' -> forall h, txs p' !! h = Some m' -> h <> c.
Proof.
  intros Hc Hr Hops. cbv zeta.
  assert (txs (foldl run_op p ops) !! c = Some m \/ txs (foldl run_op p ops) !! c = None) as Hend.
  { assert (txs p !! c = Some m \/ txs p !! c = None) as Hstart by (by left). clear Hc. revert p Hstart.
    induction Hops as [|op ops Hop _ IH]; intros p Hstart; [done|]. cbn [foldl]. apply IH.
    destruct op as [now now' st tx parents source|h|fee]; cbn [run_op].
    - destruct (add_transaction_other now now' st tx parents source p c Hop) as [-> | ->]; [done|by right].
    - rewrite remove_transaction_txs, lookup_delete. case_decide; [by right|done].
    - done. }
  split; [done|]. intros m' [Hm' _]%list_elem_of_filter h Hh ->.
  destruct Hend as [He|He]; rewrite He in Hh; [|done]. injection Hh as <-. congruence.
Qed.
End Mempool.

(** ** Rate limiting *)

(** How many of the visits at the given times pass. *)
Fixpoint passes (nows : list Z) (entry : option (nat * Z)) : nat :=
  match nows with
  | [] => 0
  | now :: nows' =>
      let '(pass, entry') := rate_limit now entry in
      ((if pass then 1 else 0) + passes nows' (Some entry'))%nat
  end.

Lemma rate_limit_in_window now count start :
  is_u64 (start + RATE_LIMIT_WINDOW_SECS) -> now < start + RATE_LIMIT_WINDOW_SECS ->
  rate_limit now (Some (count, start)) =
    if (MAX_TX_PER_SOURCE <=? count)%nat then (false, (count, start)) else (true, (S count, start)).
Proof.
  intros Hu Hnow. unfold rate_limit. simpl default. cbv beta iota.
  rewrite u64_add_small by (unfold is_u64 in Hu; lia). by rewrite (proj2 (Z.leb_gt _ _)) by lia.
Qed.

Lemma passes_bound nows count start :
  is_u64 (start + RATE_LIMIT_WINDOW_SECS) ->
  Forall (fun now => now < start + RATE_LIMIT_WINDOW_SECS) nows ->
  (passes nows (Some (count, start)) = Nat.min (length nows) (MAX_TX_PER_SOURCE - count))%nat.
Proof.
  intros Hu. revert count. induction nows as [|now nows IH]; intros count Hall; [done|].
  apply Forall_cons in Hall as [Hnow Hall]. cbn [passes length]. rewrite rate_limit_in_window by done.
  destruct (Nat.leb_spec MAX_TX_PER_SOURCE count); rewrite IH by done; lia.
Qed.

(** A source that first appears at [start] gets exactly the first 100 of
    its visits through within the window of 60 seconds, however many it makes. *)
Theorem rate_limit_window start nows :
  is_u64 (start + RATE_LIMIT_WINDOW_SECS) ->
  Forall (fun now => now < start + RATE_LIMIT_WINDOW_SECS) nows ->
  passes (start :: nows) None = Nat.min (S (length nows)) MAX_TX_PER_SOURCE.
Proof.
  intros Hu Hall.
  change (passes (start :: nows) None) with (passes (start :: nows) (Some (0%nat, start))).
  rewrite passes_bound; [cbn [length]; lia|done|].
  constructor; [unfold RATE_LIMIT_WINDOW_SECS; lia|done].
Qed.

(** ** Witnesses *)

#[local] Existing Instances checksum_sha checksum_laws toy_secp canonical_order.

Definition priced_tx (price : Z) (sig : Bytes) : Transaction :=
  set_signature (new_transfer (replicate 20 1) (replicate 20 2) 5 0 21000 price)
    {| algorithm := Secp256k1; data := sig |}.
Definition funded : StateManager :=
  put_account (replicate 20 1) (Account_new 1000 0) StateManager.new.
Definition pool1 : TxDagMempool :=
  (add_transaction 0 0 funded (priced_tx 3 [1]) [] None (new 1 1)).2.

Lemma pool1_ok : pool_ok pool1.
Proof.
  pose proof (add_transaction_cases 0 0 funded (priced_tx 3 [1]) [] None (new 1 1) (pool_ok_new 1 1)) as Hs.
  unfold pool1. destruct (add_transaction 0 0 funded (priced_tx 3 [1]) [] None (new 1 1)). apply Hs.
Qed.

Lemma add_transaction_spec_witness :
  (add_transaction 0 0 funded (priced_tx 4 [1]) [] None pool1).1 = Ok tt /\
  pool_ok (add_transaction 0 0 funded (priced_tx 4 [1]) [] None pool1).2.
Proof.
  pose proof (add_transaction_spec 0 0 funded (priced_tx 4 [1]) [] None pool1 pool1_ok) as Hs.
  split; [vm_compute; reflexivity|].
  destruct (add_transaction 0 0 funded (priced_tx 4 [1]) [] None pool1). apply Hs.
Defined.

Lemma rejected_transaction_evicts_witness :
  let '(r, p') := add_transaction 0 0 funded (priced_tx 4 []) [] None pool1 in
  r = err "Transaction must be signed before adding to mempool" /\
  exists h m', txs pool1 !! h = Some m' /\ txs p' = delete h (txs pool1) /\
    S (size (txs p')) = size (txs pool1) /\ h ∈ get_sender_pending p' (from (transaction m')).
Proof.
  apply (rejected_transaction_evicts 0 0 funded (priced_tx 4 []) [] pool1 (hash (priced_tx 3 [1]))
    (set_ready (mempool_tx (priced_tx 3 [1]) [] 0) true));
    [apply pool1_ok|vm_compute; reflexivity|vm_compute; reflexivity|vm_compute; reflexivity|reflexivity].
Defined.

(** A child added while its parent is in the pool, and the parent's removal. *)
Definition pool2 : TxDagMempool :=
  (add_transaction 0 0 funded (priced_tx 4 [1]) [hash (priced_tx 3 [1])] None
    (add_transaction 0 0 funded (priced_tx 3 [1]) [] None (new 5 1)).2).2.

Lemma dependents_never_become_ready_witness :
  let p' := foldl run_op pool2 [RemoveTx (hash (priced_tx 3 [1]))] in
  (txs p' !! hash (priced_tx 4 [1]) =
     Some (set_ready (mempool_tx (priced_tx 4 [1]) [hash (priced_tx 3 [1])] 0) false) \/
   txs p' !! hash (priced_tx 4 [1]) = None) /\
  forall m', m' ∈ get_ready_transactions p' -> forall h, txs p' !! h = Some m' ->
    h <> hash (priced_tx 4 [1]).
Proof.
  apply dependents_never_become_ready; [vm_compute; reflexivity|reflexivity|].
  constructor; [exact I|constructor].
Defined.

Lemma rate_limit_window_witness :
  passes (1000 :: replicate 150 1030) None = Nat.min 151 MAX_TX_PER_SOURCE.
Proof.
  apply (rate_limit_window 1000 (replicate 150 1030));
    [unfold is_u64, RATE_LIMIT_WINDOW_SECS, u64_max; lia|].
  apply Forall_forall. intros x [-> _]%elem_of_replicate. reflexivity.
Defined.

