(* ===== verification/Kv.v ===== *)
(** The key-value database and the serializer the node persists with.

    RocksDB and bincode are crates: they appear as the operations the source
    calls ([KvStore], [Codec]) and, apart, the documented behaviour the
    correctness of the callers relies on ([KvLaws], [CodecLaws]). *)
From S2P Require Import Prelude.

(** ** RocksDB

    [db_iterator] lists the entries in key order, the way
    [DB::iterator(IteratorMode::Start)] yields them; every loop of the source
    gives up at the first item that is an error, so the whole iteration is one
    result. *)
Class KvStore (Db : Type) := {
  db_get : Db -> Bytes -> result (option Bytes);
  db_put : Bytes -> Bytes -> Db -> result unit * Db;
  db_delete : Bytes -> Db -> result unit * Db;
  db_iterator : Db -> result (list (Bytes * Bytes))
}.

(** A database is a finite map: reads see it, a write that succeeds changes one
    key, a write that fails changes none. *)
Class KvLaws (Db : Type) `{KvStore Db} := {
  db_view : Db -> gmap Bytes Bytes;
  db_get_view db k : db_get db k = Ok (db_view db !! k);
  db_put_ok k v db : is_ok (db_put k v db).1 = true ->
    db_view (db_put k v db).2 = <[k := v]> (db_view db);
  db_put_err k v db : is_ok (db_put k v db).1 = false ->
    db_view (db_put k v db).2 = db_view db;
  db_delete_ok k db : is_ok (db_delete k db).1 = true ->
    db_view (db_delete k db).2 = delete k (db_view db);
  db_delete_err k db : is_ok (db_delete k db).1 = false ->
    db_view (db_delete k db).2 = db_view db;
  db_iterator_view db : exists l, db_iterator db = Ok l /\ l ≡ₚ map_to_list (db_view db) /\
    StronglySorted (fun a b => bytes_leb a.1 b.1 = true) l
}.

(** [iterator(IteratorMode::From(from, Direction::Forward))] *)
Definition db_iterator_from {Db} `{KvStore Db} (start : Bytes) (db : Db)
    : result (list (Bytes * Bytes)) :=
  filter (fun kv : Bytes * Bytes => bytes_leb start kv.1 = true) <$> db_iterator db.

(** [key.starts_with(prefix)] *)
Definition starts_with (prefix key : Bytes) : bool :=
  bool_decide (take (length prefix) key = prefix).

(** *** Column families

    A database with named key spaces.  [cf_write] runs a [WriteBatch], which is
    atomic; [cf_handle] tells whether a column family exists. *)
Inductive write_op :=
  | PutCf (cf : string) (key value : Bytes)
  | DeleteCf (cf : string) (key : Bytes).

Class CfStore (Db : Type) := {
  cf_handle : Db -> string -> bool;
  cf_get : Db -> string -> Bytes -> result (option Bytes);
  cf_write : list write_op -> Db -> result unit * Db;
  cf_iterator : Db -> string -> result (list (Bytes * Bytes))
}.

(** [DB::put_cf] is a batch of one. *)
Definition cf_put {Db} `{CfStore Db} (cf : string) (key value : Bytes) : Db -> result unit * Db :=
  cf_write [PutCf cf key value].

Definition apply_op (cf : string) (m : gmap Bytes Bytes) (op : write_op) : gmap Bytes Bytes :=
  match op with
  | PutCf cf' k v => if decide (cf' = cf) then <[k := v]> m else m
  | DeleteCf cf' k => if decide (cf' = cf) then delete k m else m
  end.
Definition apply_ops (cf : string) (ops : list write_op) (m : gmap Bytes Bytes) : gmap Bytes Bytes :=
  foldl (apply_op cf) m ops.

Class CfLaws (Db : Type) `{CfStore Db} := {
  cf_view : Db -> string -> gmap Bytes Bytes;
  cf_get_view db cf k : cf_get db cf k = Ok (cf_view db cf !! k);
  cf_write_ok ops db cf : is_ok (cf_write ops db).1 = true ->
    cf_view (cf_write ops db).2 cf = apply_ops cf ops (cf_view db cf);
  cf_write_err ops db cf : is_ok (cf_write ops db).1 = false ->
    cf_view (cf_write ops db).2 cf = cf_view db cf;
  cf_write_handle ops db cf : cf_handle (cf_write ops db).2 cf = cf_handle db cf;
  cf_iterator_view db cf : exists l, cf_iterator db cf = Ok l /\
    l ≡ₚ map_to_list (cf_view db cf) /\
    StronglySorted (fun a b => bytes_leb a.1 b.1 = true) l
}.

(** ** hex *)

(** [hex::encode(bytes)], as the ASCII bytes of the string. *)
Class Hex := hex_encode : Bytes -> Bytes.
Class HexLaws `{Hex} : Prop := {
  hex_encode_inj a b : Forall is_byte a -> Forall is_byte b -> hex_encode a = hex_encode b -> a = b
}.

(** ** bincode *)
Class Codec (A : Type) := {
  serialize : A -> result Bytes;
  deserialize : Bytes -> result A
}.

(** What was serialized can be read back. *)
Class CodecLaws (A : Type) `{Codec A} : Prop := {
  codec_roundtrip a bs : serialize a = Ok bs -> deserialize bs = Ok a
}.

(** ** Instances

    A database held in memory, and the trivial failure-free serializer of byte
    strings; they make the properties that mention a database executable. *)
Definition MemDb : Type := gmap Bytes Bytes.

#[export] Instance mem_db : KvStore MemDb := {
  db_get db k := Ok (db !! k);
  db_put k v db := (Ok tt, <[k := v]> db);
  db_delete k db := (Ok tt, delete k db);
  db_iterator db := Ok (sort_by (fun a b => bytes_leb a.1 b.1) (map_to_list db))
}.

#[export, refine] Instance mem_db_laws : KvLaws MemDb := { db_view db := db }.
Proof.
  all: try done.
  intros db. eexists. split; [reflexivity|]. split; [apply sort_by_perm|].
  apply sort_by_sorted.
  - intros. apply bytes_leb_total.
  - intros x y z. apply bytes_leb_trans.
Defined.

(** Column families in memory: a database that accepts or refuses writes. *)
Record MemCf := {
  mem_view : string -> gmap Bytes Bytes;
  mem_writable : bool
}.
Definition mem_cf_empty : MemCf := {| mem_view := fun _ => ∅; mem_writable := true |}.

#[export] Instance mem_cf_store : CfStore MemCf := {
  cf_handle db cf := true;
  cf_get db cf k := Ok (mem_view db cf !! k);
  cf_write ops db :=
    if mem_writable db
    then (Ok tt, {| mem_view := fun cf => apply_ops cf ops (mem_view db cf); mem_writable := true |})
    else (err "IO error: read-only database", db);
  cf_iterator db cf := Ok (sort_by (fun a b => bytes_leb a.1 b.1) (map_to_list (mem_view db cf)))
}.

#[export, refine] Instance mem_cf_laws : CfLaws MemCf := { cf_view := mem_view }.
Proof.
  all: try done; cbn [cf_write cf_iterator mem_cf_store].
  - intros ops db cf. by destruct (mem_writable db).
  - intros ops db cf. by destruct (mem_writable db).
  - intros db cf. eexists. split; [reflexivity|]. split; [apply sort_by_perm|].
    apply sort_by_sorted.
    + intros. apply bytes_leb_total.
    + intros x y z. apply bytes_leb_trans.
Defined.

(** Lower-case hexadecimal. *)
Definition hex_digit (d : Z) : Z := if d <? 10 then 48 + d else 87 + d.
Definition hex_byte (b : Z) : Bytes := [hex_digit (b / 16); hex_digit (b mod 16)].
#[export] Instance lower_hex : Hex := fun bs => bs ≫= hex_byte.

Lemma hex_byte_inj a b :
  is_byte a -> is_byte b -> hex_byte a = hex_byte b -> a = b.
Proof.
  unfold is_byte, hex_byte, hex_digit. intros Ha Hb [= H1 H2].
  pose proof (Z.div_mod a 16). pose proof (Z.div_mod b 16).
  pose proof (Z.mod_pos_bound a 16). pose proof (Z.mod_pos_bound b 16).
  assert (0 <= a / 16 < 16) by (split; [apply Z.div_pos; lia|apply Z.div_lt_upper_bound; lia]).
  assert (0 <= b / 16 < 16) by (split; [apply Z.div_pos; lia|apply Z.div_lt_upper_bound; lia]).
  destruct (Z.ltb_spec (a / 16) 10), (Z.ltb_spec (b / 16) 10), (Z.ltb_spec (a mod 16) 10),
    (Z.ltb_spec (b mod 16) 10); lia.
Qed.

#[export] Instance lower_hex_laws : HexLaws.
Proof.
  constructor. unfold hex_encode, lower_hex. induction a as [|x a IH]; intros [|y b] Ha Hb Heq; try done.
  apply Forall_cons in Ha as [Hx Ha]. apply Forall_cons in Hb as [Hy Hb]. cbn in Heq.
  injection Heq as H1 H2 Heq. f_equal; [|by apply IH].
  apply hex_byte_inj; [done..|]. unfold hex_byte. congruence.
Qed.

Section KvFacts.
Context {Db : Type} `{KvLaws Db}.

Lemma elem_of_db_iterator db : exists l, db_iterator db = Ok l /\
  forall k v, (k, v) ∈ l <-> db_view db !! k = Some v.
Proof.
  destruct (db_iterator_view db) as (l & Hl & Hp & _). exists l. split; [done|].
  intros k v. rewrite Hp. apply elem_of_map_to_list.
Qed.

Lemma starts_with_app prefix k : starts_with prefix (prefix ++ k) = true.
Proof. unfold starts_with. by rewrite take_app_length, bool_decide_true. Qed.

Lemma bytes_leb_prefix prefix k : bytes_leb prefix (prefix ++ k) = true.
Proof.
  unfold bytes_leb. induction prefix as [|b p IH]; simpl; [by destruct k|].
  by rewrite Z.compare_refl.
Qed.
End KvFacts.

(** ** Formats

    Serializers for the evaluations, built from combinators that carry their
    round trip: reading back what was written leaves the rest of the input. *)
Record format (A : Type) := {
  fmt_put : A -> Bytes;
  fmt_get : Bytes -> option (A * Bytes);
  fmt_get_put : forall a rest, fmt_get (fmt_put a ++ rest) = Some (a, rest)
}.
Arguments fmt_put {A} _ _.
Arguments fmt_get {A} _ _.
Arguments fmt_get_put {A} _ _ _.

Definition get_Z (bs : Bytes) : option (Z * Bytes) :=
  match bs with z :: rest => Some (z, rest) | [] => None end.
Definition fmt_Z : format Z :=
  {| fmt_put z := [z]; fmt_get := get_Z; fmt_get_put a rest := eq_refl |}.

Section Combinators.
Context {A B : Type} (fa : format A) (fb : format B).

Definition put_pair (p : A * B) : Bytes := fmt_put fa p.1 ++ fmt_put fb p.2.
Definition get_pair (bs : Bytes) : option ((A * B) * Bytes) :=
  '(a, bs) ← fmt_get fa bs; '(b, bs) ← fmt_get fb bs; Some ((a, b), bs).
Lemma get_put_pair p rest : get_pair (put_pair p ++ rest) = Some (p, rest).
Proof.
  destruct p as [a b]. unfold get_pair, put_pair. cbn [fst snd]. rewrite <- app_assoc, fmt_get_put.
  cbn. by rewrite fmt_get_put.
Qed.
Definition fmt_pair : format (A * B) :=
  {| fmt_put := put_pair; fmt_get := get_pair; fmt_get_put := get_put_pair |}.

Fixpoint get_many (n : nat) (bs : Bytes) : option (list A * Bytes) :=
  match n with
  | O => Some ([], bs)
  | S n' => '(a, bs) ← fmt_get fa bs; '(l, bs) ← get_many n' bs; Some (a :: l, bs)
  end.
Definition put_list (l : list A) : Bytes := Z.of_nat (length l) :: concat (fmt_put fa <$> l).
Definition get_list (bs : Bytes) : option (list A * Bytes) :=
  '(n, bs) ← get_Z bs; get_many (Z.to_nat n) bs.
Lemma get_put_list l rest : get_list (put_list l ++ rest) = Some (l, rest).
Proof.
  unfold get_list, put_list. cbn. rewrite Nat2Z.id.
  induction l as [|a l IH]; [done|]. cbn. rewrite <- app_assoc, fmt_get_put. cbn. by rewrite IH.
Qed.
Definition fmt_list : format (list A) :=
  {| fmt_put := put_list; fmt_get := get_list; fmt_get_put := get_put_list |}.

(** A format for [B] from one for [A] and a section of [B] into [A]. *)
Section Map.
Context (lower : B -> A) (raise : A -> option B) (raise_lower : forall b, raise (lower b) = Some b).
Definition get_map (bs : Bytes) : option (B * Bytes) :=
  '(a, bs) ← fmt_get fa bs; b ← raise a; Some (b, bs).
Lemma get_put_map b rest : get_map (fmt_put fa (lower b) ++ rest) = Some (b, rest).
Proof. unfold get_map. rewrite fmt_get_put. cbn. by rewrite raise_lower. Qed.
Definition fmt_map : format B :=
  {| fmt_put b := fmt_put fa (lower b); fmt_get := get_map; fmt_get_put := get_put_map |}.
End Map.
End Combinators.

Definition fmt_codec {A} (f : format A) : Codec A := {|
  serialize a := Ok (fmt_put f a);
  deserialize bs := match fmt_get f bs with Some (a, _) => Ok a | None => err "unexpected end of file" end
|}.

Lemma fmt_codec_laws {A} (f : format A) : @CodecLaws A (fmt_codec f).
Proof.
  constructor. intros a bs [= <-]. cbn. rewrite <- (app_nil_r (fmt_put f a)). by rewrite fmt_get_put.
Qed.

Definition fmt_bytes : format Bytes := fmt_list fmt_Z.
