(* ===== verification/Wasm.v ===== *)
(** Contract execution: [src/src/vm/gas_meter.rs], [src/src/vm/host_functions.rs]
    and [src/src/vm/wasm_runtime.rs].

    wasmtime is an interface.  What it executes is known to the source only
    through the host functions the guest calls, so the behaviour of a guest is
    a tree of host calls ([guest]); the host side of every call, the gas meter
    and the way the runtime drives a guest are the code of the source.

    [None] is a panic of the node, [Some (Err e)] an error it returns. *)
From S2P Require Import Prelude.

(** A computation that may panic, may fail, and changes a state. *)
Definition P (S A : Type) : Type := S -> option (result A * S).

#[global] Instance P_ret {S} : MRet (P S) := fun A a s => Some (Ok a, s).
#[global] Instance P_bind {S} : MBind (P S) := fun A B f m s =>
  match m s with
  | Some (Ok a, s') => f a s'
  | Some (Err e, s') => Some (Err e, s')
  | None => None
  end.

(** ** vm/gas_meter.rs *)

Record GasMeter := {
  limit : Z;
  used : Z
}.

Definition GasMeter_new (limit : Z) : GasMeter := {| limit := limit; used := 0 |}.

Definition charge (amount : Z) (m : GasMeter) : result unit * GasMeter :=
  if limit m <? u64_add (used m) amount then (err "Out of gas", m)
  else (Ok tt, {| limit := limit m; used := u64_add (used m) amount |}).

(** ** The [Storage] trait and [RuntimeState] of wasm_runtime.rs

    A write returns [None] when the store behind it panics. *)
Class Storage (T : Type) := {
  read : T -> Bytes -> option Bytes;
  write : Bytes -> Bytes -> T -> option T
}.

Record RuntimeState (T : Type) := {
  contract_address : Address;
  caller : Address;
  block_height : Z;
  timestamp : Z;
  storage : T;
  gas_meter : GasMeter
}.
Arguments contract_address {T} _.
Arguments caller {T} _.
Arguments block_height {T} _.
Arguments timestamp {T} _.
Arguments storage {T} _.
Arguments gas_meter {T} _.

(** ** vm/host_functions.rs *)

Inductive host_call :=
  | Storage_read (key_ptr key_len out_ptr : Z)
  | Storage_write (key_ptr key_len val_ptr val_len : Z)
  | Get_caller (ptr : Z)
  | Get_block_height
  | Get_timestamp.

(** [x as usize] of an [i32] sign-extends; [x as i64] truncates. *)
Definition as_usize (i : Z) : Z := u64_wrap i.
Definition as_i64 (z : Z) : Z :=
  (z + 9223372036854775808) mod 18446744073709551616 - 9223372036854775808.

(** [&data[start..end]] and [data[start..end].copy_from_slice(bytes)]: both panic
    unless [start <= end <= data.len()]. *)
Definition len (data : Bytes) : Z := Z.of_nat (length data).
Definition in_range (data : Bytes) (start end_ : Z) : bool :=
  (start <=? end_) && (end_ <=? len data).
Definition slice (data : Bytes) (start end_ : Z) : option Bytes :=
  if in_range data start end_
  then Some (take (Z.to_nat (end_ - start)) (drop (Z.to_nat start) data)) else None.
Definition copy_from_slice (data : Bytes) (start end_ : Z) (bytes : Bytes) : option Bytes :=
  if in_range data start end_
  then Some (take (Z.to_nat start) data ++ bytes ++ drop (Z.to_nat end_) data) else None.

Definition memory_out_of_bounds {A} : result A := err "memory out of bounds".

Section Host.
Context {T : Type} `{Storage T}.

(** The result of a host function: the returned number, the guest memory and
    the store data. *)
Definition host_result : Type := option (result (Z * option Bytes) * RuntimeState T).

Definition set_gas_meter (g : GasMeter) (st : RuntimeState T) : RuntimeState T :=
  {| contract_address := contract_address st; caller := caller st;
     block_height := block_height st; timestamp := timestamp st;
     storage := storage st; gas_meter := g |}.
Definition set_storage (s : T) (st : RuntimeState T) : RuntimeState T :=
  {| contract_address := contract_address st; caller := caller st;
     block_height := block_height st; timestamp := timestamp st;
     storage := s; gas_meter := gas_meter st |}.

(** [caller.data_mut().gas_meter.charge(amount).map_err(..)?] then the rest. *)
Definition charged (amount : Z) (k : RuntimeState T -> host_result) (st : RuntimeState T)
    : host_result :=
  match charge amount (gas_meter st) with
  | (Err _, g) => Some (memory_out_of_bounds, set_gas_meter g st)
  | (Ok _, g) => k (set_gas_meter g st)
  end.

(** [caller.get_export("memory")..ok_or(Trap::MemoryOutOfBounds)?] *)
Definition with_memory (memory : option Bytes) (st : RuntimeState T)
    (k : Bytes -> host_result) : host_result :=
  match memory with None => Some (memory_out_of_bounds, st) | Some data => k data end.

Definition storage_read (key_ptr key_len out_ptr : Z) (memory : option Bytes)
    : RuntimeState T -> host_result :=
  charged 10 (fun st => with_memory memory st (fun data =>
    let start := as_usize key_ptr in
    let end_ := u64_add start (as_usize key_len) in
    if len data <? end_ then Some (memory_out_of_bounds, st)
    else
      match slice data start end_ with
      | None => None
      | Some key =>
          let bytes := default [] (read (storage st) key) in
          let out := as_usize out_ptr in
          let out_end := u64_add out (len bytes) in
          if len data <? out_end then Some (memory_out_of_bounds, st)
          else
            match copy_from_slice data out out_end bytes with
            | None => None
            | Some data' => Some (Ok (as_i32 (len bytes), Some data'), st)
            end
      end)).

Definition storage_write (key_ptr key_len val_ptr val_len : Z) (memory : option Bytes)
    : RuntimeState T -> host_result :=
  charged 20 (fun st => with_memory memory st (fun data =>
    let kstart := as_usize key_ptr in
    let kend := u64_add kstart (as_usize key_len) in
    let vstart := as_usize val_ptr in
    let vend := u64_add vstart (as_usize val_len) in
    if (len data <? kend) || (len data <? vend) then Some (memory_out_of_bounds, st)
    else
      match slice data kstart kend, slice data vstart vend with
      | Some key, Some val =>
          match write key val (storage st) with
          | None => None
          | Some s => Some (Ok (0, Some data), set_storage s st)
          end
      | _, _ => None
      end)).

Definition get_caller (ptr : Z) (memory : option Bytes) : RuntimeState T -> host_result :=
  charged 1 (fun st => with_memory memory st (fun data =>
    let ptrusize := as_usize ptr in
    let end_ := u64_add ptrusize 20 in
    if len data <? end_ then Some (memory_out_of_bounds, st)
    else
      match copy_from_slice data ptrusize end_ (caller st) with
      | None => None
      | Some data' => Some (Ok (0, Some data'), st)
      end)).

Definition get_block_height (memory : option Bytes) : RuntimeState T -> host_result :=
  charged 1 (fun st => Some (Ok (as_i64 (block_height st), memory), st)).

Definition get_timestamp (memory : option Bytes) : RuntimeState T -> host_result :=
  charged 1 (fun st => Some (Ok (as_i64 (timestamp st), memory), st)).

(** [register_host_functions]: the table the linker dispatches with. *)
Definition register_host_functions (c : host_call) : option Bytes -> RuntimeState T -> host_result :=
  match c with
  | Storage_read k l o => storage_read k l o
  | Storage_write k l v w => storage_write k l v w
  | Get_caller p => get_caller p
  | Get_block_height => get_block_height
  | Get_timestamp => get_timestamp
  end.
End Host.
Arguments host_result T : clear implicits.

(** ** wasmtime

    A guest either returns, traps, or calls a host function with the contents
    of its exported memory, and goes on with the number returned and the memory
    the host left. *)
Inductive guest (A : Type) : Type :=
  | Return (a : A)
  | Trap (e : error)
  | HostCall (c : host_call) (memory : option Bytes) (k : Z -> option Bytes -> guest A).
Arguments Return {A} _.
Arguments Trap {A} _.
Arguments HostCall {A} _ _ _.

Class Wasmtime := {
  WasmModule : Type;
  Instance_ : Type;
  Func : Type;
  Module_new : Bytes -> result WasmModule;
  (** the first argument is the callback of the store's resource limiter *)
  linker_instantiate : (Z -> bool) -> WasmModule -> guest Instance_;
  get_func : Instance_ -> Bytes -> option Func;
  results_len : Func -> nat;
  func_call : (Z -> bool) -> Func -> list Z -> nat -> guest unit
}.

(** Driving a guest: a host function that fails ends it, a panic of a host
    function is a panic of the node. *)
Fixpoint run_guest {T} `{Storage T} {A} (g : guest A) : P (RuntimeState T) A :=
  match g with
  | Return a => fun st => Some (Ok a, st)
  | Trap e => fun st => Some (Err e, st)
  | HostCall c memory k => fun st =>
      match register_host_functions c memory st with
      | None => None
      | Some (Err e, st') => Some (Err e, st')
      | Some (Ok (r, memory'), st') => run_guest (k r memory') st'
      end
  end.

(** ** vm/wasm_runtime.rs *)

Definition max_pages : Z := 16.
(** [MemoryLimiter::memory_growing]; [table_growing] always allows. *)
Definition memory_growing (desired : Z) : bool := desired <=? max_pages.

(** The limit is compared with a size in bytes: one page of 64 KiB is refused. *)
Example memory_growing_one_page : memory_growing 65536 = false.
Proof. reflexivity. Qed.

Section Runtime.
Context {T : Type} `{Storage T} `{Wasmtime}.

Definition instantiate_contract (bytecode : Bytes) (gas_limit : Z)
    : P (RuntimeState T) Instance_ := fun st =>
  let st := set_gas_meter (GasMeter_new gas_limit) st in
  match Module_new bytecode with
  | Err e => Some (Err e, st)
  | Ok m => run_guest (linker_instantiate memory_growing m) st
  end.

Definition call_function (instance : Instance_) (func_name : Bytes) (args : list Z)
    : P (RuntimeState T) unit :=
  match get_func instance func_name with
  | None => fun st => Some (errorf "function {} not found" [ArgHex func_name], st)
  | Some func => run_guest (func_call memory_growing func args (results_len func))
  end.
End Runtime.

(** ** Gas *)

Definition gas_ok (m : GasMeter) : Prop := 0 <= used m <= limit m /\ limit m <= u64_max.

Definition host_price (c : host_call) : Z :=
  match c with Storage_read _ _ _ => 10 | Storage_write _ _ _ _ => 20 | _ => 1 end.

Lemma host_price_range c : 1 <= host_price c <= 20.
Proof. destruct c; simpl; lia. Qed.

Lemma charge_ok amount m :
  gas_ok m ->
  gas_ok (charge amount m).2 /\ limit (charge amount m).2 = limit m /\
  (is_ok (charge amount m).1 = false -> (charge amount m).2 = m).
Proof.
  unfold gas_ok, charge. intros [Hu Hl].
  pose proof (u64_wrap_range (used m + amount)) as Hw. fold (u64_add (used m) amount) in Hw.
  destruct (Z.ltb_spec (limit m) (u64_add (used m) amount)); cbn; [done|].
  unfold is_u64 in Hw. split; [lia|done].
Qed.

Lemma charge_exact amount m :
  gas_ok m -> 0 <= amount <= 20 -> limit m <= u64_max - 20 ->
  charge amount m =
    if used m + amount <=? limit m
    then (Ok tt, {| limit := limit m; used := used m + amount |}) else (err "Out of gas", m).
Proof.
  unfold gas_ok, charge. intros [Hu Hl] Ha Hm. rewrite u64_add_small by lia.
  destruct (Z.ltb_spec (limit m) (used m + amount)), (Z.leb_spec (used m + amount) (limit m));
    done || lia.
Qed.

(** What no host call changes of the store data. *)
Definition same_context {T} (st st' : RuntimeState T) : Prop :=
  contract_address st' = contract_address st /\ caller st' = caller st /\
  block_height st' = block_height st /\ timestamp st' = timestamp st /\
  limit (gas_meter st') = limit (gas_meter st).

Section HostFacts.
Context {T : Type} `{Storage T}.
Implicit Types st : RuntimeState T.

(** Every host function is [charged] at its price and then leaves the meter
    alone. *)
Definition keeps_meter (k : RuntimeState T -> host_result T) : Prop :=
  forall st r st', k st = Some (r, st') ->
    gas_meter st' = gas_meter st /\ same_context st st'.

Lemma same_context_refl st : same_context st st.
Proof. done. Qed.
Lemma same_context_trans st1 st2 st3 :
  same_context st1 st2 -> same_context st2 st3 -> same_context st1 st3.
Proof. intros (?&?&?&?&?) (?&?&?&?&?). repeat split; congruence. Qed.

Lemma register_charged c memory : exists k,
  register_host_functions c memory = charged (host_price c) k /\ keeps_meter k.
Proof.
  destruct c; (eexists; split; [reflexivity|]); intros st r st'; unfold with_memory;
    destruct memory; intros Hk; repeat case_match; simplify_eq; done || idtac.
Qed.

(** The meter after a host call: the price when the call is served, nothing
    when it is refused. *)
Lemma host_call_gas c memory st r st' :
  register_host_functions c memory st = Some (r, st') -> gas_ok (gas_meter st) ->
  gas_ok (gas_meter st') /\ same_context st st' /\
  gas_meter st' = (charge (host_price c) (gas_meter st)).2 /\
  (is_ok r = true -> is_ok (charge (host_price c) (gas_meter st)).1 = true).
Proof.
  destruct (register_charged c memory) as (k & -> & Hk). unfold charged. intros Hr Hok.
  pose proof (charge_ok (host_price c) _ Hok) as (Hg & Hl & _).
  destruct (charge (host_price c) (gas_meter st)) as [[[]|e] g]; cbn [fst snd] in *.
  - apply Hk in Hr as [Hm Hc]. cbn [gas_meter set_gas_meter] in Hm. rewrite Hm.
    destruct Hc as (?&?&?&?&?). cbn [limit] in *. split; [done|]. split; [|by split].
    repeat split; cbn in *; congruence.
  - simplify_eq. cbn [gas_meter set_gas_meter]. split; [done|]. split; [by repeat split|].
    split; [done|]. unfold memory_out_of_bounds. cbn. congruence.
Qed.

Lemma run_guest_context {A} (g : guest A) st r st' :
  run_guest g st = Some (r, st') -> gas_ok (gas_meter st) ->
  gas_ok (gas_meter st') /\ same_context st st'.
Proof.
  revert st. induction g as [a|e|c memory k IH]; cbn [run_guest]; intros st Hr Hok;
    [by simplify_eq..|].
  destruct (register_host_functions c memory st) as [[[[x m]|e] st1]|] eqn:Hc; [| |done].
  - apply host_call_gas in Hc as (Hok1 & Hc1 & _); [|done].
    apply IH in Hr as [Hok2 Hc2]; [|done]. eauto using same_context_trans.
  - simplify_eq. apply host_call_gas in Hc as (Hok1 & Hc1 & _); done.
Qed.

(** The host calls a guest pays for, in order. *)
Fixpoint served {A} (g : guest A) (st : RuntimeState T) : list host_call :=
  match g with
  | HostCall c memory k =>
      if is_ok (charge (host_price c) (gas_meter st)).1 then
        c :: match register_host_functions c memory st with
             | Some (Ok (r, memory'), st') => served (k r memory') st'
             | _ => []
             end
      else []
  | _ => []
  end.

Definition total_price (cs : list host_call) : Z := foldr (fun c s => host_price c + s) 0 cs.

Lemma total_price_length cs : Z.of_nat (length cs) <= total_price cs.
Proof.
  induction cs as [|c cs IH]; [done|]. cbn [total_price foldr length].
  fold (total_price cs). pose proof (host_price_range c). lia.
Qed.

(** C27: gas accounting. A guest started on a fresh meter and run to its end,
    successfully or not, has been charged exactly the prices of the host calls
    served to it; the charge never exceeds the gas limit, which therefore also
    bounds the number of host calls; and nothing it does changes who called it,
    the contract address or the limit. *)
Theorem run_guest_gas {A} (g : guest A) st r st' :
  run_guest g st = Some (r, st') -> gas_ok (gas_meter st) ->
  limit (gas_meter st) <= u64_max - 20 ->
  used (gas_meter st') = used (gas_meter st) + total_price (served g st) /\
  used (gas_meter st') <= limit (gas_meter st) /\
  used (gas_meter st) + Z.of_nat (length (served g st)) <= limit (gas_meter st) /\
  same_context st st'.
Proof.
  intros Hr Hok Hl.
  destruct (run_guest_context g st r st' Hr Hok) as [Hok' Hc].
  assert (limit (gas_meter st') = limit (gas_meter st)) as Hl' by apply Hc.
  assert (used (gas_meter st') = used (gas_meter st) + total_price (served g st)) as Hu.
  { clear Hok' Hc Hl'. revert st Hr Hok Hl.
    induction g as [a|e|c memory k IH]; cbn [run_guest served]; intros st Hr Hok Hl;
      [simplify_eq; cbn; lia..|].
    pose proof (host_price_range c) as Hp.
    destruct (register_host_functions c memory st) as [[[[x m]|e] st1]|] eqn:Hcall; [| |done];
      (apply host_call_gas in Hcall as (Hok1 & Hc1 & Hg1 & Hs1); [|done]);
      rewrite charge_exact in Hg1 by (done || lia);
      rewrite charge_exact in Hs1 |- * by (done || lia);
      destruct (_ <=? _); cbn [fst snd is_ok err errorf] in *.
    - assert (limit (gas_meter st1) = limit (gas_meter st)) as Hl1 by apply Hc1.
      rewrite (IH x m st1 Hr Hok1) by lia. rewrite Hg1. cbn. unfold total_price. lia.
    - discriminate (Hs1 eq_refl).
    - injection Hr as _ <-. rewrite Hg1. cbn. lia.
    - injection Hr as _ <-. rewrite Hg1. cbn. lia. }
  pose proof (total_price_length (served g st)) as Hn. unfold gas_ok in Hok'.
  rewrite Hu in *. split; [done|]. split; [lia|]. split; [lia|done].
Qed.
End HostFacts.

(** ** Guest memory *)

(** A store in which a write shows up at its key and nowhere else. *)
Class StorageLaws (T : Type) `{Storage T} : Prop := {
  read_write k v s s' k' : write k v s = Some s' ->
    read s' k' = if decide (k' = k) then Some v else read s k'
}.

Section Memory.
Context {T : Type} `{Storage T}.
Implicit Types st : RuntimeState T.

Lemma as_usize_small z : 0 <= z <= u64_max -> as_usize z = z.
Proof. intros. unfold as_usize, u64_wrap. apply Z.mod_small. machine. Qed.

Lemma as_usize_negative z : - 2147483648 <= z < 0 -> as_usize z = z + 18446744073709551616.
Proof.
  intros. unfold as_usize, u64_wrap.
  replace z with (z + 18446744073709551616 + (-1) * 18446744073709551616) at 1 by lia.
  rewrite Z.mod_add by lia. apply Z.mod_small. lia.
Qed.

Lemma slice_app (pre mid post : Bytes) :
  slice (pre ++ mid ++ post) (len pre) (len pre + len mid) = Some mid.
Proof.
  unfold slice, in_range, len. rewrite !length_app.
  rewrite (proj2 (Z.leb_le _ _)), (proj2 (Z.leb_le _ _)) by lia. cbn.
  replace (Z.to_nat _) with (length mid) by lia. rewrite Nat2Z.id.
  by rewrite drop_app_length, take_app_length.
Qed.

(** A guest can bring the node down. Whatever the contents of its
    memory, a [storage_read] with a negative key length (an [i32] cast to
    [usize]) passes the bounds check, because the end of the range wraps around,
    and then slices backwards: the host function panics instead of trapping. *)
Theorem storage_read_panics st data key_ptr key_len out_ptr :
  is_ok (charge 10 (gas_meter st)).1 = true ->
  - 2147483648 <= key_len < 0 -> 0 <= key_ptr + key_len -> key_ptr <= 2147483647 ->
  key_ptr + key_len <= len data ->
  storage_read key_ptr key_len out_ptr (Some data) st = None.
Proof.
  intros Hg Hk Hs Hp Hd. unfold storage_read, charged.
  destruct (charge 10 _) as [[[]|e] g]; [|done]. cbn [with_memory].
  rewrite as_usize_small, as_usize_negative by machine.
  assert (u64_add key_ptr (key_len + 18446744073709551616) = key_ptr + key_len) as ->.
  { unfold u64_add, u64_wrap.
    replace (key_ptr + (key_len + 18446744073709551616))
      with (key_ptr + key_len + 1 * 18446744073709551616) by lia.
    rewrite Z.mod_add by lia. apply Z.mod_small. lia. }
  rewrite (proj2 (Z.ltb_ge _ _)) by lia. unfold slice, in_range.
  by rewrite (proj2 (Z.leb_gt _ _)) by lia.
Qed.

(** A key and a value laid out in a guest memory. *)
Definition laid_out (data : Bytes) (ptr : Z) (bytes : Bytes) : Prop :=
  exists pre post, data = pre ++ bytes ++ post /\ len pre = ptr.

Lemma laid_out_range data ptr bytes :
  laid_out data ptr bytes -> len data <= 2147483647 ->
  u64_add (as_usize ptr) (as_usize (len bytes)) = ptr + len bytes /\
  (len data <? ptr + len bytes) = false /\
  slice data (as_usize ptr) (ptr + len bytes) = Some bytes.
Proof.
  intros (pre & post & -> & <-) Hl.
  assert (len pre + len bytes <= len (pre ++ bytes ++ post)) as Hle
    by (unfold len; rewrite !length_app; lia).
  assert (0 <= len pre /\ 0 <= len bytes) as [? ?] by (unfold len; lia).
  rewrite !as_usize_small by machine. rewrite u64_add_small by machine.
  rewrite (proj2 (Z.ltb_ge _ _)) by lia. by rewrite slice_app.
Qed.

(** What a guest writes is read back, by whoever asks. After a
    [storage_write] of a value under a key, both laid out in the guest's memory,
    that the meter and the store accept, a [storage_read] of the same key bytes by
    any guest over the same store, whichever contract it runs as, into a buffer
    that is large enough returns the length of the value and copies the value, and
    only it, into the buffer: contracts share one key space. *)
Theorem storage_write_read `{!StorageLaws T} st st1 st2 data data2 kp kp2 vp out key value m :
  len data <= 2147483647 -> laid_out data kp key -> laid_out data vp value ->
  storage_write kp (len key) vp (len value) (Some data) st = Some (Ok (0, m), st1) ->
  storage st2 = storage st1 -> is_ok (charge 10 (gas_meter st2)).1 = true ->
  len data2 <= 2147483647 -> laid_out data2 kp2 key ->
  0 <= out -> out + len value <= len data2 ->
  exists st3, storage_read kp2 (len key) out (Some data2) st2 =
    Some (Ok (len value,
      Some (take (Z.to_nat out) data2 ++ value ++ drop (Z.to_nat (out + len value)) data2)), st3)
    /\ storage st3 = storage st1.
Proof.
  intros Hd Hk Hv Hw Hst Hg Hd2 Hk2 Ho Hol. unfold storage_write, charged in Hw.
  destruct (charge 20 (gas_meter st)) as [[[]|e] g]; [|done]. cbn [with_memory] in Hw.
  destruct (laid_out_range _ _ _ Hk Hd) as (Ek & Ck & Sk).
  destruct (laid_out_range _ _ _ Hv Hd) as (Ev & Cv & Sv).
  destruct (laid_out_range _ _ _ Hk2 Hd2) as (Ek2 & Ck2 & Sk2).
  rewrite Ek, Ev, Ck, Cv, Sk, Sv in Hw. cbn [orb] in Hw.
  destruct (write key value (storage (set_gas_meter g st))) as [s|] eqn:Hs; [|done].
  injection Hw as _ <-. cbn [storage set_storage] in Hst |- *.
  unfold storage_read, charged. destruct (charge 10 _) as [[[]|e] g2]; [|done].
  cbn [with_memory]. rewrite Ek2, Ck2, Sk2. cbn [storage set_gas_meter].
  rewrite Hst, (read_write _ _ _ _ key Hs), decide_True by done. cbn [default id].
  assert (0 <= len value) as Hnn by (unfold len; lia).
  rewrite (as_usize_small out) by machine. rewrite u64_add_small by machine.
  rewrite (proj2 (Z.ltb_ge _ _)) by lia. unfold copy_from_slice, in_range.
  rewrite (proj2 (Z.leb_le _ _)), (proj2 (Z.leb_le _ _)) by lia. cbn [andb].
  assert (as_i32 (len value) = len value) as ->.
  { unfold as_i32. rewrite Z.mod_small by lia. lia. }
  eexists. split; [reflexivity|done].
Qed.
End Memory.

(** ** Witnesses

    A store of byte strings on which writes never panic, and an engine whose
    modules read and write one fixed location. *)
#[export] Instance gmap_storage : Storage (gmap Bytes Bytes) := {
  read s k := s !! k;
  write k v s := Some (<[k := v]> s)
}.

#[export] Instance gmap_storage_laws : StorageLaws (gmap Bytes Bytes).
Proof.
  constructor. intros k v s s' k' [= <-]. cbn [read gmap_storage].
  rewrite lookup_insert. repeat case_decide; congruence.
Qed.

Definition sample_runtime (gas_limit : Z) : RuntimeState (gmap Bytes Bytes) :=
  {| contract_address := replicate 20 9; caller := replicate 20 2; block_height := 0;
     timestamp := 0; storage := ∅; gas_meter := GasMeter_new gas_limit |}.

(** Writes the two bytes at 4 under the key of three bytes at 0, and reads them back. *)
Definition sample_memory : Bytes := [97; 98; 99; 0; 5; 6; 0; 0].
Definition sample_guest : guest unit :=
  HostCall (Storage_write 0 3 4 2) (Some sample_memory) (fun _ m =>
    HostCall (Storage_read 0 3 6) m (fun _ _ => HostCall Get_block_height None (fun _ _ => Return tt))).

Definition run_result {T A} (o : option (result A * RuntimeState T)) (d : RuntimeState T)
    : RuntimeState T := match o with Some (_, st) => st | None => d end.

Lemma run_guest_gas_witness :
  let st := sample_runtime 25 in let st' := run_result (run_guest sample_guest st) st in
  used (gas_meter st') = used (gas_meter st) + total_price (served sample_guest st) /\
  used (gas_meter st') <= limit (gas_meter st) /\
  used (gas_meter st) + Z.of_nat (length (served sample_guest st)) <= limit (gas_meter st) /\
  same_context st st'.
Proof.
  apply (run_guest_gas sample_guest (sample_runtime 25) memory_out_of_bounds).
  - vm_compute. reflexivity.
  - unfold gas_ok, u64_max. cbn. lia.
  - unfold u64_max. cbn. lia.
Defined.

Lemma storage_read_panics_witness :
  storage_read 5 (-2) 0 (Some sample_memory) (sample_runtime 100) = None.
Proof. apply storage_read_panics; vm_compute; done. Defined.

(** Another contract, with its own memory, reads what the first one wrote. *)
Lemma storage_write_read_witness :
  let st1 := run_result (storage_write 0 3 4 2 (Some sample_memory) (sample_runtime 100))
               (sample_runtime 0) in
  let st2 := {| contract_address := replicate 20 8; caller := replicate 20 3;
                block_height := 0; timestamp := 0; storage := storage st1;
                gas_meter := GasMeter_new 10 |} in
  exists st3, storage_read 1 3 0 (Some [0; 97; 98; 99]) st2 =
    Some (Ok (2, Some [5; 6; 98; 99]), st3) /\ storage st3 = storage st1.
Proof.
  eapply (storage_write_read (sample_runtime 100) _ _ sample_memory [0; 97; 98; 99]
            0 1 4 0 [97; 98; 99] [5; 6]).
  - vm_compute. done.
  - exists [], [0; 5; 6; 0; 0]. done.
  - exists [97; 98; 99; 0], [0; 0]. done.
  - vm_compute. reflexivity.
  - reflexivity.
  - vm_compute. reflexivity.
  - vm_compute. done.
  - exists [0], []. done.
  - lia.
  - vm_compute. done.
Defined.
