(* ===== verification/Contracts.v ===== *)
(** Contract state: [src/src/contracts/contract_storage.rs] and
    [src/src/contracts/contract_registry.rs].

    Both are wrappers of a database; opening one is not modelled. *)
From S2P Require Import Prelude Kv Wasm.

(** ** contracts/contract_storage.rs *)

Record ContractStorage (Db : Type) := { storage_db : Db }.
Arguments storage_db {Db} _.
Arguments Build_ContractStorage {Db} _.

Section ContractStorage.
Context {Db : Type} `{KvStore Db}.

(** A read error reads as an absent key; a write error panics ([unwrap]). *)
Definition storage_get (s : ContractStorage Db) (key : Bytes) : option Bytes :=
  match db_get (storage_db s) key with Ok (Some v) => Some v | _ => None end.
Definition storage_put (key value : Bytes) (s : ContractStorage Db) : option (ContractStorage Db) :=
  match db_put key value (storage_db s) with
  | (Ok _, db) => Some {| storage_db := db |}
  | (Err _, _) => None
  end.

Definition make_key (contract : Address) (key : Bytes) : Bytes := contract ++ key.

Definition initialize_contract (_address : Address) : P (ContractStorage Db) unit := mret tt.
End ContractStorage.

#[export] Instance contract_storage `{KvStore Db} : Storage (ContractStorage Db) := {
  read := storage_get;
  write := storage_put
}.

#[export] Instance contract_storage_laws `{KvLaws Db} : StorageLaws (ContractStorage Db).
Proof.
  constructor. intros k v [db] s' k' Hw. cbn in *. unfold storage_put, storage_get in *.
  cbn [storage_db] in *. pose proof (db_put_ok k v db) as Hok.
  destruct (db_put k v db) as [[[]|e] db']; [|done]. injection Hw as <-. cbn [storage_db fst snd] in *.
  rewrite !db_get_view, Hok, lookup_insert by done. repeat case_decide; congruence.
Qed.

(** ** contracts/contract_registry.rs *)

Record ContractInfo := {
  address : Address;
  bytecode : Bytes;
  metadata : Bytes
}.

Record ContractRegistry (Db : Type) := { registry_db : Db }.
Arguments registry_db {Db} _.
Arguments Build_ContractRegistry {Db} _.

(** The ASCII bytes of "contract:". *)
Definition contract_prefix : Bytes := [99; 111; 110; 116; 114; 97; 99; 116; 58].
Definition make_registry_key (address : Address) : Bytes := contract_prefix ++ address.

Section ContractRegistry.
Context {Db : Type} `{KvStore Db} `{Codec ContractInfo}.
Implicit Types r : ContractRegistry Db.

Definition get_contract (address : Address) r : option ContractInfo :=
  match db_get (registry_db r) (make_registry_key address) with
  | Ok (Some data) =>
      match deserialize data with
      | Ok info => Some info
      | Err _ => None
      end
  | Ok None => None
  | Err _ => None
  end.

(** [self.db.put(&key, &bytes).map_err(..)] *)
Definition put_info (message : string) (key bytes : Bytes) : M (ContractRegistry Db) unit := fun r =>
  match db_put key bytes (registry_db r) with
  | (Ok _, db) => (Ok tt, {| registry_db := db |})
  | (Err e, db) => (errorf message [ArgErr e], {| registry_db := db |})
  end.

Definition register_contract (address : Address) (bytecode : Bytes)
    : M (ContractRegistry Db) unit := fun r =>
  match get_contract address r with
  | Some _ => (err "contract already exists", r)
  | None =>
      let info := {| address := address; bytecode := bytecode; metadata := [] |} in
      match serialize info with
      | Err e => (errorf "Failed to serialize contract info: {}" [ArgErr e], r)
      | Ok serialized =>
          put_info "Failed to write contract to DB: {}" (make_registry_key address) serialized r
      end
  end.

Definition add_metadata (address : Address) (metadata : Bytes)
    : M (ContractRegistry Db) unit := fun r =>
  let key := make_registry_key address in
  match db_get (registry_db r) key with
  | Err e => (errorf "Failed to read from DB: {}" [ArgErr e], r)
  | Ok None => (err "contract not found", r)
  | Ok (Some serialized) =>
      match deserialize serialized with
      | Err e => (errorf "Failed to deserialize contract info: {}" [ArgErr e], r)
      | Ok info =>
          let info := {| address := Contracts.address info; bytecode := bytecode info;
                         metadata := metadata |} in
          match serialize info with
          | Err e => (errorf "Failed to serialize updated contract info: {}" [ArgErr e], r)
          | Ok updated_serialized =>
              put_info "Failed to update contract in DB: {}" key updated_serialized r
          end
      end
  end.

Definition delete_contract (address : Address) : M (ContractRegistry Db) unit := fun r =>
  match db_delete (make_registry_key address) (registry_db r) with
  | (Ok _, db) => (Ok tt, {| registry_db := db |})
  | (Err e, db) => (errorf "Failed to delete contract from DB: {}" [ArgErr e], {| registry_db := db |})
  end.

(** Iterates from the key "cont" on and keeps the entries under the prefix that
    deserialize. *)
Definition list_all_contracts r : result (list ContractInfo) :=
  match db_iterator_from (take 4 contract_prefix) (registry_db r) with
  | Err e => errorf "RocksDB iterator error: {}" [ArgErr e]
  | Ok items =>
      Ok (omap (fun kv : Bytes * Bytes =>
            if starts_with contract_prefix kv.1 then
              match deserialize kv.2 with Ok info => Some info | Err _ => None end
            else None) items)
  end.

Definition contract_exists (address : Address) r : bool :=
  match db_get (registry_db r) (make_registry_key address) with Ok (Some _) => true | _ => false end.

Definition contract_count r : result nat := (@length _) <$> list_all_contracts r.

(** ** What the registry promises *)

Context `{!KvLaws Db} `{!CodecLaws ContractInfo}.

Lemma make_registry_key_inj a b : make_registry_key a = make_registry_key b -> a = b.
Proof. intros Heq. by apply app_inv_head in Heq. Qed.

Lemma get_contract_view a r :
  get_contract a r =
  match db_view (registry_db r) !! make_registry_key a with
  | Some data => match deserialize data with Ok info => Some info | Err _ => None end
  | None => None
  end.
Proof. unfold get_contract. rewrite db_get_view. by destruct (_ !! _). Qed.

Lemma put_info_get message a bs r b :
  is_ok (put_info message (make_registry_key a) bs r).1 = true ->
  get_contract b (put_info message (make_registry_key a) bs r).2 =
    if decide (b = a)
    then match deserialize bs with Ok info => Some info | Err _ => None end
    else get_contract b r.
Proof.
  unfold put_info, get_contract.
  pose proof (db_put_ok (make_registry_key a) bs (registry_db r)) as Hput.
  destruct (db_put _ _ _) as [[[]|e] db]; cbn [fst snd is_ok errorf registry_db] in *; [|done].
  intros _. rewrite !db_get_view, Hput, lookup_insert by done.
  repeat case_decide; try done; subst; try done.
  match goal with E : make_registry_key _ = _ |- _ => apply make_registry_key_inj in E end. done.
Qed.

Lemma put_info_err message k bs r b :
  is_ok (put_info message k bs r).1 = false ->
  get_contract b (put_info message k bs r).2 = get_contract b r.
Proof.
  unfold put_info, get_contract. pose proof (db_put_err k bs (registry_db r)) as Hput.
  destruct (db_put _ _ _) as [[[]|e] db]; cbn [fst snd is_ok errorf registry_db] in *; [done|].
  intros _. by rewrite !db_get_view, Hput.
Qed.

(** Registering a contract succeeds only for an address that is
    free, and then the registry returns exactly that bytecode, with empty
    metadata, for the address and its earlier answer for every other address;
    when it fails, no answer of the registry changes. *)
Theorem register_contract_spec a code r :
  let '(res, r') := register_contract a code r in
  (is_ok res = true -> get_contract a r = None) /\
  forall b, get_contract b r' =
    if decide (b = a /\ is_ok res = true)
    then Some {| address := a; bytecode := code; metadata := [] |} else get_contract b r.
Proof.
  unfold register_contract. destruct (get_contract a r) as [info|] eqn:Hg.
  { split; [done|]. intros b. by rewrite decide_False by (intros [_ ?]; done). }
  set (info := {| address := a; bytecode := code; metadata := [] |}).
  destruct (serialize info) as [bs|e] eqn:Hs;
    [|split; [done|]; intros b; by rewrite decide_False by (intros [_ ?]; done)].
  set (message := "Failed to write contract to DB: {}"%string).
  pose proof (put_info_get message a bs r) as Hok.
  pose proof (put_info_err message (make_registry_key a) bs r) as Herr.
  destruct (put_info _ _ _ _) as [[[]|e] r'] eqn:Hp; cbn [fst snd is_ok] in *.
  - split; [done|]. intros b. rewrite Hok by done. rewrite (codec_roundtrip _ _ Hs).
    repeat case_decide; naive_solver.
  - split; [done|]. intros b. rewrite decide_False by (intros [_ ?]; done). by apply Herr.
Qed.

(** Metadata is attached to the stored contract; nothing else changes. *)
Lemma add_metadata_spec a md r :
  let '(res, r') := add_metadata a md r in
  forall b, get_contract b r' =
    if decide (b = a /\ is_ok res = true)
    then option_map (fun info => {| address := address info; bytecode := bytecode info;
                                    metadata := md |}) (get_contract a r)
    else get_contract b r.
Proof.
  unfold add_metadata. rewrite (get_contract_view a), db_get_view.
  destruct (db_view (registry_db r) !! _) as [bs0|] eqn:Hv;
    [|intros b; by rewrite decide_False by (intros [_ ?]; done)].
  destruct (deserialize bs0) as [info|e]; [|intros b; by rewrite decide_False by (intros [_ ?]; done)].
  set (info' := {| address := address info; bytecode := bytecode info; metadata := md |}).
  destruct (serialize info') as [bs|e] eqn:Hs; [|intros b; by rewrite decide_False by (intros [_ ?]; done)].
  set (message := "Failed to update contract in DB: {}"%string).
  pose proof (put_info_get message a bs r) as Hok.
  pose proof (put_info_err message (make_registry_key a) bs r) as Herr.
  destruct (put_info _ _ _ _) as [[[]|e] r'] eqn:Hp; cbn [fst snd is_ok] in *; intros b.
  - rewrite Hok by done. rewrite (codec_roundtrip _ _ Hs). repeat case_decide; naive_solver.
  - rewrite decide_False by (intros [_ ?]; done). by apply Herr.
Qed.

Lemma contract_exists_get a r :
  is_Some (get_contract a r) -> contract_exists a r = true.
Proof.
  unfold get_contract, contract_exists. by destruct (db_get _ _) as [[bs|]|]; [|intros []..].
Qed.
End ContractRegistry.

(** ** A serializer for the evaluations *)
Definition fmt_info : format ContractInfo :=
  fmt_map (fmt_pair fmt_bytes (fmt_pair fmt_bytes fmt_bytes))
    (fun i => (address i, (bytecode i, metadata i)))
    (fun '(a, (c, m)) => Some {| address := a; bytecode := c; metadata := m |})
    (fun i => match i with {| address := _ |} => eq_refl end).
#[export] Instance info_codec : Codec ContractInfo := fmt_codec fmt_info.
#[export] Instance info_codec_laws : CodecLaws ContractInfo.
Proof. apply fmt_codec_laws. Qed.

Lemma register_contract_spec_witness :
  let r : ContractRegistry MemDb := Build_ContractRegistry ∅ in
  let '(res, r') := register_contract (replicate 20 7) [0; 97; 115; 109] r in
  (is_ok res = true -> get_contract (replicate 20 7) r = None) /\
  forall b, get_contract b r' =
    if decide (b = replicate 20 7 /\ is_ok res = true)
    then Some {| address := replicate 20 7; bytecode := [0; 97; 115; 109]; metadata := [] |}
    else get_contract b r.
Proof. apply register_contract_spec. Defined.
