(* ===== verification/Executor.v ===== *)
(** Sequential execution of blocks: [src/src/vm/contract_executor.rs] and
    [src/src/execution/transaction_executor.rs]. *)
From S2P Require Import Prelude Crypto Transaction Floats Mining Block StateTree StateManager.
From S2P Require Import Kv Wasm Contracts.

(** ** vm/contract_executor.rs

    The runtime of the source carries no state besides the engine. *)
Record ContractExecutor (Db : Type) := {
  state_manager : StateManager;
  registry : ContractRegistry Db;
  contracts : ContractStorage Db
}.
Arguments state_manager {Db} _.
Arguments registry {Db} _.
Arguments contracts {Db} _.

(** The ASCII bytes of "init". *)
Definition init_name : Bytes := [105; 110; 105; 116].

Section Runs.
Context `{Sha256} `{Wasmtime} {T : Type} `{Storage T}.

(** The first 20 bytes of the digest of the code. *)
Definition deploy_address (wasm_code : Bytes) : Address := take 20 (sha256 wasm_code).

Definition runtime_state (address : Address) (tx : Transaction) (s : T) : RuntimeState T :=
  {| contract_address := address; caller := from tx; block_height := 0; timestamp := 0;
     storage := s; gas_meter := GasMeter_new (gas_limit tx) |}.

(** Instantiate the code and, when it exports one, call its [init]; the result
    is whether [init] succeeded. *)
Definition run_init (wasm_code : Bytes) (tx : Transaction) (s : T)
    : option (result bool * RuntimeState T) :=
  match instantiate_contract wasm_code (gas_limit tx)
          (runtime_state (deploy_address wasm_code) tx s) with
  | None => None
  | Some (Err e, rt) => Some (errorf "WASM instantiate error: {}" [ArgErr e], rt)
  | Some (Ok instance, rt) =>
      match get_func instance init_name with
      | None => Some (Ok true, rt)
      | Some init_func =>
          match run_guest (func_call memory_growing init_func [] 0) rt with
          | None => None
          | Some (r, rt) => Some (Ok (is_ok r), rt)
          end
      end
  end.

(** Instantiate the code of a deployed contract and call a method of it; the
    inner result is the method's. *)
Definition run_method (bytecode : Bytes) (address : Address) (method : Bytes) (tx : Transaction) (s : T)
    : option (result (result unit) * RuntimeState T) :=
  match instantiate_contract bytecode (gas_limit tx) (runtime_state address tx s) with
  | None => None
  | Some (Err e, rt) => Some (errorf "WASM instantiate error: {}" [ArgErr e], rt)
  | Some (Ok instance, rt) =>
      match call_function instance method [] rt with
      | None => None
      | Some (r, rt) => Some (Ok r, rt)
      end
  end.
End Runs.

Section ContractExecutor.
Context `{Sha256} `{HashOrder} `{Wasmtime} {Db : Type} `{KvStore Db} `{Codec ContractInfo}.

Abbreviation Executor := (ContractExecutor Db).

Definition set_contracts (s : ContractStorage Db) (ex : Executor) : Executor :=
  {| state_manager := state_manager ex; registry := registry ex; contracts := s |}.
Definition set_manager (m : StateManager) (ex : Executor) : Executor :=
  {| state_manager := m; registry := registry ex; contracts := contracts ex |}.
Definition set_registry (r : ContractRegistry Db) (ex : Executor) : Executor :=
  {| state_manager := state_manager ex; registry := r; contracts := contracts ex |}.

Definition deploy_contract (tx : Transaction) (wasm_code _init_args : Bytes) : P Executor Z := fun ex =>
  let address := deploy_address wasm_code in
  match run_init wasm_code tx (contracts ex) with
  | None => None
  | Some (Err e, rt) => Some (Err e, set_contracts (storage rt) ex)
  | Some (Ok success, rt) =>
      let ex := set_contracts (storage rt) ex in
      let used := used (gas_meter rt) in
      let fee := saturating_mul used (gas_price tx) in
      match deduct_fee (from tx) fee (state_manager ex) with
      | (Err e, m) => Some (Err e, set_manager m ex)
      | (Ok _, m) =>
          let ex := set_manager m ex in
          if success then
            match register_contract address wasm_code (registry ex) with
            | (Err e, r) => Some (Err e, set_registry r ex)
            | (Ok _, r) =>
                let ex := set_registry r ex in
                match initialize_contract address (contracts ex) with
                | None => None
                | Some (Err e, s) => Some (Err e, set_contracts s ex)
                | Some (Ok _, s) => Some (Ok used, set_contracts s ex)
                end
            end
          else Some (err "contract init failed", ex)
      end
  end.

Definition call_contract (tx : Transaction) (contract_address : Address) (method _args : Bytes)
    : P Executor Z := fun ex =>
  match get_contract contract_address (registry ex) with
  | None => Some (err "Contract not found", ex)
  | Some contract =>
      match run_method (bytecode contract) contract_address method tx (contracts ex) with
      | None => None
      | Some (Err e, rt) => Some (Err e, set_contracts (storage rt) ex)
      | Some (Ok r, rt) =>
          let ex := set_contracts (storage rt) ex in
          let used := used (gas_meter rt) in
          let fee := saturating_mul used (gas_price tx) in
          match deduct_fee (from tx) fee (state_manager ex) with
          | (Err e, m) => Some (Err e, set_manager m ex)
          | (Ok _, m) =>
              let ex := set_manager m ex in
              match r with
              | Ok _ => Some (Ok used, ex)
              | Err e => Some (errorf "Contract call failed: {}" [ArgErr e], ex)
              end
          end
      end
  end.

Definition execute_transaction (tx : Transaction) : P Executor Z :=
  match payload tx with
  | Transfer _ _ => fun ex =>
      match apply_transaction tx (state_manager ex) with
      | (Err e, m) => Some (Err e, set_manager m ex)
      | (Ok _, m) => Some (Ok (gas_limit tx), set_manager m ex)
      end
  | ContractDeploy wasm_code init_args => deploy_contract tx wasm_code init_args
  | ContractCall contract_address method args => call_contract tx contract_address method args
  end.

(** ** execution/transaction_executor.rs *)

Record ExecutionResult := {
  new_state_root : Hash;
  executed_transactions : nat;
  success : bool;
  total_fees : Z
}.

(** The loop of [execute_block], which stops at the first failure. *)
Fixpoint execute_loop (txs : list Transaction) (executed : nat) (total_fees : Z) (ex : Executor)
    : option ((nat * bool * Z) * Executor) :=
  match txs with
  | [] => Some ((executed, true, total_fees), ex)
  | tx :: txs' =>
      match execute_transaction tx ex with
      | None => None
      | Some (Ok used, ex') =>
          execute_loop txs' (S executed)
            (saturating_add total_fees (saturating_mul used (gas_price tx))) ex'
      | Some (Err _, ex') => Some ((executed, false, total_fees), ex')
      end
  end.

Definition execute_block (block : Block) (ex : Executor) : option (ExecutionResult * Executor) :=
  match execute_loop (transactions block) 0 0 ex with
  | None => None
  | Some ((executed, success, total_fees), ex') =>
      Some ({| new_state_root := get_state_root (state_manager ex');
               executed_transactions := executed; success := success;
               total_fees := total_fees |}, ex')
  end.

Fixpoint execute_blocks_in_order (blocks : list Block) (ex : Executor)
    : option (list ExecutionResult * Executor) :=
  match blocks with
  | [] => Some ([], ex)
  | b :: blocks' =>
      match execute_block b ex with
      | None => None
      | Some (r, ex') =>
          match execute_blocks_in_order blocks' ex' with
          | None => None
          | Some (rs, ex'') => Some (r :: rs, ex'')
          end
      end
  end.

Definition get_current_state_root (ex : Executor) : Hash := get_state_root (state_manager ex).
End ContractExecutor.

(** ** Gas and fees of contract transactions *)

Lemma set_fresh_gas_ok {T} (g : Z) (st : RuntimeState T) :
  is_u64 g -> gas_ok (gas_meter (set_gas_meter (GasMeter_new g) st)).
Proof. unfold gas_ok, is_u64. cbn. lia. Qed.

Section RunFacts.
Context `{Sha256} `{Wasmtime} {T : Type} `{Storage T}.

(** A meter whose limit is the gas limit of the transaction. *)
Definition metered (g : Z) (rt : RuntimeState T) : Prop :=
  gas_ok (gas_meter rt) /\ limit (gas_meter rt) = g.

Lemma metered_used g rt : metered g rt -> 0 <= used (gas_meter rt) <= g.
Proof. intros [[? ?] <-]. done. Qed.

Lemma run_guest_metered {A} (p : guest A) g rt r rt' :
  run_guest p rt = Some (r, rt') -> metered g rt -> metered g rt'.
Proof.
  intros Hr [Hok Hl]. apply run_guest_context in Hr as [Hok' (_&_&_&_&Hl')]; [|done].
  split; [done|congruence].
Qed.

Lemma instantiate_metered code g rt r rt' :
  is_u64 g -> instantiate_contract code g rt = Some (r, rt') -> metered g rt'.
Proof.
  intros Hg. unfold instantiate_contract.
  assert (metered g (set_gas_meter (GasMeter_new g) rt)) as Hm
    by (split; [by apply set_fresh_gas_ok|done]).
  destruct (Module_new code) as [m|e]; [|by intros [= _ <-]].
  intros Hr. by eapply run_guest_metered.
Qed.

Lemma run_init_metered code tx (s : T) r rt :
  is_u64 (gas_limit tx) -> run_init code tx s = Some (r, rt) -> metered (gas_limit tx) rt.
Proof.
  intros Hg. unfold run_init.
  destruct (instantiate_contract _ _ _) as [[[i|e] rt1]|] eqn:Hi; [| |done];
    apply instantiate_metered in Hi; try done; [|by intros [= _ <-]].
  destruct (get_func i init_name) as [f|]; [|by intros [= _ <-]].
  destruct (run_guest _ rt1) as [[r2 rt2]|] eqn:Hr; [|done].
  intros [= _ <-]. by eapply run_guest_metered.
Qed.

Lemma run_method_metered code a method tx (s : T) r rt :
  is_u64 (gas_limit tx) -> run_method code a method tx s = Some (r, rt) ->
  metered (gas_limit tx) rt.
Proof.
  intros Hg. unfold run_method.
  destruct (instantiate_contract _ _ _) as [[[i|e] rt1]|] eqn:Hi; [| |done];
    apply instantiate_metered in Hi; try done; [|by intros [= _ <-]].
  unfold call_function. destruct (get_func i method) as [f|]; [|by intros [= _ <-]].
  destruct (run_guest _ rt1) as [[r2 rt2]|] eqn:Hr; [|done].
  intros [= _ <-]. by eapply run_guest_metered.
Qed.
End RunFacts.

Section ExecutorFacts.
Context `{Sha256} `{HashOrder} `{Wasmtime} {Db : Type} `{KvStore Db} `{Codec ContractInfo}.
Implicit Types ex : ContractExecutor Db.

Definition tx_fee (tx : Transaction) (used : Z) : Z := saturating_mul used (gas_price tx).

(** The accounts after charging [fee] to [a]. *)
Lemma deduct_fee_cases a fee st :
  leaves_ok (accounts st) -> 0 <= fee ->
  let '(r, st') := deduct_fee a fee st in
  (r <> Ok tt /\ st' = st) \/
  (r = Ok tt /\ fee <= balance_of (accounts st) a /\
   (forall b, balance_of (accounts st') b =
      balance_of (accounts st) b - (if decide (a = b) then fee else 0)) /\
   (forall b, account_nonce (account_or_zero st' b) = account_nonce (account_or_zero st b))).
Proof.
  intros Hok Hfee. unfold deduct_fee.
  destruct (Z.eqb_spec fee 0) as [->|Hf].
  { right. split; [done|]. pose proof (balance_of_le_total _ a Hok).
    split; [lia|]. split; [intros b; case_decide; lia|done]. }
  rewrite account_or_zero_balance. destruct (Z.ltb_spec (balance_of (accounts st) a) fee).
  { left. done. }
  right. split; [done|]. split; [done|].
  pose proof (account_or_zero_ok st a Hok) as [Hb _]. rewrite account_or_zero_balance in Hb.
  split; intros b.
  - rewrite refresh_root_accounts, put_account_accounts, balance_of_insert. cbn [balance Account_new].
    case_decide; [subst b|lia]. apply u64_sub_small. unfold is_u64 in Hb. lia.
  - unfold account_or_zero. cbn [refresh_root put_account state_tree].
    rewrite get_update_account. case_decide; [by subst b|done].
Qed.

Definition is_contract_tx (tx : Transaction) : Prop :=
  match payload tx with Transfer _ _ => False | _ => True end.

(** What a contract transaction does to the accounts: [paid] is the fee. *)
Definition only_fee (a : Address) (paid : Z) (st st' : StateManager) : Prop :=
  (forall b, balance_of (accounts st') b =
     balance_of (accounts st) b - (if decide (a = b) then paid else 0)) /\
  (forall b, account_nonce (account_or_zero st' b) = account_nonce (account_or_zero st b)).

Lemma only_fee_zero a st : only_fee a 0 st st.
Proof. split; [|done]. intros b. case_decide; lia. Qed.

(** After the guest has run on the meter [rt], the fee is charged and the rest
    [k] does not touch the accounts. *)
Lemma charge_used {T} tx (rt : RuntimeState T) st (g : StateManager -> option (result Z * ContractExecutor Db))
    (h : error -> StateManager -> option (result Z * ContractExecutor Db)) r ex' :
  tx_wf tx -> leaves_ok (accounts st) -> metered (gas_limit tx) rt ->
  (forall m r ex', g m = Some (r, ex') ->
     state_manager ex' = m /\ (forall u, r = Ok u -> u = used (gas_meter rt))) ->
  (forall e m r ex', h e m = Some (r, ex') -> state_manager ex' = m /\ r = Err e) ->
  match deduct_fee (from tx) (tx_fee tx (used (gas_meter rt))) st with
  | (Err e, m) => h e m
  | (Ok _, m) => g m
  end = Some (r, ex') ->
  exists u, 0 <= u <= gas_limit tx /\ (forall v, r = Ok v -> v = u) /\
    (only_fee (from tx) (tx_fee tx u) st (state_manager ex') \/
     (state_manager ex' = st /\ is_ok r = false)).
Proof.
  intros (_ & _ & _ & Hl & Hp) Hok Hm%metered_used Hg Hh Hr.
  exists (used (gas_meter rt)). split; [done|].
  assert (0 <= tx_fee tx (used (gas_meter rt))) as Hf.
  { unfold tx_fee, saturating_mul, is_u64 in *. nia. }
  pose proof (deduct_fee_cases (from tx) _ st Hok Hf) as Hd.
  destruct (deduct_fee _ _ _) as [[[]|e] m].
  - apply Hg in Hr as [-> Hu]. split; [done|].
    destruct Hd as [[? _]|(_ & _ & Hb & Hn)]; [done|]. by left.
  - apply Hh in Hr as [-> ->]. split; [done|]. right.
    destruct Hd as [[_ ->]|[? _]]; [|done]. by split.
Qed.

Lemma execute_contract_cases tx ex r ex' :
  tx_wf tx -> is_contract_tx tx -> leaves_ok (accounts (state_manager ex)) ->
  execute_transaction tx ex = Some (r, ex') ->
  exists u, 0 <= u <= gas_limit tx /\ (forall v, r = Ok v -> v = u) /\
    (only_fee (from tx) (tx_fee tx u) (state_manager ex) (state_manager ex') \/
     (state_manager ex' = state_manager ex /\ is_ok r = false)).
Proof.
  intros Hwf Hc Hok. pose proof Hwf as (_ & _ & _ & Hl & _). pose proof Hl as [Hl0 _].
  assert (forall (e : error) exx, state_manager exx = state_manager ex ->
    Some (@Err Z e, exx) = Some (r, ex') ->
    exists u, 0 <= u <= gas_limit tx /\ (forall v, r = Ok v -> v = u) /\
    (only_fee (from tx) (tx_fee tx u) (state_manager ex) (state_manager ex') \/
     (state_manager ex' = state_manager ex /\ is_ok r = false))) as Herr.
  { intros e exx Hm [= <- <-]. exists 0. split; [lia|]. split; [done|by right]. }
  unfold execute_transaction, is_contract_tx in *.
  destruct (payload tx) as [|code args|a method args]; [done|clear Hc..].
  - unfold deploy_contract.
    destruct (run_init code tx (contracts ex)) as [[[ok|e] rt]|] eqn:Hrun; [|intros Hr; by refine (Herr _ _ _ Hr)|done].
    apply run_init_metered in Hrun; [|done].
    refine (charge_used tx rt (state_manager ex) _ _ r ex' Hwf Hok Hrun _ _).
    + intros m r' ex2 Hk. destruct ok; [|simplify_eq; (split; [done|by intros ? [=]])].
      destruct (register_contract _ _ _) as [[[]|e] reg]; cbn in Hk; simplify_eq; (split; [done|by intros ? [=]]).
    + intros e m r' ex2 Hk. by simplify_eq.
  - unfold call_contract. destruct (get_contract a (registry ex)) as [info|]; [|intros Hr; by refine (Herr _ _ _ Hr)].
    destruct (run_method _ a method tx (contracts ex)) as [[[res|e] rt]|] eqn:Hrun;
      [|intros Hr; by refine (Herr _ _ _ Hr)|done].
    apply run_method_metered in Hrun; [|done].
    refine (charge_used tx rt (state_manager ex) _ _ r ex' Hwf Hok Hrun _ _).
    + intros m r' ex2 Hk. destruct res as [[]|e]; simplify_eq; (split; [done|by intros ? [=]]).
    + intros e m r' ex2 Hk. by simplify_eq.
Qed.

(** C38: what a contract transaction costs and what it leaves out.
    Whatever a deployment or a call does, and whether it succeeds or fails, no
    nonce changes, no other account's balance changes, and the sender pays at most
    the gas limit at its gas price; a successful one pays for exactly the gas it
    reports.  Since neither the nonce nor the signature is looked at, the same
    transaction can be executed again and again, and by anybody. *)
Theorem contract_tx_effect tx ex r ex' :
  tx_wf tx -> is_contract_tx tx -> leaves_ok (accounts (state_manager ex)) ->
  execute_transaction tx ex = Some (r, ex') ->
  (forall b, account_nonce (account_or_zero (state_manager ex') b) =
             account_nonce (account_or_zero (state_manager ex) b)) /\
  (exists paid, 0 <= paid <= tx_fee tx (gas_limit tx) /\
     (forall u, r = Ok u -> 0 <= u <= gas_limit tx /\ paid = tx_fee tx u) /\
     forall b, balance_of (accounts (state_manager ex')) b =
       balance_of (accounts (state_manager ex)) b - (if decide (from tx = b) then paid else 0)) /\
  (forall n s,
     execute_transaction
       {| from := from tx; payload := payload tx; nonce := n; gas_limit := gas_limit tx;
          gas_price := gas_price tx; signature := s |} ex = Some (r, ex')).
Proof.
  intros Hwf Hc Hok Hr.
  pose proof (execute_contract_cases tx ex r ex' Hwf Hc Hok Hr) as (u & Hu & Hru & Hcase).
  pose proof Hwf as (_ & _ & _ & Hl & Hp).
  assert (0 <= tx_fee tx u <= tx_fee tx (gas_limit tx)) as Hfee.
  { unfold tx_fee, saturating_mul, is_u64 in *. split; [nia|]. apply Z.min_le_compat_r. nia. }
  split; [|split].
  - destruct Hcase as [[_ Hn]|[-> _]]; done.
  - destruct Hcase as [[Hb _]|[-> Hr']].
    + exists (tx_fee tx u). split; [done|]. split; [|done].
      intros v Hv. by rewrite (Hru v Hv).
    + exists 0. split; [lia|]. split; [intros v ->; done|]. intros b. case_decide; lia.
  - intros n s. rewrite <- Hr. clear -Hc. unfold execute_transaction.
    unfold is_contract_tx in Hc. by destruct tx as [f [] ? ? ? ?]; cbn in *.
Qed.

(** ** Blocks *)

(** The transactions of [txs] succeed one after the other, with the gas [us]. *)
Inductive runs : ContractExecutor Db -> list Transaction -> list Z -> ContractExecutor Db -> Prop :=
  | runs_nil ex : runs ex [] [] ex
  | runs_cons ex tx u ex1 txs us ex2 :
      execute_transaction tx ex = Some (Ok u, ex1) -> runs ex1 txs us ex2 ->
      runs ex (tx :: txs) (u :: us) ex2.

Definition fees (txs : list Transaction) (us : list Z) : Z :=
  foldr Z.add 0 (zip_with tx_fee txs us).

(** A successful transaction reports at most its gas limit. *)
Lemma execute_gas_range tx ex u ex' :
  tx_wf tx -> execute_transaction tx ex = Some (Ok u, ex') -> 0 <= u <= gas_limit tx.
Proof.
  intros (_ & _ & _ & Hl & _). pose proof Hl as [Hl0 _]. unfold execute_transaction.
  destruct (payload tx) as [|code args|a method args].
  - destruct (apply_transaction tx _) as [[[]|e] m]; intros [=]; lia.
  - unfold deploy_contract. destruct (run_init _ _ _) as [[[ok|e] rt]|] eqn:Hrun; [|done..].
    apply run_init_metered, metered_used in Hrun; [|done].
    destruct (deduct_fee _ _ _) as [[[]|e] m]; [|done]. destruct ok; [|done].
    destruct (register_contract _ _ _) as [[[]|e] reg]; cbn; [|done]. by intros [= <- _].
  - unfold call_contract. destruct (get_contract _ _); [|done].
    destruct (run_method _ _ _ _ _) as [[[res|e] rt]|] eqn:Hrun; [|done..].
    apply run_method_metered, metered_used in Hrun; [|done].
    destruct (deduct_fee _ _ _) as [[[]|e] m]; [|done]. destruct res; [|done].
    by intros [= <- _].
Qed.

Lemma tx_fee_nonneg tx u : tx_wf tx -> 0 <= u -> 0 <= tx_fee tx u.
Proof.
  intros (_ & _ & _ & _ & Hp) Hu. unfold tx_fee, saturating_mul, is_u64, u64_max in *. nia.
Qed.

Lemma execute_loop_spec txs n f ex n' ok f' ex' :
  Forall tx_wf txs -> 0 <= f <= u64_max ->
  execute_loop txs n f ex = Some ((n', ok, f'), ex') ->
  exists ran rest us ex1, txs = ran ++ rest /\ runs ex ran us ex1 /\
    n' = (n + length ran)%nat /\ f' = Z.min u64_max (f + fees ran us) /\
    0 <= fees ran us /\
    match rest with
    | [] => ok = true /\ ex' = ex1
    | tx :: _ => ok = false /\ exists e, execute_transaction tx ex1 = Some (Err e, ex')
    end.
Proof.
  intros Hwf. revert n f ex. induction Hwf as [|tx txs Htx _ IH]; intros n f ex Hf.
  { intros [= <- <- <- <-]. exists [], [], [], ex. split; [done|]. split; [constructor|].
    cbn. split; [lia|]. split; [lia|]. done. }
  cbn [execute_loop].
  destruct (execute_transaction tx ex) as [[[u|e] ex1]|] eqn:Hr; [| |done].
  - pose proof (execute_gas_range _ _ _ _ Htx Hr) as Hu.
    pose proof (tx_fee_nonneg tx u Htx (proj1 Hu)) as Hfee.
    fold (tx_fee tx u). intros Hl.
    apply IH in Hl as (ran & rest & us & ex2 & -> & Hruns & -> & -> & Hnn & Hrest);
      [|unfold saturating_add; lia].
    exists (tx :: ran), rest, (u :: us), ex2. split; [done|].
    split; [by econstructor|]. cbn [length fees zip_with foldr]. fold (fees ran us).
    split; [lia|]. split; [unfold saturating_add; lia|]. split; [lia|done].
  - intros [= <- <- <- <-]. exists [], (tx :: txs), [], ex. split; [done|].
    split; [constructor|]. cbn. split; [lia|]. split; [lia|]. split; [done|].
    split; [done|]. by exists e.
Qed.

(** C29: executing a block runs its transactions one by one and stops at the
    first failure.  What it reports is exactly the prefix that ran: the number of
    transactions, the sum of their fees (cut off at [u64::MAX]), success iff
    nothing failed, and the root of the state it leaves.  Nothing is rolled back:
    the state is the one after the prefix, together with whatever the failing
    transaction did before it failed. *)
Theorem execute_block_spec b ex res ex' :
  Forall tx_wf (transactions b) -> execute_block b ex = Some (res, ex') ->
  exists ran rest us ex1, transactions b = ran ++ rest /\ runs ex ran us ex1 /\
    executed_transactions res = length ran /\
    total_fees res = Z.min u64_max (fees ran us) /\
    new_state_root res = current_state_root (state_manager ex') /\
    match rest with
    | [] => success res = true /\ ex' = ex1
    | tx :: _ => success res = false /\ exists e, execute_transaction tx ex1 = Some (Err e, ex')
    end.
Proof.
  intros Hwf. unfold execute_block.
  destruct (execute_loop _ _ _ _) as [[[[n ok] f] ex2]|] eqn:Hl; [|done].
  intros [= <- <-]. apply execute_loop_spec in Hl; [|done|unfold u64_max; lia].
  destruct Hl as (ran & rest & us & ex1 & Ht & Hr & -> & -> & _ & Hrest).
  exists ran, rest, us, ex1. cbn [executed_transactions total_fees new_state_root success].
  rewrite Z.add_0_l. done.
Qed.
End ExecutorFacts.

(** ** Witnesses *)

#[local] Existing Instance checksum_sha.
#[local] Existing Instance canonical_order.

(** An engine whose modules have no [init] and two methods: [119] writes to the
    store and returns, any other writes and then traps. *)
Definition trapping_guest : guest unit :=
  HostCall (Storage_write 0 3 4 2) (Some sample_memory) (fun _ _ =>
    Trap (Error "wasm trap: unreachable" [])).
#[export] Instance sample_engine : Wasmtime := {
  WasmModule := Bytes;
  Instance_ := Bytes;
  Func := guest unit;
  Module_new code := Ok code;
  linker_instantiate _ m := Return m;
  get_func _ name :=
    if decide (name = init_name) then None
    else if decide (name = [119]) then Some sample_guest else Some trapping_guest;
  results_len _ := 0%nat;
  func_call _ f _ _ := f
}.

Definition sample_executor : ContractExecutor MemDb :=
  {| state_manager := genesis_state; registry := Build_ContractRegistry ∅;
     contracts := Build_ContractStorage ∅ |}.

Definition sample_code : Bytes := [0; 97; 115; 109].
Definition deploy_tx : Transaction := new_deploy GENESIS_WALLET sample_code [] 0 100 2.
Definition call_tx (method : Bytes) : Transaction :=
  new_call GENESIS_WALLET (deploy_address sample_code) method [] 0 100 2.

Definition executed {A} (o : option (A * ContractExecutor MemDb)) : ContractExecutor MemDb :=
  match o with Some (_, ex) => ex | None => sample_executor end.

Definition deployed_executor : ContractExecutor MemDb :=
  executed (execute_transaction deploy_tx sample_executor).

(** The sequential executor does not undo a failing call: there is a
    call whose guest traps after writing to the store, which fails, and whose
    write is in the contract store afterwards and whose fee is gone. *)
Theorem failed_call_keeps_writes :
  let call := execute_transaction (call_tx [1]) deployed_executor in
  let ex' := executed call in
  match call with Some (r, _) => is_ok r = false | None => False end /\
  read (contracts deployed_executor) [97; 98; 99] = None /\
  read (contracts ex') [97; 98; 99] = Some [5; 6] /\
  get_balance (state_manager deployed_executor) GENESIS_WALLET = 100000000 /\
  get_balance (state_manager ex') GENESIS_WALLET = 100000000 - 20 * 2.
Proof. vm_compute. repeat split; reflexivity. Qed.

Lemma call_tx_wf m : tx_wf (call_tx m).
Proof. repeat split; try done; vm_compute; discriminate. Qed.

Lemma genesis_leaves_ok : leaves_ok (accounts genesis_state).
Proof. apply genesis_supply_ok. Qed.

Lemma contract_tx_effect_witness :
  let ex := sample_executor in
  let call := execute_transaction deploy_tx ex in
  let r := match call with Some (r, _) => r | None => err "panic" end in
  let ex' := executed call in
  (forall b, account_nonce (account_or_zero (state_manager ex') b) =
             account_nonce (account_or_zero (state_manager ex) b)) /\
  (exists paid, 0 <= paid <= tx_fee deploy_tx 100 /\
     (forall u, r = Ok u -> 0 <= u <= 100 /\ paid = tx_fee deploy_tx u) /\
     forall b, balance_of (accounts (state_manager ex')) b =
       balance_of (accounts (state_manager ex)) b -
         (if decide (GENESIS_WALLET = b) then paid else 0)) /\
  (forall n s,
     execute_transaction
       {| from := GENESIS_WALLET; payload := ContractDeploy sample_code []; nonce := n;
          gas_limit := 100; gas_price := 2; signature := s |} ex = Some (r, ex')).
Proof.
  cbv zeta. apply (contract_tx_effect deploy_tx sample_executor).
  - repeat split; try done; vm_compute; discriminate.
  - exact I.
  - apply genesis_leaves_ok.
  - vm_compute. reflexivity.
Defined.

Definition sample_block : Block :=
  @Block.new checksum_sha Floats.constant_exp [] 0 [genesis_transfer; call_tx [1]; genesis_transfer]
    0 0 0 (replicate 20 0) (replicate 32 0).

Lemma execute_block_spec_witness :
  exists res ex', execute_block sample_block deployed_executor = Some (res, ex') /\
  exists ran rest us ex1, transactions sample_block = ran ++ rest /\
    runs deployed_executor ran us ex1 /\
    executed_transactions res = length ran /\
    total_fees res = Z.min u64_max (fees ran us) /\
    new_state_root res = current_state_root (state_manager ex') /\
    match rest with
    | [] => success res = true /\ ex' = ex1
    | tx :: _ => success res = false /\ exists e, execute_transaction tx ex1 = Some (Err e, ex')
    end.
Proof.
  destruct (execute_block sample_block deployed_executor) as [[res ex']|] eqn:Hr;
    [|vm_compute in Hr; discriminate Hr].
  exists res, ex'. split; [reflexivity|].
  apply (execute_block_spec sample_block deployed_executor res ex'); [|exact Hr].
  repeat constructor; try done; vm_compute; discriminate.
Defined.
