(* ===== verification/ParallelExecutor.v ===== *)
(** Parallel execution of blocks: [src/src/execution/parallel_executor.rs].

    rayon's [par_iter().map(..).collect()] runs one independent computation per
    transaction of a batch, each over its own overlay and a read-only view of the
    base state, and collects the results in order: it is a [map]. *)
From S2P Require Import Prelude Crypto Transaction Floats Mining Block StateTree StateManager.
From S2P Require Import Kv Wasm Contracts Executor.

(** ** Access sets *)

Abbreviation TxId := Hash.
Abbreviation TxConflictGraph := (gmap TxId (gset TxId)).
Abbreviation ParallelBatch := (list Transaction).
Abbreviation StateOverlay := (gmap Address Account).

Inductive StateKey :=
  | KAccount (a : Address)
  | KContractStorage (a : Address) (key : Bytes)
  | KContractRegistry (a : Address).

#[export] Instance StateKey_eq_dec : EqDecision StateKey.
Proof. solve_decision. Defined.

Definition encode_key (k : StateKey) : Address + (Address * Bytes) + Address :=
  match k with
  | KAccount a => inl (inl a)
  | KContractStorage a key => inl (inr (a, key))
  | KContractRegistry a => inr a
  end.
Definition decode_key (e : Address + (Address * Bytes) + Address) : StateKey :=
  match e with
  | inl (inl a) => KAccount a
  | inl (inr (a, key)) => KContractStorage a key
  | inr a => KContractRegistry a
  end.
#[export] Instance StateKey_countable : Countable StateKey.
Proof. apply (inj_countable' encode_key decode_key). by intros []. Defined.

Record TxAccessSet := {
  reads : gset StateKey;
  writes : gset StateKey
}.

Section Parallel.
Context `{Sha256} `{SecpOps} `{HashOrder} `{Wasmtime} {Db : Type} `{KvStore Db} `{Codec ContractInfo}.

Definition analyze_access (tx : Transaction) : TxAccessSet :=
  let rs : gset StateKey := {[KAccount (from tx)]} in
  let ws : gset StateKey := {[KAccount (from tx)]} in
  match payload tx with
  | Transfer to _ =>
      {| reads := {[KAccount to]} ∪ rs; writes := {[KAccount to]} ∪ ws |}
  | ContractDeploy wasm_code _ =>
      let a := deploy_address wasm_code in
      {| reads := rs;
         writes := {[KContractRegistry a]} ∪ ({[KContractStorage a []]} ∪ ({[KAccount a]} ∪ ws)) |}
  | ContractCall a _ _ =>
      {| reads := {[KContractRegistry a]} ∪ ({[KContractStorage a []]} ∪ ({[KAccount a]} ∪ rs));
         writes := {[KContractStorage a []]} ∪ ({[KAccount a]} ∪ ws) |}
  end.

Definition transactions_conflict (a b : TxAccessSet) : bool :=
  if negb (bool_decide (writes a ## writes b)) then true
  else if negb (bool_decide (writes a ## reads b)) then true
  else if negb (bool_decide (reads a ## writes b)) then true
  else false.

(** ** The conflict graph *)

(** [edges.entry(a).or_default().insert(b)] *)
Definition add_edge (a b : TxId) (edges : TxConflictGraph) : TxConflictGraph :=
  <[a := {[b]} ∪ default ∅ (edges !! a)]> edges.

(** The inner loop over [j], for one [i]. *)
Definition connect (x : TxId * TxAccessSet) (rest : list (TxId * TxAccessSet))
    (edges : TxConflictGraph) : TxConflictGraph :=
  foldl (fun edges y =>
      if transactions_conflict x.2 y.2 then add_edge y.1 x.1 (add_edge x.1 y.1 edges) else edges)
    edges rest.

Fixpoint connect_all (l : list (TxId * TxAccessSet)) (edges : TxConflictGraph) : TxConflictGraph :=
  match l with
  | [] => edges
  | x :: rest => connect_all rest (connect x rest edges)
  end.

Definition tx_entry (tx : Transaction) : TxId * TxAccessSet := (hash tx, analyze_access tx).

Definition build_conflict_graph (txs : list Transaction) : TxConflictGraph :=
  connect_all (tx_entry <$> txs) ∅.

(** ** Scheduling *)

(** [index_map]: the last index of every hash. *)
Definition build_index_map (txs : list Transaction) : gmap TxId nat :=
  foldl (fun m (itx : nat * Transaction) => <[hash itx.2 := itx.1]> m) ∅
    (zip (seq 0 (length txs)) txs).

Definition forbidden_colors (graph : TxConflictGraph) (index_map : gmap TxId nat)
    (colors : list nat) (id : TxId) : gset nat :=
  match graph !! id with
  | None => ∅
  | Some neighbors =>
      list_to_set (omap (fun nid => index_map !! nid ≫= fun pos => colors !! pos)
                     (hs_iter neighbors))
  end.

(** [while forbidden.contains(&color) { color += 1; }] *)
Fixpoint first_free (fuel : nat) (forbidden : gset nat) (color : nat) : nat :=
  match fuel with
  | O => color
  | S fuel' => if decide (color ∈ forbidden) then first_free fuel' forbidden (S color) else color
  end.
Definition pick_color (forbidden : gset nat) : nat := first_free (S (size forbidden)) forbidden 0.

(** The loop over [i]. *)
Fixpoint color_loop (graph : TxConflictGraph) (index_map : gmap TxId nat) (i : nat)
    (txs : list Transaction) (colors : list nat) : list nat :=
  match txs with
  | [] => colors
  | tx :: txs' =>
      color_loop graph index_map (S i) txs'
        (<[i := pick_color (forbidden_colors graph index_map colors (hash tx))]> colors)
  end.

Definition assign_colors (txs : list Transaction) : list nat :=
  color_loop (build_conflict_graph txs) (build_index_map txs) 0 txs (replicate (length txs) 0%nat).

Definition group_by_color (colors : list nat) (txs : list Transaction) : gmap nat ParallelBatch :=
  foldl (fun m (ctx : nat * Transaction) =>
      <[ctx.1 := default [] (m !! ctx.1) ++ [ctx.2]]> m) ∅ (zip colors txs).

(** The sort key: the smallest original index in the batch. *)
Definition index_or_max (index_map : gmap TxId nat) (tx : Transaction) : Z :=
  match index_map !! hash tx with Some i => Z.of_nat i | None => u64_max end.
Definition batch_key (index_map : gmap TxId nat) (batch : ParallelBatch) : Z :=
  match index_or_max index_map <$> batch with
  | [] => u64_max
  | k :: ks => foldr Z.min k ks
  end.

Definition schedule_parallel_batches (txs : list Transaction) : list ParallelBatch :=
  sort_by_key (batch_key (build_index_map txs))
    (hm_iter (group_by_color (assign_colors txs) txs)).*2.

(** ** Overlays *)

Definition read_account (o : StateOverlay) (address : Address) (base : StateManager) : Account :=
  match o !! address with
  | Some a => a
  | None => default (Account_new 0 0) (manager_get_account base address)
  end.
Definition write_account (address : Address) (account : Account) (o : StateOverlay) : StateOverlay :=
  <[address := account]> o.

Record ContractStorageOverlay := {
  base : ContractStorage Db;
  modified : gmap Bytes Bytes
}.
#[local] Instance overlay_storage : Storage ContractStorageOverlay := {
  read o key := match modified o !! key with Some v => Some v | None => read (base o) key end;
  write key value o := Some {| base := base o; modified := <[key := value]> (modified o) |}
}.

Record Overlay := {
  state : StateOverlay;
  storage_overlay : ContractStorageOverlay;
  registry_updates : list (Address * Bytes)
}.

Definition Overlay_new (storage_base : ContractStorage Db) : Overlay :=
  {| state := ∅; storage_overlay := {| base := storage_base; modified := ∅ |};
     registry_updates := [] |}.

Definition with_state (s : StateOverlay) (o : Overlay) : Overlay :=
  {| state := s; storage_overlay := storage_overlay o; registry_updates := registry_updates o |}.
Definition with_storage (s : ContractStorageOverlay) (o : Overlay) : Overlay :=
  {| state := state o; storage_overlay := s; registry_updates := registry_updates o |}.
Definition push_registry (a : Address) (code : Bytes) (o : Overlay) : Overlay :=
  {| state := state o; storage_overlay := storage_overlay o;
     registry_updates := registry_updates o ++ [(a, code)] |}.

(** ** Executing one transaction *)

Record TransactionReceipt := {
  tx_hash : TxId;
  receipt_success : bool;
  gas_used : Z;
  receipt_error : option error
}.

Definition failed (tx : Transaction) (e : error) : TransactionReceipt :=
  {| tx_hash := hash tx; receipt_success := false; gas_used := 0; receipt_error := Some e |}.
Definition succeeded (tx : Transaction) (gas : Z) : TransactionReceipt :=
  {| tx_hash := hash tx; receipt_success := true; gas_used := gas; receipt_error := None |}.
Definition fail {A} (tx : Transaction) (msg : string) (o : A) : option (TransactionReceipt * A) :=
  Some (failed tx (Error msg []), o).

(** The closure [charge_fee]. *)
Definition charge_fee (tx : Transaction) (acc : Account) (used : Z) : result Account :=
  let fee := saturating_mul used (gas_price tx) in
  if balance acc <? fee then err "Insufficient balance for fee"
  else Ok (Account_new (saturating_sub (balance acc) fee) (account_nonce acc)).

Definition bump_nonce (acc : Account) : Account :=
  Account_new (balance acc) (u64_add (account_nonce acc) 1).

Definition execute_transfer (tx : Transaction) (to : Address) (amount : Z) (sender_acc : Account)
    (base_state : StateManager) (o : Overlay) : TransactionReceipt * Overlay :=
  let total := saturating_add amount (saturating_mul (gas_limit tx) (gas_price tx)) in
  if balance sender_acc <? total
  then (failed tx (Error "Insufficient balance for transfer" []), o)
  else
    let sender_acc := Account_new (saturating_sub (balance sender_acc) amount)
                        (u64_add (account_nonce sender_acc) 1) in
    let s := write_account (from tx) sender_acc (state o) in
    let recv_acc := read_account s to base_state in
    let recv_acc := Account_new (saturating_add (balance recv_acc) amount) (account_nonce recv_acc) in
    let s := write_account to recv_acc s in
    match charge_fee tx sender_acc (gas_limit tx) with
    | Err e => (failed tx e, with_state s o)
    | Ok sender_acc =>
        (succeeded tx (gas_limit tx), with_state (write_account (from tx) sender_acc s) o)
    end.

Definition execute_deploy (tx : Transaction) (wasm_code : Bytes) (sender_acc : Account)
    (base_state : StateManager) (o : Overlay) : option (TransactionReceipt * Overlay) :=
  let address := deploy_address wasm_code in
  match run_init wasm_code tx (storage_overlay o) with
  | None => None
  | Some (Err e, rt) => Some (failed tx e, with_storage (storage rt) o)
  | Some (Ok success, rt) =>
      let o := with_storage (storage rt) o in
      let used := used (gas_meter rt) in
      match charge_fee tx sender_acc used with
      | Err e => Some (failed tx e, o)
      | Ok sender_acc =>
          let o := with_state (write_account (from tx) (bump_nonce sender_acc) (state o)) o in
          if success then
            let o := push_registry address wasm_code o in
            Some (succeeded tx used,
                  with_state (write_account address (Account_new 0 0) (state o)) o)
          else fail tx "contract init failed" o
      end
  end.

Definition execute_call (tx : Transaction) (contract_address : Address) (method : Bytes)
    (sender_acc : Account) (base_registry : ContractRegistry Db) (o : Overlay)
    : option (TransactionReceipt * Overlay) :=
  match get_contract contract_address base_registry with
  | None => fail tx "Contract not found" o
  | Some contract =>
      match run_method (bytecode contract) contract_address method tx (storage_overlay o) with
      | None => None
      | Some (Err e, rt) => Some (failed tx e, with_storage (storage rt) o)
      | Some (Ok r, rt) =>
          let o := with_storage (storage rt) o in
          let used := used (gas_meter rt) in
          match charge_fee tx sender_acc used with
          | Err e => Some (failed tx e, o)
          | Ok sender_acc =>
              let o := with_state (write_account (from tx) (bump_nonce sender_acc) (state o)) o in
              match r with
              | Ok _ => Some (succeeded tx used, o)
              | Err e => Some (failed tx (Error "Contract call failed: {}" [ArgErr e]), o)
              end
          end
      end
  end.

Definition execute_transaction (tx : Transaction) (base_state : StateManager)
    (base_registry : ContractRegistry Db) (o : Overlay) : option (TransactionReceipt * Overlay) :=
  match Transaction.validate_basic tx with
  | Err e => Some (failed tx e, o)
  | Ok _ =>
      let sender_acc := read_account (state o) (from tx) base_state in
      if negb (account_nonce sender_acc =? nonce tx)
      then Some (failed tx (Error "Invalid nonce: expected {} got {}"
                   [ArgNum (account_nonce sender_acc); ArgNum (nonce tx)]), o)
      else
        match payload tx with
        | Transfer to amount => Some (execute_transfer tx to amount sender_acc base_state o)
        | ContractDeploy wasm_code _ => execute_deploy tx wasm_code sender_acc base_state o
        | ContractCall a method _ => execute_call tx a method sender_acc base_registry o
        end
  end.

(** ** Merging *)

Definition sort_by_first {A} (l : list (Bytes * A)) : list (Bytes * A) :=
  sort_by (fun a b => bytes_leb a.1 b.1) l.

Definition merge_accounts (o : StateOverlay) (global : StateManager) : StateManager :=
  refresh_root (foldl (fun st (kv : Address * Account) => put_account kv.1 kv.2 st) global
                  (sort_by_first (hm_iter o))).

Fixpoint merge_storage (entries : list (Bytes * Bytes)) (s : ContractStorage Db)
    : option (ContractStorage Db) :=
  match entries with
  | [] => Some s
  | (key, value) :: entries' =>
      match write key value s with None => None | Some s => merge_storage entries' s end
  end.

Definition merge_registry (regs : list (Address * Bytes)) (r : ContractRegistry Db)
    : ContractRegistry Db :=
  foldl (fun r (reg : Address * Bytes) => (register_contract reg.1 reg.2 r).2) r
    (sort_by_first regs).

Definition merge_overlay (o : Overlay) (ex : ContractExecutor Db) : option (ContractExecutor Db) :=
  match merge_storage (sort_by_first (hm_iter (modified (storage_overlay o)))) (contracts ex) with
  | None => None
  | Some s =>
      Some {| state_manager := merge_accounts (state o) (state_manager ex);
              registry := merge_registry (registry_updates o) (registry ex);
              contracts := s |}
  end.

(** ** Executing a block *)

Definition execute_in_overlay (ex : ContractExecutor Db) (tx : Transaction)
    : option (TxId * (Overlay * TransactionReceipt)) :=
  match execute_transaction tx (state_manager ex) (registry ex) (Overlay_new (contracts ex)) with
  | None => None
  | Some (receipt, o) => Some (hash tx, (o, receipt))
  end.

Fixpoint merge_results (results : list (TxId * (Overlay * TransactionReceipt)))
    (receipts : list TransactionReceipt) (ex : ContractExecutor Db)
    : option (list TransactionReceipt * ContractExecutor Db) :=
  match results with
  | [] => Some (receipts, ex)
  | (_, (o, receipt)) :: results' =>
      match (if receipt_success receipt then merge_overlay o ex else Some ex) with
      | None => None
      | Some ex => merge_results results' (receipts ++ [receipt]) ex
      end
  end.

Definition execute_batch (batch : ParallelBatch) (receipts : list TransactionReceipt)
    (ex : ContractExecutor Db) : option (list TransactionReceipt * ContractExecutor Db) :=
  match mapM (execute_in_overlay ex) batch with
  | None => None
  | Some results => merge_results (sort_by_first results) receipts ex
  end.

Fixpoint execute_batches (batches : list ParallelBatch) (receipts : list TransactionReceipt)
    (ex : ContractExecutor Db) : option (list TransactionReceipt * ContractExecutor Db) :=
  match batches with
  | [] => Some (receipts, ex)
  | batch :: batches' =>
      match execute_batch batch receipts ex with
      | None => None
      | Some (receipts, ex) => execute_batches batches' receipts ex
      end
  end.

Definition execute_block_transactions_parallel (txs : list Transaction) (ex : ContractExecutor Db)
    : option (list TransactionReceipt * ContractExecutor Db) :=
  execute_batches (schedule_parallel_batches txs) [] ex.
End Parallel.

(** ** The coloring is proper *)

Section Coloring.
Context `{Sha256} `{HashOrder}.
Implicit Types (edges : TxConflictGraph) (colors : list nat).

Definition neighbors edges (a : TxId) : gset TxId := default ∅ (edges !! a).

Lemma neighbors_add_edge a b c d edges :
  d ∈ neighbors (add_edge a b edges) c <-> d ∈ neighbors edges c \/ (c = a /\ d = b).
Proof.
  unfold neighbors, add_edge. rewrite lookup_insert. case_decide; subst; cbn [default from_option id].
  - rewrite elem_of_union, elem_of_singleton. naive_solver.
  - naive_solver.
Qed.

Lemma connect_mono x rest edges a :
  neighbors edges a ⊆ neighbors (connect x rest edges) a.
Proof.
  unfold connect. revert edges. induction rest as [|y rest IH]; intros edges; [done|].
  cbn [foldl]. etrans; [|apply IH]. destruct (transactions_conflict _ _); [|done].
  intros d Hd. rewrite !neighbors_add_edge. by do 2 left.
Qed.

Lemma connect_edge x y rest edges :
  y ∈ rest -> transactions_conflict x.2 y.2 = true ->
  x.1 ∈ neighbors (connect x rest edges) y.1.
Proof.
  intros Hin Hc. revert edges.
  induction Hin as [y rest|y z rest Hin IH]; intros edges; unfold connect; cbn [foldl].
  - rewrite Hc. apply (connect_mono x). rewrite neighbors_add_edge. by right.
  - by apply IH.
Qed.

Lemma connect_all_mono l edges a : neighbors edges a ⊆ neighbors (connect_all l edges) a.
Proof.
  revert edges. induction l as [|x l IH]; intros edges; [done|]. cbn [connect_all].
  etrans; [apply (connect_mono x l)|apply IH].
Qed.

Lemma connect_all_edge l i j x y edges :
  l !! i = Some x -> l !! j = Some y -> (i < j)%nat ->
  transactions_conflict x.2 y.2 = true -> x.1 ∈ neighbors (connect_all l edges) y.1.
Proof.
  revert i j edges. induction l as [|z l IH]; intros [|i] [|j] edges Hi Hj Hlt Hc;
    try done || lia; cbn in *.
  - simplify_eq. apply connect_all_mono, connect_edge; [|done].
    by apply (list_elem_of_lookup_2 _ j).
  - eapply (IH i j); eauto. lia.
Qed.

Lemma no_conflict_spec a b :
  transactions_conflict a b = false <->
  writes a ## writes b /\ writes a ## reads b /\ reads a ## writes b.
Proof.
  unfold transactions_conflict.
  destruct (bool_decide_reflect (writes a ## writes b)); [|split; [done|tauto]].
  destruct (bool_decide_reflect (writes a ## reads b)); [|split; [done|tauto]].
  destruct (bool_decide_reflect (reads a ## writes b)); [|split; [done|tauto]].
  by split.
Qed.

Lemma transactions_conflict_sym a b : transactions_conflict a b = transactions_conflict b a.
Proof.
  apply eq_bool_prop_intro. destruct (transactions_conflict a b) eqn:E1, (transactions_conflict b a) eqn:E2;
    try done.
  - apply no_conflict_spec in E2 as (? & ? & ?). rewrite <- E1, (proj2 (no_conflict_spec a b)); done.
  - apply no_conflict_spec in E1 as (? & ? & ?). rewrite <- E2, (proj2 (no_conflict_spec b a)); done.
Qed.

(** [first_free] finds a color outside the set. *)
Lemma first_free_free fuel (F : gset nat) c :
  (size (filter (fun x => c <= x)%nat F) < fuel)%nat -> first_free fuel F c ∉ F.
Proof.
  revert c. induction fuel as [|fuel IH]; intros c Hs; [lia|]. cbn [first_free].
  case_decide as Hc; [|done]. apply IH.
  assert (size (filter (fun x => S c <= x)%nat F) < size (filter (fun x => c <= x)%nat F))%nat; [|lia].
  apply subset_size. split.
  - intros x. rewrite !elem_of_filter. intros [? ?]. split; [lia|done].
  - intros Hsub. specialize (Hsub c). rewrite !elem_of_filter in Hsub.
    destruct Hsub as [? _]; [by split|]. lia.
Qed.

Lemma pick_color_free (F : gset nat) : pick_color F ∉ F.
Proof.
  apply first_free_free.
  assert (size (filter (fun x => 0 <= x)%nat F) <= size F)%nat; [|lia].
  apply subseteq_size. intros x. by rewrite elem_of_filter; intros [_ ?].
Qed.

(** Each color is picked against the final colors of the earlier indices. *)
Lemma color_loop_spec `{SecpOps} graph im i txs colors :
  length colors = (i + length txs)%nat ->
  let res := color_loop graph im i txs colors in
  length res = length colors /\
  (forall k, (k < i)%nat -> res !! k = colors !! k) /\
  (forall k tx, txs !! k = Some tx -> exists colors',
     (forall m, (m < i + k)%nat -> colors' !! m = res !! m) /\
     res !! (i + k)%nat = Some (pick_color (forbidden_colors graph im colors' (hash tx)))).
Proof.
  revert i colors. induction txs as [|t txs IH]; intros i colors Hl; cbn [color_loop].
  { split; [done|]. split; [done|]. intros k tx. by rewrite lookup_nil. }
  set (c := pick_color _). cbn [length] in Hl.
  destruct (IH (S i) (<[i := c]> colors)) as (Hlen & Hlow & Hpick);
    [rewrite length_insert; lia|].
  set (res := color_loop _ _ _ _ _) in *. rewrite length_insert in Hlen.
  split; [done|]. split.
  - intros k Hk. rewrite Hlow by lia. apply list_lookup_insert_ne. lia.
  - intros [|k] tx Htx; cbn in Htx.
    + simplify_eq. exists colors. rewrite Nat.add_0_r. split.
      * intros m Hm. rewrite Hlow by lia. rewrite list_lookup_insert_ne by lia. done.
      * rewrite Hlow by lia. rewrite list_lookup_insert_eq by lia. done.
    + destruct (Hpick k tx Htx) as (colors' & Hc' & Hp). exists colors'.
      replace (i + S k)%nat with (S i + k)%nat by lia. done.
Qed.
End Coloring.

Section Schedule.
Context `{Sha256} `{HashOrder} `{SecpOps} `{Wasmtime}.
Implicit Types txs : list Transaction.

(** With distinct hashes, [index_map] is the inverse of indexing. *)
Lemma index_map_lookup_from txs (s : nat) (m : gmap TxId nat) h i :
  NoDup (hash <$> txs) ->
  (foldl (fun m (itx : nat * Transaction) => <[hash itx.2 := itx.1]> m) m
    (zip (seq s (length txs)) txs)) !! h = Some i <->
  (exists k, i = (s + k)%nat /\ (hash <$> txs) !! k = Some h) \/
  (h ∉ hash <$> txs /\ m !! h = Some i).
Proof.
  revert s m. induction txs as [|t txs IH]; intros s m Hnd; cbn [zip zip_with seq length foldl].
  { cbn. split; [intros; right; split; [by apply not_elem_of_nil|done]|].
    intros [(k & _ & Hk)|[_ ?]]; done. }
  rewrite fmap_cons in Hnd. apply NoDup_cons in Hnd as [Hn Hnd].
  rewrite IH by done. rewrite fmap_cons, not_elem_of_cons. split.
  - intros [(k & -> & Hk)|[Hh Hm]].
    + left. exists (S k). split; [lia|done].
    + apply lookup_insert_Some in Hm as [[<- <-]|[Hne Hm]].
      * left. exists 0%nat. split; [cbn; lia|done].
      * right. cbn in Hne. split; [split; [congruence|done]|done].
  - intros [([|k] & -> & Hk)|[[Hne Hh] Hm]].
    + cbn in Hk. simplify_eq. right. split; [done|]. rewrite lookup_insert_eq. f_equal. cbn. lia.
    + left. exists k. split; [lia|done].
    + right. split; [done|]. by rewrite lookup_insert_ne.
Qed.

Lemma index_map_lookup txs i tx :
  NoDup (hash <$> txs) -> txs !! i = Some tx -> build_index_map txs !! hash tx = Some i.
Proof.
  intros Hnd Hi. unfold build_index_map. apply index_map_lookup_from; [done|].
  left. exists i. split; [done|]. by rewrite list_lookup_fmap, Hi.
Qed.

Lemma assign_colors_length txs : length (assign_colors txs) = length txs.
Proof.
  unfold assign_colors.
  destruct (color_loop_spec (build_conflict_graph txs) (build_index_map txs) 0 txs
    (replicate (length txs) 0%nat)) as (-> & _ & _); by rewrite length_replicate.
Qed.

(** Conflicting transactions get different colors. *)
Lemma assign_colors_proper txs i j ti tj :
  NoDup (hash <$> txs) -> txs !! i = Some ti -> txs !! j = Some tj -> (i < j)%nat ->
  transactions_conflict (analyze_access ti) (analyze_access tj) = true ->
  assign_colors txs !! i <> assign_colors txs !! j.
Proof.
  intros Hnd Hi Hj Hlt Hc Heq. unfold assign_colors in Heq.
  destruct (color_loop_spec (build_conflict_graph txs) (build_index_map txs) 0 txs
    (replicate (length txs) 0%nat)) as (Hlen & _ & Hp); [by rewrite length_replicate|].
  set (res := color_loop _ _ _ _ _) in *. rewrite length_replicate in Hlen.
  destruct (Hp j tj Hj) as (colors' & Hc' & Hpick). cbn [plus] in *.
  rewrite Hpick in Heq.
  assert (colors' !! i = res !! i) as Hci by by apply Hc'.
  apply (pick_color_free (forbidden_colors (build_conflict_graph txs) (build_index_map txs)
           colors' (hash tj))).
  assert (hash ti ∈ neighbors (build_conflict_graph txs) (hash tj)) as Hnb.
  { apply (connect_all_edge (tx_entry <$> txs) i j (tx_entry ti) (tx_entry tj));
      [by rewrite list_lookup_fmap, Hi|by rewrite list_lookup_fmap, Hj|done|done]. }
  revert Hci. rewrite Heq. generalize (pick_color (forbidden_colors (build_conflict_graph txs)
    (build_index_map txs) colors' (hash tj))) as c. intros c Hci.
  unfold forbidden_colors, neighbors in *.
  destruct (build_conflict_graph txs !! hash tj) as [nb|]; cbn [default from_option id] in Hnb;
    [|by apply not_elem_of_empty in Hnb].
  apply elem_of_list_to_set, list_elem_of_omap. exists (hash ti).
  split; [by apply elem_of_hs_iter|].
  by rewrite (index_map_lookup txs i ti) by done.
Qed.

(** ** Grouping *)

Definition batch_of (c : nat) (l : list (nat * Transaction)) : ParallelBatch :=
  (filter (fun p => p.1 = c) l).*2.

Lemma group_lookup (l : list (nat * Transaction)) (m : gmap nat ParallelBatch) c :
  let m' := foldl (fun m (ctx : nat * Transaction) =>
      <[ctx.1 := default [] (m !! ctx.1) ++ [ctx.2]]> m) m l in
  default [] (m' !! c) = default [] (m !! c) ++ batch_of c l /\
  (m' !! c = None <-> m !! c = None /\ batch_of c l = []).
Proof.
  cbv zeta. revert m. induction l as [|[c' t] l IH]; intros m; cbn [foldl fst snd].
  { unfold batch_of. rewrite filter_nil. cbn. rewrite app_nil_r. tauto. }
  destruct (IH (<[c' := default [] (m !! c') ++ [t]]> m)) as [IH1 IH2].
  rewrite IH1. unfold batch_of in *. rewrite filter_cons. cbn [fst snd] in *.
  rewrite IH2, lookup_insert. case_decide as Hc; [subst c'|].
  - cbn. rewrite <- app_assoc. split; [done|]. split; intros [? ?]; done.
  - tauto.
Qed.

Lemma group_spec colors txs c b :
  group_by_color colors txs !! c = Some b <->
  b = batch_of c (zip colors txs) /\ b <> [].
Proof.
  unfold group_by_color.
  pose proof (group_lookup (zip colors txs) ∅ c) as [G1 G2]. cbv zeta in *.
  rewrite lookup_empty in G1, G2. cbn [default from_option app] in G1.
  destruct (foldl _ _ _ !! c) as [b'|] eqn:E.
  - cbn in G1. subst b'. split.
    + intros [= <-]. split; [done|]. intros Hn. discriminate (proj2 G2 (conj eq_refl Hn)).
    + by intros [-> _].
  - destruct (proj1 G2 eq_refl) as [_ Hn]. split; [done|]. intros [-> ?]. done.
Qed.

Lemma concat_insert_perm (m : gmap nat ParallelBatch) c t :
  concat (map_to_list (<[c := default [] (m !! c) ++ [t]]> m)).*2 ≡ₚ
  concat (map_to_list m).*2 ++ [t].
Proof.
  destruct (m !! c) as [b|] eqn:Hc; cbn [default from_option].
  - rewrite <- insert_delete_eq, map_to_list_insert by apply lookup_delete_eq.
    rewrite <- (insert_delete_id m c b) at 2 by done.
    rewrite (map_to_list_insert (delete c m)) by apply lookup_delete_eq.
    cbn. rewrite <- !app_assoc. apply Permutation_app_head. apply Permutation_app_comm.
  - rewrite map_to_list_insert by done. cbn. apply Permutation_cons_append.
Qed.

Lemma group_concat (l : list (nat * Transaction)) (m : gmap nat ParallelBatch) :
  concat (map_to_list (foldl (fun m (ctx : nat * Transaction) =>
      <[ctx.1 := default [] (m !! ctx.1) ++ [ctx.2]]> m) m l)).*2 ≡ₚ
  concat (map_to_list m).*2 ++ l.*2.
Proof.
  revert m. induction l as [|[c t] l IH]; intros m; cbn [foldl fst snd]; [by rewrite app_nil_r|].
  rewrite IH, concat_insert_perm. by rewrite <- app_assoc.
Qed.

Lemma schedule_perm txs :
  schedule_parallel_batches txs ≡ₚ (map_to_list (group_by_color (assign_colors txs) txs)).*2.
Proof. unfold schedule_parallel_batches, sort_by_key. by rewrite sort_by_perm, hm_iter_perm. Qed.

Lemma elem_of_schedule txs b :
  b ∈ schedule_parallel_batches txs <->
  exists c, b = batch_of c (zip (assign_colors txs) txs) /\ b <> [].
Proof.
  rewrite schedule_perm, list_elem_of_fmap. split.
  - intros ([c b'] & -> & Hin%elem_of_map_to_list). exists c. by apply group_spec.
  - intros (c & Hb). exists (c, b). split; [done|]. by apply elem_of_map_to_list, group_spec.
Qed.

Lemma elem_of_batch_of c colors txs tx :
  length colors = length txs ->
  tx ∈ batch_of c (zip colors txs) <->
  exists i, txs !! i = Some tx /\ colors !! i = Some c.
Proof.
  intros Hl. unfold batch_of. rewrite list_elem_of_fmap. split.
  - intros ([c' t] & -> & Hin). apply list_elem_of_filter in Hin as [Hc Hin]. cbn in Hc. subst c'.
    apply list_elem_of_lookup in Hin as [i Hi].
    apply lookup_zip_with_Some in Hi as (x & y & [= -> ->] & ? & ?). by exists i.
  - intros (i & Ht & Hc). exists (c, tx). split; [done|]. apply list_elem_of_filter.
    split; [done|]. apply list_elem_of_lookup. exists i.
    apply lookup_zip_with_Some. by exists c, tx.
Qed.

Lemma batch_of_sublist c colors txs : batch_of c (zip colors txs) `sublist_of` txs.
Proof.
  unfold batch_of. etrans; [apply fmap_sublist, sublist_filter|].
  revert txs. induction colors as [|c' colors IH]; intros [|t txs]; cbn;
    [apply sublist_nil_l..|]. by constructor.
Qed.

Lemma concat_perm {A} (l k : list (list A)) : l ≡ₚ k -> concat l ≡ₚ concat k.
Proof.
  induction 1 as [|x l k _ IH|x y l|l k m _ IH1 _ IH2]; cbn; [done|by rewrite IH| |by etrans].
  rewrite !app_assoc. apply Permutation_app_tail, Permutation_app_comm.
Qed.

(** C16: the scheduler runs every transaction exactly once and never puts
    two conflicting ones together: for a block of transactions with distinct
    hashes, the batches are a partition of the block; each is non-empty, keeps the
    block order, and any two different members of one batch have disjoint write
    sets, neither reading what the other writes. *)
Theorem schedule_spec txs :
  NoDup (hash <$> txs) ->
  concat (schedule_parallel_batches txs) ≡ₚ txs /\
  forall b, b ∈ schedule_parallel_batches txs ->
    b <> [] /\ b `sublist_of` txs /\
    forall t t', t ∈ b -> t' ∈ b -> t <> t' ->
      transactions_conflict (analyze_access t) (analyze_access t') = false.
Proof.
  intros Hnd. split.
  - rewrite (concat_perm _ _ (schedule_perm txs)). unfold group_by_color.
    rewrite group_concat, map_to_list_empty. cbn [fmap list_fmap concat app].
    rewrite snd_zip; [done|]. by rewrite assign_colors_length.
  - intros b (c & Hb & Hne)%elem_of_schedule. subst b. split; [done|].
    split; [apply batch_of_sublist|]. intros t t'.
    rewrite !elem_of_batch_of by apply assign_colors_length.
    intros (i & Hi & Hci) (j & Hj & Hcj) Hdiff.
    destruct (transactions_conflict _ _) eqn:Hc; [exfalso|done].
    assert (i <> j) as Hij by (intros ->; congruence).
    assert (i < j \/ j < i)%nat as [Hlt|Hlt] by lia.
    + apply (assign_colors_proper txs i j t t'); [done..|congruence].
    + rewrite transactions_conflict_sym in Hc.
      apply (assign_colors_proper txs j i t' t); [done..|congruence].
Qed.
End Schedule.

(** ** Transfers: batches are serializable *)

Section Serial.
Context `{Sha256} `{SecpOps} `{HashOrder} `{Wasmtime} {Db : Type} `{KvStore Db} `{Codec ContractInfo}.
Implicit Types (ex : ContractExecutor Db) (tx : Transaction) (m : gmap Address Account).

Abbreviation result_of := (TxId * (Overlay (Db := Db) * TransactionReceipt))%type.

(** The accounts a transfer names. *)
Definition touched tx : gset Address :=
  match payload tx with Transfer to _ => {[from tx; to]} | _ => {[from tx]} end.

(** Two account tables that agree on [s]. *)
Definition agree (s : gset Address) m m' : Prop := forall a, a ∈ s -> m !! a = m' !! a.

Definition transfer_overlay (s : StateOverlay) ex : Overlay :=
  with_state s (Overlay_new (contracts ex)).

Lemma read_account_agree (o : StateOverlay) a s st st' :
  agree s (accounts st) (accounts st') -> a ∈ s -> read_account o a st = read_account o a st'.
Proof.
  intros Ha Hin. unfold read_account, manager_get_account, get_account.
  specialize (Ha a Hin). unfold accounts in Ha. by rewrite Ha.
Qed.

Lemma dom_nothing (s : gset Address) : dom (∅ : StateOverlay) ⊆ s.
Proof. intros x [y Hy]%elem_of_dom. by rewrite lookup_empty in Hy. Qed.

(** A transfer reads and writes only the two accounts it names: its receipt and
    its overlay are the same over any state that agrees on them. *)
Lemma transfer_frame tx ex :
  is_transfer tx ->
  exists r s, execute_in_overlay ex tx = Some (hash tx, (transfer_overlay s ex, r)) /\
    dom s ⊆ touched tx /\
    forall ex', contracts ex' = contracts ex ->
      agree (touched tx) (accounts (state_manager ex)) (accounts (state_manager ex')) ->
      execute_in_overlay ex' tx = Some (hash tx, (transfer_overlay s ex, r)).
Proof.
  unfold is_transfer, execute_in_overlay, execute_transaction, touched.
  destruct (payload tx) as [to amount| |] eqn:Hpl; [intros _|done..].
  destruct (Transaction.validate_basic tx) as [[]|e].
  2:{ eexists _, ∅. split; [reflexivity|]. split; [apply dom_nothing|]. intros ex' -> _. done. }
  cbn [state Overlay_new].
  set (sender := read_account ∅ (from tx) (state_manager ex)).
  assert (forall ex', agree {[from tx; to]} (accounts (state_manager ex)) (accounts (state_manager ex')) ->
    read_account ∅ (from tx) (state_manager ex') = sender) as Hsender.
  { intros ex' Ha. symmetry. eapply read_account_agree; [done|].
    by apply elem_of_union_l, elem_of_singleton. }
  destruct (account_nonce sender =? nonce tx) eqn:Hn; cbn [negb].
  2:{ eexists _, ∅. split; [reflexivity|]. split; [apply dom_nothing|]. intros ex' -> Ha.
      by rewrite Hsender, Hn. }
  assert (exists r s, forall ex',
    agree {[from tx; to]} (accounts (state_manager ex)) (accounts (state_manager ex')) ->
    execute_transfer tx to amount sender (state_manager ex') (Overlay_new (contracts ex)) =
      (r, transfer_overlay s ex) /\ dom s ⊆ {[from tx; to]}) as (r & s & Hrs).
  { unfold execute_transfer. destruct (balance sender <? _).
    { eexists _, ∅. intros ex' _. split; [reflexivity|apply dom_nothing]. }
    set (sender1 := Account_new _ _).
    destruct (charge_fee tx sender1 (gas_limit tx)) as [sender2|e];
      (eexists _, _; intros ex' Ha; rewrite <- (read_account_agree _ to _ _ _ Ha)
         by (by apply elem_of_union_r, elem_of_singleton);
       split; [reflexivity|]); unfold write_account; cbn [state Overlay_new];
       intros x [y Hy]%elem_of_dom; rewrite !lookup_insert in Hy; rewrite elem_of_union, !elem_of_singleton;
       repeat case_decide; subst; try tauto; by rewrite lookup_empty in Hy. }
  exists r, s. destruct (Hrs ex) as [Hr Hd]; [done|]. rewrite Hr. split; [done|]. split; [done|].
  intros ex' -> Ha. rewrite Hsender, Hn by done. cbn [negb].
  by rewrite (proj1 (Hrs ex' Ha)).
Qed.


(** *** Merging *)

Lemma foldl_put_accounts (l : list (Address * Account)) st :
  NoDup l.*1 ->
  accounts (foldl (fun st (kv : Address * Account) => put_account kv.1 kv.2 st) st l) =
  list_to_map l ∪ accounts st.
Proof.
  revert st. induction l as [|[a acc] l IH]; intros st Hnd; cbn [foldl fst snd].
  { cbn. by rewrite map_empty_union. }
  apply NoDup_cons in Hnd as [Hn Hnd]. rewrite IH by done.
  rewrite put_account_accounts. cbn. rewrite <- insert_union_l, <- insert_union_r; [done|].
  by apply not_elem_of_list_to_map_1.
Qed.

Lemma merge_accounts_accounts s st : accounts (merge_accounts s st) = s ∪ accounts st.
Proof.
  unfold merge_accounts. rewrite refresh_root_accounts, foldl_put_accounts.
  - f_equal. unfold sort_by_first. rewrite <- (list_to_map_to_list s) at 2.
    apply list_to_map_proper; [|by rewrite sort_by_perm, hm_iter_perm].
    rewrite sort_by_perm. apply NoDup_hm_iter_fst.
  - unfold sort_by_first. rewrite sort_by_perm. apply NoDup_hm_iter_fst.
Qed.

Definition merge_transfer (s : StateOverlay) ex : ContractExecutor Db :=
  {| state_manager := merge_accounts s (state_manager ex); registry := registry ex;
     contracts := contracts ex |}.

Lemma hm_iter_empty {K V} `{Countable K} : hm_iter (∅ : gmap K V) = [].
Proof. apply Permutation_nil. by rewrite hm_iter_perm, map_to_list_empty. Qed.

Lemma merge_overlay_transfer s ex0 ex :
  merge_overlay (transfer_overlay s ex0) ex = Some (merge_transfer s ex).
Proof.
  unfold merge_overlay, transfer_overlay. cbn [storage_overlay modified with_state Overlay_new].
  by rewrite hm_iter_empty.
Qed.

(** *** The account table after merging overlays in some order *)

Definition apply_overlays (os : list StateOverlay) m : gmap Address Account :=
  foldl (fun m o => o ∪ m) m os.




(** *** Outcomes *)

(** The receipt of a transfer over [ex] and the accounts it changes. *)
Definition transfer_outcome ex tx : TransactionReceipt * StateOverlay :=
  match execute_in_overlay ex tx with
  | Some (_, (o, r)) => (r, state o)
  | None => (failed tx (Error "" []), ∅)
  end.
Definition account_effect ex tx : StateOverlay :=
  if receipt_success (transfer_outcome ex tx).1 then (transfer_outcome ex tx).2 else ∅.
Definition transfer_result ex tx : result_of :=
  (hash tx, (transfer_overlay (transfer_outcome ex tx).2 ex, (transfer_outcome ex tx).1)).

Lemma transfer_outcome_frame tx ex :
  is_transfer tx ->
  execute_in_overlay ex tx = Some (transfer_result ex tx) /\
  dom (account_effect ex tx) ⊆ touched tx /\
  forall ex', contracts ex' = contracts ex ->
    agree (touched tx) (accounts (state_manager ex)) (accounts (state_manager ex')) ->
    transfer_result ex' tx = transfer_result ex tx /\ account_effect ex' tx = account_effect ex tx.
Proof.
  intros Ht. destruct (transfer_frame tx ex Ht) as (r & s & Hr & Hd & Hf).
  unfold account_effect, transfer_result, transfer_outcome. rewrite Hr. cbn.
  split; [done|]. split; [by destruct (receipt_success r); [|apply dom_nothing]|].
  intros ex' Hc Ha. rewrite (Hf ex' Hc Ha). cbn. unfold transfer_overlay. by rewrite Hc.
Qed.

(** *** States determined by their accounts *)

Definition canonical (st : StateManager) : Prop :=
  state_tree st = rebuild_tree (state_tree st) /\
  current_state_root st = calculate_root (state_tree st).

Lemma rebuild_tree_leaves t t' : leaves t = leaves t' -> rebuild_tree t = rebuild_tree t'.
Proof. unfold rebuild_tree. by intros ->. Qed.


Lemma rebuild_tree_idemp t : rebuild_tree t = rebuild_tree (rebuild_tree t).
Proof. apply rebuild_tree_leaves. unfold rebuild_tree. by case_decide. Qed.

Lemma merge_accounts_canonical s st : canonical st -> canonical (merge_accounts s st).
Proof.
  intros [Ht _]. split; [|done]. unfold merge_accounts. cbn [refresh_root state_tree].
  generalize (sort_by_first (hm_iter s)) as l. intros l. revert st Ht.
  induction l as [|[a acc] l IH]; intros st Ht; [done|]. cbn [foldl fst snd]. apply IH.
  cbn [put_account state_tree]. unfold update_account. apply rebuild_tree_idemp.
Qed.

(** [ex'] is [ex] with another account table. *)
Definition becomes ex m ex' : Prop :=
  accounts (state_manager ex') = m /\ registry ex' = registry ex /\ contracts ex' = contracts ex /\
  (canonical (state_manager ex) -> canonical (state_manager ex')).


Lemma becomes_trans ex1 m2 ex2 m3 ex3 :
  becomes ex1 m2 ex2 -> becomes ex2 m3 ex3 -> becomes ex1 m3 ex3.
Proof.
  intros (Ha & Hr & Hs & Hk) (Ha' & Hr' & Hs' & Hk').
  split; [done|]. split; [congruence|]. split; [congruence|]. auto.
Qed.

Lemma becomes_merge ex tx ex0 :
  exists ex', (if receipt_success (transfer_outcome ex0 tx).1
               then merge_overlay (transfer_overlay (transfer_outcome ex0 tx).2 ex0) ex
               else Some ex) = Some ex' /\
    becomes ex (account_effect ex0 tx ∪ accounts (state_manager ex)) ex'.
Proof.
  unfold account_effect. destruct (receipt_success _).
  - rewrite merge_overlay_transfer. eexists. split; [reflexivity|].
    split; [apply merge_accounts_accounts|]. split; [done|]. split; [done|].
    apply merge_accounts_canonical.
  - eexists. split; [reflexivity|]. split; [by rewrite map_empty_union|done].
Qed.

Lemma merge_results_transfers l rs ex0 ex :
  exists ex', merge_results (transfer_result ex0 <$> l) rs ex =
    Some (rs ++ ((fun tx => (transfer_outcome ex0 tx).1) <$> l), ex') /\
    becomes ex (apply_overlays (account_effect ex0 <$> l) (accounts (state_manager ex))) ex'.
Proof.
  revert rs ex. induction l as [|tx l IH]; intros rs ex.
  { exists ex. cbn. rewrite app_nil_r. done. }
  cbn [fmap list_fmap merge_results transfer_result].
  destruct (becomes_merge ex tx ex0) as (ex1 & -> & Hb1).
  destruct (IH (rs ++ [(transfer_outcome ex0 tx).1]) ex1) as (ex' & -> & Hb2).
  exists ex'. rewrite <- app_assoc. split; [done|].
  rewrite (proj1 Hb1) in Hb2. by apply (becomes_trans _ _ _ _ _ Hb1 Hb2).
Qed.

Lemma mapM_transfers l ex :
  Forall is_transfer l -> mapM (execute_in_overlay ex) l = Some (transfer_result ex <$> l).
Proof.
  induction 1 as [|tx l Ht _ IH]; [done|]. cbn [mapM].
  rewrite (proj1 (transfer_outcome_frame tx ex Ht)), IH. done.
Qed.



(** ** One transfer, in parallel and sequentially *)

Lemma single_transfer tx rs ex :
  is_transfer tx ->
  exists ex', execute_batch [tx] rs ex = Some (rs ++ [(transfer_outcome ex tx).1], ex') /\
    becomes ex (account_effect ex tx ∪ accounts (state_manager ex)) ex'.
Proof.
  intros Ht. unfold execute_batch. rewrite mapM_transfers by (by constructor).
  exact (merge_results_transfers [tx] rs ex ex).
Qed.

(** The outcome of a transfer whose sender can pay: [after] is the sender's
    account once it has paid. *)
Lemma transfer_outcome_cases tx to amount ex :
  let st := state_manager ex in
  let cost := saturating_add amount (saturating_mul (gas_limit tx) (gas_price tx)) in
  payload tx = Transfer to amount -> Transaction.validate_basic tx = Ok tt ->
  leaves_ok (accounts st) -> total_balance (accounts st) < u64_max -> tx_wf tx ->
  (~ transfer_allowed (accounts st) (from tx) amount (nonce tx) cost /\
   receipt_success (transfer_outcome ex tx).1 = false) \/
  (transfer_allowed (accounts st) (from tx) amount (nonce tx) cost /\
   receipt_success (transfer_outcome ex tx).1 = true /\ cost = amount + fee_of tx /\
   let b := balance_of (accounts st) (from tx) in
   let paid := Account_new (b - amount) (u64_add (nonce tx) 1) in
   let m1 := <[from tx := paid]> (∅ : StateOverlay) in
   account_effect ex tx =
     <[from tx := Account_new (b - amount - fee_of tx) (u64_add (nonce tx) 1)]>
       (<[to := Account_new (saturating_add (balance (read_account m1 to st)) amount)
                  (account_nonce (read_account m1 to st))]> m1)).
Proof.
  intros st cost Hpl Hv Hok Htot (_ & Hp & _ & Hl & Hg). rewrite Hpl in Hp. destruct Hp as [_ Ham].
  unfold account_effect, transfer_outcome, execute_in_overlay, execute_transaction.
  rewrite Hv, Hpl. fold st. cbn [state Overlay_new].
  change (read_account ∅ (from tx) st) with (account_or_zero st (from tx)).
  pose proof (account_or_zero_balance st (from tx)) as Hb.
  pose proof (balance_of_le_total _ (from tx) Hok) as Hbr.
  unfold transfer_allowed. change (default _ _) with (account_or_zero st (from tx)).
  destruct (Z.eqb_spec (account_nonce (account_or_zero st (from tx))) (nonce tx)) as [Hn|Hn];
    cbn [negb]; [|left; split; [tauto|done]].
  unfold execute_transfer. fold cost. rewrite Hb.
  destruct (Z.ltb_spec (balance_of (accounts st) (from tx)) cost); [left; split; [lia|done]|].
  assert (amount <> 0) as Ha0.
  { apply Transaction.validate_basic_spec in Hv as (_ & _ & Hv & _). by apply (Hv to). }
  unfold is_u64 in Ham.
  assert (amount + fee_of tx <= balance_of (accounts st) (from tx)) as Hle
    by (apply (saturating_cost tx amount); unfold is_u64; done || lia).
  assert (cost = amount + fee_of tx) as Hcost
    by (apply (saturating_cost_eq tx amount (balance_of (accounts st) (from tx)));
        unfold is_u64; done || lia).
  assert (saturating_mul (gas_limit tx) (gas_price tx) = fee_of tx) as Hfee.
  { unfold saturating_mul, fee_of in *. lia. }
  assert (0 <= fee_of tx) by (unfold fee_of, is_u64 in *; nia).
  right. unfold charge_fee. cbn [balance account_nonce Account_new]. rewrite Hfee.
  assert (saturating_sub (balance_of (accounts st) (from tx)) amount =
    balance_of (accounts st) (from tx) - amount) as -> by (unfold saturating_sub; lia).
  rewrite (proj2 (Z.ltb_ge _ _)) by lia. cbn [receipt_success succeeded fst snd state with_state].
  assert (saturating_sub (balance_of (accounts st) (from tx) - amount) (fee_of tx) =
    balance_of (accounts st) (from tx) - amount - fee_of tx) as -> by (unfold saturating_sub; lia).
  rewrite Hn. done.
Qed.

(** On a transfer between two different accounts the parallel executor
    agrees with the sequential one: for a transaction with a valid signature, it
    succeeds exactly when [apply_transaction] does, and then leaves the same
    accounts. *)
Theorem parallel_transfer_agrees tx to amount rs ex :
  state_ok (state_manager ex) -> tx_wf tx -> payload tx = Transfer to amount -> from tx <> to ->
  Transaction.validate_basic tx = Ok tt -> total_balance (accounts (state_manager ex)) < u64_max ->
  let '(r, st') := apply_transaction tx (state_manager ex) in
  exists rec ex', execute_batch [tx] rs ex = Some (rs ++ [rec], ex') /\
    receipt_success rec = is_ok r /\ accounts (state_manager ex') = accounts st'.
Proof.
  intros [[Hok _] _] Hwf Hpl Hne Hv Htot. fold (accounts (state_manager ex)) in Hok.
  destruct (single_transfer tx rs ex) as (ex' & He & Hm & _); [unfold is_transfer; by rewrite Hpl|].
  pose proof (transfer_outcome_cases tx to amount ex Hpl Hv Hok Htot Hwf) as Hcases.
  unfold apply_transaction. rewrite Hpl.
  destruct (apply_transfer_cases (from tx) to amount (nonce tx)
    (saturating_mul (gas_limit tx) (gas_price tx)) (state_manager ex))
    as [(e & -> & Hna)|(Hal & st' & -> & Hst' & _)]; (eexists _, _; split; [exact He|]).
  - destruct Hcases as [(_ & Hs)|(? & _)]; [|done]. split; [done|].
    rewrite Hm. unfold account_effect. rewrite Hs. by rewrite map_empty_union.
  - destruct Hcases as [(? & _)|(_ & Hs & Hcost & Heff)]; [done|]. split; [done|].
    rewrite Hm, Heff, Hst'. rewrite Hcost, account_or_zero_balance.
    destruct Hal as (Ha0 & Hn & Hle). rewrite Hcost in Hle.
    change (default _ _) with (account_or_zero (state_manager ex) (from tx)) in Hn. rewrite Hn.
    pose proof (balance_of_le_total _ (from tx) Hok) as Hbf.
    pose proof Hwf as (_ & Hp & _ & Hl & Hg). rewrite Hpl in Hp. destruct Hp as [_ Ham].
    assert (0 <= fee_of tx) by (unfold fee_of, is_u64 in *; nia). unfold is_u64 in Ham.
    rewrite u64_sub_small by lia.
    rewrite !balance_of_insert, !decide_False by done. rewrite lookup_insert_ne by done.
    unfold read_account, manager_get_account. rewrite lookup_insert_ne, lookup_empty by done.
    fold (account_or_zero (state_manager ex) to). rewrite account_or_zero_balance.
    pose proof (balance_of_two _ (from tx) to Hok Hne) as Hb2.
    pose proof (balance_of_le_total _ to Hok) as Hbt.
    assert (saturating_add (balance_of (accounts (state_manager ex)) to) amount =
      u64_add (balance_of (accounts (state_manager ex)) to) amount) as ->.
    { rewrite u64_add_small by lia. unfold saturating_add. lia. }
    rewrite Z.sub_add_distr.
    rewrite <- !insert_union_l, map_empty_union.
    rewrite !(insert_insert_ne _ to (from tx)) by done. by rewrite insert_insert_eq.
Qed.

(** A transfer to oneself burns the amount: when the sender can pay, the
    parallel executor reports success, and the sender's account has lost the
    amount as well as the fee, which the sequential executor would not take. *)
Theorem self_transfer_burns tx amount rs ex :
  state_ok (state_manager ex) -> tx_wf tx -> payload tx = Transfer (from tx) amount ->
  Transaction.validate_basic tx = Ok tt -> total_balance (accounts (state_manager ex)) < u64_max ->
  transfer_allowed (accounts (state_manager ex)) (from tx) amount (nonce tx) (amount + fee_of tx) ->
  exists rec ex', execute_batch [tx] rs ex = Some (rs ++ [rec], ex') /\
    receipt_success rec = true /\
    get_balance (state_manager ex') (from tx) =
      get_balance (state_manager ex) (from tx) - amount - fee_of tx /\
    get_balance (apply_transaction tx (state_manager ex)).2 (from tx) =
      get_balance (state_manager ex) (from tx) - fee_of tx.
Proof.
  intros Hst Hwf Hpl Hv Htot Hal. pose proof Hst as [[Hok _] _].
  fold (accounts (state_manager ex)) in Hok.
  destruct (single_transfer tx rs ex) as (ex' & He & Hm & _); [unfold is_transfer; by rewrite Hpl|].
  eexists _, _. split; [exact He|].
  pose proof (transfer_outcome_cases tx (from tx) amount ex Hpl Hv Hok Htot Hwf) as Hcases.
  pose proof Hwf as (_ & Hp & _ & Hl & Hg). rewrite Hpl in Hp. destruct Hp as [_ Ham].
  pose proof (balance_of_le_total _ (from tx) Hok) as Hbf. destruct Hal as (Ha0 & Hn & Hle).
  destruct Hcases as [(Hna & _)|(_ & Hs & _ & Heff)].
  { exfalso. apply Hna. split; [done|]. split; [done|].
    apply (saturating_cost tx amount); unfold is_u64 in *; done || lia. }
  split; [done|]. split.
  - rewrite !get_balance_accounts, Hm, Heff, <- !insert_union_l, balance_of_insert.
    by rewrite decide_True.
  - pose proof (transfer_spec (state_manager ex) tx (from tx) amount Hst Hwf Hpl Htot)
      as Hseq. destruct (apply_transaction tx (state_manager ex)) as [r st'].
    destruct Hseq as (Hiff & _ & Hgood).
    destruct Hgood as (_ & Hb & _); [by apply Hiff|]. cbn [snd]. rewrite Hb, !decide_True by done.
    lia.
Qed.

(** A successful deployment resets the account at the contract's
    address. Since the address depends on the code only, deploying code that is
    already deployed succeeds too, and whatever balance and nonce the account had
    are gone. *)
Theorem deploy_resets_account tx code args rs ex rec ex' :
  payload tx = ContractDeploy code args ->
  execute_batch [tx] rs ex = Some (rs ++ [rec], ex') -> receipt_success rec = true ->
  accounts (state_manager ex') !! deploy_address code = Some (Account_new 0 0).
Proof.
  intros Hpl He Hs. unfold execute_batch in He. cbn [mapM mbind] in He.
  unfold execute_in_overlay, execute_transaction in He. rewrite Hpl in He.
  assert (forall r o, merge_results (sort_by_first [(hash tx, (o, r))]) rs ex = Some (rs ++ [rec], ex') ->
    r = rec /\ merge_overlay o ex = Some ex') as Hmerge.
  { intros r o Hm. change (sort_by_first [_]) with [(hash tx, (o, r))] in Hm. cbn [merge_results] in Hm.
    destruct (if receipt_success r then merge_overlay o ex else Some ex) as [ex1|] eqn:Hx; [|done].
    injection Hm as Hr <-. apply app_inv_head in Hr. injection Hr as ->. by rewrite Hs in Hx. }
  assert (forall e, merge_results (sort_by_first [(hash tx, (Overlay_new (contracts ex), failed tx e))])
    rs ex = Some (rs ++ [rec], ex') -> False) as Hfail.
  { intros e Hm. apply Hmerge in Hm as [<- _]. done. }
  destruct (Transaction.validate_basic tx) as [[]|e]; [|by apply Hfail in He].
  destruct (negb _); [by apply Hfail in He|]. unfold execute_deploy in He.
  destruct (run_init code tx _) as [[[ok|e] rt]|]; [| |done].
  2:{ apply Hmerge in He as [<- _]. done. }
  destruct (charge_fee _ _ _) as [acc|e]; [|apply Hmerge in He as [<- _]; done].
  destruct ok; [|apply Hmerge in He as [<- _]; done].
  apply Hmerge in He as [_ Ho]. unfold merge_overlay in Ho.
  destruct (merge_storage _ _) as [s|]; [|done]. injection Ho as <-. cbn [state_manager].
  rewrite merge_accounts_accounts. cbn [state with_state push_registry].
  apply lookup_union_Some_l. unfold write_account. by rewrite lookup_insert_eq.
Qed.
End Serial.

(** ** Witnesses *)

#[local] Existing Instance checksum_sha.
#[local] Existing Instance canonical_order.
#[local] Existing Instance toy_secp.

Definition key_address (sk : bool) : Address := address_of (sk : PublicKey).
Definition signed (sk : bool) (tx : Transaction) : Transaction := unwrap_or (sign tx sk) default_transfer.
Definition signed_transfer (sk : bool) (to : Address) (amount n : Z) : Transaction :=
  signed sk (new_transfer (key_address sk) to amount n 100 1).

(** Two accounts with 1000 each. *)
Definition funded_with (a b : Address) : StateManager :=
  refresh_root (put_account a (Account_new 1000 0)
    (put_account b (Account_new 1000 0) StateManager.new)).
Definition funded_state : StateManager := funded_with (key_address true) (key_address false).
Definition funded : ContractExecutor MemDb :=
  {| state_manager := funded_state; registry := Build_ContractRegistry ∅;
     contracts := Build_ContractStorage ∅ |}.

(** An unrelated transfer, and two consecutive transfers of another sender. *)
Definition other_tx : Transaction := signed_transfer false (replicate 20 5) 10 0.
Definition first_tx : Transaction := signed_transfer true (replicate 20 6) 10 0.
Definition second_tx : Transaction := signed_transfer true (replicate 20 7) 10 1.

(** The parallel executor does not preserve the order of conflicting
    transactions. In the block of an unrelated transfer followed by two transfers
    of one sender with consecutive nonces, the two conflict, and yet the second
    runs before the first (it shares a batch with the unrelated one) and is
    rejected for its nonce; run sequentially, the three succeed. The receipts come
    in the order of execution. *)
Theorem schedule_reorders_conflicts :
  let txs := [other_tx; first_tx; second_tx] in
  transactions_conflict (analyze_access first_tx) (analyze_access second_tx) = true /\
  schedule_parallel_batches txs = [[other_tx; second_tx]; [first_tx]] /\
  match execute_block_transactions_parallel txs funded with
  | Some (receipts, _) =>
      map receipt_success receipts = [true; false; true] /\
      map tx_hash receipts = [hash other_tx; hash second_tx; hash first_tx]
  | None => False
  end /\
  match execute_loop txs 0 0 funded with
  | Some ((executed, success, _), _) => executed = 3%nat /\ success = true
  | None => False
  end.
Proof. vm_compute. repeat split; reflexivity. Qed.

Lemma put_canonical a acc st : canonical (refresh_root (put_account a acc st)).
Proof.
  unfold canonical. cbn [refresh_root put_account state_tree current_state_root].
  split; [unfold update_account; apply rebuild_tree_idemp|reflexivity].
Qed.

Lemma funded_with_ok a b :
  length a = 20%nat -> length b = 20%nat ->
  state_ok (funded_with a b) /\ canonical (funded_with a b).
Proof.
  intros Ha Hb. split; [apply refresh_state_ok|apply put_canonical].
  apply put_account_tree_ok; [done|split; vm_compute; split; discriminate|].
  apply put_account_tree_ok; [done|split; vm_compute; split; discriminate|].
  apply new_ok.
Qed.

Lemma key_address_length sk : length (key_address sk) = 20%nat.
Proof. by destruct sk; vm_compute. Qed.

Lemma funded_ok : state_ok funded_state /\ canonical funded_state.
Proof. apply funded_with_ok; apply key_address_length. Qed.

Lemma funded_total : total_balance (accounts funded_state) = 2000.
Proof. vm_compute. reflexivity. Qed.

Lemma signed_wf sk tx : tx_wf tx -> tx_wf (signed sk tx).
Proof.
  intros Hwf. unfold signed, sign. destruct (message_from_digest _); cbn [unwrap_or errorf].
  - by destruct (serialize_compact _).
  - repeat split; done.
Qed.

Lemma signed_transfer_wf sk to amount n :
  length to = 20%nat -> is_u64 amount -> is_u64 n -> tx_wf (signed_transfer sk to amount n).
Proof.
  intros Ht Ha Hn. apply signed_wf. split; [apply key_address_length|].
  split; [by split|]. split; [done|]. split; split; vm_compute; discriminate.
Qed.

Lemma schedule_spec_witness :
  let txs := [other_tx; first_tx; second_tx] in
  concat (schedule_parallel_batches txs) ≡ₚ txs /\
  forall b, b ∈ schedule_parallel_batches txs ->
    b <> [] /\ b `sublist_of` txs /\
    forall t t', t ∈ b -> t' ∈ b -> t <> t' ->
      transactions_conflict (analyze_access t) (analyze_access t') = false.
Proof.
  apply (schedule_spec [other_tx; first_tx; second_tx]).
  refine (@bool_decide_unpack _ (@NoDup_dec _ _ _) _). vm_compute. exact I.
Defined.



Lemma parallel_transfer_agrees_witness :
  let '(r, st') := apply_transaction first_tx funded_state in
  exists rec ex', execute_batch [first_tx] [] funded = Some ([] ++ [rec], ex') /\
    receipt_success rec = is_ok r /\ accounts (state_manager ex') = accounts st'.
Proof.
  apply (parallel_transfer_agrees first_tx (replicate 20 6) 10 [] funded).
  - apply funded_ok.
  - apply signed_transfer_wf; [reflexivity|split; vm_compute; discriminate..].
  - vm_compute. reflexivity.
  - vm_compute. discriminate.
  - vm_compute. reflexivity.
  - change (state_manager funded) with funded_state. rewrite funded_total. reflexivity.
Defined.

Definition self_tx : Transaction := signed_transfer true (key_address true) 300 0.

Lemma self_transfer_burns_witness :
  exists rec ex', execute_batch [self_tx] [] funded = Some ([] ++ [rec], ex') /\
    receipt_success rec = true /\
    get_balance (state_manager ex') (from self_tx) =
      get_balance funded_state (from self_tx) - 300 - fee_of self_tx /\
    get_balance (apply_transaction self_tx funded_state).2 (from self_tx) =
      get_balance funded_state (from self_tx) - fee_of self_tx.
Proof.
  apply (self_transfer_burns self_tx 300 [] funded).
  - apply funded_ok.
  - apply signed_transfer_wf; [apply key_address_length|split; vm_compute; discriminate..].
  - vm_compute. reflexivity.
  - vm_compute. reflexivity.
  - change (state_manager funded) with funded_state. rewrite funded_total. reflexivity.
  - split; [discriminate|]. split; [vm_compute; reflexivity|vm_compute; discriminate].
Defined.

(** The code of [sample_code] is deployed at an address that holds 500. *)
Definition deploy_again : Transaction :=
  signed true (new_deploy (key_address true) sample_code [] 0 100 1).
Definition prefunded : ContractExecutor MemDb :=
  {| state_manager := refresh_root (put_account (deploy_address sample_code) (Account_new 500 0)
                                      funded_state);
     registry := (register_contract (deploy_address sample_code) sample_code
                    (Build_ContractRegistry (∅ : MemDb))).2;
     contracts := Build_ContractStorage ∅ |}.

Abbreviation deploy_run := (execute_batch [deploy_again] [] prefunded).

Lemma deploy_again_runs :
  match deploy_run with Some ([rec], _) => receipt_success rec | _ => false end = true.
Proof. vm_compute. reflexivity. Qed.

Lemma deploy_resets_account_witness :
  exists rec ex', deploy_run = Some ([] ++ [rec], ex') /\
    accounts (state_manager ex') !! deploy_address sample_code = Some (Account_new 0 0).
Proof.
  pose proof deploy_again_runs as Hrun.
  destruct deploy_run as [[[|rec [|]] ex']|] eqn:He; try discriminate Hrun.
  exists rec, ex'. split; [reflexivity|].
  apply (deploy_resets_account deploy_again sample_code [] [] prefunded rec ex'); [|exact He|exact Hrun].
  vm_compute. reflexivity.
Defined.
