(* ===== verification/BlockStore.v ===== *)
(** The persistent block store: [src/src/storage/block_store.rs].

    Blocks, metadata and transactions live in three column families of a
    database; blocks are also kept in a bounded cache.  Methods on [&self] change
    the cache, so they are computations over the store.  Opening the database
    ([new_with_path]) and compaction are left to RocksDB; the two locks of the
    cache are taken together. *)
From S2P Require Import Prelude Crypto Transaction Floats Mining Block StateTree StateManager.
From S2P Require Import Store Mempool Kv.

Definition BLOCKS_CF : string := "blocks".
Definition TRANSACTIONS_CF : string := "transactions".
Definition METADATA_CF : string := "metadata".

Record BlockMetadata := {
  meta_height : Z;
  meta_timestamp : Z;
  transaction_count : nat;
  size_bytes : nat
}.

Record BlockStore (Db : Type) := {
  db : Db;
  cache : gmap BlockHash Block;
  cache_size_limit : Z;
  cache_size : Z
}.
Arguments db {Db} _.
Arguments cache {Db} _.
Arguments cache_size_limit {Db} _.
Arguments cache_size {Db} _.

Record StorageStats := {
  stats_block_count : nat;
  total_size_bytes : Z;
  stats_cache_size : Z
}.

(** The ASCII bytes of "meta_". *)
Definition metadata_prefix : Bytes := [109; 101; 116; 97; 95].

Section BlockStore.
Context `{Sha256} `{SecpOps} `{LibM} `{HashOrder} `{Hex} {Db : Type} `{CfStore Db}
  `{Codec Block} `{Codec BlockMetadata} `{Codec Transaction}.

Abbreviation Store := (BlockStore Db).
Implicit Types st : Store.

Definition set_db (d : Db) st : Store :=
  {| db := d; cache := cache st; cache_size_limit := cache_size_limit st; cache_size := cache_size st |}.
Definition set_cache (c : gmap BlockHash Block) (n : Z) st : Store :=
  {| db := db st; cache := c; cache_size_limit := cache_size_limit st; cache_size := n |}.

(** The store over an open database. *)
Definition new_with_db (d : Db) : Store :=
  {| db := d; cache := ∅; cache_size_limit := 100; cache_size := 0 |}.

(** *** The cache *)

(** [while cache_size >= limit && !cache.is_empty()]: whichever key the table
    lists first goes. *)
Fixpoint evict (fuel : nat) (limit : Z) (c : gmap BlockHash Block) (n : Z) : gmap BlockHash Block * Z :=
  match fuel, hm_iter c with
  | S fuel', (key, _) :: _ =>
      if limit <=? n then evict fuel' limit (delete key c) (u64_sub n 1) else (c, n)
  | _, _ => (c, n)
  end.

Definition add_to_cache (h : BlockHash) (block : Block) st : Store :=
  let '(c, n) := evict (size (cache st)) (cache_size_limit st) (cache st) (cache_size st) in
  set_cache (<[h := block]> c) (match c !! h with None => u64_add n 1 | Some _ => n end) st.

Definition get_from_cache (h : BlockHash) st : option Block := cache st !! h.

Definition remove_from_cache (h : BlockHash) st : Store :=
  match cache st !! h with
  | Some _ => set_cache (delete h (cache st)) (u64_sub (cache_size st) 1) st
  | None => st
  end.

(** *** Database access *)

(** [self.db.cf_handle(cf).ok_or(msg)?] *)
Definition require_cf (cf msg : string) : M Store unit := fun st =>
  (if cf_handle (db st) cf then Ok tt else err msg, st).
Definition require_cfs : M Store unit :=
  require_cf BLOCKS_CF "Blocks column family not found" ≫= fun _ =>
  require_cf METADATA_CF "Metadata column family not found" ≫= fun _ =>
  require_cf TRANSACTIONS_CF "Transactions column family not found".

(** [self.db.write(batch).map_err(..)?] *)
Definition write_batch (msg : string) (ops : list write_op) : M Store unit := fun st =>
  let '(r, d) := cf_write ops (db st) in (map_err msg r, set_db d st).

Definition metadata_key (h : BlockHash) : Bytes := metadata_prefix ++ hex_encode h.

Definition metadata_of (block : Block) (block_data : Bytes) : BlockMetadata :=
  {| meta_height := height block; meta_timestamp := timestamp (header block);
     transaction_count := length (transactions block); size_bytes := length block_data |}.

(** One [put_cf] per transaction. *)
Fixpoint transaction_ops (txs : list Transaction) : result (list write_op) :=
  match txs with
  | [] => Ok []
  | tx :: txs' =>
      tx_data ← map_err "Failed to serialize transaction: {}" (serialize tx);
      ops ← transaction_ops txs';
      Ok (PutCf TRANSACTIONS_CF (hash tx) tx_data :: ops)
  end.

Definition insert_block (block : Block) : M Store unit :=
  lift (map_err "Failed to serialize block: {}" (serialize block)) ≫= fun block_data =>
  lift (map_err "Failed to serialize metadata: {}" (serialize (metadata_of block block_data)))
    ≫= fun metadata_data =>
  require_cfs ≫= fun _ =>
  lift (transaction_ops (transactions block)) ≫= fun tx_ops =>
  write_batch "Failed to write block: {}"
    (PutCf BLOCKS_CF (block_hash block) block_data ::
     PutCf METADATA_CF (metadata_key (block_hash block)) metadata_data :: tx_ops) ≫= fun _ =>
  modify (add_to_cache (block_hash block) block).

(** What the database holds under [h], decoded. *)
Definition stored_block (h : BlockHash) st : option Block :=
  if cf_handle (db st) BLOCKS_CF then
    match cf_get (db st) BLOCKS_CF h with
    | Ok (Some data) => match deserialize data with Ok block => Some block | Err _ => None end
    | _ => None
    end
  else None.

Definition get_block (h : BlockHash) st : option Block * Store :=
  match get_from_cache h st with
  | Some block => (Some block, st)
  | None =>
      match stored_block h st with
      | Some block => (Some block, add_to_cache h block st)
      | None => (None, st)
      end
  end.

Definition block_exists (h : BlockHash) st : bool :=
  if bool_decide (is_Some (cache st !! h)) then true
  else if cf_handle (db st) BLOCKS_CF then
    match cf_get (db st) BLOCKS_CF h with Ok opt => bool_decide (is_Some opt) | Err _ => false end
  else false.

Definition get_block_metadata (h : BlockHash) st : result (option BlockMetadata) :=
  if cf_handle (db st) METADATA_CF then
    match cf_get (db st) METADATA_CF (metadata_key h) with
    | Ok (Some data) => Some <$> map_err "Failed to deserialize metadata: {}" (deserialize data)
    | Ok None => Ok None
    | Err e => errorf "Database error: {}" [ArgErr e]
    end
  else err "Metadata column family not found".

Definition get_all_block_hashes st : result (list BlockHash) :=
  if cf_handle (db st) BLOCKS_CF then
    match cf_iterator (db st) BLOCKS_CF with
    | Ok items => Ok (filter (fun key => length key = 32%nat) items.*1)
    | Err e => errorf "Iterator error: {}" [ArgErr e]
    end
  else err "Blocks column family not found".

Definition get_all_hashes st : list BlockHash := unwrap_or (get_all_block_hashes st) [].

(** [hashes.into_iter().filter_map(|h| self.get_block(&h))] *)
Fixpoint get_blocks (hashes : list BlockHash) st : list Block * Store :=
  match hashes with
  | [] => ([], st)
  | h :: hashes' =>
      let '(o, st) := get_block h st in
      let '(bs, st) := get_blocks hashes' st in
      (match o with Some b => b :: bs | None => bs end, st)
  end.

Definition get_all_blocks st : list Block * Store := get_blocks (get_all_hashes st) st.

Definition block_count st : nat := length (get_all_hashes st).

Definition get_stats st : result StorageStats :=
  if cf_handle (db st) BLOCKS_CF then
    match cf_iterator (db st) BLOCKS_CF with
    | Ok items =>
        Ok {| stats_block_count := length items;
              total_size_bytes := foldl (fun s (kv : Bytes * Bytes) =>
                u64_add s (Z.of_nat (length kv.2))) 0 items;
              stats_cache_size := cache_size st |}
    | Err e => errorf "Iterator error: {}" [ArgErr e]
    end
  else err "Blocks column family not found".

Definition total_size st : Z :=
  match get_stats st with Ok s => total_size_bytes s | Err _ => 0 end.

(** The loop of [get_blocks_by_height_range]. *)
Fixpoint collect_range (start_height end_height : Z) (hashes : list BlockHash)
    : M Store (list Block) :=
  match hashes with
  | [] => mret []
  | h :: hashes' => fun st =>
      match get_block_metadata h st with
      | Err e => (Err e, st)
      | Ok None => collect_range start_height end_height hashes' st
      | Ok (Some metadata) =>
          if (start_height <=? meta_height metadata) && (meta_height metadata <=? end_height) then
            let '(o, st) := get_block h st in
            match collect_range start_height end_height hashes' st with
            | (Ok bs, st) => (Ok (match o with Some b => b :: bs | None => bs end), st)
            | (Err e, st) => (Err e, st)
            end
          else collect_range start_height end_height hashes' st
      end
  end.

Definition get_blocks_by_height_range (start_height end_height : Z) : M Store (list Block) :=
  gets get_all_block_hashes ≫= fun r => lift r ≫= fun all_hashes =>
  collect_range start_height end_height all_hashes ≫= fun blocks =>
  mret (sort_by_key height blocks).

Definition delete_ops (o : option Block) : list write_op :=
  match o with
  | Some block => (fun tx => DeleteCf TRANSACTIONS_CF (hash tx)) <$> transactions block
  | None => []
  end.

Definition delete_block (h : BlockHash) : M Store unit := fun st =>
  match require_cfs (remove_from_cache h st) with
  | (Err e, st) => (Err e, st)
  | (Ok _, st) =>
      let '(o, st) := get_block h st in
      write_batch "Failed to delete block: {}"
        (DeleteCf BLOCKS_CF h :: DeleteCf METADATA_CF (metadata_key h) :: delete_ops o) st
  end.

Definition verify_integrity st : result unit * Store :=
  let '(blocks, st) := get_all_blocks st in
  (foldr (fun b k =>
      if decide (block_hash b = calculate_hash b) then k
      else errorf "Block hash mismatch detected: stored={} computed={}"
             [ArgHex (block_hash b); ArgHex (calculate_hash b)]) (Ok tt) blocks, st).

Definition clear st : Store :=
  let st := foldl (fun st h => (delete_block h st).2) st (get_all_hashes st) in
  set_cache ∅ 0 st.

Definition get_blocks_by_parent (parent : BlockHash) st : list Block * Store :=
  let '(blocks, st) := get_all_blocks st in
  (filter (fun b => parent ∈ parent_hashes (header b)) blocks, st).

(** [compact] leaves the contents alone; it fails when a column family is missing. *)
Definition compact : M Store unit := require_cfs.

(** *** Rollback *)

(** The loop of [rollback_blocks] over the store and the mempool; [now] and
    [now'] are the clock reads of the mempool, [mst] the state it consults. *)
Fixpoint rollback_loop (now now' : Z) (mst : StateManager) (hashes : list BlockHash)
    (last_removed : option Block) (p : TxDagMempool) (st : Store)
    : result (option Block) * TxDagMempool * Store :=
  match hashes with
  | [] => (Ok last_removed, p, st)
  | h :: hashes' =>
      let '(o, st) := get_block h st in
      match o with
      | None => rollback_loop now now' mst hashes' last_removed p st
      | Some block =>
          match delete_block h st with
          | (Err e, st) => (Err e, p, st)
          | (Ok _, st) =>
              let p := foldl (fun p tx => (add_transaction now now' mst tx [] None p).2) p
                         (transactions block) in
              rollback_loop now now' mst hashes' (Some block) p st
          end
      end
  end.

Definition rollback_blocks (now now' : Z) (mst : StateManager) (hashes : list BlockHash)
    (state : StateManager) (p : TxDagMempool) (st : Store)
    : result (option Block) * StateManager * TxDagMempool * Store :=
  match rollback_loop now now' mst hashes None p st with
  | (Err e, p, st) => (Err e, state, p, st)
  | (Ok last_removed, p, st) =>
      let '(blocks, st) := get_all_blocks st in
      match rebuild_from_blocks (sort_by_key height blocks) state with
      | (Err e, state) => (Err e, state, p, st)
      | (Ok _, state) => (Ok last_removed, state, p, st)
      end
  end.
End BlockStore.

(** ** Refinement

    The abstract store is a finite map from hashes to blocks; the concrete one
    implements it through the database and the cache. *)
Section Refinement.
Context `{Sha256} `{SecpOps} `{LibM} `{HashOrder} `{Hex} {Db : Type} `{CfLaws Db}
  `{CodecLaws Block} `{Codec BlockMetadata} `{Codec Transaction}.
Implicit Types st : BlockStore Db.

Definition decode (data : Bytes) : option Block :=
  match deserialize data with Ok b => Some b | Err _ => None end.

(** The abstract state. *)
Definition view st : gmap BlockHash Block := omap decode (cf_view (db st) BLOCKS_CF).

Definition handles_ok st : Prop :=
  cf_handle (db st) BLOCKS_CF = true /\ cf_handle (db st) METADATA_CF = true /\
  cf_handle (db st) TRANSACTIONS_CF = true.

(** Every entry of the blocks column decodes to the block of its key. *)
Definition entries_ok (m : gmap Bytes Bytes) : Prop :=
  forall k data, m !! k = Some data ->
    length k = 32%nat /\ exists b, decode data = Some b /\ block_hash b = k.

(** The cache is counted and bounded, and holds stored blocks only. *)
Definition cache_ok (c : gmap BlockHash Block) (n limit : Z) (v : gmap BlockHash Block) : Prop :=
  n = Z.of_nat (size c) /\ n <= limit /\ 1 <= limit <= u64_max /\ c ⊆ v.

Definition bstore_ok st : Prop :=
  handles_ok st /\ entries_ok (cf_view (db st) BLOCKS_CF) /\
  cache_ok (cache st) (cache_size st) (cache_size_limit st) (view st).

(** *** The cache *)

Lemma evict_spec fuel limit c n :
  (size c <= fuel)%nat -> n = Z.of_nat (size c) -> n <= u64_max -> 1 <= limit ->
  let '(c', n') := evict fuel limit c n in
  c' ⊆ c /\ n' = Z.of_nat (size c') /\ n' < limit.
Proof.
  intros Hf Hn Hmax Hl. revert c n Hf Hn Hmax.
  induction fuel as [|fuel IH]; intros c n Hf Hn Hmax; cbn [evict].
  { split; [done|]. split; [done|]. lia. }
  destruct (hm_iter c) as [|[key b] l] eqn:Hc.
  { assert (size c = 0%nat) as Hs by (by rewrite <- hm_iter_length, Hc).
    split; [done|]. split; [done|]. lia. }
  destruct (Z.leb_spec limit n); [|split; [done|split; [done|lia]]].
  assert (c !! key = Some b) as Hkey by (apply elem_of_hm_iter; rewrite Hc; left).
  assert (size (delete key c) = (size c - 1)%nat) as Hs by (rewrite map_size_delete, Hkey; lia).
  assert (0 < size c)%nat.
  { rewrite <- (hm_iter_length c), Hc. cbn. lia. }
  specialize (IH (delete key c) (u64_sub n 1)).
  destruct (evict fuel limit (delete key c) (u64_sub n 1)) as [c' n'].
  rewrite u64_sub_small in IH by lia.
  destruct IH as (Hsub & Hn' & Hlt); [lia|lia|lia|].
  split; [|done]. etrans; [exact Hsub|]. apply delete_subseteq.
Qed.

Lemma add_to_cache_db h b st : db (add_to_cache h b st) = db st.
Proof. unfold add_to_cache. by destruct (evict _ _ _ _). Qed.

(** Room is made first; then the entry is set and the cache counted again. *)
Lemma add_to_cache_spec h b st :
  cache_size st = Z.of_nat (size (cache st)) -> cache_size st <= cache_size_limit st ->
  1 <= cache_size_limit st <= u64_max ->
  exists c, c ⊆ cache st /\
    add_to_cache h b st = set_cache (<[h := b]> c) (Z.of_nat (size (<[h := b]> c))) st /\
    Z.of_nat (size (<[h := b]> c)) <= cache_size_limit st.
Proof.
  intros Hn Hle Hlim. unfold add_to_cache.
  pose proof (evict_spec (size (cache st)) (cache_size_limit st) (cache st) (cache_size st)
    ltac:(lia) Hn ltac:(lia) ltac:(lia)) as He.
  destruct (evict _ _ _ _) as [c n]. destruct He as (Hc & Hn' & Hlt).
  exists c. rewrite map_size_insert. destruct (c !! h) eqn:Hch; cbn.
  - split; [done|]. split; [by subst|lia].
  - rewrite u64_add_small by lia. split; [done|]. split; [|lia]. f_equal. lia.
Qed.

(** Adding a stored block keeps the cache good; [v'] is the new abstract state. *)
Lemma add_to_cache_ok h b st v v' :
  cache_ok (cache st) (cache_size st) (cache_size_limit st) v ->
  v' !! h = Some b -> (forall k, k <> h -> v' !! k = v !! k) ->
  let st' := add_to_cache h b st in
  cache_ok (cache st') (cache_size st') (cache_size_limit st') v'.
Proof.
  intros (Hn & Hle & Hlim & Hsub) Hb Hother.
  destruct (add_to_cache_spec h b st Hn Hle Hlim) as (c & Hc & -> & Hle').
  cbn [cache_size_limit cache cache_size set_cache]. split; [done|]. split; [done|].
  split; [done|]. apply map_subseteq_spec. intros k x [[<- <-]|[Hne Hk]]%lookup_insert_Some; [done|].
  rewrite Hother by done. by apply (lookup_weaken c); [|etrans].
Qed.

(** *** Reads *)

Lemma stored_block_view st h : handles_ok st -> stored_block h st = view st !! h.
Proof.
  intros (Hb & _ & _). unfold stored_block, view. rewrite Hb, cf_get_view, lookup_omap.
  by destruct (_ !! _).
Qed.

Lemma get_block_spec st h :
  bstore_ok st ->
  (get_block h st).1 = view st !! h /\
  bstore_ok (get_block h st).2 /\ db (get_block h st).2 = db st.
Proof.
  intros (Hh & He & Hc). unfold get_block, get_from_cache.
  destruct (cache st !! h) as [b|] eqn:Hcb; cbn [fst snd].
  - destruct Hc as (? & ? & ? & Hsub). split; [|done]. symmetry. by eapply lookup_weaken.
  - rewrite stored_block_view by done. destruct (view st !! h) as [b|] eqn:Hv; cbn [fst snd]; [|done].
    split; [done|]. split; [|apply add_to_cache_db].
    pose proof (add_to_cache_ok h b st (view st) (view st) Hc Hv ltac:(done)) as Hc'.
    unfold bstore_ok, handles_ok, view. rewrite !add_to_cache_db. done.
Qed.

Lemma view_db st st' : db st' = db st -> view st' = view st.
Proof. unfold view. by intros ->. Qed.

Lemma view_keys st : entries_ok (cf_view (db st) BLOCKS_CF) ->
  forall h, is_Some (view st !! h) <-> is_Some (cf_view (db st) BLOCKS_CF !! h).
Proof.
  intros He h. unfold view. rewrite lookup_omap.
  destruct (cf_view (db st) BLOCKS_CF !! h) as [data|] eqn:Hd; cbn; [|done].
  apply He in Hd as (_ & b & -> & _). split; eauto.
Qed.

Lemma view_hash st h b : entries_ok (cf_view (db st) BLOCKS_CF) -> view st !! h = Some b ->
  block_hash b = h.
Proof.
  intros He. unfold view. rewrite lookup_omap.
  destruct (cf_view (db st) BLOCKS_CF !! h) as [data|] eqn:Hd; cbn; [|done].
  apply He in Hd as (_ & b' & -> & Hb'). congruence.
Qed.

Lemma block_exists_spec st h :
  bstore_ok st -> block_exists h st = bool_decide (is_Some (view st !! h)).
Proof.
  intros (Hh & He & Hc). unfold block_exists. rewrite (proj1 Hh), cf_get_view.
  destruct (bool_decide_reflect (is_Some (cache st !! h))) as [[b Hb]|].
  - symmetry. apply bool_decide_true. exists b. destruct Hc as (_&_&_&Hsub).
    by eapply lookup_weaken.
  - apply bool_decide_ext. symmetry. by apply view_keys.
Qed.

Lemma get_all_hashes_spec st :
  handles_ok st -> entries_ok (cf_view (db st) BLOCKS_CF) ->
  (forall h, h ∈ get_all_hashes st <-> is_Some (view st !! h)) /\ NoDup (get_all_hashes st).
Proof.
  intros Hh He. unfold get_all_hashes, get_all_block_hashes. rewrite (proj1 Hh).
  destruct (cf_iterator_view (db st) BLOCKS_CF) as (l & -> & Hp & _). cbn [unwrap_or].
  split.
  - intros h. rewrite view_keys, list_elem_of_filter, Hp, list_elem_of_fmap by done. split.
    + intros [_ ([k data] & -> & Hin%elem_of_map_to_list)]. by exists data.
    + intros [data Hd]. split; [by apply He in Hd as [? _]|].
      exists (h, data). split; [done|]. by apply elem_of_map_to_list.
  - apply NoDup_filter. rewrite Hp. apply NoDup_fst_map_to_list.
Qed.

(** Distinct hashes are answered by distinct blocks. *)
Lemma omap_NoDup_hashes hashes st :
  NoDup hashes -> entries_ok (cf_view (db st) BLOCKS_CF) ->
  NoDup (omap (fun h => view st !! h) hashes).
Proof.
  intros Hnd He. induction Hnd as [|h hashes Hn Hnd IH]; cbn; [constructor|].
  destruct (view st !! h) as [b|] eqn:Hb; [|done]. constructor; [|done].
  rewrite list_elem_of_omap. intros (h' & Hin & Hb').
  pose proof (view_hash st h b He Hb). pose proof (view_hash st h' b He Hb'). congruence.
Qed.

Lemma get_blocks_spec hashes st :
  bstore_ok st ->
  (get_blocks hashes st).1 = omap (fun h => view st !! h) hashes /\
  bstore_ok (get_blocks hashes st).2 /\ db (get_blocks hashes st).2 = db st.
Proof.
  revert st. induction hashes as [|h hashes IH]; intros st Hok; [done|]. cbn [get_blocks].
  destruct (get_block_spec st h Hok) as (Hb & Hok1 & Hdb1).
  destruct (get_block h st) as [o st1]. cbn [fst snd] in *.
  destruct (IH st1 Hok1) as (Hbs & Hok2 & Hdb2).
  destruct (get_blocks hashes st1) as [bs st2]. cbn [fst snd] in *.
  split; [|split; [done|congruence]]. subst o bs. rewrite (view_db _ _ Hdb1). cbn.
  by destruct (view st !! h).
Qed.

(** *** Writes *)

Lemma transaction_ops_cf txs ops cf m :
  transaction_ops txs = Ok ops -> cf <> TRANSACTIONS_CF -> apply_ops cf ops m = m.
Proof.
  revert ops m. induction txs as [|tx txs IH]; intros ops m Hops Hcf; cbn in Hops; [by simplify_eq|].
  destruct (serialize tx) as [tx_data|e]; cbn in Hops; [|done].
  destruct (transaction_ops txs) as [ops'|e]; cbn in Hops; [|done]. injection Hops as <-.
  cbn. rewrite decide_False by done. by apply IH.
Qed.

Lemma require_cfs_ok st : handles_ok st -> require_cfs st = (Ok tt, st).
Proof.
  intros (Hb & Hm & Ht). unfold require_cfs, require_cf, mbind, M_bind. by rewrite Hb, Hm, Ht.
Qed.

(** The outcomes of [insert_block]: nothing happens, the write fails, or the
    block is stored and cached. *)
Lemma store_insert_cases b st :
  handles_ok st ->
  (is_ok (insert_block b st).1 = false /\
   (forall cf, cf_view (db (insert_block b st).2) cf = cf_view (db st) cf) /\
   (forall cf, cf_handle (db (insert_block b st).2) cf = cf_handle (db st) cf) /\
   exists d, (insert_block b st).2 = set_db d st) \/
  (exists data d, serialize b = Ok data /\ insert_block b st =
     (Ok tt, add_to_cache (block_hash b) b (set_db d st)) /\
   cf_view d BLOCKS_CF = <[block_hash b := data]> (cf_view (db st) BLOCKS_CF) /\
   forall cf, cf_handle d cf = cf_handle (db st) cf).
Proof.
  intros Hh.
  assert (forall r, is_ok r = false -> insert_block b st = (r, st) ->
    is_ok (insert_block b st).1 = false /\
   (forall cf, cf_view (db (insert_block b st).2) cf = cf_view (db st) cf) /\
   (forall cf, cf_handle (db (insert_block b st).2) cf = cf_handle (db st) cf) /\
   exists d, (insert_block b st).2 = set_db d st) as Hsame.
  { intros r Hr ->. cbn. split; [done|]. split; [done|]. split; [done|].
    exists (db st). by destruct st. }
  unfold insert_block, mbind, M_bind, lift in *.
  destruct (serialize b) as [data|e] eqn:Hs; cbn [map_err errorf] in *;
    [|left; eapply Hsame; [|reflexivity]; done].
  destruct (serialize (metadata_of b data)) as [mdata|e]; cbn [map_err errorf] in *;
    [|left; eapply Hsame; [|reflexivity]; done].
  rewrite require_cfs_ok in * by done.
  destruct (transaction_ops (transactions b)) as [ops|e] eqn:Hops; [|left; eapply Hsame; [|reflexivity]; done].
  clear Hsame. unfold write_batch.
  set (batch := PutCf BLOCKS_CF _ _ :: _).
  pose proof (cf_write_ok batch (db st)) as Hok. pose proof (cf_write_err batch (db st)) as Herr.
  pose proof (cf_write_handle batch (db st)) as Hhd.
  destruct (cf_write batch (db st)) as [[[]|e] d]; cbn [fst snd map_err errorf is_ok] in *.
  - right. exists data, d. split; [done|]. split; [done|]. split; [|done].
    rewrite Hok by done. unfold batch. cbn.
    by apply (transaction_ops_cf (transactions b)).
  - left. split; [done|]. split; [by intros; apply Herr|]. split; [done|]. by exists d.
Qed.

Lemma decode_serialize b data : serialize b = Ok data -> decode data = Some b.
Proof. intros Hs. unfold decode. by rewrite (codec_roundtrip _ _ Hs). Qed.

Lemma insert_block_spec b st :
  bstore_ok st -> length (block_hash b) = 32%nat ->
  bstore_ok (insert_block b st).2 /\
  view (insert_block b st).2 =
    if is_ok (insert_block b st).1 then <[block_hash b := b]> (view st) else view st.
Proof.
  intros (Hh & He & Hc) Hlen.
  destruct (store_insert_cases b st Hh) as [(-> & Hv & Hhd & d & Hd)|(data & d & Hs & -> & Hv & Hhd)].
  - assert (view (insert_block b st).2 = view st) as Hview by (unfold view; by rewrite Hv).
    split; [|done]. unfold bstore_ok, handles_ok. rewrite !Hhd, Hv, Hview, Hd. done.
  - cbn [fst snd is_ok]. set (st1 := set_db d st).
    assert (view (add_to_cache (block_hash b) b st1) = <[block_hash b := b]> (view st)) as Hview.
    { unfold view. rewrite add_to_cache_db. cbn [db set_db st1]. rewrite Hv.
      by rewrite (omap_insert_Some decode _ _ _ _ (decode_serialize b data Hs)). }
    split; [|done].
    pose proof (add_to_cache_ok (block_hash b) b st1 (view st) (<[block_hash b := b]> (view st))
      Hc ltac:(by rewrite lookup_insert_eq) ltac:(intros; by rewrite lookup_insert_ne)) as Hc'.
    unfold bstore_ok, handles_ok. rewrite Hview, !add_to_cache_db. cbn [db set_db st1].
    rewrite !Hhd, Hv. split; [done|]. split; [|done].
    intros k x [[<- <-]|[Hne Hk]]%lookup_insert_Some; [|by apply He].
    split; [done|]. exists b. split; [|done]. by apply decode_serialize.
Qed.

(** *** Weaker states

    Deleting a block puts it back into the cache (see [delete_block_keeps_block]),
    so the cache is not a part of the map any more.  What survives is that the two
    agree wherever both answer. *)
Definition coherent (c v : gmap BlockHash Block) : Prop :=
  forall k b b', c !! k = Some b -> v !! k = Some b' -> b = b'.

Definition bstore_wf st : Prop :=
  handles_ok st /\ entries_ok (cf_view (db st) BLOCKS_CF) /\
  cache_size st = Z.of_nat (size (cache st)) /\ cache_size st <= cache_size_limit st /\
  1 <= cache_size_limit st <= u64_max /\ coherent (cache st) (view st).

Lemma bstore_ok_wf st : bstore_ok st -> bstore_wf st.
Proof.
  intros (Hh & He & Hn & Hle & Hlim & Hsub). do 5 (split; [done|]).
  intros k b b' Hb Hb'. pose proof (lookup_weaken _ _ _ _ Hb Hsub). congruence.
Qed.

Lemma coherent_subseteq c c' v : coherent c v -> c' ⊆ c -> coherent c' v.
Proof. intros Hco Hsub k b b' Hb. apply Hco. by eapply lookup_weaken. Qed.

Lemma add_to_cache_wf h b st :
  bstore_wf st -> (forall b', view st !! h = Some b' -> b = b') ->
  bstore_wf (add_to_cache h b st) /\ cache (add_to_cache h b st) !! h = Some b /\
  view (add_to_cache h b st) = view st.
Proof.
  intros (Hh & He & Hn & Hle & Hlim & Hco) Hb.
  destruct (add_to_cache_spec h b st Hn Hle Hlim) as (c & Hc & -> & Hle').
  split; [|split; [apply lookup_insert_eq|done]]. do 5 (split; [done|]).
  cbn [cache set_cache]. intros k x x' [[<- <-]|[Hne Hk]]%lookup_insert_Some Hx'; [by apply Hb|].
  by eapply (coherent_subseteq (cache st) c).
Qed.

Lemma remove_from_cache_wf h st :
  bstore_wf st -> bstore_wf (remove_from_cache h st) /\
  cache (remove_from_cache h st) = delete h (cache st) /\ db (remove_from_cache h st) = db st.
Proof.
  intros (Hh & He & Hn & Hle & Hlim & Hco). unfold remove_from_cache.
  destruct (cache st !! h) as [b|] eqn:Hb.
  - split; [|done]. split; [done|]. split; [done|]. cbn [set_cache cache_size cache cache_size_limit].
    assert (0 < size (cache st))%nat by (destruct (size (cache st)) eqn:E; [|lia];
      apply map_size_empty_inv in E; by rewrite E in Hb).
    rewrite map_size_delete, Hb. cbn. rewrite u64_sub_small by lia.
    split; [lia|]. split; [lia|]. split; [done|].
    eapply coherent_subseteq; [exact Hco|apply delete_subseteq].
  - split; [done|]. by rewrite delete_id.
Qed.

Lemma get_block_wf h st :
  bstore_wf st ->
  bstore_wf (get_block h st).2 /\ view (get_block h st).2 = view st /\
  (forall b, view st !! h = Some b -> (get_block h st).1 = Some b) /\
  ((get_block h st).1 = None -> (get_block h st).2 = st /\ cache st !! h = None) /\
  (forall b, (get_block h st).1 = Some b -> cache (get_block h st).2 !! h = Some b).
Proof.
  intros Hwf. pose proof Hwf as (Hh & He & Hn & Hle & Hlim & Hco). unfold get_block, get_from_cache.
  destruct (cache st !! h) as [b|] eqn:Hcb; cbn [fst snd].
  - do 2 (split; [done|]). split; [|split; [done|congruence]]. intros b' Hb'. f_equal. by eapply Hco.
  - rewrite stored_block_view by done. destruct (view st !! h) as [b|] eqn:Hv; cbn [fst snd].
    + destruct (add_to_cache_wf h b st Hwf) as (? & ? & ?); [intros b'; by rewrite Hv; intros [=]|].
      do 2 (split; [done|]). split; [done|]. split; [done|congruence].
    + do 2 (split; [done|]). done.
Qed.

(** The listed hashes are those of the map whatever the cache holds. *)
Lemma get_blocks_wf hashes st :
  bstore_wf st -> (forall h, h ∈ hashes -> is_Some (view st !! h)) ->
  (get_blocks hashes st).1 = omap (fun h => view st !! h) hashes /\
  bstore_wf (get_blocks hashes st).2 /\ view (get_blocks hashes st).2 = view st.
Proof.
  revert st. induction hashes as [|h hashes IH]; intros st Hwf Hin; [done|]. cbn [get_blocks].
  destruct (get_block_wf h st Hwf) as (Hwf1 & Hv1 & Hb & _).
  destruct (get_block h st) as [o st1]. cbn [fst snd] in *.
  destruct (IH st1 Hwf1) as (Hbs & Hok2 & Hv2).
  { intros h' Hh'. rewrite Hv1. apply Hin. by right. }
  destruct (get_blocks hashes st1) as [bs st2]. cbn [fst snd] in *.
  split; [|split; [done|congruence]]. subst bs. rewrite Hv1. cbn.
  destruct (Hin h) as [b Hvb]; [left|]. rewrite (Hb b Hvb), Hvb. done.
Qed.

Lemma get_all_blocks_wf st :
  bstore_wf st ->
  (get_all_blocks st).1 ≡ₚ (map_to_list (view st)).*2 /\
  bstore_wf (get_all_blocks st).2 /\ view (get_all_blocks st).2 = view st.
Proof.
  intros Hwf. pose proof Hwf as (Hh & He & _). unfold get_all_blocks.
  destruct (get_all_hashes_spec st Hh He) as [Hin Hnd].
  destruct (get_blocks_wf (get_all_hashes st) st Hwf) as (-> & Hwf' & Hv); [by intros h ?%Hin|].
  split; [|done]. apply NoDup_Permutation.
  - by apply omap_NoDup_hashes.
  - apply (NoDup_fmap_1 block_hash). rewrite <- list_fmap_compose.
    rewrite (list_fmap_ext _ fst); [apply NoDup_fst_map_to_list|].
    intros i [k b] Hi. apply list_elem_of_lookup_2, elem_of_map_to_list in Hi.
    by apply (view_hash st).
  - intros b. rewrite list_elem_of_omap, list_elem_of_fmap. split.
    + intros (h & _ & Hb). exists (h, b). split; [done|]. by apply elem_of_map_to_list.
    + intros ([h b'] & -> & Hb%elem_of_map_to_list). exists h. split; [|done]. apply Hin. eauto.
Qed.

(** *** Deletion *)

Lemma delete_ops_cf o cf m : cf <> TRANSACTIONS_CF -> apply_ops cf (delete_ops o) m = m.
Proof.
  intros Hcf. destruct o as [b|]; [|done]. cbn. generalize (transactions b). clear b.
  intros txs. induction txs as [|tx txs IH]; [done|]. cbn. by rewrite decide_False.
Qed.

Lemma delete_batch_blocks h k o m :
  apply_ops BLOCKS_CF (DeleteCf BLOCKS_CF h :: DeleteCf METADATA_CF k :: delete_ops o) m = delete h m.
Proof. change (apply_ops BLOCKS_CF (delete_ops o) (delete h m) = delete h m). by apply delete_ops_cf. Qed.

(** Deleting leaves a well-formed store without the entry in the database, but
    with whatever block [get_block] found in the cache. *)
Lemma delete_block_spec h st :
  bstore_wf st ->
  bstore_wf (delete_block h st).2 /\
  view (delete_block h st).2 =
    (if is_ok (delete_block h st).1 then delete h (view st) else view st) /\
  (forall b, view st !! h = Some b -> cache (delete_block h st).2 !! h = Some b).
Proof.
  intros Hwf. destruct (remove_from_cache_wf h st Hwf) as (Hwf0 & Hc0 & Hdb0).
  unfold delete_block. rewrite require_cfs_ok by apply Hwf0.
  destruct (get_block_wf h (remove_from_cache h st) Hwf0) as (Hwf1 & Hv1 & Hb1 & _ & Hc1).
  rewrite (view_db _ _ Hdb0) in Hv1, Hb1.
  destruct (get_block h (remove_from_cache h st)) as [o st1]. cbn [fst snd] in *.
  unfold write_batch. set (batch := DeleteCf BLOCKS_CF h :: _).
  pose proof (cf_write_ok batch (db st1) BLOCKS_CF) as Hok.
  pose proof (cf_write_err batch (db st1) BLOCKS_CF) as Herr.
  pose proof (cf_write_handle batch (db st1)) as Hhd.
  assert (view (set_db (cf_write batch (db st1)).2 st1) =
    if is_ok (cf_write batch (db st1)).1 then delete h (view st1) else view st1) as Hv.
  { unfold view. cbn [db set_db]. destruct (is_ok _).
    - rewrite Hok by done. unfold batch. rewrite delete_batch_blocks. apply omap_delete.
    - by rewrite Herr. }
  assert (bstore_wf (set_db (cf_write batch (db st1)).2 st1)) as Hwf2.
  { destruct Hwf1 as (Hh & He & Hn & Hle & Hlim & Hco). unfold bstore_wf, handles_ok.
    rewrite Hv. cbn [db set_db]. rewrite !Hhd. split; [done|]. split; [|do 3 (split; [done|])].
    - destruct (is_ok _); [rewrite Hok by done|by rewrite Herr].
      unfold batch. rewrite delete_batch_blocks. intros k data [_ Hk]%lookup_delete_Some. by apply He.
    - destruct (is_ok _); [|done]. intros k b b' Hb [_ Hb']%lookup_delete_Some. by eapply Hco. }
  destruct (cf_write batch (db st1)) as [r d]. cbn [fst snd] in *.
  split; [done|]. rewrite Hv, Hv1. split; [by destruct r as [[]|]|].
  intros b Hb. cbn [cache set_db]. by apply Hc1, Hb1.
Qed.

Lemma insert_block_wf b st :
  bstore_wf st -> length (block_hash b) = 32%nat ->
  bstore_wf (insert_block b st).2 /\
  view (insert_block b st).2 =
    if is_ok (insert_block b st).1 then <[block_hash b := b]> (view st) else view st.
Proof.
  intros Hwf Hlen. pose proof Hwf as (Hh & He & Hn & Hle & Hlim & Hco).
  destruct (store_insert_cases b st Hh) as [(-> & Hv & Hhd & d & Hd)|(data & d & Hs & -> & Hv & Hhd)].
  - assert (view (insert_block b st).2 = view st) as Hview by (unfold view; by rewrite Hv).
    split; [|done]. unfold bstore_wf, handles_ok. rewrite !Hhd, Hv, Hview, Hd. done.
  - cbn [fst snd is_ok].
    destruct (add_to_cache_spec (block_hash b) b (set_db d st) Hn Hle Hlim) as (c & Hc & -> & Hle').
    assert (view (set_cache (<[block_hash b := b]> c) (Z.of_nat (size (<[block_hash b := b]> c)))
      (set_db d st)) = <[block_hash b := b]> (view st)) as Hview.
    { unfold view. cbn [db set_db set_cache]. rewrite Hv.
      by rewrite (omap_insert_Some decode _ _ _ _ (decode_serialize b data Hs)). }
    split; [|done]. unfold bstore_wf, handles_ok. rewrite Hview.
    cbn [db set_db set_cache cache cache_size cache_size_limit].
    rewrite !Hhd, Hv. split; [done|]. split; [|split; [done|split; [done|split; [done|]]]].
    + intros k x [[<- <-]|[Hne Hk]]%lookup_insert_Some; [|by apply He].
      split; [done|]. exists b. split; [|done]. by apply decode_serialize.
    + intros k x x' [[<- <-]|[Hne Hk]]%lookup_insert_Some.
      * rewrite lookup_insert_eq. by intros [=].
      * rewrite lookup_insert_ne by done. by eapply (coherent_subseteq (cache st) c).
Qed.

Lemma get_block_db h st : db (get_block h st).2 = db st.
Proof.
  unfold get_block. destruct (get_from_cache h st); [done|].
  destruct (stored_block h st); [apply add_to_cache_db|done].
Qed.

Lemma get_block_metadata_db h st st' : db st = db st' -> get_block_metadata h st = get_block_metadata h st'.
Proof. unfold get_block_metadata. by intros ->. Qed.

(** The block of [h] with the height its metadata gives it lies in the range. *)
Definition in_range (lo hi : Z) st (h : BlockHash) : Prop :=
  exists m, get_block_metadata h st = Ok (Some m) /\ lo <= meta_height m <= hi.

(** What the scan of a height range finds, and that it only fills the cache. *)
Lemma collect_range_spec lo hi hashes st :
  bstore_wf st -> (forall h, h ∈ hashes -> is_Some (view st !! h)) ->
  let '(r, st') := collect_range lo hi hashes st in
  bstore_wf st' /\ db st' = db st /\
  forall bs, r = Ok bs -> forall b, b ∈ bs <->
    exists h, h ∈ hashes /\ view st !! h = Some b /\ in_range lo hi st h.
Proof.
  revert st. induction hashes as [|h hashes IH]; intros st Hwf Hin; cbn [collect_range].
  { unfold mret, M_ret. do 2 (split; [done|]). intros bs [= <-] b. split; [by intros ?%not_elem_of_nil|].
    by intros (h & ?%not_elem_of_nil & _). }
  assert (forall h', h' ∈ hashes -> is_Some (view st !! h')) as Hin' by (intros; apply Hin; by right).
  assert (~ in_range lo hi st h -> forall b, (exists h', h' ∈ hashes /\ view st !! h' = Some b /\
    in_range lo hi st h') <-> exists h', h' ∈ h :: hashes /\ view st !! h' = Some b /\
    in_range lo hi st h') as Hskip.
  { intros Hno b. split; intros (h' & Hh' & ? & ?); exists h'; (split; [|done]); [by right|].
    apply elem_of_cons in Hh' as [->|?]; done. }
  destruct (get_block_metadata h st) as [[m|]|e] eqn:Hm.
  - destruct (_ && _) eqn:Hr.
    + apply andb_true_iff in Hr as [Hlo%Z.leb_le Hhi%Z.leb_le].
      destruct (get_block_wf h st Hwf) as (Hwf1 & Hv1 & Hb & _). pose proof (get_block_db h st) as Hdb.
      destruct (get_block h st) as [o st1]. cbn [fst snd] in *.
      specialize (IH st1 Hwf1). rewrite Hv1 in IH. specialize (IH Hin').
      destruct (collect_range lo hi hashes st1) as [[bs|e] st2]; destruct IH as (? & Hdb2 & Hbs);
        (split; [done|]; split; [congruence|]); intros bs' [= <-] b.
      destruct (Hin h) as [bh Hvb]; [left|]. rewrite (Hb bh Hvb), elem_of_cons, (Hbs bs eq_refl b).
      assert (forall h', in_range lo hi st1 h' <-> in_range lo hi st h') as Hir.
      { intros h'. unfold in_range. by rewrite (get_block_metadata_db h' st1 st Hdb). }
      setoid_rewrite Hir. split.
      * intros [->|(h' & ? & ?)]; [exists h|exists h']; (split; [by constructor|]); [|done].
        split; [done|]. exists m. done.
      * intros (h' & [->|Hh']%elem_of_cons & Hvh & ?); [left; congruence|right; eauto].
    + assert (~ in_range lo hi st h) as Hno.
      { intros (m' & Hm' & Hlh). rewrite Hm in Hm'. simplify_eq.
        apply andb_false_iff in Hr as [?%Z.leb_gt|?%Z.leb_gt]; lia. }
      specialize (IH st Hwf Hin'). destruct (collect_range lo hi hashes st) as [r st'].
      destruct IH as (? & ? & IH). do 2 (split; [done|]). intros bs Hbs b. rewrite (IH bs Hbs). by apply Hskip.
  - assert (~ in_range lo hi st h) as Hno by (intros (m' & Hm' & _); congruence).
    specialize (IH st Hwf Hin'). destruct (collect_range lo hi hashes st) as [r st'].
    destruct IH as (? & ? & IH). do 2 (split; [done|]). intros bs Hbs b. rewrite (IH bs Hbs). by apply Hskip.
  - split; [done|]. split; [done|]. by intros bs [=].
Qed.

(** The blocks of a height range are exactly the stored ones whose metadata
    puts them there. *)
Lemma get_blocks_by_height_range_spec lo hi st :
  bstore_wf st ->
  let '(r, st') := get_blocks_by_height_range lo hi st in
  bstore_wf st' /\ db st' = db st /\
  forall bs, r = Ok bs -> StronglySorted (fun a b => height a <= height b) bs /\
    forall b, b ∈ bs <-> exists h, view st !! h = Some b /\ in_range lo hi st h.
Proof.
  intros Hwf. pose proof Hwf as (Hh & He & _). destruct (get_all_hashes_spec st Hh He) as [Hin _].
  unfold get_all_hashes in Hin. unfold get_blocks_by_height_range, mbind, M_bind, gets, lift, mret, M_ret.
  destruct (get_all_block_hashes st) as [hashes|e]; cbn [unwrap_or] in Hin; [|by do 2 (split; [done|])].
  pose proof (collect_range_spec lo hi hashes st Hwf ltac:(by intros h ?%Hin)) as Hc.
  destruct (collect_range lo hi hashes st) as [[bs|e] st']; destruct Hc as (? & ? & Hc);
    (do 2 (split; [done|])); intros bs' [= <-].
  split; [apply sort_by_key_sorted|]. intros b. unfold sort_by_key.
  rewrite elem_of_sort_by, (Hc bs eq_refl). split.
  - intros (h & _ & Hh'). eauto.
  - intros (h & Hv & ?). exists h. split; [|done]. apply Hin. eauto.
Qed.

(** Deleting a list of blocks one by one. *)
Lemma for_each_delete_spec (blocks : list Block) st :
  bstore_wf st ->
  let '(r, st') := for_each blocks (fun b => delete_block (block_hash b)) st in
  bstore_wf st' /\
  (forall k, view st' !! k = view st !! k \/ (view st' !! k = None /\ k ∈ block_hash <$> blocks)) /\
  (is_ok r = true -> forall k, k ∈ block_hash <$> blocks -> view st' !! k = None).
Proof.
  revert st. induction blocks as [|b blocks IH]; intros st Hwf; cbn [for_each].
  { unfold mret, M_ret. split; [done|]. split; [by left|]. intros _ k ?%not_elem_of_nil. done. }
  unfold mbind, M_bind. destruct (delete_block_spec (block_hash b) st Hwf) as (Hwf1 & Hv1 & _).
  destruct (delete_block (block_hash b) st) as [[[]|e] st1]; cbn [fst snd is_ok] in *.
  - specialize (IH st1 Hwf1). destruct (for_each _ _ st1) as [r st2].
    destruct IH as (Hwf2 & Hv2 & Hall). split; [done|]. rewrite Hv1 in Hv2. split.
    + intros k. rewrite fmap_cons. destruct (decide (k = block_hash b)) as [->|Hne].
      * right. split; [|left]. destruct (Hv2 (block_hash b)) as [->|[? _]]; [|done].
        apply lookup_delete_eq.
      * destruct (Hv2 k) as [->|[? ?]]; [left; by apply lookup_delete_ne|right; split; [done|by right]].
    + intros Hr k. rewrite fmap_cons, elem_of_cons.
      intros [->|?]; [|by apply Hall]. destruct (Hv2 (block_hash b)) as [->|[? _]]; [|done].
      apply lookup_delete_eq.
  - split; [done|]. split; [|done]. intros k. left. by rewrite Hv1.
Qed.

(** *** Reachable stores *)

(** One call of an operation of the store. *)
Inductive store_call :=
  | Insert (b : Block)
  | Get (h : BlockHash)
  | GetAll
  | GetRange (lo hi : Z)
  | GetByParent (parent : BlockHash)
  | VerifyIntegrity
  | Delete (h : BlockHash)
  | Clear.

Definition store_run (c : store_call) st : BlockStore Db :=
  match c with
  | Insert b => (insert_block b st).2
  | Get h => (get_block h st).2
  | GetAll => (get_all_blocks st).2
  | GetRange lo hi => (get_blocks_by_height_range lo hi st).2
  | GetByParent p => (get_blocks_by_parent p st).2
  | VerifyIntegrity => (verify_integrity st).2
  | Delete h => (delete_block h st).2
  | Clear => clear st
  end.

Definition store_call_wf (c : store_call) : Prop :=
  match c with Insert b => length (block_hash b) = 32%nat | _ => True end.

(** The blocks that have been deleted and not stored or cleared away since, by hash: what the cache
    may still hold although the database does not. *)
Definition ghosts_after (c : store_call) st (gh : gmap BlockHash Block) : gmap BlockHash Block :=
  match c with
  | Insert b => if is_ok (insert_block b st).1 then delete (block_hash b) gh else gh
  | Delete h =>
      match view st !! h with
      | Some b => if is_ok (delete_block h st).1 then <[h := b]> gh else gh
      | None => gh
      end
  | Clear => ∅
  | _ => gh
  end.

Definition track (s : BlockStore Db * gmap BlockHash Block) (c : store_call) :=
  (store_run c s.1, ghosts_after c s.1 s.2).

(** A run of calls, with the ghosts it leaves. *)
Definition store_runs (calls : list store_call) st : BlockStore Db * gmap BlockHash Block :=
  foldl track (st, ∅) calls.

(** Reading fills the cache with blocks of the database. *)
Definition fills st st' : Prop :=
  bstore_wf st ->
  bstore_wf st' /\ view st' = view st /\
  forall k x, cache st' !! k = Some x -> cache st !! k = Some x \/ view st !! k = Some x.

Lemma fills_refl st : fills st st.
Proof. intros Hwf. split; [done|]. split; [done|]. by left. Qed.
Lemma fills_trans st1 st2 st3 : fills st1 st2 -> fills st2 st3 -> fills st1 st3.
Proof.
  intros Hf Hf' Hwf. destruct (Hf Hwf) as (Hwf2 & Hv2 & Hc2). destruct (Hf' Hwf2) as (Hwf3 & Hv3 & Hc3).
  split; [done|]. split; [congruence|]. intros k x [Hx|Hx]%Hc3; [by apply Hc2|]. right. congruence.
Qed.

Lemma get_block_fills h st : fills st (get_block h st).2.
Proof.
  intros Hwf. destruct (get_block_wf h st Hwf) as (Hwf' & Hv & _). split; [done|]. split; [done|].
  destruct Hwf as (Hh & _ & Hn & Hle & Hlim & _). unfold get_block, get_from_cache.
  destruct (cache st !! h); [by left|]. rewrite stored_block_view by done.
  destruct (view st !! h) as [b|] eqn:Hb; [|by left]. cbn [snd].
  destruct (add_to_cache_spec h b st Hn Hle Hlim) as (c & Hc & -> & _).
  cbn [cache set_cache].
  intros k x [[<- <-]|[_ Hk]]%lookup_insert_Some; [by right|]. left. by eapply lookup_weaken.
Qed.

Lemma get_blocks_fills hashes st : fills st (get_blocks hashes st).2.
Proof.
  revert st. induction hashes as [|h hashes IH]; intros st; [apply fills_refl|]. cbn [get_blocks].
  pose proof (get_block_fills h st) as Hf. destruct (get_block h st) as [o st1].
  specialize (IH st1). destruct (get_blocks hashes st1) as [bs st2]. by eapply fills_trans.
Qed.

Lemma collect_range_fills lo hi hashes st : fills st (collect_range lo hi hashes st).2.
Proof.
  revert st. induction hashes as [|h hashes IH]; intros st; cbn [collect_range]; [apply fills_refl|].
  destruct (get_block_metadata h st) as [[m|]|e]; [|apply IH|apply fills_refl].
  destruct (_ && _); [|apply IH].
  pose proof (get_block_fills h st) as Hf. destruct (get_block h st) as [o st1].
  specialize (IH st1). destruct (collect_range lo hi hashes st1) as [[bs|e] st2]; by eapply fills_trans.
Qed.

Lemma get_range_fills lo hi st : fills st (get_blocks_by_height_range lo hi st).2.
Proof.
  unfold get_blocks_by_height_range, mbind, M_bind, gets, lift, mret, M_ret.
  destruct (get_all_block_hashes st) as [hashes|e]; [|apply fills_refl].
  pose proof (collect_range_fills lo hi hashes st) as Hf.
  by destruct (collect_range lo hi hashes st) as [[bs|e] st'].
Qed.

Lemma get_by_parent_fills p st : fills st (get_blocks_by_parent p st).2.
Proof.
  unfold get_blocks_by_parent, get_all_blocks.
  pose proof (get_blocks_fills (get_all_hashes st) st) as Hf. by destruct (get_blocks _ st).
Qed.
Lemma verify_integrity_fills st : fills st (verify_integrity st).2.
Proof.
  unfold verify_integrity, get_all_blocks.
  pose proof (get_blocks_fills (get_all_hashes st) st) as Hf. by destruct (get_blocks _ st).
Qed.

(** Deleting reads the block back into the cache, and takes nothing else there. *)
Lemma delete_block_cache h st k x :
  bstore_wf st -> cache (delete_block h st).2 !! k = Some x ->
  cache st !! k = Some x \/ view st !! k = Some x.
Proof.
  intros Hwf. destruct (remove_from_cache_wf h st Hwf) as (Hwf0 & Hc0 & Hdb0).
  unfold delete_block. rewrite require_cfs_ok by apply Hwf0.
  destruct (get_block_fills h (remove_from_cache h st) Hwf0) as (_ & _ & Hc).
  destruct (get_block h (remove_from_cache h st)) as [o st1]. cbn [snd] in Hc.
  unfold write_batch. destruct (cf_write _ (db st1)) as [r d]. cbn [snd cache set_db].
  intros Hx. rewrite (view_db _ _ Hdb0) in Hc. apply Hc in Hx as [Hx|Hx]; [left|by right].
  rewrite Hc0 in Hx. by apply lookup_delete_Some in Hx as [_ Hx].
Qed.

Lemma insert_block_cache b st k x :
  bstore_wf st -> cache (insert_block b st).2 !! k = Some x ->
  (is_ok (insert_block b st).1 = true /\ k = block_hash b) \/ cache st !! k = Some x.
Proof.
  intros (Hh & _ & Hn & Hle & Hlim & _).
  destruct (store_insert_cases b st Hh) as [(_ & _ & _ & d & ->)|(data & d & _ & -> & _)]; [by right|].
  cbn [fst snd is_ok].
  destruct (add_to_cache_spec (block_hash b) b (set_db d st) Hn Hle Hlim) as (c & Hc & -> & _).
  cbn [cache set_cache].
  intros [[<- _]|[_ Hk]]%lookup_insert_Some; [by left|]. right. by eapply lookup_weaken.
Qed.

(** Deleting one after the other: what a run of deletions leaves. *)
Lemma delete_all_wf hashes st :
  bstore_wf st -> bstore_wf (foldl (fun st h => (delete_block h st).2) st hashes).
Proof.
  revert st. induction hashes as [|h hashes IH]; intros st Hwf; [done|]. cbn.
  apply IH. by apply delete_block_spec.
Qed.

Lemma clear_wf st : bstore_wf st -> bstore_wf (clear st).
Proof.
  intros Hwf. destruct (delete_all_wf (get_all_hashes st) st Hwf) as (Hh & He & _ & _ & Hlim & _).
  unfold clear. split; [done|]. split; [done|]. cbn [set_cache cache_size cache cache_size_limit].
  split; [done|]. split; [lia|]. split; [done|]. intros k b b'. by rewrite lookup_empty.
Qed.

(** What the cache holds and the database does not are ghosts. *)
Definition haunted st (gh : gmap BlockHash Block) : Prop :=
  bstore_wf st /\ forall k x, cache st !! k = Some x -> view st !! k = None -> gh !! k = Some x.

Lemma fills_haunted st st' gh : fills st st' -> haunted st gh -> haunted st' gh.
Proof.
  intros Hf [Hwf Hgh]. destruct (Hf Hwf) as (Hwf' & Hv & Hc). split; [done|].
  intros k x [Hx|Hx]%Hc Hn; rewrite Hv in Hn; [by apply Hgh|congruence].
Qed.

Lemma track_haunted c st gh :
  store_call_wf c -> haunted st gh -> haunted (store_run c st) (ghosts_after c st gh).
Proof.
  intros Hc Hh. destruct c as [b|h| |lo hi|p| |h|]; cbn [store_run ghosts_after].
  2: by eapply fills_haunted, Hh; apply get_block_fills.
  2: by eapply fills_haunted, Hh; apply get_blocks_fills.
  2: by eapply fills_haunted, Hh; apply get_range_fills.
  2: by eapply fills_haunted, Hh; apply get_by_parent_fills.
  2: by eapply fills_haunted, Hh; apply verify_integrity_fills.
  - destruct Hh as [Hwf Hgh]. destruct (insert_block_wf b st Hwf Hc) as [Hwf' Hv]. split; [done|].
    intros k x Hx Hn. pose proof (insert_block_cache b st k x Hwf Hx) as Hin. rewrite Hv in Hn.
    destruct (is_ok (insert_block b st).1).
    + apply lookup_insert_None in Hn as [Hn Hne]. destruct Hin as [[_ ->]|Hin]; [done|].
      rewrite lookup_delete_ne by done. by apply Hgh.
    + destruct Hin as [[? _]|Hin]; [done|]. by apply Hgh.
  - destruct Hh as [Hwf Hgh]. destruct (delete_block_spec h st Hwf) as (Hwf' & Hv & _). split; [done|].
    intros k x Hx Hn. pose proof (delete_block_cache h st k x Hwf Hx) as Hin. rewrite Hv in Hn.
    pose proof Hwf as (_ & _ & _ & _ & _ & Hco).
    destruct (view st !! k) as [y|] eqn:Hy.
    + destruct (is_ok (delete_block h st).1); [|congruence].
      apply lookup_delete_None in Hn as [->|Hn]; [|congruence].
      rewrite Hy, lookup_insert_eq. f_equal. destruct Hin as [Hin|Hin]; [|congruence].
      symmetry. by eapply Hco.
    + destruct Hin as [Hin|Hin]; [|done]. pose proof (Hgh k x Hin Hy) as Hgk.
      destruct (view st !! h) as [y|] eqn:Hyh; [|done]. destruct (is_ok _); [|done].
      rewrite lookup_insert_ne; [done|]. intros ->. congruence.
  - destruct Hh as [Hwf Hgh]. split; [by apply clear_wf|]. intros k x. unfold clear. cbn [set_cache cache].
    by rewrite lookup_empty.
Qed.

Lemma foldl_track_haunted calls s :
  Forall store_call_wf calls -> haunted s.1 s.2 ->
  haunted (foldl track s calls).1 (foldl track s calls).2.
Proof.
  intros Hc. revert s. induction Hc as [|c calls Hc _ IH]; intros s Hs; [done|].
  cbn [foldl]. apply IH. by apply track_haunted.
Qed.

Lemma no_deletion_no_ghosts calls s :
  (forall h, Delete h ∉ calls) -> s.2 = ∅ -> (foldl track s calls).2 = ∅.
Proof.
  revert s. induction calls as [|c calls IH]; intros s Hd Hs; [done|]. cbn [foldl].
  apply IH; [intros h Hin; apply (Hd h); by right|]. cbn [track snd]. rewrite Hs.
  destruct c; cbn [ghosts_after]; try done; [|by destruct (Hd h); left].
  destruct (is_ok _); [apply delete_empty|done].
Qed.

Lemma new_with_db_ok (d : Db) :
  handles_ok (new_with_db d) -> entries_ok (cf_view d BLOCKS_CF) -> bstore_ok (new_with_db d).
Proof.
  intros Hh He. split; [done|]. split; [done|]. cbn [new_with_db cache_size cache cache_size_limit].
  split; [done|]. split; [lia|]. split; [unfold u64_max; lia|]. apply map_empty_subseteq.
Qed.

(** C5: the cached, persistent store refines a finite map from hashes to
    blocks.  In a good state, looking a block up answers what the map holds,
    from the cache or from the database, and changes neither the map nor the
    quality of the state; [block_exists] and the listed hashes agree with it, with
    no repetition; [get_all_blocks] lists its blocks; inserting a block sets its
    entry when it succeeds and changes nothing when it fails, and the cache never
    grows beyond its limit. *)
Theorem block_store_refines st :
  bstore_ok st ->
  (forall h, (get_block h st).1 = view st !! h /\
     bstore_ok (get_block h st).2 /\ view (get_block h st).2 = view st) /\
  (forall h, block_exists h st = bool_decide (is_Some (view st !! h))) /\
  (forall h, h ∈ get_all_hashes st <-> is_Some (view st !! h)) /\ NoDup (get_all_hashes st) /\
  (get_all_blocks st).1 ≡ₚ (map_to_list (view st)).*2 /\
  forall b, length (block_hash b) = 32%nat ->
    let '(r, st') := insert_block b st in
    bstore_ok st' /\ Z.of_nat (size (cache st')) <= cache_size_limit st' /\
    view st' = if is_ok r then <[block_hash b := b]> (view st) else view st.
Proof.
  intros Hok. pose proof Hok as (Hh & He & Hc). split; [|split; [|split; [|split; [|split]]]].
  - intros h. destruct (get_block_spec st h Hok) as (? & ? & Hdb).
    split; [done|]. split; [done|by apply view_db].
  - intros h. by apply block_exists_spec.
  - by apply get_all_hashes_spec.
  - by apply get_all_hashes_spec.
  - by apply get_all_blocks_wf, bstore_ok_wf.
  - intros b Hlen. pose proof (insert_block_spec b st Hok Hlen) as [Hok' Hv].
    destruct (insert_block b st) as [r st']. cbn [fst snd] in *. split; [done|]. split; [|done].
    destruct Hok' as (_ & _ & Hn & Hle & _). lia.
Qed.

(** C13: every store reached from an open database by insertions, reads, scans,
    deletions and clearing, failed writes included, keeps the cache within
    its limit and counted exactly; keeps every stored entry readable under its own
    hash, and lists exactly the stored hashes.  Every block the cache holds is
    the one the database holds under that hash, or the database has none and the block is one
    that the run has deleted: [delete_block] reads the block back into the
    cache, so [get_block] still answers it afterwards.  A run without
    deletions has the cache a part of the database. *)
Theorem reachable_store_wf (d : Db) calls :
  handles_ok (new_with_db d) -> entries_ok (cf_view d BLOCKS_CF) -> Forall store_call_wf calls ->
  let '(st, ghosts) := store_runs calls (new_with_db d) in
  Z.of_nat (size (cache st)) = cache_size st /\ cache_size st <= cache_size_limit st /\
  (forall h b, view st !! h = Some b -> (get_block h st).1 = Some b /\ block_hash b = h) /\
  (forall h, h ∈ get_all_hashes st <-> is_Some (view st !! h)) /\
  (forall h b, cache st !! h = Some b ->
     view st !! h = Some b \/ (view st !! h = None /\ ghosts !! h = Some b)) /\
  (forall h b, view st !! h = Some b -> is_ok (delete_block h st).1 = true ->
     view (delete_block h st).2 !! h = None /\ (get_block h (delete_block h st).2).1 = Some b) /\
  ((forall h, Delete h ∉ calls) -> cache st ⊆ view st).
Proof.
  intros Hh He Hcalls. destruct (store_runs calls (new_with_db d)) as [st gh] eqn:Hrun.
  assert (haunted st gh) as [Hwf Hgh].
  { pose proof (foldl_track_haunted calls (new_with_db d, ∅) Hcalls) as Hs.
    fold (store_runs calls (new_with_db d)) in Hs. rewrite Hrun in Hs. apply Hs.
    split; [apply bstore_ok_wf, new_with_db_ok; done|]. intros k x. cbn [new_with_db cache fst].
    by rewrite lookup_empty. }
  pose proof Hwf as (Hh' & He' & Hn & Hle & _ & Hco).
  assert (forall h b, cache st !! h = Some b ->
    view st !! h = Some b \/ (view st !! h = None /\ gh !! h = Some b)) as Hcases.
  { intros h b Hb. destruct (view st !! h) as [b'|] eqn:Hv; [left|right; split; [done|by apply Hgh]].
    f_equal. symmetry. by eapply Hco. }
  split; [done|]. split; [done|]. split; [|split; [by apply get_all_hashes_spec|split; [done|split]]].
  - intros h b Hb. split; [by apply (get_block_wf h st Hwf)|by eapply view_hash].
  - intros h b Hb Hok. destruct (delete_block_spec h st Hwf) as (_ & Hv & Hc). rewrite Hok in Hv.
    split; [rewrite Hv; apply lookup_delete_eq|]. unfold get_block, get_from_cache. by rewrite (Hc b Hb).
  - intros Hnd. pose proof (no_deletion_no_ghosts calls (new_with_db d, ∅) Hnd eq_refl) as Hnone.
    change ((store_runs calls (new_with_db d)).2 = ∅) in Hnone. rewrite Hrun in Hnone. cbn [snd] in Hnone. subst gh.
    apply map_subseteq_spec. intros h b [Hb|[_ Hb]]%Hcases; [done|]. by rewrite lookup_empty in Hb.
Qed.

(** A deleted block does not go away.  When [delete_block] succeeds on a
    stored block, the block has left the database and is no longer listed, but the
    call has just read it back into the cache, so [block_exists] still answers true
    and [get_block] still returns it. *)
Theorem delete_block_keeps_block h b st :
  bstore_wf st -> view st !! h = Some b -> is_ok (delete_block h st).1 = true ->
  let st' := (delete_block h st).2 in
  view st' !! h = None /\ h ∉ get_all_hashes st' /\
  block_exists h st' = true /\ get_block h st' = (Some b, st').
Proof.
  intros Hwf Hb Hok st'. destruct (delete_block_spec h st Hwf) as (Hwf' & Hv & Hc).
  fold st' in Hwf', Hv, Hc. rewrite Hok in Hv. specialize (Hc b Hb).
  assert (view st' !! h = None) as Hnone by (rewrite Hv; apply lookup_delete_eq).
  split; [done|]. split; [|split].
  - destruct Hwf' as (Hh' & He' & _). rewrite (proj1 (get_all_hashes_spec st' Hh' He') h), Hnone.
    by intros [].
  - unfold block_exists. by rewrite Hc.
  - unfold get_block, get_from_cache. by rewrite Hc.
Qed.

Lemma lookup_foldl_delete (hashes : list BlockHash) (v : gmap BlockHash Block) k :
  foldl (fun v h => delete h v) v hashes !! k = if decide (k ∈ hashes) then None else v !! k.
Proof.
  revert v. induction hashes as [|h hashes IH]; intros v; cbn.
  - by rewrite decide_False by apply not_elem_of_nil.
  - rewrite IH. destruct (decide (k ∈ hashes)) as [Hin|Hin].
    { by rewrite decide_True by by right. }
    destruct (decide (k = h)) as [->|Hne].
    + rewrite decide_True by left. apply lookup_delete_eq.
    + rewrite decide_False by (rewrite elem_of_cons; tauto). by apply lookup_delete_ne.
Qed.

(** *** Rollback *)

Lemma rollback_loop_wf now now' mst hashes last p st :
  bstore_wf st ->
  let '(r, p', st') := rollback_loop now now' mst hashes last p st in
  bstore_wf st' /\
  (is_ok r = true -> view st' = foldl (fun v h => delete h v) (view st) hashes).
Proof.
  revert last p st. induction hashes as [|h hashes IH]; intros last p st Hwf; [done|].
  cbn [rollback_loop foldl].
  destruct (get_block_wf h st Hwf) as (Hwf1 & Hv1 & Hb & Hnone & _).
  destruct (get_block h st) as [[b|] st1]; cbn [fst snd] in *.
  - destruct (delete_block_spec h st1 Hwf1) as (Hwf2 & Hv2 & _).
    destruct (delete_block h st1) as [[[]|e] st2]; cbn [fst snd is_ok] in *; [|done].
    specialize (IH (Some b) (foldl (fun p tx => (add_transaction now now' mst tx [] None p).2) p
      (transactions b)) st2 Hwf2).
    destruct (rollback_loop _ _ _ _ _ _ _) as [[r p'] st']. destruct IH as [? IH]. split; [done|].
    intros Hr. by rewrite (IH Hr), Hv2, Hv1.
  - specialize (IH last p st1 Hwf1).
    destruct (rollback_loop _ _ _ _ _ _ _) as [[r p'] st']. destruct IH as [? IH]. split; [done|].
    intros Hr. rewrite (IH Hr), Hv1. f_equal. rewrite delete_id; [done|].
    destruct (view st !! h) eqn:E; [|done]. by specialize (Hb _ eq_refl).
Qed.

(** Rolling back takes the named blocks, and no others, out of the
    store, but it cannot give the state back: whatever the state was, it is left
    empty, and the call reports success exactly when no block that remains
    holds a transfer. *)
Theorem rollback_blocks_spec now now' mst hashes state p st last p1 st1 :
  bstore_wf st -> (forall h b, view st !! h = Some b -> Forall tx_wf (transactions b)) ->
  rollback_loop now now' mst hashes None p st = (Ok last, p1, st1) ->
  let '(r, state', p', st') := rollback_blocks now now' mst hashes state p st in
  bstore_wf st' /\ p' = p1 /\
  (forall h, view st' !! h = if decide (h ∈ hashes) then None else view st !! h) /\
  state' = empty_manager /\
  (is_ok r = true <-> forall h b, view st' !! h = Some b ->
     Forall (fun tx => ~ is_transfer tx) (transactions b)).
Proof.
  intros Hwf Htx Hloop. pose proof (rollback_loop_wf now now' mst hashes None p st Hwf) as Hl.
  unfold rollback_blocks. rewrite Hloop in *. destruct Hl as [Hwf1 Hv1]. specialize (Hv1 eq_refl).
  destruct (get_all_blocks_wf st1 Hwf1) as (Hp & Hwf2 & Hv2).
  destruct (get_all_blocks st1) as [blocks st2]. cbn [fst snd] in *.
  assert (forall h, view st2 !! h = if decide (h ∈ hashes) then None else view st !! h) as Hv.
  { intros h. rewrite Hv2, Hv1. apply lookup_foldl_delete. }
  assert (forall b, b ∈ blocks <-> exists h, view st2 !! h = Some b) as Hin.
  { intros b. rewrite Hp, list_elem_of_fmap, Hv2. split.
    - intros ([h b'] & -> & Hb%elem_of_map_to_list). eauto.
    - intros [h Hb]. exists (h, b). split; [done|]. by apply elem_of_map_to_list. }
  pose proof (rebuild_from_blocks_spec (sort_by_key height blocks) state) as Hr.
  destruct (rebuild_from_blocks _ state) as [r state'].
  destruct Hr as [Hs Hr].
  { apply Forall_forall. intros b Hb%elem_of_sort_by%Hin. destruct Hb as [h Hb].
    rewrite Hv in Hb. case_decide; [done|]. by eapply Htx. }
  assert (r = Ok tt <-> forall h b, view st2 !! h = Some b ->
    Forall (fun tx => ~ is_transfer tx) (transactions b)) as Hiff.
  { rewrite Hr, Forall_forall. setoid_rewrite elem_of_sort_by. setoid_rewrite Hin. split; eauto.
    intros Hall b (h & Hb). eauto. }
  destruct r as [[]|e]; (do 4 (split; [done|])); rewrite <- Hiff; done.
Qed.

End Refinement.

(** ** The interface, discharged *)

Section Interface.
Context `{Sha256} `{SecpOps} `{LibM} `{HashOrder} `{Hex} {Db : Type} `{CfLaws Db}
  `{CodecLaws Block} `{Codec BlockMetadata} `{Codec Transaction}.

(** What a caller sees of the store: the answers of the methods on [&self]. *)
#[export] Instance block_store_i : BlockStoreI (BlockStore Db) := {
  Store.get_block st h := (get_block h st).1;
  Store.block_exists st h := block_exists h st;
  Store.get_all_hashes st := get_all_hashes st;
  Store.insert_block b st := insert_block b st;
  Store.total_size st := total_size st
}.

#[export, refine] Instance block_store_laws : BlockStoreLaws (BlockStore Db) :=
  { store_ok := bstore_ok }.
Proof.
  all: cbn [Store.get_block Store.block_exists Store.get_all_hashes Store.insert_block block_store_i].
  - intros st h Hok. rewrite (proj1 (get_block_spec st h Hok)). by apply block_exists_spec.
  - intros st h Hok. rewrite (proj1 (get_block_spec st h Hok)).
    destruct Hok as (Hh & He & _). by apply get_all_hashes_spec.
  - intros st (Hh & He & _). by apply get_all_hashes_spec.
  - intros st h b Hok. rewrite (proj1 (get_block_spec st h Hok)). destruct Hok as (_ & He & _).
    by apply view_hash.
  - intros st b Hok Hlen. by apply insert_block_spec.
  - intros st b h Hok Hlen Hr. destruct (insert_block_spec b st Hok Hlen) as [Hok' Hv].
    rewrite (proj1 (get_block_spec _ h Hok')), (proj1 (get_block_spec st h Hok)), Hv, Hr.
    destruct (decide (h = block_hash b)) as [->|Hne]; [apply lookup_insert_eq|by apply lookup_insert_ne].
  - intros st b h Hok Hlen Hr. destruct (insert_block_spec b st Hok Hlen) as [Hok' Hv].
    by rewrite (proj1 (get_block_spec _ h Hok')), (proj1 (get_block_spec st h Hok)), Hv, Hr.
Defined.
End Interface.

(** ** Serializers for the evaluations *)

Definition algorithm_code (a : CryptoAlgorithm) : Z :=
  match a with Secp256k1 => 0 | Schnorr => 1 | PostQuantum => 2 end.
Definition fmt_algorithm : format CryptoAlgorithm :=
  fmt_map fmt_Z algorithm_code
    (fun z => Some (if z =? 0 then Secp256k1 else if z =? 1 then Schnorr else PostQuantum))
    (fun a => match a with Secp256k1 | Schnorr | PostQuantum => eq_refl end).

Definition fmt_signature : format Signature :=
  fmt_map (fmt_pair fmt_algorithm fmt_bytes) (fun s => (algorithm s, data s))
    (fun p => Some {| algorithm := p.1; data := p.2 |})
    (fun s => match s with Build_Signature _ _ => eq_refl end).

Definition payload_fields (p : TxPayload) : list Bytes :=
  match p with
  | Transfer to amount => [[0; amount]; to]
  | ContractDeploy code args => [[1]; code; args]
  | ContractCall c m args => [[2]; c; m; args]
  end.
Definition fields_payload (l : list Bytes) : option TxPayload :=
  match l with
  | [[_; amount]; to] => Some (Transfer to amount)
  | [[_]; code; args] => Some (ContractDeploy code args)
  | [[_]; c; m; args] => Some (ContractCall c m args)
  | _ => None
  end.
Definition fmt_payload : format TxPayload :=
  fmt_map (fmt_list fmt_bytes) payload_fields fields_payload
    (fun p => match p with Transfer _ _ | ContractDeploy _ _ | ContractCall _ _ _ => eq_refl end).

Definition fmt_transaction : format Transaction :=
  fmt_map (fmt_pair fmt_bytes (fmt_pair fmt_payload (fmt_pair (fmt_list fmt_Z) fmt_signature)))
    (fun t => (from t, (payload t, ([nonce t; gas_limit t; gas_price t], signature t))))
    (fun '(f, (p, (l, s))) => match l with
       | [n; g; q] => Some {| from := f; payload := p; nonce := n; gas_limit := g; gas_price := q;
                              signature := s |}
       | _ => None end)
    (fun t => match t with Build_Transaction _ _ _ _ _ _ => eq_refl end).

Definition option_hash (l : list BlockHash) : option BlockHash :=
  match l with h :: _ => Some h | [] => None end.
Definition hash_option (o : option BlockHash) : list BlockHash :=
  match o with Some h => [h] | None => [] end.

Definition fmt_header : format BlockHeader :=
  fmt_map (fmt_pair (fmt_list fmt_bytes) (fmt_pair fmt_bytes (fmt_pair fmt_bytes (fmt_list fmt_bytes))))
    (fun h => (parent_hashes h, ([timestamp h; header_nonce h; difficulty h; base_fee h; version h;
       blue_score h; chain_height h; topo_index h], (state_root h, hash_option (selected_parent h)))))
    (fun '(ps, (l, (r, o))) => match l with
       | [t; n; d; f; v; s; c; i] => Some
           {| parent_hashes := ps; timestamp := t; header_nonce := n; difficulty := d; base_fee := f;
              state_root := r; version := v; blue_score := s; selected_parent := option_hash o;
              chain_height := c; topo_index := i |}
       | _ => None end)
    (fun h => match h with
       | Build_BlockHeader _ _ _ _ _ _ _ _ o _ _ =>
           match o with Some _ => eq_refl | None => eq_refl end end).

Definition fmt_block : format Block :=
  fmt_map (fmt_pair fmt_bytes (fmt_pair fmt_header (fmt_pair (fmt_list fmt_transaction)
      (fmt_pair fmt_bytes (fmt_list fmt_Z)))))
    (fun b => (block_hash b, (header b, (transactions b, (producer b, [reward b; height b])))))
    (fun '(h, (hd, (ts, (p, l)))) => match l with
       | [r; n] => Some {| block_hash := h; header := hd; transactions := ts; producer := p;
                           reward := r; height := n |}
       | _ => None end)
    (fun b => match b with Build_Block _ _ _ _ _ _ => eq_refl end).

Definition fmt_metadata : format BlockMetadata :=
  fmt_map (fmt_list fmt_Z)
    (fun m => [meta_height m; meta_timestamp m; Z.of_nat (transaction_count m); Z.of_nat (size_bytes m)])
    (fun l => match l with
       | [h; t; c; s] => Some {| meta_height := h; meta_timestamp := t;
                                 transaction_count := Z.to_nat c; size_bytes := Z.to_nat s |}
       | _ => None end)
    (fun m => match m with Build_BlockMetadata h t c s =>
       f_equal2 (fun c s => Some {| meta_height := h; meta_timestamp := t; transaction_count := c;
                                    size_bytes := s |}) (Nat2Z.id c) (Nat2Z.id s) end).

#[export] Instance transaction_codec : Codec Transaction := fmt_codec fmt_transaction.
#[export] Instance block_codec : Codec Block := fmt_codec fmt_block.
#[export] Instance metadata_codec : Codec BlockMetadata := fmt_codec fmt_metadata.
#[export] Instance transaction_codec_laws : CodecLaws Transaction := fmt_codec_laws fmt_transaction.
#[export] Instance block_codec_laws : CodecLaws Block := fmt_codec_laws fmt_block.
#[export] Instance metadata_codec_laws : CodecLaws BlockMetadata := fmt_codec_laws fmt_metadata.

(** ** Witnesses *)

#[local] Existing Instances checksum_sha checksum_laws toy_secp constant_exp canonical_order.

Definition empty_store : BlockStore MemCf := new_with_db mem_cf_empty.
Definition transfer_block : Block :=
  @Block.new checksum_sha constant_exp [replicate 32 7] 1000 [genesis_transfer] 42 0 1
    (replicate 20 9) (replicate 32 0).
Definition one_block_store : BlockStore MemCf := (insert_block transfer_block empty_store).2.

Lemma empty_store_ok : bstore_ok empty_store.
Proof.
  apply new_with_db_ok; [done|]. intros k d Hk. change ((∅ : gmap Bytes Bytes) !! k = Some d) in Hk.
  by apply lookup_empty_Some in Hk.
Qed.

Lemma one_block_store_ok : bstore_ok one_block_store.
Proof. apply (insert_block_spec transfer_block empty_store empty_store_ok). reflexivity. Qed.
Lemma one_block_store_view : view one_block_store = {[block_hash transfer_block := transfer_block]}.
Proof.
  pose proof (proj2 (insert_block_spec transfer_block empty_store empty_store_ok eq_refl)) as Hv.
  exact Hv.
Qed.

Lemma block_store_refines_witness :
  (get_block (block_hash transfer_block) one_block_store).1 = Some transfer_block /\
  block_exists (replicate 32 1) one_block_store = false /\
  (get_all_blocks one_block_store).1 ≡ₚ [transfer_block].
Proof.
  destruct (block_store_refines one_block_store one_block_store_ok)
    as (Hget & Hex & _ & _ & Hall & _).
  rewrite one_block_store_view, map_to_list_singleton in Hall.
  split; [|split; [|exact Hall]].
  - rewrite (proj1 (Hget _)), one_block_store_view. apply lookup_singleton_eq.
  - rewrite Hex, one_block_store_view. vm_compute. reflexivity.
Defined.

(** A block is stored, read, deleted, and read again. *)
Definition sample_calls : list store_call :=
  [Insert transfer_block; Get (block_hash transfer_block); Delete (block_hash transfer_block);
   Get (block_hash transfer_block)].

Lemma reachable_store_wf_witness :
  let '(st, ghosts) := store_runs sample_calls empty_store in
  Z.of_nat (size (cache st)) = cache_size st /\
  (forall h b, cache st !! h = Some b ->
     view st !! h = Some b \/ (view st !! h = None /\ ghosts !! h = Some b)).
Proof.
  pose proof (reachable_store_wf mem_cf_empty sample_calls (proj1 empty_store_ok)
    (proj1 (proj2 empty_store_ok))) as Hw.
  change (new_with_db mem_cf_empty) with empty_store in Hw.
  destruct (store_runs sample_calls empty_store) as [st ghosts].
  destruct Hw as (Hn & _ & _ & _ & Hc & _); [repeat constructor|]. split; [exact Hn|exact Hc].
Defined.

Lemma delete_block_keeps_block_witness :
  let st' := (delete_block (block_hash transfer_block) one_block_store).2 in
  view st' !! block_hash transfer_block = None /\
  block_hash transfer_block ∉ get_all_hashes st' /\
  block_exists (block_hash transfer_block) st' = true /\
  get_block (block_hash transfer_block) st' = (Some transfer_block, st').
Proof.
  apply (delete_block_keeps_block (block_hash transfer_block) transfer_block one_block_store
    (bstore_ok_wf _ one_block_store_ok)).
  - rewrite one_block_store_view. apply lookup_singleton_eq.
  - vm_compute. reflexivity.
Defined.

Lemma transfer_block_wf h b :
  view one_block_store !! h = Some b -> Forall tx_wf (transactions b).
Proof.
  rewrite one_block_store_view. intros [_ <-]%lookup_singleton_Some.
  constructor; [apply genesis_transfer_wf|constructor].
Qed.

(** Keeping the transfer makes the rebuild fail. *)
Lemma rollback_blocks_spec_witness :
  let '(r, state', p', st') := rollback_blocks 0 0 genesis_state [] genesis_state
    (Mempool.new 10 1) one_block_store in
  state' = empty_manager /\ is_ok r = false.
Proof.
  pose proof (rollback_blocks_spec 0 0 genesis_state [] genesis_state (Mempool.new 10 1)
    one_block_store None (Mempool.new 10 1) one_block_store
    (bstore_ok_wf _ one_block_store_ok) transfer_block_wf eq_refl) as Hs.
  destruct (rollback_blocks _ _ _ _ _ _ _) as [[[r state'] p'] st'].
  destruct Hs as (_ & _ & Hv & Hst & Hr). split; [exact Hst|].
  destruct r as [last|e]; [|reflexivity]. exfalso.
  pose proof (proj1 Hr eq_refl (block_hash transfer_block) transfer_block) as Hf.
  rewrite Hv, one_block_store_view in Hf. specialize (Hf (lookup_singleton_eq _ _)).
  apply Forall_cons in Hf as [Hf _]. by apply Hf.
Defined.
