(* ===== verification/Pruning.v ===== *)
(** The rolling-window pruner: [src/src/storage/pruning.rs].

    The pruner owns a database of snapshots and bookkeeping and shares the block
    store with the rest of the node; here the store is a field, so a computation
    over a pruner shows what becomes of both.  Opening the database is left to
    RocksDB. *)
From S2P Require Import Prelude Crypto Transaction Floats Mining Block StateTree StateManager.
From S2P Require Import Store Mempool Kv BlockStore.

Definition STATE_SNAPSHOTS_CF : string := "state_snapshots".
Definition PRUNING_METADATA_CF : string := "pruning_metadata".

Record StateSnapshot := {
  snapshot_height : Z;
  snapshot_timestamp : Z;
  snapshot_state_root : Hash;
  total_supply : Z;
  active_accounts : Z
}.

Record PruningMetadata := {
  last_pruned_height : Z;
  total_blocks_pruned : Z;
  total_size_pruned : Z;
  last_snapshot_height : Z;
  snapshot_count : Z
}.

Record RollingWindowPruner (Db : Type) := {
  pruner_db : Db;
  block_store : BlockStore Db;
  window_size : Z;
  snapshot_interval : Z;
  pruning_threshold : Z
}.
Arguments pruner_db {Db} _.
Arguments block_store {Db} _.
Arguments window_size {Db} _.
Arguments snapshot_interval {Db} _.
Arguments pruning_threshold {Db} _.

Record PruningStats := {
  stats_window_size : Z;
  stats_pruning_threshold : Z;
  stats_snapshot_interval : Z;
  stats_last_pruned_height : Z;
  stats_total_blocks_pruned : Z;
  stats_total_size_pruned : Z;
  stats_snapshot_count : Z;
  current_block_count : nat;
  current_storage_size : Z
}.

(** ** Keys *)

(** The ASCII bytes of "snapshot_" and "metadata". *)
Definition snapshot_prefix : Bytes := [115; 110; 97; 112; 115; 104; 111; 116; 95].
Definition metadata_name : Bytes := [109; 101; 116; 97; 100; 97; 116; 97].

(** The decimal digits of [n], before [acc]; a [u64] has at most twenty. *)
Fixpoint decimal (fuel : nat) (n : Z) (acc : Bytes) : Bytes :=
  match fuel with
  | O => acc
  | S fuel' => if n <? 10 then 48 + n :: acc else decimal fuel' (n / 10) (48 + n mod 10 :: acc)
  end.

(** [format!("{:010}", n)] *)
Definition padded (n : Z) : Bytes :=
  let digits := decimal 20 n [] in replicate (10 - length digits) 48 ++ digits.

Definition snapshot_key (height : Z) : Bytes := snapshot_prefix ++ padded height.

Definition default_metadata : PruningMetadata :=
  {| last_pruned_height := 0; total_blocks_pruned := 0; total_size_pruned := 0;
     last_snapshot_height := 0; snapshot_count := 0 |}.

(** ** Operations *)
Section Pruner.
Context `{Sha256} `{SecpOps} `{LibM} `{HashOrder} `{Hex} {Db : Type} `{CfStore Db}
  `{Codec Block} `{Codec BlockMetadata} `{Codec Transaction}
  `{Codec StateSnapshot} `{Codec PruningMetadata}.

Abbreviation Pruner := (RollingWindowPruner Db).
Implicit Types p : Pruner.

Definition set_pruner_db (d : Db) p : Pruner :=
  {| pruner_db := d; block_store := block_store p; window_size := window_size p;
     snapshot_interval := snapshot_interval p; pruning_threshold := pruning_threshold p |}.
Definition set_block_store (s : BlockStore Db) p : Pruner :=
  {| pruner_db := pruner_db p; block_store := s; window_size := window_size p;
     snapshot_interval := snapshot_interval p; pruning_threshold := pruning_threshold p |}.

(** A call on the shared block store. *)
Definition on_store {A} (m : M (BlockStore Db) A) : M Pruner A := fun p =>
  let '(r, s) := m (block_store p) in (r, set_block_store s p).

Definition new (d : Db) (store : BlockStore Db) (window interval threshold : Z) : Pruner :=
  {| pruner_db := d; block_store := store; window_size := window;
     snapshot_interval := interval; pruning_threshold := threshold |}.

(** [self.db.cf_handle(cf).ok_or(msg)?] *)
Definition require_handle (cf msg : string) : M Pruner unit := fun p =>
  (if cf_handle (pruner_db p) cf then Ok tt else err msg, p).

(** [self.db.put_cf(cf, key, value).map_err(..)?] *)
Definition put_data (cf failed : string) (key value : Bytes) : M Pruner unit := fun p =>
  let '(r, d) := cf_put cf key value (pruner_db p) in (map_err failed r, set_pruner_db d p).

Definition should_prune p (current_height : Z) : bool := pruning_threshold p <=? current_height.

Definition get_metadata p : result PruningMetadata :=
  if cf_handle (pruner_db p) PRUNING_METADATA_CF then
    match cf_get (pruner_db p) PRUNING_METADATA_CF metadata_name with
    | Ok (Some data) => map_err "Failed to deserialize metadata: {}" (deserialize data)
    | Ok None => Ok default_metadata
    | Err e => errorf "Database error: {}" [ArgErr e]
    end
  else err "Pruning metadata column family not found".

(** [self.get_metadata()?] *)
Definition read_metadata : M Pruner PruningMetadata := fun p => (get_metadata p, p).

Definition save_metadata (m : PruningMetadata) : M Pruner unit :=
  require_handle PRUNING_METADATA_CF "Pruning metadata column family not found" ≫= fun _ =>
  lift (map_err "Failed to serialize metadata: {}" (serialize m)) ≫= fun metadata_data =>
  put_data PRUNING_METADATA_CF "Failed to save metadata: {}" metadata_name metadata_data.

(** The snapshot of a state; [timestamp] is the clock. *)
Definition snapshot_of (height timestamp : Z) (state : StateManager) : StateSnapshot :=
  {| snapshot_height := height; snapshot_timestamp := timestamp;
     snapshot_state_root := get_state_root state;
     total_supply := get_total_supply state;
     active_accounts := get_active_account_count state |}.

(** [metadata.last_snapshot_height = height; metadata.snapshot_count += 1] *)
Definition note_snapshot (height : Z) (m : PruningMetadata) : PruningMetadata :=
  {| last_pruned_height := last_pruned_height m; total_blocks_pruned := total_blocks_pruned m;
     total_size_pruned := total_size_pruned m; last_snapshot_height := height;
     snapshot_count := (snapshot_count m + 1) mod (u32_max + 1) |}.

Definition take_state_snapshot (timestamp height : Z) (state : StateManager) : M Pruner unit :=
  lift (map_err "Failed to serialize snapshot: {}" (serialize (snapshot_of height timestamp state)))
    ≫= fun snapshot_data =>
  require_handle STATE_SNAPSHOTS_CF "State snapshots column family not found" ≫= fun _ =>
  put_data STATE_SNAPSHOTS_CF "Failed to save snapshot: {}" (snapshot_key height) snapshot_data
    ≫= fun _ =>
  read_metadata ≫= fun metadata =>
  save_metadata (note_snapshot height metadata).

Definition take_snapshot_if_needed (timestamp current_height : Z) (state : StateManager)
    : M Pruner unit :=
  read_metadata ≫= fun metadata => gets snapshot_interval ≫= fun interval =>
  if interval <=? u64_sub current_height (last_snapshot_height metadata)
  then take_state_snapshot timestamp current_height state
  else mret tt.

(** The sizes of the blocks about to go, as far as their metadata can be read. *)
Definition pruned_size (blocks : list Block) (s : BlockStore Db) : Z :=
  foldl (fun total block =>
    match get_block_metadata (block_hash block) s with
    | Ok (Some m) => u64_add total (Z.of_nat (size_bytes m))
    | _ => total
    end) 0 blocks.

Definition prune_height p (current_height : Z) : Z :=
  if window_size p <? current_height then saturating_sub current_height (window_size p) else 0.

Definition note_pruned (prune_up_to : Z) (blocks : nat) (size : Z) (m : PruningMetadata)
    : PruningMetadata :=
  {| last_pruned_height := prune_up_to;
     total_blocks_pruned := u64_add (total_blocks_pruned m) (Z.of_nat blocks);
     total_size_pruned := u64_add (total_size_pruned m) size;
     last_snapshot_height := last_snapshot_height m;
     snapshot_count := snapshot_count m |}.

(** What [maybe_prune] does once there are blocks to prune. *)
Definition prune_blocks (prune_up_to : Z) (metadata : PruningMetadata) (blocks : list Block)
    : M Pruner Z := fun p =>
  let size := pruned_size blocks (block_store p) in
  (on_store (for_each blocks (fun block => delete_block (block_hash block))) ≫= fun _ =>
   save_metadata (note_pruned prune_up_to (length blocks) size metadata) ≫= fun _ =>
   on_store BlockStore.compact ≫= fun _ =>
   mret (Z.of_nat (length blocks))) p.

Definition maybe_prune (timestamp current_height : Z) (state : StateManager) : M Pruner Z := fun p =>
  if negb (should_prune p current_height) then (Ok 0, p)
  else
    (take_snapshot_if_needed timestamp current_height state ≫= fun _ =>
     read_metadata ≫= fun metadata =>
     let prune_up_to := prune_height p current_height in
     if prune_up_to <=? last_pruned_height metadata then mret 0
     else
       on_store (get_blocks_by_height_range (u64_add (last_pruned_height metadata) 1) prune_up_to)
         ≫= fun blocks_to_prune =>
       match blocks_to_prune with
       | [] => mret 0
       | _ :: _ => prune_blocks prune_up_to metadata blocks_to_prune
       end) p.

(** [StateManager::snapshot_and_prune]: the outcome is dropped. *)
Definition snapshot_and_prune (timestamp current_height : Z) (state : StateManager) p : Pruner :=
  (maybe_prune timestamp current_height state p).2.

Definition get_state_snapshot p (height : Z) : result (option StateSnapshot) :=
  if cf_handle (pruner_db p) STATE_SNAPSHOTS_CF then
    match cf_get (pruner_db p) STATE_SNAPSHOTS_CF (snapshot_key height) with
    | Ok (Some data) => Some <$> map_err "Failed to deserialize snapshot: {}" (deserialize data)
    | Ok None => Ok None
    | Err e => errorf "Database error: {}" [ArgErr e]
    end
  else err "State snapshots column family not found".

Definition get_latest_snapshot p : result (option StateSnapshot) :=
  metadata ← get_metadata p;
  if last_snapshot_height metadata =? 0 then Ok None
  else get_state_snapshot p (last_snapshot_height metadata).

Definition get_stats p : result PruningStats :=
  metadata ← get_metadata p;
  block_stats ← BlockStore.get_stats (block_store p);
  Ok {| stats_window_size := window_size p; stats_pruning_threshold := pruning_threshold p;
        stats_snapshot_interval := snapshot_interval p;
        stats_last_pruned_height := last_pruned_height metadata;
        stats_total_blocks_pruned := total_blocks_pruned metadata;
        stats_total_size_pruned := total_size_pruned metadata;
        stats_snapshot_count := snapshot_count metadata;
        current_block_count := stats_block_count block_stats;
        current_storage_size := total_size_bytes block_stats |}.

(** Compacting needs both column families and leaves their contents alone. *)
Definition compact : M Pruner unit :=
  require_handle STATE_SNAPSHOTS_CF "State snapshots column family not found" ≫= fun _ =>
  require_handle PRUNING_METADATA_CF "Pruning metadata column family not found".
End Pruner.

(** ** Keys of different heights differ *)

Definition digits_value : Bytes -> Z := foldl (fun v d => v * 10 + (d - 48)) 0.

Lemma foldl_digits_shift l v :
  foldl (fun v d => v * 10 + (d - 48)) v l = foldl (fun v d => v * 10 + (d - 48)) 0 (48 + v :: l).
Proof. cbn [foldl]. by replace (0 * 10 + (48 + v - 48)) with v by lia. Qed.

Lemma decimal_value fuel n acc :
  0 <= n < 10 ^ Z.of_nat (S fuel) ->
  digits_value (decimal (S fuel) n acc) = foldl (fun v d => v * 10 + (d - 48)) n acc.
Proof.
  unfold digits_value. revert n acc. induction fuel as [|fuel IH]; intros n acc Hn.
  { cbn [decimal]. change (10 ^ Z.of_nat 1) with 10 in Hn.
    destruct (Z.ltb_spec n 10); [by rewrite (foldl_digits_shift acc n)|lia]. }
  change (decimal (S (S fuel)) n acc) with
    (if n <? 10 then 48 + n :: acc else decimal (S fuel) (n / 10) (48 + n mod 10 :: acc)).
  destruct (Z.ltb_spec n 10); [by rewrite (foldl_digits_shift acc n)|].
  rewrite Nat2Z.inj_succ, Z.pow_succ_r in Hn by lia.
  rewrite IH by (split; [apply Z.div_pos; lia|apply Z.div_lt_upper_bound; lia]).
  cbn [foldl]. f_equal. pose proof (Z.div_mod n 10). lia.
Qed.

Lemma digits_value_zeros k l : digits_value (replicate k 48 ++ l) = digits_value l.
Proof. induction k as [|k IH]; [done|]. exact IH. Qed.

Lemma padded_value n : is_u64 n -> digits_value (padded n) = n.
Proof.
  intros Hn. unfold padded. rewrite digits_value_zeros, decimal_value; [done|].
  unfold is_u64, u64_max in Hn. change (10 ^ Z.of_nat 20) with 100000000000000000000. lia.
Qed.

Lemma snapshot_key_inj a b : is_u64 a -> is_u64 b -> snapshot_key a = snapshot_key b -> a = b.
Proof.
  intros Ha Hb Heq. apply app_inv_head in Heq.
  by rewrite <- (padded_value a Ha), <- (padded_value b Hb), Heq.
Qed.

(** ** Correctness *)
Section Correctness.
Context `{Sha256} `{SecpOps} `{LibM} `{HashOrder} `{Hex} {Db : Type} `{CfLaws Db}
  `{CodecLaws Block} `{Codec BlockMetadata} `{Codec Transaction}
  `{CodecLaws StateSnapshot} `{CodecLaws PruningMetadata}.
Implicit Types p : RollingWindowPruner Db.

Definition pruner_ok p : Prop :=
  bstore_wf (block_store p) /\ cf_handle (pruner_db p) STATE_SNAPSHOTS_CF = true /\
  cf_handle (pruner_db p) PRUNING_METADATA_CF = true.

(** The pruner's own writes change its database only. *)
Definition same_store p p' : Prop :=
  block_store p' = block_store p /\ window_size p' = window_size p /\
  snapshot_interval p' = snapshot_interval p /\ pruning_threshold p' = pruning_threshold p /\
  forall cf, cf_handle (pruner_db p') cf = cf_handle (pruner_db p) cf.

Lemma same_store_ok p p' : same_store p p' -> pruner_ok p -> pruner_ok p'.
Proof. intros (Hs & _ & _ & _ & Hh) (Hwf & H1' & H2'). unfold pruner_ok. by rewrite Hs, !Hh. Qed.

#[export] Instance same_store_preorder : PreOrder same_store.
Proof.
  split; [by intros p|].
  intros p1 p2 p3 (a & b & c & d & e) (a' & b' & c' & d' & e'). unfold same_store.
  split; [congruence|]. split; [congruence|]. split; [congruence|]. split; [congruence|].
  intros cf. by rewrite e'.
Qed.

Lemma put_data_spec cf failed k v p :
  let '(r, p') := put_data cf failed k v p in
  same_store p p' /\
  forall cf', cf_view (pruner_db p') cf' =
    if is_ok r && bool_decide (cf' = cf) then <[k := v]> (cf_view (pruner_db p) cf')
    else cf_view (pruner_db p) cf'.
Proof.
  unfold put_data, cf_put.
  pose proof (cf_write_ok [PutCf cf k v] (pruner_db p)) as Hok.
  pose proof (cf_write_err [PutCf cf k v] (pruner_db p)) as Herr.
  pose proof (cf_write_handle [PutCf cf k v] (pruner_db p)) as Hhd.
  destruct (cf_write [PutCf cf k v] (pruner_db p)) as [[[]|e] d]; cbn [fst snd map_err errorf is_ok] in *.
  - split; [done|]. intros cf'. cbn [pruner_db set_pruner_db]. rewrite Hok by done.
    cbn. case_bool_decide; [by rewrite decide_True|by rewrite decide_False].
  - split; [done|]. intros cf'. by apply Herr.
Qed.

Lemma get_metadata_view p p' :
  same_store p p' -> cf_view (pruner_db p') PRUNING_METADATA_CF = cf_view (pruner_db p) PRUNING_METADATA_CF ->
  get_metadata p' = get_metadata p.
Proof. intros (_ & _ & _ & _ & Hh) Hv. unfold get_metadata. by rewrite Hh, !cf_get_view, Hv. Qed.

Lemma save_metadata_spec m p :
  pruner_ok p ->
  let '(r, p') := save_metadata m p in
  same_store p p' /\
  (forall cf, cf <> PRUNING_METADATA_CF -> cf_view (pruner_db p') cf = cf_view (pruner_db p) cf) /\
  get_metadata p' = if is_ok r then Ok m else get_metadata p.
Proof.
  intros (_ & _ & Hh). unfold save_metadata, mbind, M_bind, require_handle, lift. rewrite Hh.
  destruct (serialize m) as [data|e] eqn:Hs; cbn [map_err errorf]; [|by split].
  pose proof (put_data_spec PRUNING_METADATA_CF "Failed to save metadata: {}" metadata_name data p) as Hp.
  destruct (put_data _ _ _ _ p) as [r p']. destruct Hp as [Hsame Hv]. split; [done|]. split.
  - intros cf Hcf. rewrite Hv, bool_decide_false by done. by rewrite andb_false_r.
  - destruct r as [[]|e]; cbn [is_ok andb] in *.
    + unfold get_metadata. destruct Hsame as (_ & _ & _ & _ & Hh'). rewrite Hh', Hh, cf_get_view, Hv.
      rewrite bool_decide_true by done. rewrite lookup_insert_eq. by rewrite (codec_roundtrip m data Hs).
    + by apply get_metadata_view.
Qed.

Lemma take_state_snapshot_cases t h state p :
  pruner_ok p ->
  let '(r, p') := take_state_snapshot t h state p in
  same_store p p' /\
  (forall k, k <> snapshot_key h -> cf_view (pruner_db p') STATE_SNAPSHOTS_CF !! k =
     cf_view (pruner_db p) STATE_SNAPSHOTS_CF !! k) /\
  match r with
  | Ok _ => exists m data, get_metadata p = Ok m /\ get_metadata p' = Ok (note_snapshot h m) /\
      serialize (snapshot_of h t state) = Ok data /\
      cf_view (pruner_db p') STATE_SNAPSHOTS_CF !! snapshot_key h = Some data
  | Err _ => get_metadata p' = get_metadata p
  end.
Proof.
  intros Hok. pose proof Hok as (_ & Hh & Hm).
  unfold take_state_snapshot, mbind, M_bind, require_handle, lift, read_metadata. rewrite Hh.
  destruct (serialize (snapshot_of h t state)) as [data|e] eqn:Hs; cbn [map_err errorf]; [|by split].
  pose proof (put_data_spec STATE_SNAPSHOTS_CF "Failed to save snapshot: {}" (snapshot_key h) data p) as Hp.
  destruct (put_data _ _ _ _ p) as [r p1]. destruct Hp as [Hsame Hv].
  assert (get_metadata p1 = get_metadata p) as Hmeta.
  { apply get_metadata_view; [done|]. rewrite Hv, bool_decide_false by done. by rewrite andb_false_r. }
  assert (forall k, k <> snapshot_key h -> cf_view (pruner_db p1) STATE_SNAPSHOTS_CF !! k =
     cf_view (pruner_db p) STATE_SNAPSHOTS_CF !! k) as Hother.
  { intros k Hk. rewrite Hv. destruct (_ && _); [|done]. by rewrite lookup_insert_ne. }
  destruct r as [[]|e]; cbn [is_ok andb] in Hv; [|by split].
  rewrite Hmeta. destruct (get_metadata p) as [m|e] eqn:Hgm; [|split; [done|split; done]].
  pose proof (save_metadata_spec (note_snapshot h m) p1 (same_store_ok _ _ Hsame Hok)) as Hsv.
  destruct (save_metadata (note_snapshot h m) p1) as [r p2]. destruct Hsv as (Hsame2 & Hv2 & Hm2).
  split; [by etrans|]. split.
  - intros k Hk. rewrite Hv2 by done. by apply Hother.
  - destruct r as [[]|e]; cbn [is_ok] in Hm2; [|congruence].
    exists m, data. split; [done|]. split; [done|]. split; [done|].
    rewrite Hv2, Hv, bool_decide_true by done. apply lookup_insert_eq.
Qed.

(** The part of the bookkeeping that snapshots leave alone. *)
Definition same_pruned (m m' : PruningMetadata) : Prop :=
  last_pruned_height m' = last_pruned_height m /\
  total_blocks_pruned m' = total_blocks_pruned m /\
  total_size_pruned m' = total_size_pruned m.

Lemma take_snapshot_if_needed_spec t h state p :
  pruner_ok p ->
  let '(r, p') := take_snapshot_if_needed t h state p in
  same_store p p' /\
  (forall m', get_metadata p' = Ok m' -> exists m, get_metadata p = Ok m /\ same_pruned m m') /\
  (is_ok r = true -> is_ok (get_metadata p') = true).
Proof.
  intros Hok. unfold take_snapshot_if_needed, mbind, M_bind, read_metadata, gets.
  destruct (get_metadata p) as [m|e] eqn:Hm; [|split; [done|split; [intros m'; congruence|done]]].
  destruct (_ <=? _).
  - pose proof (take_state_snapshot_cases t h state p Hok) as Ht.
    destruct (take_state_snapshot t h state p) as [[[]|e] p']; destruct Ht as (Hs & _ & Ht).
    + destruct Ht as (m1 & data & Hm1 & Hm' & _). split; [done|]. rewrite Hm'. split; [|done].
      intros m' [= <-]. exists m1. split; [congruence|done].
    + split; [done|]. split; [|done]. intros m'. rewrite Ht, Hm. intros [= <-]. by exists m.
  - split; [done|]. unfold mret, M_ret. rewrite Hm. split; [|done]. intros m' [= <-]. by exists m.
Qed.

Lemma on_store_frame {A} (m : M (BlockStore Db) A) p :
  let '(r, p') := on_store m p in
  (r, block_store p') = m (block_store p) /\ pruner_db p' = pruner_db p /\
  window_size p' = window_size p /\ get_metadata p' = get_metadata p.
Proof. unfold on_store. by destruct (m (block_store p)). Qed.

(** Blocks that go, when blocks go: those handed over. *)
Lemma prune_blocks_spec upto m blocks p :
  pruner_ok p -> get_metadata p = Ok m ->
  let '(r, p') := prune_blocks upto m blocks p in
  pruner_ok p' /\
  (forall k, view (block_store p') !! k = view (block_store p) !! k \/
     (view (block_store p') !! k = None /\ k ∈ block_hash <$> blocks)) /\
  forall n, r = Ok n ->
    n = Z.of_nat (length blocks) /\
    get_metadata p' = Ok (note_pruned upto (length blocks) (pruned_size blocks (block_store p)) m) /\
    forall k, k ∈ block_hash <$> blocks -> view (block_store p') !! k = None.
Proof.
  intros (Hwf & Hs & Hmh) Hm. unfold prune_blocks, mbind, M_bind. set (size := pruned_size _ _).
  pose proof (on_store_frame (for_each blocks (fun b => delete_block (block_hash b))) p) as Hf.
  pose proof (for_each_delete_spec blocks (block_store p) Hwf) as Hd.
  destruct (on_store _ p) as [r p1]. destruct Hf as (Heq & Hdb & _ & Hm1). rewrite <- Heq in Hd.
  destruct Hd as (Hwf1 & Hv1 & Hall1).
  assert (pruner_ok p1) as Hok1 by (unfold pruner_ok; by rewrite Hdb).
  destruct r as [[]|e]; [|split; [done|]; split; [done|]; done].
  pose proof (save_metadata_spec (note_pruned upto (length blocks) size m) p1 Hok1) as Hsv.
  destruct (save_metadata _ p1) as [r p2]. destruct Hsv as (Hsame & _ & Hm2).
  pose proof (same_store_ok _ _ Hsame Hok1) as Hok2. destruct Hsame as (Hbs & _).
  rewrite <- Hbs in Hv1, Hall1.
  destruct r as [[]|e]; [|split; [done|]; split; [done|]; done]. cbn [is_ok] in Hm2.
  unfold on_store, BlockStore.compact. rewrite require_cfs_ok by apply Hok2. unfold mret, M_ret.
  assert (set_block_store (block_store p2) p2 = p2) as -> by (by destruct p2).
  split; [done|]. split; [done|]. intros n [= <-]. split; [done|]. split; [done|].
  by apply Hall1.
Qed.

(** The outcomes of a call above the threshold: the snapshot part, and then
    either nothing, or the blocks of the range. *)
Lemma maybe_prune_cases t h state p :
  pruner_ok p -> pruning_threshold p <= h ->
  let '(r, p') := maybe_prune t h state p in
  pruner_ok p' /\
  ((view (block_store p') = view (block_store p) /\
    forall n, r = Ok n -> n = 0 /\ exists m m', get_metadata p = Ok m /\
      get_metadata p' = Ok m' /\ same_pruned m m') \/
   exists m m1 blocks p1,
     get_metadata p = Ok m /\ same_pruned m m1 /\ last_pruned_height m < prune_height p h /\
     blocks <> [] /\
     (forall b, b ∈ blocks <-> exists k, view (block_store p) !! k = Some b /\
        in_range (u64_add (last_pruned_height m) 1) (prune_height p h) (block_store p) k) /\
     pruner_ok p1 /\ get_metadata p1 = Ok m1 /\ view (block_store p1) = view (block_store p) /\
     (r, p') = prune_blocks (prune_height p h) m1 blocks p1).
Proof.
  intros Hok Hth. unfold maybe_prune, should_prune. rewrite (proj2 (Z.leb_le _ _) Hth). cbn [negb].
  unfold mbind, M_bind, read_metadata.
  pose proof (take_snapshot_if_needed_spec t h state p Hok) as Ht.
  destruct (take_snapshot_if_needed t h state p) as [r p1]. destruct Ht as (Hs & Hmeta & Hread).
  pose proof (same_store_ok _ _ Hs Hok) as Hok1. pose proof Hs as (Hbs & Hw & _).
  destruct r as [[]|e]; [|split; [done|]; left; split; [by rewrite Hbs|done]].
  specialize (Hread eq_refl).
  destruct (get_metadata p1) as [m1|e] eqn:Hm1; [|done].
  destruct (Hmeta m1 eq_refl) as (m & Hm & Hsp). pose proof Hsp as (Hlp & _).
  rewrite Hlp.
  destruct (Z.leb_spec (prune_height p h) (last_pruned_height m)) as [Hle|Hlt].
  { split; [done|]. left. split; [by rewrite Hbs|]. intros n [= <-]. split; [done|]. exists m, m1. done. }
  pose proof (on_store_frame (get_blocks_by_height_range (u64_add (last_pruned_height m) 1)
    (prune_height p h)) p1) as Hf.
  destruct (on_store _ p1) as [r p2]. destruct Hf as (Heq & Hdb & Hw2 & Hm2). rewrite Hm1 in Hm2.
  pose proof (get_blocks_by_height_range_spec (u64_add (last_pruned_height m) 1) (prune_height p h)
    (block_store p1) (proj1 Hok1)) as Hr. rewrite <- Heq in Hr. destruct Hr as (Hwf2 & Hdb2 & Hr).
  assert (pruner_ok p2) as Hok2 by (destruct Hok1 as (_ & ?); unfold pruner_ok; by rewrite Hdb).
  apply view_db in Hdb2. rewrite Hbs in Hdb2, Hr.
  destruct r as [[|b blocks]|e]; [| |split; [done|]; by left].
  - split; [done|]. left. split; [done|]. intros n [= <-]. split; [done|]. by exists m, m1.
  - pose proof (prune_blocks_spec (prune_height p h) m1 (b :: blocks) p2 Hok2 Hm2) as Hp.
    destruct (prune_blocks (prune_height p h) m1 (b :: blocks) p2) as [r p3] eqn:Hprune.
    destruct Hp as (Hok3 & _). split; [done|]. right. exists m, m1, (b :: blocks), p2.
    do 4 (split; [done|]). split; [apply (Hr _ eq_refl)|]. do 3 (split; [done|]). by rewrite Hprune.
Qed.

(** The heights in the bookkeeping are [u64]s, as their type says. *)
Definition heights_ok p : Prop :=
  forall m, get_metadata p = Ok m -> is_u64 (last_pruned_height m).

(** The range handed to the store, once the machine arithmetic is resolved. *)
Lemma prune_range h p m :
  is_u64 h -> 0 <= window_size p -> is_u64 (last_pruned_height m) ->
  last_pruned_height m < prune_height p h ->
  prune_height p h = h - window_size p /\
  u64_add (last_pruned_height m) 1 = last_pruned_height m + 1.
Proof.
  unfold prune_height, saturating_sub. intros Hh Hw Hm Hlt.
  destruct (Z.ltb_spec (window_size p) h); [|unfold is_u64 in Hm; lia].
  split; [lia|]. apply u64_add_small. unfold is_u64 in *. lia.
Qed.

(** C14: the retention window is safe.  Whatever the outcome, a call of
    [maybe_prune] never adds or changes a block, and it removes one only if the
    chain has reached the threshold and the metadata of that block puts it above
    the height pruned last and at least a window below the current height: recent
    blocks and the genesis block stay. *)
Theorem prune_keeps_window t h state p :
  pruner_ok p -> heights_ok p -> is_u64 h -> 0 <= window_size p ->
  let '(r, p') := maybe_prune t h state p in
  pruner_ok p' /\
  forall k, view (block_store p') !! k = view (block_store p) !! k \/
    (view (block_store p') !! k = None /\ pruning_threshold p <= h /\
     exists m meta, get_metadata p = Ok m /\
       get_block_metadata k (block_store p) = Ok (Some meta) /\
       last_pruned_height m < meta_height meta <= h - window_size p).
Proof.
  intros Hok Hu Hh Hw. destruct (Z.leb_spec (pruning_threshold p) h) as [Hth|Hth].
  2:{ unfold maybe_prune, should_prune. rewrite (proj2 (Z.leb_gt _ _) Hth). split; [done|by left]. }
  pose proof (maybe_prune_cases t h state p Hok Hth) as Hc.
  destruct (maybe_prune t h state p) as [r p'].
  destruct Hc as (Hok' & [[-> _]|(m & m1 & blocks & p1 & Hm & _ & Hlt & _ & Hb & Hok1 & Hm1 & Hv & Heq)]).
  { split; [done|]. by left. }
  split; [done|]. intros k. pose proof (prune_blocks_spec (prune_height p h) m1 blocks p1 Hok1 Hm1) as Hp.
  rewrite <- Heq in Hp. destruct Hp as (_ & Hp & _). rewrite <- Hv.
  destruct (Hp k) as [?|[Hn Hk]]; [by left|]. right. split; [done|]. split; [done|].
  apply list_elem_of_fmap in Hk as (b & -> & (k & Hvk & (meta & Hmeta & Hlo & Hhi))%Hb).
  rewrite (view_hash (block_store p) k b (proj1 (proj2 (proj1 Hok))) Hvk).
  destruct (prune_range h p m Hh Hw (Hu m Hm) Hlt) as [Heq1 Heq2].
  exists m, meta. do 2 (split; [done|]). lia.
Qed.

(** Pruning makes progress, and says what it did.  When a call above the
    threshold succeeds it either reports 0 and leaves blocks and pruning record as they
    were, or it reports the number of blocks of the range that was due, all of
    them are gone from the database, and the record moves up to the current
    height less the window. *)
Theorem prune_progress t h state p n p' :
  pruner_ok p -> heights_ok p -> is_u64 h -> 0 <= window_size p -> pruning_threshold p <= h ->
  maybe_prune t h state p = (Ok n, p') ->
  exists m m', get_metadata p = Ok m /\ get_metadata p' = Ok m' /\
  ((n = 0 /\ view (block_store p') = view (block_store p) /\ same_pruned m m') \/
   (exists blocks, n = Z.of_nat (length blocks) /\ blocks <> [] /\
      (forall b, b ∈ blocks <-> exists k, view (block_store p) !! k = Some b /\
         in_range (last_pruned_height m + 1) (h - window_size p) (block_store p) k) /\
      (forall k b, view (block_store p) !! k = Some b ->
         in_range (last_pruned_height m + 1) (h - window_size p) (block_store p) k ->
         view (block_store p') !! k = None) /\
      last_pruned_height m < last_pruned_height m' /\ last_pruned_height m' = h - window_size p /\
      total_blocks_pruned m' = u64_add (total_blocks_pruned m) n)).
Proof.
  intros Hok Hu Hh Hw Hth Hrun. pose proof (maybe_prune_cases t h state p Hok Hth) as Hc.
  rewrite Hrun in Hc.
  destruct Hc as (Hok' & [[Hv Hc]|(m & m1 & blocks & p1 & Hm & Hsp & Hlt & Hne & Hb & Hok1 & Hm1 & Hv & Heq)]).
  { destruct (Hc n eq_refl) as (-> & m & m' & Hm & Hm' & Hs). exists m, m'.
    do 2 (split; [done|]). by left. }
  pose proof (prune_blocks_spec (prune_height p h) m1 blocks p1 Hok1 Hm1) as Hp.
  rewrite <- Heq in Hp. destruct Hp as (_ & _ & Hp). destruct (Hp n eq_refl) as (-> & Hm' & Hgone).
  destruct (prune_range h p m Hh Hw (Hu m Hm) Hlt) as [Heq1 Heq2]. rewrite Heq1, Heq2 in *.
  eexists m, _. split; [done|]. split; [exact Hm'|]. right. exists blocks.
  do 3 (split; [done|]). split.
  - intros k b Hk Hr. apply Hgone. apply list_elem_of_fmap. exists b. split; [|apply Hb; eauto].
    symmetry. by apply (view_hash (block_store p) k b (proj1 (proj2 (proj1 Hok)))).
  - cbn [note_pruned last_pruned_height total_blocks_pruned]. destruct Hsp as (_ & -> & _). done.
Qed.

(** A snapshot that was taken is the one found at its height, and the
    latest; the snapshots of all other heights are what they were. *)
Theorem snapshot_roundtrip t h state p p' :
  pruner_ok p -> is_u64 h -> take_state_snapshot t h state p = (Ok tt, p') ->
  get_state_snapshot p' h = Ok (Some (snapshot_of h t state)) /\
  get_latest_snapshot p' = (if h =? 0 then Ok None else Ok (Some (snapshot_of h t state))) /\
  (forall h', is_u64 h' -> h' <> h -> get_state_snapshot p' h' = get_state_snapshot p h') /\
  block_store p' = block_store p.
Proof.
  intros Hok Hh Ht. pose proof (take_state_snapshot_cases t h state p Hok) as Hc.
  rewrite Ht in Hc. destruct Hc as (Hs & Hother & m & data & Hm & Hm' & Hdata & Hk).
  pose proof Hs as (Hbs & _ & _ & _ & Hhd). destruct Hok as (_ & Hcf & _).
  assert (get_state_snapshot p' h = Ok (Some (snapshot_of h t state))) as Hget.
  { unfold get_state_snapshot. rewrite Hhd, Hcf, cf_get_view, Hk.
    by rewrite (codec_roundtrip _ data Hdata). }
  split; [done|]. split; [|split; [|done]].
  - unfold get_latest_snapshot. rewrite Hm'. cbn. by rewrite Hget.
  - intros h' Hh' Hne. unfold get_state_snapshot. rewrite Hhd, !cf_get_view, Hother; [done|].
    intros Heq. by apply Hne, snapshot_key_inj.
Qed.

(** The distance to the last snapshot is computed on unsigned
    integers: a height below it wraps around to an enormous distance, so a node
    that processes an older block takes a snapshot at once, and the record of
    the latest snapshot moves backwards. *)
Theorem older_height_snapshots t h state p m p' :
  pruner_ok p -> get_metadata p = Ok m -> is_u64 h -> is_u64 (last_snapshot_height m) ->
  h < last_snapshot_height m -> snapshot_interval p <= u64_max + 1 - (last_snapshot_height m - h) ->
  take_snapshot_if_needed t h state p = (Ok tt, p') ->
  get_metadata p' = Ok (note_snapshot h m) /\
  last_snapshot_height (note_snapshot h m) < last_snapshot_height m.
Proof.
  intros Hok Hm Hh Hl Hlt Hi Hrun. split; [|exact Hlt].
  unfold take_snapshot_if_needed, mbind, M_bind, read_metadata, gets in Hrun. rewrite Hm in Hrun.
  assert (u64_sub h (last_snapshot_height m) = u64_max + 1 - (last_snapshot_height m - h)) as Hsub.
  { unfold u64_sub, u64_wrap, is_u64, u64_max in *.
    symmetry. apply (Z.mod_unique _ _ (-1)); lia. }
  rewrite Hsub, (proj2 (Z.leb_le _ _) Hi) in Hrun.
  pose proof (take_state_snapshot_cases t h state p Hok) as Hc. rewrite Hrun in Hc.
  destruct Hc as (_ & _ & m1 & data & Hm1 & Hm' & _). congruence.
Qed.

End Correctness.

(** ** Witnesses *)

Definition fmt_snapshot : format StateSnapshot :=
  fmt_map (fmt_pair fmt_bytes (fmt_list fmt_Z))
    (fun s => (snapshot_state_root s,
       [snapshot_height s; snapshot_timestamp s; total_supply s; active_accounts s]))
    (fun '(r, l) => match l with
       | [h; t; s; a] => Some {| snapshot_height := h; snapshot_timestamp := t;
           snapshot_state_root := r; total_supply := s; active_accounts := a |}
       | _ => None end)
    (fun s => match s with Build_StateSnapshot _ _ _ _ _ => eq_refl end).
Definition fmt_pruning : format PruningMetadata :=
  fmt_map (fmt_list fmt_Z)
    (fun m => [last_pruned_height m; total_blocks_pruned m; total_size_pruned m;
       last_snapshot_height m; snapshot_count m])
    (fun l => match l with
       | [h; b; s; l; c] => Some {| last_pruned_height := h; total_blocks_pruned := b;
           total_size_pruned := s; last_snapshot_height := l; snapshot_count := c |}
       | _ => None end)
    (fun m => match m with Build_PruningMetadata _ _ _ _ _ => eq_refl end).

#[export] Instance snapshot_codec : Codec StateSnapshot := fmt_codec fmt_snapshot.
#[export] Instance snapshot_codec_laws : CodecLaws StateSnapshot := fmt_codec_laws fmt_snapshot.
#[export] Instance pruning_codec : Codec PruningMetadata := fmt_codec fmt_pruning.
#[export] Instance pruning_codec_laws : CodecLaws PruningMetadata := fmt_codec_laws fmt_pruning.

#[local] Existing Instances checksum_sha checksum_laws toy_secp constant_exp canonical_order.

(** A block of height 2 in a node that keeps the last five. *)
Definition old_block : Block := set_consensus_metadata transfer_block None 1 2 3.
Definition old_store : BlockStore MemCf := (insert_block old_block empty_store).2.
Definition small_pruner : RollingWindowPruner MemCf := new mem_cf_empty old_store 5 3 10.

Lemma old_store_ok : bstore_ok old_store.
Proof. apply (insert_block_spec old_block empty_store empty_store_ok). reflexivity. Qed.
Lemma old_store_view : view old_store = {[block_hash old_block := old_block]}.
Proof. exact (proj2 (insert_block_spec old_block empty_store empty_store_ok eq_refl)). Qed.

Lemma small_pruner_ok : pruner_ok small_pruner.
Proof. split; [exact (bstore_ok_wf _ old_store_ok)|done]. Qed.
Lemma small_pruner_heights : heights_ok small_pruner.
Proof. intros m [= <-]. by split. Qed.

Lemma prune_keeps_window_witness :
  let '(r, p') := maybe_prune 99 6 genesis_state small_pruner in
  forall k, view (block_store p') !! k = view (block_store small_pruner) !! k.
Proof.
  pose proof (prune_keeps_window 99 6 genesis_state small_pruner small_pruner_ok small_pruner_heights
    ltac:(done) ltac:(done)) as Hs.
  destruct (maybe_prune 99 6 genesis_state small_pruner) as [r p']. destruct Hs as [_ Hs].
  intros k. destruct (Hs k) as [Hk|(_ & Hth & _)]; [exact Hk|].
  exfalso. apply Hth. reflexivity.
Defined.

Definition pruned_pruner : RollingWindowPruner MemCf := (maybe_prune 99 12 genesis_state small_pruner).2.
Lemma pruned_run : maybe_prune 99 12 genesis_state small_pruner = (Ok 1, pruned_pruner).
Proof.
  rewrite (surjective_pairing (maybe_prune 99 12 genesis_state small_pruner)).
  apply (f_equal2 pair); [vm_compute|]; reflexivity.
Qed.

Lemma prune_progress_witness :
  exists m', get_metadata pruned_pruner = Ok m' /\ last_pruned_height m' = 7 /\ total_blocks_pruned m' = 1.
Proof.
  destruct (prune_progress 99 12 genesis_state small_pruner 1 pruned_pruner small_pruner_ok
    small_pruner_heights ltac:(done) ltac:(done) ltac:(done) pruned_run)
    as (m & m' & Hm & Hm' & [[H01 _]|(bs & _ & _ & _ & _ & _ & Hh & Ht)]); [discriminate H01|].
  exists m'. split; [exact Hm'|]. split; [exact Hh|]. rewrite Ht.
  injection Hm as <-. reflexivity.
Defined.

Definition snapshot_pruner : RollingWindowPruner MemCf :=
  (take_state_snapshot 99 12 genesis_state small_pruner).2.
Lemma snapshot_run : take_state_snapshot 99 12 genesis_state small_pruner = (Ok tt, snapshot_pruner).
Proof.
  rewrite (surjective_pairing (take_state_snapshot 99 12 genesis_state small_pruner)).
  apply (f_equal2 pair); [vm_compute|]; reflexivity.
Qed.

Lemma snapshot_roundtrip_witness :
  get_state_snapshot snapshot_pruner 12 = Ok (Some (snapshot_of 12 99 genesis_state)) /\
  get_latest_snapshot snapshot_pruner = Ok (Some (snapshot_of 12 99 genesis_state)).
Proof.
  destruct (snapshot_roundtrip 99 12 genesis_state small_pruner snapshot_pruner small_pruner_ok
    ltac:(done) snapshot_run) as (Hg & Hl & _).
  split; [exact Hg|exact Hl].
Defined.

(** A record whose latest snapshot is of height 20, and a block of height 12. *)
Definition ahead_pruner : RollingWindowPruner MemCf :=
  (save_metadata {| last_pruned_height := 0; total_blocks_pruned := 0; total_size_pruned := 0;
     last_snapshot_height := 20; snapshot_count := 1 |} small_pruner).2.

Lemma ahead_pruner_ok : pruner_ok ahead_pruner.
Proof. split; [exact (bstore_ok_wf _ old_store_ok)|done]. Qed.
Lemma ahead_metadata : get_metadata ahead_pruner = Ok {| last_pruned_height := 0;
  total_blocks_pruned := 0; total_size_pruned := 0; last_snapshot_height := 20; snapshot_count := 1 |}.
Proof. vm_compute. reflexivity. Qed.
Lemma ahead_run : take_snapshot_if_needed 99 12 genesis_state ahead_pruner =
  (Ok tt, (take_snapshot_if_needed 99 12 genesis_state ahead_pruner).2).
Proof.
  rewrite (surjective_pairing (take_snapshot_if_needed 99 12 genesis_state ahead_pruner)) at 1.
  apply (f_equal2 pair); [vm_compute|]; reflexivity.
Qed.

Lemma older_height_snapshots_witness :
  exists m', get_metadata (take_snapshot_if_needed 99 12 genesis_state ahead_pruner).2 = Ok m' /\
    last_snapshot_height m' = 12.
Proof.
  eexists. split; [refine (proj1 (older_height_snapshots 99 12 genesis_state ahead_pruner
    {| last_pruned_height := 0; total_blocks_pruned := 0; total_size_pruned := 0;
       last_snapshot_height := 20; snapshot_count := 1 |}
    (take_snapshot_if_needed 99 12 genesis_state ahead_pruner).2 _ _ _ _ _ _ _));
    [exact ahead_pruner_ok | exact ahead_metadata | done | done | done | done | exact ahead_run]
    | reflexivity].
Defined.
