(* ===== verification/Window.v ===== *)
(** Sliding windows of instants, shared by the limits of [Dos] and [Spam].

    Instants are nanoseconds on one clock.  A limiter keeps the recent instants of an address and
    admits a new one while they are fewer than a maximum; [sliding] relates what it keeps to
    everything it ever admitted. *)
From S2P Require Import Prelude.

Abbreviation Instant := Z.

(** [Duration::from_secs] and [Instant::duration_since], which saturates. *)
Definition from_secs (s : Z) : Z := s * 1000000000.
Definition as_secs (d : Z) : Z := d / 1000000000.
Definition duration_since (now earlier : Instant) : Z := Z.max 0 (now - earlier).

Section Window.
Context (w : Z).
Implicit Types l past cur : list Instant.

Definition recent (now : Instant) l : list Instant := filter (fun time => duration_since now time < w) l.
(** The members of [l] that lie in the window before [u], and after its start. *)
Definition within (u : Instant) l : nat := length (filter (fun a => u - w < a /\ a <= u) l).
Definition after (t : Instant) l : list Instant := filter (fun a => t - w < a) l.

(** Everything admitted up to [lo] is [past]; what is kept of it is [cur]. *)
Record sliding (max : Z) (lo : Instant) past cur : Prop := {
  sl_past : Forall (fun a => a <= lo) past;
  sl_agree : forall t, lo <= t -> after t past = after t cur;
  sl_bound : forall u, Z.of_nat (within u past) <= max
}.

Lemma length_filter_mono (P Q : Instant -> Prop) `{!forall x, Decision (P x)} `{!forall x, Decision (Q x)} l :
  (forall x, P x -> Q x) -> (length (filter P l) <= length (filter Q l))%nat.
Proof.
  intros HPQ. induction l as [|x l IH]; [done|]. rewrite !filter_cons.
  destruct (decide (P x)) as [HP|HP]; [rewrite decide_True by auto; cbn; lia|].
  destruct (decide (Q x)); cbn; lia.
Qed.

Context (Hw : 0 < w).

Lemma recent_after now l : recent now l = after now l.
Proof using Hw. unfold recent, after. apply list_filter_iff. intros a. unfold duration_since. lia. Qed.

Lemma after_recent t now l : now <= t -> after t (recent now l) = after t l.
Proof using Hw.
  intros Ht. unfold after, recent. induction l as [|a l IH]; [done|].
  rewrite !filter_cons. unfold duration_since in *.
  destruct (decide (Z.max 0 (now - a) < w)).
  - rewrite filter_cons. by destruct (decide _); rewrite IH.
  - rewrite (decide_False (P := t - _ < a)) by lia. done.
Qed.

Lemma sliding_start max lo : 0 <= max -> sliding max lo [] [].
Proof. by constructor. Qed.

Lemma sliding_later max lo lo' past cur : lo <= lo' -> sliding max lo past cur -> sliding max lo' past cur.
Proof.
  intros Hlo [Hp Ha Hb]. constructor; [|intros t Ht; apply Ha; lia|done].
  eapply Forall_impl; [exact Hp|]. cbn. lia.
Qed.

(** Forgetting what has left the window. *)
Lemma sliding_recent max now past cur : sliding max now past cur -> sliding max now past (recent now cur).
Proof using Hw. intros [Hp Ha Hb]. constructor; [done| |done]. intros t Ht. by rewrite Ha, after_recent. Qed.

(** Forgetting everything, once everything has left the window. *)
Lemma sliding_drop max now past cur :
  Forall (fun a => a + w <= now) cur -> sliding max now past cur -> sliding max now past [].
Proof.
  intros Hold [Hp Ha Hb]. constructor; [done| |done]. intros t Ht. rewrite Ha by done.
  unfold after. rewrite filter_nil. clear Ha. induction Hold as [|a cur Hc _ IH]; [done|].
  rewrite filter_cons, decide_False by lia. exact IH.
Qed.

(** Admitting one more while there are fewer than the maximum. *)
Lemma sliding_admit max now past cur :
  Z.of_nat (length (recent now cur)) < max -> sliding max now past cur ->
  sliding max now (past ++ [now]) (recent now cur ++ [now]).
Proof using Hw.
  intros Hlt [Hp Ha Hb]. constructor.
  - apply Forall_app. split; [done|by repeat constructor].
  - intros t Ht. unfold after. rewrite !filter_app. f_equal.
    fold (after t past) (after t (recent now cur)). rewrite after_recent by done. by apply Ha.
  - intros u. unfold within. rewrite filter_app, length_app. destruct (decide (now <= u)) as [Hu|Hu].
    + pose proof (length_filter_mono (fun a => u - w < a /\ a <= u) (fun a => now - w < a) past
        ltac:(cbn; intros; lia)) as Hle.
      fold (after now past) in Hle. rewrite Ha, <- recent_after in Hle by lia.
      rewrite filter_cons. destruct (decide _); cbn; lia.
    + rewrite filter_cons, decide_False by (intros [? ?]; lia). cbn. rewrite Nat.add_0_r. apply Hb.
Qed.
End Window.
