(* ===== verification/Dos.v ===== *)
(** Denial-of-service protection: [src/src/security/dos_protection.rs].

    Instants are nanoseconds on one clock; a call that reads the clock twice
    takes both readings ([now] and [now']).  The two locks are held for the
    whole of each method, so table and counters are one state.  The background task is a
    sequence of calls of [cleanup]. *)
From S2P Require Import Prelude Window.

Abbreviation IpAddr := (list Z).

Record DosProtectionConfig := {
  max_connections_per_ip : Z;
  max_requests_per_second : Z;
  max_bandwidth_per_second : Z;
  ban_duration_seconds : Z;
  cleanup_interval_seconds : Z;
  max_tracked_ips : Z
}.

Definition default_config : DosProtectionConfig :=
  {| max_connections_per_ip := 10; max_requests_per_second := 100;
     max_bandwidth_per_second := 10 * 1024 * 1024; ban_duration_seconds := 3600;
     cleanup_interval_seconds := 300; max_tracked_ips := 10000 |}.

Record PeerState := {
  connections : Z;
  request_times : list Instant;
  bytes_sent : Z;
  bytes_received : Z;
  last_activity : Instant;
  banned_until : option Instant;
  violations : Z
}.

Record DosStats := {
  tracked_ips : nat;
  total_violations : Z;
  bans_issued : Z;
  blocked_connections : Z;
  blocked_requests : Z
}.

Record DosProtection := {
  config : DosProtectionConfig;
  peer_states : gmap IpAddr PeerState;
  stats : DosStats
}.

Inductive DosError :=
  | Banned (remaining_seconds : Z)
  | ConnectionLimitExceeded
  | RateLimitExceeded
  | BandwidthLimitExceeded.

Definition no_stats : DosStats :=
  {| tracked_ips := 0; total_violations := 0; bans_issued := 0;
     blocked_connections := 0; blocked_requests := 0 |}.

Definition new (c : DosProtectionConfig) : DosProtection :=
  {| config := c; peer_states := ∅; stats := no_stats |}.

(** ** One peer *)

(** The entry [or_insert_with] makes. *)
Definition fresh_peer (now : Instant) : PeerState :=
  {| connections := 0; request_times := []; bytes_sent := 0; bytes_received := 0;
     last_activity := now; banned_until := None; violations := 0 |}.

Definition entry (now : Instant) (ip : IpAddr) (d : DosProtection) : PeerState :=
  default (fresh_peer now) (peer_states d !! ip).

Definition put_peer (ip : IpAddr) (s : PeerState) (d : DosProtection) : DosProtection :=
  {| config := config d; peer_states := <[ip := s]> (peer_states d); stats := stats d |}.
Definition set_stats (s : DosStats) (d : DosProtection) : DosProtection :=
  {| config := config d; peer_states := peer_states d; stats := s |}.

Definition with_ban (ban : option Instant) (v : Z) (s : PeerState) : PeerState :=
  {| connections := connections s; request_times := request_times s; bytes_sent := bytes_sent s;
     bytes_received := bytes_received s; last_activity := last_activity s;
     banned_until := ban; violations := v |}.
Definition with_connections (n : Z) (now : Instant) (s : PeerState) : PeerState :=
  {| connections := n; request_times := request_times s; bytes_sent := bytes_sent s;
     bytes_received := bytes_received s; last_activity := now;
     banned_until := banned_until s; violations := violations s |}.
Definition with_requests (l : list Instant) (now : Instant) (s : PeerState) : PeerState :=
  {| connections := connections s; request_times := l; bytes_sent := bytes_sent s;
     bytes_received := bytes_received s; last_activity := now;
     banned_until := banned_until s; violations := violations s |}.
Definition with_bytes (sent received : Z) (now : Instant) (s : PeerState) : PeerState :=
  {| connections := connections s; request_times := request_times s; bytes_sent := sent;
     bytes_received := received; last_activity := now;
     banned_until := banned_until s; violations := violations s |}.

Definition count_violation (s : DosStats) : DosStats :=
  {| tracked_ips := tracked_ips s; total_violations := u64_add (total_violations s) 1;
     bans_issued := bans_issued s; blocked_connections := blocked_connections s;
     blocked_requests := blocked_requests s |}.
Definition count_ban (s : DosStats) : DosStats :=
  {| tracked_ips := tracked_ips s; total_violations := total_violations s;
     bans_issued := u64_add (bans_issued s) 1; blocked_connections := blocked_connections s;
     blocked_requests := blocked_requests s |}.
Definition count_blocked_connection (s : DosStats) : DosStats :=
  {| tracked_ips := tracked_ips s; total_violations := total_violations s;
     bans_issued := bans_issued s; blocked_connections := u64_add (blocked_connections s) 1;
     blocked_requests := blocked_requests s |}.
Definition count_blocked_request (s : DosStats) : DosStats :=
  {| tracked_ips := tracked_ips s; total_violations := total_violations s;
     bans_issued := bans_issued s; blocked_connections := blocked_connections s;
     blocked_requests := u64_add (blocked_requests s) 1 |}.
Definition count_tracked (n : nat) (s : DosStats) : DosStats :=
  {| tracked_ips := n; total_violations := total_violations s; bans_issued := bans_issued s;
     blocked_connections := blocked_connections s; blocked_requests := blocked_requests s |}.

(** A violation of the peer in state [s]; [now'] is the clock read for the ban. *)
Definition handle_violation (now' : Instant) (ip : IpAddr) (s : PeerState) (d : DosProtection)
    : DosProtection :=
  let v := u32_add (violations s) 1 in
  let d := set_stats (count_violation (stats d)) d in
  if 3 <=? v
  then set_stats (count_ban (stats d))
         (put_peer ip (with_ban (Some (now' + from_secs (ban_duration_seconds (config d)))) v s) d)
  else put_peer ip (with_ban (banned_until s) v s) d.

(** ** Operations

    Each returns [None] for [Ok(())] and the error otherwise. *)

Definition check_connection_allowed (now now' : Instant) (ip : IpAddr) (d : DosProtection)
    : option DosError * DosProtection :=
  let state := entry now ip d in
  let blocked := match banned_until state with Some b => now <? b | None => false end in
  if blocked then
    (Some (Banned (as_secs (duration_since (default 0 (banned_until state)) now))),
     put_peer ip state (set_stats (count_blocked_connection (stats d)) d))
  else
    let state := match banned_until state with
                 | Some _ => with_ban None 0 state
                 | None => state
                 end in
    if max_connections_per_ip (config d) <=? connections state
    then (Some ConnectionLimitExceeded, handle_violation now' ip state d)
    else (None, put_peer ip (with_connections (u32_add (connections state) 1) now state) d).

Definition check_request_allowed (now now' : Instant) (ip : IpAddr) (d : DosProtection)
    : option DosError * DosProtection :=
  let state := entry now ip d in
  let blocked := match banned_until state with Some b => now <? b | None => false end in
  if blocked then
    (Some (Banned (as_secs (duration_since (default 0 (banned_until state)) now))),
     put_peer ip state (set_stats (count_blocked_request (stats d)) d))
  else
    let times := filter (fun time => duration_since now time < from_secs 1) (request_times state) in
    if max_requests_per_second (config d) <=? Z.of_nat (length times)
    then (Some RateLimitExceeded,
          handle_violation now' ip (with_requests times (last_activity state) state) d)
    else (None, put_peer ip (with_requests (times ++ [now]) now state) d).

Definition record_bandwidth (now now' : Instant) (ip : IpAddr) (sent received : Z)
    (d : DosProtection) : DosProtection :=
  let state := entry now ip d in
  let state := with_bytes (u64_add (bytes_sent state) sent)
                 (u64_add (bytes_received state) received) now state in
  if max_bandwidth_per_second (config d) <? u64_add (bytes_sent state) (bytes_received state)
  then handle_violation now' ip state d
  else put_peer ip state d.

Definition remove_connection (ip : IpAddr) (d : DosProtection) : DosProtection :=
  match peer_states d !! ip with
  | Some state =>
      if 0 <? connections state
      then put_peer ip (with_connections (connections state - 1) (last_activity state) state) d
      else d
  | None => d
  end.

Definition unban_ip (ip : IpAddr) (d : DosProtection) : DosProtection :=
  match peer_states d !! ip with
  | Some state => put_peer ip (with_ban None 0 state) d
  | None => d
  end.

Definition is_banned (now : Instant) (ip : IpAddr) (d : DosProtection) : bool :=
  match peer_states d !! ip with
  | Some state => match banned_until state with Some b => now <? b | None => false end
  | None => false
  end.

Definition get_stats (d : DosProtection) : DosStats := stats d.

Section Cleanup.
Context `{HashOrder}.

(** The closure of [retain]. *)
Definition retain_peer (c : DosProtectionConfig) (now : Instant) (state : PeerState) : option PeerState :=
  let age := duration_since now (last_activity state) in
  if from_secs (u64_mul (cleanup_interval_seconds c) 2) <? age then None
  else if from_secs 1 <? age then Some (with_bytes 0 0 (last_activity state) state)
  else Some state.

(** The peers over the limit that have been quiet for longest. *)
Definition surplus (c : DosProtectionConfig) (m : gmap IpAddr PeerState) : list IpAddr :=
  let entries := (fun kv : IpAddr * PeerState => (kv.1, last_activity kv.2)) <$> hm_iter m in
  take (size m - Z.to_nat (max_tracked_ips c)) (sort_by_key snd entries).*1.

(** One round of the cleanup task. *)
Definition cleanup (now : Instant) (d : DosProtection) : DosProtection :=
  let kept := omap (retain_peer (config d) now) (peer_states d) in
  let kept := if max_tracked_ips (config d) <? Z.of_nat (size kept)
              then foldl (fun m ip => delete ip m) kept (surplus (config d) kept) else kept in
  {| config := config d; peer_states := kept; stats := count_tracked (size kept) (stats d) |}.

(** *** Traces

    What peers and the cleanup task do, in the order in which the lock admits it, each with its two
    readings of the clock. *)
Inductive event :=
  | Connect (ip : IpAddr)
  | Request (ip : IpAddr)
  | Bandwidth (ip : IpAddr) (sent received : Z)
  | Disconnect (ip : IpAddr)
  | Unban (ip : IpAddr)
  | Cleanup.

Definition step (now now' : Instant) (e : event) (d : DosProtection) : option DosError * DosProtection :=
  match e with
  | Connect ip => check_connection_allowed now now' ip d
  | Request ip => check_request_allowed now now' ip d
  | Bandwidth ip s r => (None, record_bandwidth now now' ip s r d)
  | Disconnect ip => (None, remove_connection ip d)
  | Unban ip => (None, unban_ip ip d)
  | Cleanup => (None, cleanup now d)
  end.

(** The instants of the requests of [ip] that a trace admits, and the state it leaves. *)
Fixpoint admitted (ip : IpAddr) (trace : list (Instant * Instant * event)) (d : DosProtection)
    : list Instant * DosProtection :=
  match trace with
  | [] => ([], d)
  | (now, now', e) :: trace' =>
      let '(r, d') := step now now' e d in
      let '(acc, d'') := admitted ip trace' d' in
      (match e, r with
       | Request ip', None => if decide (ip' = ip) then now :: acc else acc
       | _, _ => acc
       end, d'')
  end.

Definition times_of (ip : IpAddr) (d : DosProtection) : list Instant :=
  match peer_states d !! ip with Some s => request_times s | None => [] end.

(** Whether a cleanup drops an address from which a request was admitted within the
    last second. *)
Definition forgets (ip : IpAddr) (now : Instant) (d : DosProtection) : bool :=
  bool_decide (recent (from_secs 1) now (times_of ip d) <> []) &&
  bool_decide (peer_states (cleanup now d) !! ip = None).

(** The instants of the cleanups of a trace that do so. *)
Fixpoint forgotten (ip : IpAddr) (trace : list (Instant * Instant * event)) (d : DosProtection)
    : list Instant :=
  match trace with
  | [] => []
  | (now, now', e) :: trace' =>
      let rest := forgotten ip trace' (step now now' e d).2 in
      match e with
      | Cleanup => if forgets ip now d then now :: rest else rest
      | _ => rest
      end
  end.

(** The tracked addresses with activity within the last second. *)
Definition active_peers (now : Instant) (d : DosProtection) : gmap IpAddr PeerState :=
  filter (fun kv => now - from_secs 1 < last_activity kv.2) (peer_states d).
End Cleanup.

Section Facts.
Context `{HashOrder}.
Implicit Types (d : DosProtection) (ip : IpAddr).

(** How an operation may change the entry of a peer: all but its bans. *)
Lemma handle_violation_other now' ip s d ip' :
  ip' <> ip -> peer_states (handle_violation now' ip s d) !! ip' = peer_states d !! ip'.
Proof.
  intros Hne. unfold handle_violation. destruct (_ <=? _); cbn; by rewrite lookup_insert_ne.
Qed.

Lemma handle_violation_same now' ip s d :
  exists ban v, peer_states (handle_violation now' ip s d) !! ip = Some (with_ban ban v s) /\
    v = u32_add (violations s) 1 /\
    ban = (if 3 <=? v then Some (now' + from_secs (ban_duration_seconds (config d))) else banned_until s).
Proof.
  unfold handle_violation. destruct (_ <=? _) eqn:E; cbn; rewrite lookup_insert_eq.
  - eexists _, _. split; [done|]. by rewrite E.
  - eexists _, _. split; [done|]. by rewrite E.
Qed.

Lemma handle_violation_config now' ip s d : config (handle_violation now' ip s d) = config d.
Proof. unfold handle_violation. by destruct (_ <=? _). Qed.

(** *** The cleanup *)

Lemma foldl_delete_subseteq (l : list IpAddr) (m : gmap IpAddr PeerState) :
  foldl (fun m ip => delete ip m) m l ⊆ m.
Proof.
  revert m. induction l as [|ip l IH]; intros m; [done|]. cbn. etrans; [apply IH|apply delete_subseteq].
Qed.

Lemma cleanup_subseteq now d :
  peer_states (cleanup now d) ⊆ omap (retain_peer (config d) now) (peer_states d).
Proof. unfold cleanup. cbn. destruct (_ <? _); [apply foldl_delete_subseteq|done]. Qed.

(** The cleanup keeps the request instants of the addresses it keeps. *)
Lemma cleanup_entry now d ip s' :
  peer_states (cleanup now d) !! ip = Some s' ->
  exists s, peer_states d !! ip = Some s /\ request_times s' = request_times s /\
    last_activity s' = last_activity s.
Proof.
  intros Hs. pose proof (lookup_weaken _ _ _ _ Hs (cleanup_subseteq now d)) as Ho.
  apply lookup_omap_Some in Ho as (s & Hr & Hd). exists s. split; [done|]. unfold retain_peer in Hr.
  destruct (_ <? _); [done|]. by destruct (_ <? _); simplify_eq.
Qed.

(** *** The rate limit *)

Abbreviation recent := (Window.recent (from_secs 1)).

Lemma times_of_put ip ip' s d :
  times_of ip (put_peer ip' s d) = if decide (ip = ip') then request_times s else times_of ip d.
Proof.
  unfold times_of. cbn. destruct (decide (ip = ip')) as [->|Hne];
    [by rewrite lookup_insert_eq|by rewrite lookup_insert_ne].
Qed.

Lemma times_of_violation now' ip ip' s d :
  times_of ip (handle_violation now' ip' s d) =
    if decide (ip = ip') then request_times s else times_of ip d.
Proof.
  unfold times_of. destruct (decide (ip = ip')) as [->|Hne].
  - destruct (handle_violation_same now' ip' s d) as (ban & v & -> & _). done.
  - by rewrite handle_violation_other.
Qed.

Lemma entry_times now ip d : request_times (entry now ip d) = times_of ip d.
Proof. unfold entry, times_of. by destruct (peer_states d !! ip). Qed.

Lemma step_config now now' e d : config (step now now' e d).2 = config d.
Proof.
  destruct e as [ip|ip|ip sent rcv|ip|ip|]; cbn [step snd]; try done;
    unfold check_connection_allowed, check_request_allowed, record_bandwidth, remove_connection, unban_ip;
    repeat case_match; try done; apply handle_violation_config.
Qed.

Lemma cleanup_times now d ip :
  if forgets ip now d then times_of ip (cleanup now d) = []
  else times_of ip (cleanup now d) = times_of ip d \/
       times_of ip (cleanup now d) = recent now (times_of ip d).
Proof.
  unfold forgets. destruct (peer_states (cleanup now d) !! ip) as [s'|] eqn:Hs'.
  - rewrite (bool_decide_false (Some s' = None)), andb_false_r by done. left.
    destruct (cleanup_entry now d ip s' Hs') as (s & Hs & Ht & _). unfold times_of. by rewrite Hs', Hs.
  - assert (times_of ip (cleanup now d) = []) as -> by (unfold times_of; by rewrite Hs').
    rewrite (bool_decide_true (None = None)), andb_true_r by done. case_bool_decide as Hr; [done|].
    right. by destruct (recent now (times_of ip d)).
Qed.

(** What a step does to the request instants of [ip]. *)
Lemma step_times now now' e d ip :
  let '(r, d') := step now now' e d in
  match e, r with
  | Request ip', None =>
      if decide (ip' = ip)
      then times_of ip d' = recent now (times_of ip d) ++ [now] /\
           Z.of_nat (length (recent now (times_of ip d))) < max_requests_per_second (config d)
      else times_of ip d' = times_of ip d
  | Cleanup, _ =>
      if forgets ip now d then times_of ip d' = []
      else times_of ip d' = times_of ip d \/ times_of ip d' = recent now (times_of ip d)
  | _, _ => times_of ip d' = times_of ip d \/ times_of ip d' = recent now (times_of ip d)
  end.
Proof.
  destruct e as [ip'|ip'|ip' sent rcv|ip'|ip'|]; cbn [step].
  - unfold check_connection_allowed.
    destruct (match banned_until (entry now ip' d) with Some b => now <? b | None => false end).
    + left. rewrite times_of_put. case_decide; [subst; apply entry_times|done].
    + set (s := match banned_until _ with Some _ => _ | None => _ end).
      assert (request_times s = times_of ip' d) as Hs.
      { unfold s. destruct (banned_until _); apply entry_times. }
      destruct (_ <=? _); left; [rewrite times_of_violation|rewrite times_of_put];
        case_decide; subst; done.
  - unfold check_request_allowed.
    destruct (match banned_until (entry now ip' d) with Some b => now <? b | None => false end).
    + left. rewrite times_of_put. case_decide; [subst; apply entry_times|done].
    + fold (recent now (request_times (entry now ip' d))). rewrite entry_times.
      destruct (Z.leb_spec (max_requests_per_second (config d)) (Z.of_nat (length (recent now (times_of ip' d))))).
      * rewrite times_of_violation. case_decide; [subst; by right|by left].
      * rewrite times_of_put. destruct (decide (ip' = ip)) as [->|Hne].
        -- by rewrite decide_True.
        -- by rewrite decide_False.
  - left. unfold record_bandwidth.
    destruct (_ <? _); [rewrite times_of_violation|rewrite times_of_put];
      case_decide; subst; try done; apply entry_times.
  - left. unfold remove_connection. destruct (peer_states d !! ip') as [s|] eqn:Hs; [|done].
    destruct (_ <? _); [|done]. rewrite times_of_put. case_decide; [subst|done].
    unfold times_of. by rewrite Hs.
  - left. unfold unban_ip. destruct (peer_states d !! ip') as [s|] eqn:Hs; [|done].
    rewrite times_of_put. case_decide; [subst|done]. unfold times_of. by rewrite Hs.
  - apply cleanup_times.
Qed.

Lemma one_second : 0 < from_secs 1.
Proof. done. Qed.

Lemma within_app u l k : within (from_secs 1) u (l ++ k) = (within (from_secs 1) u l + within (from_secs 1) u k)%nat.
Proof. unfold within. by rewrite filter_app, length_app. Qed.

Lemma within_none u l :
  Forall (fun a => u < a \/ a <= u - from_secs 1) l -> within (from_secs 1) u l = 0%nat.
Proof.
  unfold within. induction 1 as [|a l Ha _ IH]; [done|]. rewrite filter_cons, decide_False; [done|].
  intros [? ?]. lia.
Qed.

Lemma admitted_after lo ip trace d :
  Forall (fun x => lo <= x.1.1) trace -> Forall (fun a => lo <= a) (admitted ip trace d).1.
Proof.
  intros Hlo. revert d. induction Hlo as [|[[now now'] e] trace Hnow _ IH]; intros d; cbn [admitted].
  { constructor. }
  destruct (step now now' e d) as [r d']. specialize (IH d').
  destruct (admitted ip trace d') as [acc d'']. cbn [fst] in *.
  destruct e; try done. destruct r; [done|]. case_decide; [by constructor|done].
Qed.

(** A second in which an address has been forgotten [k] times falls into [k + 1] parts. *)
Lemma rate_window_from ip trace d past lo :
  let max := max_requests_per_second (config d) in
  StronglySorted (fun a b => a.1.1 <= b.1.1) trace -> Forall (fun x => lo <= x.1.1) trace ->
  0 <= max -> sliding (from_secs 1) max lo past (times_of ip d) ->
  forall u, Z.of_nat (within (from_secs 1) u (past ++ (admitted ip trace d).1)) <=
    max * (1 + Z.of_nat (within (from_secs 1) u (forgotten ip trace d))).
Proof.
  intros max Hs. subst max. revert d past lo. induction Hs as [|[[now now'] e] trace Hs IH Hall];
    intros d past lo Hlo Hmax Hsl u; cbn [admitted forgotten].
  { cbn [fst]. rewrite app_nil_r. pose proof (sl_bound _ _ _ _ _ Hsl u). cbn. lia. }
  apply Forall_cons in Hlo as [Hnow Hlo]. cbn [fst] in Hnow, Hall.
  apply (sliding_later _ _ lo now) in Hsl; [|done].
  pose proof (step_times now now' e d ip) as Ht. pose proof (step_config now now' e d) as Hc.
  pose proof (admitted_after now ip trace (step now now' e d).2 Hall) as Hafter.
  destruct (step now now' e d) as [r d'] eqn:Hstep. cbn [snd] in *.
  specialize (IH d'). rewrite Hc in IH.
  destruct (admitted ip trace d') as [acc d''] eqn:Hadm. cbn [fst] in *.
  assert (times_of ip d' = times_of ip d \/ times_of ip d' = recent now (times_of ip d) ->
    Z.of_nat (within (from_secs 1) u (past ++ acc)) <= max_requests_per_second (config d) *
      (1 + Z.of_nat (within (from_secs 1) u (forgotten ip trace d')))) as Hsame.
  { intros Hcase. apply (IH past now Hall Hmax). destruct Hcase as [->| ->]; [done|].
    by apply sliding_recent; [apply one_second|]. }
  destruct e as [ip'|ip'|ip' sent rcv|ip'|ip'|]; try (apply Hsame; by destruct r).
  - destruct r as [err|]; [by apply Hsame|].
    destruct (decide (ip' = ip)); [|apply Hsame; by left].
    destruct Ht as [Ht Hlt]. change (now :: acc) with ([now] ++ acc). rewrite app_assoc.
    apply (IH (past ++ [now]) now Hall Hmax). rewrite Ht. by apply sliding_admit; [apply one_second|..].
  - destruct (forgets ip now d); [|by apply Hsame].
    specialize (IH [] now Hall Hmax). rewrite Ht in IH.
    specialize (IH (sliding_start _ _ _ Hmax) u). cbn [app] in IH.
    pose proof (sl_bound _ _ _ _ _ Hsl u) as Hpast. pose proof (sl_past _ _ _ _ _ Hsl) as Hold.
    rewrite within_app. change (now :: ?l) with ([now] ++ l). rewrite within_app.
    destruct (decide (u < now)) as [Hlate|Hin]; [|destruct (decide (now <= u - from_secs 1)) as [Hearly|Hin']].
    + rewrite (within_none u acc); [nia|]. eapply Forall_impl; [exact Hafter|]. cbn. lia.
    + rewrite (within_none u past); [nia|]. eapply Forall_impl; [exact Hold|]. cbn. lia.
    + assert (within (from_secs 1) u [now] = 1%nat) as ->.
      { unfold within. rewrite filter_cons, decide_True by lia. done. }
      nia.
Qed.

(** *** When an address is forgotten *)

Lemma run_config ip trace d : config (admitted ip trace d).2 = config d.
Proof.
  revert d. induction trace as [|[[now now'] e] trace IH]; intros d; [done|]. cbn [admitted].
  pose proof (step_config now now' e d) as Hc. destruct (step now now' e d) as [r d'].
  specialize (IH d'). cbn [snd] in Hc. destruct (admitted ip trace d') as [acc d''].
  cbn [snd] in *. congruence.
Qed.

(** No admitted request is later than the last activity. *)
Definition lively (lo : Instant) (s : PeerState) : Prop :=
  Forall (fun a => a <= last_activity s /\ a <= lo) (request_times s).
Definition lively_at (lo : Instant) ip d : Prop := forall s, peer_states d !! ip = Some s -> lively lo s.

Lemma lively_put lo ip ip' s d :
  lively_at lo ip d -> (ip' = ip -> lively lo s) -> lively_at lo ip (put_peer ip' s d).
Proof.
  intros Hd Hs s'. cbn. intros [[-> <-]|[_ Hl]]%lookup_insert_Some; [by apply Hs|by apply Hd].
Qed.

Lemma lively_violation lo now' ip ip' s d :
  lively_at lo ip d -> (ip' = ip -> lively lo s) -> lively_at lo ip (handle_violation now' ip' s d).
Proof.
  intros Hd Hs s'. destruct (decide (ip = ip')) as [->|Hne].
  - destruct (handle_violation_same now' ip' s d) as (ban & v & -> & _). intros [= <-]. by apply Hs.
  - rewrite handle_violation_other by done. apply Hd.
Qed.

Lemma lively_entry lo now ip ip' d : lively_at lo ip d -> ip' = ip -> lively lo (entry now ip' d).
Proof.
  intros Hd ->. unfold entry. destruct (peer_states d !! ip) as [s|] eqn:Hs; [by apply Hd|constructor].
Qed.

Lemma lively_now lo now s s' :
  lo <= now -> lively lo s -> request_times s' = request_times s -> last_activity s' = now -> lively now s'.
Proof.
  intros Hle Hs Ht Ha. unfold lively. rewrite Ht, Ha. eapply Forall_impl; [exact Hs|]. cbn. lia.
Qed.

Lemma lively_later lo now s : lo <= now -> lively lo s -> lively now s.
Proof. intros Hle Hs. eapply Forall_impl; [exact Hs|]. cbn. lia. Qed.

Lemma lively_recent now now' s :
  lively now' s -> Forall (fun a => a <= last_activity s /\ a <= now') (recent now (request_times s)).
Proof.
  intros Hs. apply Forall_forall. intros a [_ Ha]%list_elem_of_filter. revert a Ha. by apply Forall_forall.
Qed.

Lemma step_lively lo now now' e d ip :
  lo <= now -> lively_at lo ip d -> lively_at now ip (step now now' e d).2.
Proof.
  intros Hle Hlo. assert (lively_at now ip d) as Hd.
  { intros s Hs. eapply lively_later; [exact Hle|]. by apply Hlo. }
  assert (forall ip', ip' = ip -> lively now (entry now ip' d)) as He
    by (intros; by eapply lively_entry).
  destruct e as [ip'|ip'|ip' sent rcv|ip'|ip'|]; cbn [step snd].
  - unfold check_connection_allowed.
    destruct (match banned_until (entry now ip' d) with Some b => now <? b | None => false end).
    + apply (lively_put _ _ _ _ (set_stats _ d)); auto.
    + destruct (banned_until (entry now ip' d)); (destruct (_ <=? _);
        [apply lively_violation; [done|]; exact (He ip')|apply lively_put; [done|]]);
        intros Hip; eapply (lively_now now now (entry now ip' d)); auto; lia.
  - unfold check_request_allowed.
    destruct (match banned_until (entry now ip' d) with Some b => now <? b | None => false end).
    + apply (lively_put _ _ _ _ (set_stats _ d)); auto.
    + fold (recent now (request_times (entry now ip' d))).
      destruct (_ <=? _); [apply lively_violation|apply lively_put]; auto; intros Hip;
        pose proof (lively_recent now now _ (He _ Hip)) as Hr; [exact Hr|].
      unfold lively. cbn [with_requests request_times last_activity].
      apply Forall_app_2; [|constructor; [lia|constructor]].
      eapply Forall_impl; [exact Hr|]. cbn. lia.
  - unfold record_bandwidth.
    destruct (_ <? _); [apply lively_violation|apply lively_put]; auto;
      intros Hip; eapply (lively_now now now (entry now ip' d)); auto; lia.
  - unfold remove_connection. destruct (peer_states d !! ip') as [s|] eqn:Hs; [|done].
    destruct (_ <? _); [|done]. apply lively_put; [done|]. intros ->. by apply (Hd s).
  - unfold unban_ip. destruct (peer_states d !! ip') as [s|] eqn:Hs; [|done].
    apply lively_put; [done|]. intros ->. by apply (Hd s).
  - intros s' Hs'. destruct (cleanup_entry now d ip s' Hs') as (s & Hs & Ht & Ha).
    unfold lively. rewrite Ht, Ha. by apply Hd.
Qed.

Lemma run_lively lo hi ip trace d :
  StronglySorted (fun a b => a.1.1 <= b.1.1) trace -> Forall (fun x => lo <= x.1.1 <= hi) trace ->
  lo <= hi -> lively_at lo ip d -> lively_at hi ip (admitted ip trace d).2.
Proof.
  intros Hs. revert lo d. induction Hs as [|[[now now'] e] trace Hs IH Hall]; intros lo d Hr Hle Hd.
  { intros s Hs. eapply lively_later; [exact Hle|]. by apply Hd. }
  apply Forall_cons in Hr as [[Hlo Hhi] Hr]. cbn [fst] in Hlo, Hhi, Hall.
  specialize (IH now (step now now' e d).2).
  assert ((admitted ip ((now, now', e) :: trace) d).2 = (admitted ip trace (step now now' e d).2).2) as ->.
  { cbn [admitted]. destruct (step now now' e d) as [r d']. cbn [snd]. by destruct (admitted ip trace d') as [acc d'']. }
  apply IH; [|done|by eapply step_lively]. apply Forall_forall. intros x Hx. split.
  - by apply (proj1 (Forall_forall _ _) Hall).
  - by apply (proj1 (Forall_forall _ _) Hr).
Qed.

Lemma list_elem_of_take {A} n (l : list A) x : x ∈ take n l -> x ∈ l.
Proof. intros Hx. rewrite <- (take_drop n l). apply elem_of_app. by left. Qed.

(** The addresses that are dropped first have been quiet for longest, so when one goes that was
    active lately, all that stay were active since. *)
Lemma surplus_quietest (c : DosProtectionConfig) (m : gmap IpAddr PeerState) ip s :
  max_tracked_ips c < Z.of_nat (size m) -> m !! ip = Some s -> ip ∈ surplus c m ->
  max_tracked_ips c <
    Z.of_nat (size (filter (fun kv : IpAddr * PeerState => last_activity s <= last_activity kv.2) m)).
Proof.
  intros Hsize Hs. unfold surplus.
  set (entries := (fun kv : IpAddr * PeerState => (kv.1, last_activity kv.2)) <$> hm_iter m).
  set (l := sort_by_key snd entries). set (n := (size m - Z.to_nat (max_tracked_ips c))%nat). intros Hin.
  assert (forall k t, (k, t) ∈ l <-> exists x, m !! k = Some x /\ t = last_activity x) as Hl.
  { intros k t. unfold l, sort_by_key. rewrite elem_of_sort_by. unfold entries. rewrite list_elem_of_fmap. split.
    - intros ([k' x] & [= -> ->] & Hx%elem_of_hm_iter). by exists x.
    - intros (x & Hx & ->). exists (k, x). split; [done|]. by apply elem_of_hm_iter. }
  assert (NoDup l.*1) as Hnd.
  { unfold l, sort_by_key. rewrite sort_by_perm. unfold entries. rewrite <- list_fmap_compose.
    apply NoDup_hm_iter_fst. }
  assert (length l = size m) as Hlen.
  { unfold l, sort_by_key. rewrite sort_by_length. unfold entries. rewrite length_fmap. apply hm_iter_length. }
  pose proof (sort_by_key_sorted (snd : IpAddr * Z -> Z) entries) as Hsorted. fold l in Hsorted.
  rewrite <- (take_drop n l) in Hsorted, Hnd.
  rewrite <- fmap_take in Hin. apply list_elem_of_fmap in Hin as ([k t] & -> & Hin). cbn [fst] in *.
  pose proof (proj1 (Hl k t) (list_elem_of_take n l _ Hin)) as (x & Hx & ->).
  assert (x = s) as -> by congruence.
  assert (NoDup (k :: (drop n l).*1)) as Hnd'.
  { rewrite fmap_app, NoDup_app in Hnd. destruct Hnd as (_ & Hdis & Hd). constructor; [|done].
    apply Hdis. apply list_elem_of_fmap. by exists (k, last_activity s). }
  pose proof (size_list_to_set (C := gset IpAddr) _ Hnd') as Hsz.
  assert ((list_to_set (k :: (drop n l).*1) : gset IpAddr) ⊆
    dom (filter (fun kv : IpAddr * PeerState => last_activity s <= last_activity kv.2) m)) as Hsub.
  { intros k' Hk'%elem_of_list_to_set. apply elem_of_dom.
    apply elem_of_cons in Hk' as [->|Hk'].
    - exists s. by apply map_lookup_filter_Some.
    - apply list_elem_of_fmap in Hk' as ([k2 t] & -> & Hk').
      pose proof (proj1 (Hl k2 t) (subseteq_drop n l _ Hk')) as (x & Hx' & ->).
      exists x. apply map_lookup_filter_Some. split; [done|]. cbn.
      apply StronglySorted_app in Hsorted as (Hs12 & _).
      by apply (Hs12 (k, last_activity s) (k2, last_activity x)). }
  apply subseteq_size in Hsub. rewrite size_dom, Hsz in Hsub. cbn [length] in Hsub.
  rewrite length_fmap, length_drop, Hlen in Hsub. unfold n in Hsub. lia.
Qed.

Lemma retain_activity c now s s' : retain_peer c now s = Some s' -> last_activity s' = last_activity s.
Proof. unfold retain_peer. destruct (_ <? _); [done|]. destruct (_ <? _); by intros [= <-]. Qed.

Lemma foldl_delete_None (l : list IpAddr) (m : gmap IpAddr PeerState) ip :
  foldl (fun m ip => delete ip m) m l !! ip = None -> m !! ip = None \/ ip ∈ l.
Proof.
  revert m. induction l as [|k l IH]; intros m; cbn [foldl]; [by left|].
  intros [Hd|Hin]%IH; [|right; by right].
  apply lookup_delete_None in Hd as [->|Hd]; [right; by left|by left].
Qed.

(** Only a table with more addresses active in the last second than it may hold makes the
    cleanup forget one of them. *)
Lemma forgets_crowded now ip d :
  1 <= u64_mul (cleanup_interval_seconds (config d)) 2 -> lively_at now ip d ->
  forgets ip now d = true ->
  max_tracked_ips (config d) < Z.of_nat (size (active_peers now d)).
Proof.
  intros Hint Hd [Hrec%bool_decide_eq_true Hgone%bool_decide_eq_true]%andb_true_iff.
  unfold times_of in Hrec. destruct (peer_states d !! ip) as [s|] eqn:Hs; [|done].
  destruct (recent now (request_times s)) as [|a rest] eqn:Ha; [done|].
  assert (a ∈ recent now (request_times s)) as [Hin Hat]%list_elem_of_filter by (rewrite Ha; by left).
  pose proof (proj1 (Forall_forall _ _) (Hd s Hs) a Hat) as [Hal _]. unfold duration_since in Hin.
  set (kept := omap (retain_peer (config d) now) (peer_states d)).
  assert (exists s1, kept !! ip = Some s1 /\ last_activity s1 = last_activity s) as (s1 & Hs1 & Hl1).
  { destruct (retain_peer (config d) now s) as [s1|] eqn:Hr.
    - exists s1. split; [by apply lookup_omap_Some; exists s|by eapply retain_activity].
    - exfalso. unfold retain_peer, duration_since, from_secs in Hr, Hin.
      destruct (Z.ltb_spec (u64_mul (cleanup_interval_seconds (config d)) 2 * 1000000000)
        (Z.max 0 (now - last_activity s))); [lia|]. by destruct (_ <? _). }
  unfold cleanup in Hgone. cbn [peer_states] in Hgone. fold kept in Hgone.
  destruct (Z.ltb_spec (max_tracked_ips (config d)) (Z.of_nat (size kept))) as [Hbig|]; [|congruence].
  apply foldl_delete_None in Hgone as [Hgone|Hsur]; [congruence|].
  pose proof (surplus_quietest (config d) kept ip s1 Hbig Hs1 Hsur) as Hlt.
  rewrite Hl1 in Hlt. eapply Z.lt_le_trans; [exact Hlt|]. apply inj_le.
  rewrite <- !size_dom. apply subseteq_size. intros k. rewrite !elem_of_dom.
  intros [x [Hx Hle]%map_lookup_filter_Some]. cbn [fst snd] in Hle.
  apply lookup_omap_Some in Hx as (y & Hy & Hky). exists y. unfold active_peers.
  apply map_lookup_filter_Some. split; [done|]. cbn [snd].
  rewrite <- (retain_activity _ _ _ _ Hy). lia.
Qed.

Lemma forgotten_split ip trace d now :
  now ∈ forgotten ip trace d -> exists trace1 now' trace2,
    trace = trace1 ++ (now, now', Cleanup) :: trace2 /\
    forgets ip now (admitted ip trace1 d).2 = true.
Proof.
  revert d. induction trace as [|[[t t'] e] trace IH]; intros d; cbn [forgotten].
  { by intros ?%not_elem_of_nil. }
  assert (now ∈ forgotten ip trace (step t t' e d).2 -> exists trace1 now' trace2,
    (t, t', e) :: trace = trace1 ++ (now, now', Cleanup) :: trace2 /\
    forgets ip now (admitted ip trace1 d).2 = true) as Hlater.
  { intros (trace1 & now' & trace2 & -> & Hf)%IH. exists ((t, t', e) :: trace1), now', trace2.
    split; [done|]. cbn [admitted]. destruct (step t t' e d) as [r d']. cbn [snd] in Hf.
    by destruct (admitted ip trace1 d') as [acc d'']. }
  destruct e; try exact Hlater. destruct (forgets ip t d) eqn:Hf; [|exact Hlater].
  intros [->|Hin]%elem_of_cons; [|by apply Hlater]. by exists [], t', trace.
Qed.

(** C15: the rate limit is a sliding window as far as the table remembers.
    In any interleaving of connections, requests, traffic, disconnections and
    unbans of any peers and rounds of the cleanup task, as long as the clock does not run
    backwards, the number of requests admitted from one address within any one second is
    at most the configured maximum - times one more than the number
    of cleanups in that second that dropped the address although it had been
    admitted within the second before, since it then starts anew.  Such a cleanup finds more addresses
    active within the last second than the table may hold, so without such crowds the
    configured maximum is never exceeded.  Twice the interval of the cleanup must be a second or
    more: the timer refuses an interval of zero, and only one of [2 ^ 63] wraps to zero. *)
Theorem rate_window ip trace d :
  StronglySorted (fun a b => a.1.1 <= b.1.1) trace ->
  peer_states d !! ip = None -> 0 <= max_requests_per_second (config d) ->
  1 <= u64_mul (cleanup_interval_seconds (config d)) 2 ->
  (forall u, Z.of_nat (within (from_secs 1) u (admitted ip trace d).1) <=
     max_requests_per_second (config d) *
       (1 + Z.of_nat (within (from_secs 1) u (forgotten ip trace d)))) /\
  (forall now, now ∈ forgotten ip trace d -> exists trace1 now' trace2,
     trace = trace1 ++ (now, now', Cleanup) :: trace2 /\
     max_tracked_ips (config d) < Z.of_nat (size (active_peers now (admitted ip trace1 d).2))).
Proof.
  intros Hs Hnone Hmax Hint. split.
  - intros u. assert (times_of ip d = []) as Ht by (unfold times_of; by rewrite Hnone).
    destruct trace as [|[[now now'] e] trace]; [cbn; lia|].
    apply (rate_window_from ip _ d [] now); [done| |done|rewrite Ht; by apply sliding_start].
    apply StronglySorted_inv in Hs as [_ Hall]. by constructor.
  - intros now (trace1 & now' & trace2 & -> & Hf)%forgotten_split.
    exists trace1, now', trace2. split; [done|].
    apply StronglySorted_app in Hs as (Hle & Hs1 & _).
    assert (forall lo, lively_at lo ip d) as Hd by (intros lo s; congruence).
    rewrite <- (run_config ip trace1 d). apply (forgets_crowded now ip); [by rewrite run_config| |done].
    destruct trace1 as [|x trace1]; [apply Hd|].
    assert (forall y, y ∈ x :: trace1 -> y.1.1 <= now) as Hhi by (intros y Hy; apply (Hle y (now, now', Cleanup) Hy); by left).
    apply (run_lively x.1.1 now); [done| |apply Hhi; by left|done].
    pose proof (proj2 (StronglySorted_inv Hs1)) as Hall.
    apply Forall_forall. intros y Hy. split; [|by apply Hhi].
    apply elem_of_cons in Hy as [->|Hy]; [lia|]. by apply (proj1 (Forall_forall _ _) Hall).
Qed.

(** *** Limits of the table *)

Definition peer_ok (c : DosProtectionConfig) (s : PeerState) : Prop :=
  0 <= connections s <= max_connections_per_ip c /\
  Z.of_nat (length (request_times s)) <= max_requests_per_second c.

Definition config_ok (c : DosProtectionConfig) : Prop :=
  0 <= max_connections_per_ip c <= u32_max /\ 0 <= max_requests_per_second c.

Definition dos_ok d : Prop :=
  config_ok (config d) /\ map_Forall (fun _ s => peer_ok (config d) s) (peer_states d).

Lemma entry_ok now ip d : dos_ok d -> peer_ok (config d) (entry now ip d).
Proof.
  intros ([Hc Hr] & Hm). unfold entry. destruct (peer_states d !! ip) as [s|] eqn:Hs.
  - by apply (Hm ip s).
  - split; cbn; lia.
Qed.

Lemma put_peer_ok ip s d d' :
  dos_ok d -> config d' = config d -> peer_states d' = peer_states d -> peer_ok (config d) s ->
  dos_ok (put_peer ip s d').
Proof.
  intros [Hc Hm] Hcfg Hps Hs. unfold dos_ok. cbn. rewrite Hcfg, Hps. split; [done|].
  by apply map_Forall_insert_2.
Qed.

Lemma handle_violation_ok now' ip s d : dos_ok d -> peer_ok (config d) s -> dos_ok (handle_violation now' ip s d).
Proof.
  intros Hd Hs. unfold handle_violation. destruct (_ <=? _).
  - assert (dos_ok (put_peer ip (with_ban (Some (now' + from_secs (ban_duration_seconds (config d))))
      (u32_add (violations s) 1) s) (set_stats (count_violation (stats d)) d))) as [Hc Hm]
      by (by apply (put_peer_ok ip _ d)).
    by split.
  - by apply (put_peer_ok ip _ d).
Qed.

Lemma cleanup_ok now d : dos_ok d -> dos_ok (cleanup now d).
Proof.
  intros [Hc Hm]. split; [done|]. intros ip s Hs.
  pose proof (lookup_weaken _ _ _ _ Hs (cleanup_subseteq now d)) as Ho.
  apply lookup_omap_Some in Ho as (s' & Hr & Hs').
  specialize (Hm ip s' Hs'). cbn in Hm |- *. unfold retain_peer in Hr.
  destruct (_ <? _); [done|]. destruct (_ <? _); by simplify_eq.
Qed.

Lemma step_ok now now' e d : dos_ok d -> dos_ok (step now now' e d).2.
Proof.
  intros Hd. pose proof Hd as [[Hc Hr] Hm]. destruct e as [ip|ip|ip sent rcv|ip|ip|]; cbn [step snd]; [| | | | |by apply cleanup_ok].
  - unfold check_connection_allowed. pose proof (entry_ok now ip d Hd) as [Hcn Hrq].
    destruct (match banned_until (entry now ip d) with Some b => now <? b | None => false end);
      [by apply (put_peer_ok ip _ d)|].
    set (s := match banned_until _ with Some _ => _ | None => _ end).
    assert (peer_ok (config d) s) as Hs by (unfold s; by destruct (banned_until _)).
    destruct (Z.leb_spec (max_connections_per_ip (config d)) (connections s)) as [Hle|Hlt].
    + by apply handle_violation_ok.
    + apply (put_peer_ok ip _ d); [done..|]. destruct Hs as [[Hs1 Hs2] Hs3]. split; [|done]. cbn.
      unfold u32_add. rewrite Z.mod_small; unfold u32_max in *; lia.
  - unfold check_request_allowed. pose proof (entry_ok now ip d Hd) as [Hcn Hrq].
    destruct (match banned_until (entry now ip d) with Some b => now <? b | None => false end);
      [by apply (put_peer_ok ip _ d)|].
    fold (recent now (request_times (entry now ip d))).
    assert (length (recent now (request_times (entry now ip d))) <=
      length (request_times (entry now ip d)))%nat by apply length_filter.
    destruct (Z.leb_spec (max_requests_per_second (config d))
      (Z.of_nat (length (recent now (request_times (entry now ip d)))))) as [Hle|Hlt].
    + apply handle_violation_ok; [done|]. split; [done|]. cbn. lia.
    + apply (put_peer_ok ip _ d); [done..|]. split; [done|]. cbn. rewrite length_app. cbn. lia.
  - unfold record_bandwidth. pose proof (entry_ok now ip d Hd) as Hs.
    destruct (_ <? _); [by apply handle_violation_ok|by apply (put_peer_ok ip _ d)].
  - unfold remove_connection. destruct (peer_states d !! ip) as [s|] eqn:Hs; [|done].
    destruct (Z.ltb_spec 0 (connections s)); [|done].
    apply (put_peer_ok ip _ d); [done..|]. destruct (Hm ip s Hs). split; [cbn; lia|done].
  - unfold unban_ip. destruct (peer_states d !! ip) as [s|] eqn:Hs; [|done].
    apply (put_peer_ok ip _ d); [done..|]. by apply (Hm ip s).
Qed.

(** *** Bans *)

Lemma refused_while_banned now now' ip d s until :
  peer_states d !! ip = Some s -> banned_until s = Some until -> now < until ->
  (check_connection_allowed now now' ip d).1 = Some (Banned (as_secs (until - now))) /\
  (check_request_allowed now now' ip d).1 = Some (Banned (as_secs (until - now))).
Proof.
  intros Hs Hb Hlt. unfold check_connection_allowed, check_request_allowed, entry.
  rewrite Hs. cbn [default from_option id]. rewrite Hb, (proj2 (Z.ltb_lt now until) Hlt).
  cbn [fst snd default from_option id]. unfold duration_since. by rewrite Z.max_r by lia.
Qed.

(** A banned address is turned away, both when it connects and when it sends
    a request, the answer says how long that lasts, and nothing
    but the counter of refusals changes, so the ban stands until its end. *)
Theorem banned_refused now now' ip d s until :
  peer_states d !! ip = Some s -> banned_until s = Some until -> now < until ->
  is_banned now ip d = true /\
  (check_connection_allowed now now' ip d).1 = Some (Banned (as_secs (until - now))) /\
  (check_request_allowed now now' ip d).1 = Some (Banned (as_secs (until - now))) /\
  peer_states (check_connection_allowed now now' ip d).2 = peer_states d /\
  peer_states (check_request_allowed now now' ip d).2 = peer_states d.
Proof.
  intros Hs Hb Hlt. destruct (refused_while_banned now now' ip d s until Hs Hb Hlt) as [Hc Hr].
  split; [unfold is_banned; by rewrite Hs, Hb, (proj2 (Z.ltb_lt now until) Hlt)|].
  split; [done|]. split; [done|].
  unfold check_connection_allowed, check_request_allowed, entry.
  rewrite Hs. cbn [default from_option id]. rewrite Hb, (proj2 (Z.ltb_lt now until) Hlt).
  cbn [snd put_peer peer_states set_stats]. by rewrite insert_id.
Qed.

(** *** Bandwidth *)

Definition record_all (ip : IpAddr) (uses : list (Instant * Instant * (Z * Z))) d : DosProtection :=
  foldl (fun d '(now, now', (sent, rcv)) => record_bandwidth now now' ip sent rcv d) d uses.

Definition traffic (uses : list (Instant * Instant * (Z * Z))) : Z :=
  foldr (fun u t => u.2.1 + u.2.2 + t) 0 uses.

Definition bytes_of ip d : Z * Z :=
  match peer_states d !! ip with Some s => (bytes_sent s, bytes_received s) | None => (0, 0) end.

Lemma record_bandwidth_bytes now now' ip sent rcv d :
  bytes_of ip (record_bandwidth now now' ip sent rcv d) =
    (u64_add (bytes_of ip d).1 sent, u64_add (bytes_of ip d).2 rcv).
Proof.
  assert (bytes_sent (entry now ip d) = (bytes_of ip d).1 /\
    bytes_received (entry now ip d) = (bytes_of ip d).2) as [H1 H2].
  { unfold entry, bytes_of. by destruct (peer_states d !! ip). }
  unfold record_bandwidth. rewrite H1, H2. destruct (_ <? _).
  - unfold bytes_of at 1.
    destruct (handle_violation_same now' ip (with_bytes (u64_add (bytes_of ip d).1 sent)
      (u64_add (bytes_of ip d).2 rcv) now (entry now ip d)) d) as (ban & v & -> & _). done.
  - unfold bytes_of at 1. cbn. by rewrite lookup_insert_eq.
Qed.

(** The bandwidth limit is not a rate.  The byte counters of an address sum up
    everything it ever transferred, whatever the instants of the
    transfers: nothing but an idle second at a cleanup resets them, so the limit
    "per second" is reached by any peer that stays busy for long enough. *)
Theorem bandwidth_is_cumulative ip uses d :
  Forall (fun u => 0 <= u.2.1 /\ 0 <= u.2.2) uses -> peer_states d !! ip = None ->
  traffic uses <= u64_max ->
  (bytes_of ip (record_all ip uses d)).1 + (bytes_of ip (record_all ip uses d)).2 = traffic uses.
Proof.
  intros Hpos Hnone Hmax.
  assert (forall d, 0 <= (bytes_of ip d).1 -> 0 <= (bytes_of ip d).2 ->
    (bytes_of ip d).1 + (bytes_of ip d).2 + traffic uses <= u64_max ->
    (bytes_of ip (record_all ip uses d)).1 + (bytes_of ip (record_all ip uses d)).2 =
      (bytes_of ip d).1 + (bytes_of ip d).2 + traffic uses) as Hgen.
  { clear Hnone Hmax d. induction Hpos as [|[[now now'] [sent rcv]] uses [Hs Hr] Hall IH]; intros d H1 H2 Hle.
    { cbn. lia. }
    assert (0 <= traffic uses) as Ht.
    { clear -Hall. unfold traffic. induction Hall as [|u l [Hu1 Hu2] _ IHl]; cbn [foldr]; lia. }
    cbn [fst snd] in Hs, Hr. cbn [traffic foldr fst snd] in Hle |- *. fold (traffic uses) in *.
    change (record_all ip ((now, now', (sent, rcv)) :: uses) d) with
      (record_all ip uses (record_bandwidth now now' ip sent rcv d)).
    pose proof (record_bandwidth_bytes now now' ip sent rcv d) as Hb.
    rewrite !u64_add_small in Hb by lia.
    rewrite IH; rewrite Hb; cbn [fst snd]; lia. }
  assert (bytes_of ip d = (0, 0)) as Hb by (unfold bytes_of; by rewrite Hnone).
  specialize (Hgen d). rewrite Hb in Hgen. apply Hgen; cbn; lia.
Qed.
End Facts.

(** ** Cleanup *)
Section CleanupFacts.
Context `{HashOrder}.
Implicit Types (d : DosProtection) (ip : IpAddr).

(** One call of an operation, or one round of the cleanup. *)
Inductive dos_step : DosProtection -> DosProtection -> Prop :=
  | dos_event now now' e d : dos_step d (step now now' e d).2.

(** Whatever happens - any interleaving of calls and
    cleanups, with any readings of the clock - no address ever holds more than the
    allowed number of connections, and the table of request instants of an address
    never outgrows the rate limit. *)
Theorem dos_limits c d :
  config_ok c -> rtc dos_step (new c) d ->
  config d = c /\ forall ip s, peer_states d !! ip = Some s ->
    0 <= connections s <= max_connections_per_ip c /\
    Z.of_nat (length (request_times s)) <= max_requests_per_second c.
Proof.
  intros Hc Hsteps.
  assert (dos_ok (new c)) as Hok by (split; [done|]; by apply map_Forall_empty).
  change c with (config (new c)). clear Hc. revert Hok.
  induction Hsteps as [d|d1 d2 d3 Hstep _ IH]; intros Hok.
  - split; [done|]. intros ip s. apply Hok.
  - assert (dos_ok d2 /\ config d2 = config d1) as [Hok2 Heq].
    { destruct Hstep as [now now' e d]. split; [by apply step_ok|apply step_config]. }
    rewrite <- Heq. by apply IH.
Qed.

(** A ban does not outlast the cleanup.  The cleanup drops every address
    that has been quiet for twice its interval, banned or not, and refused
    attempts do not count as activity; the address is then unknown and may connect
    although its ban had not ended. *)
Theorem cleanup_lifts_ban now now' ip d s until :
  peer_states d !! ip = Some s -> banned_until s = Some until -> now < until ->
  from_secs (u64_mul (cleanup_interval_seconds (config d)) 2) < now - last_activity s ->
  0 < max_connections_per_ip (config d) ->
  (check_connection_allowed now now' ip d).1 = Some (Banned (as_secs (until - now))) /\
  is_banned now ip (cleanup now d) = false /\
  (check_connection_allowed now now' ip (cleanup now d)).1 = None.
Proof.
  intros Hs Hb Hlt Hage Hmax. split; [by apply (refused_while_banned now now' ip d s until)|].
  assert (peer_states (cleanup now d) !! ip = None) as Hnone.
  { destruct (peer_states (cleanup now d) !! ip) as [s'|] eqn:E; [|done]. exfalso.
    pose proof (lookup_weaken _ _ _ _ E (cleanup_subseteq now d)) as Ho.
    apply lookup_omap_Some in Ho as (s1 & Hr & Hs1). simplify_eq.
    unfold retain_peer, duration_since in Hr. rewrite (proj2 (Z.ltb_lt _ _)) in Hr; [done|]. lia. }
  unfold is_banned, check_connection_allowed, entry. rewrite Hnone. split; [done|].
  cbn [default from_option id fresh_peer banned_until connections].
  change (config (cleanup now d)) with (config d). by rewrite (proj2 (Z.leb_gt _ _)).
Qed.
End CleanupFacts.

(** ** Witnesses *)

#[local] Existing Instance canonical_order.

Definition small_config : DosProtectionConfig :=
  {| max_connections_per_ip := 1; max_requests_per_second := 2; max_bandwidth_per_second := 100;
     ban_duration_seconds := 3600; cleanup_interval_seconds := 300; max_tracked_ips := 10 |}.
Definition peer : IpAddr := [10; 0; 0; 1].
Definition at_second (s : Z) (e : event) : Instant * Instant * event := (from_secs s, from_secs s, e).

(** Two requests of one address are admitted, a third is not; another address
    connects, a cleanup keeps only one of the two, and the first starts anew. *)
Definition crowded_trace : list (Instant * Instant * event) :=
  [at_second 1 (Request peer); at_second 1 (Request peer); at_second 1 (Request peer);
   (from_secs 1 + 1, from_secs 1 + 1, Connect [10; 0; 0; 2]);
   (from_secs 1 + 2, from_secs 1 + 2, Cleanup);
   (from_secs 1 + 3, from_secs 1 + 3, Request peer);
   (from_secs 1 + 4, from_secs 1 + 4, Request peer);
   at_second 3 (Request peer)].
Definition crowded_config : DosProtectionConfig :=
  {| max_connections_per_ip := 1; max_requests_per_second := 2; max_bandwidth_per_second := 100;
     ban_duration_seconds := 3600; cleanup_interval_seconds := 300; max_tracked_ips := 1 |}.

(** The quota of two requests per second is used twice within four nanoseconds. *)
Lemma eviction_refreshes_quota :
  within (from_secs 1) (from_secs 1 + 4) (admitted peer crowded_trace (new crowded_config)).1 = 4%nat /\
  forgotten peer crowded_trace (new crowded_config) = [from_secs 1 + 2].
Proof. split; vm_compute; reflexivity. Qed.

Lemma rate_window_witness :
  (forall u, Z.of_nat (within (from_secs 1) u (admitted peer crowded_trace (new crowded_config)).1) <=
     2 * (1 + Z.of_nat (within (from_secs 1) u [from_secs 1 + 2]))) /\
  (forall u, Z.of_nat (within (from_secs 1) u (admitted peer crowded_trace (new small_config)).1) <= 2).
Proof.
  assert (StronglySorted (fun a b : Instant * Instant * event => a.1.1 <= b.1.1) crowded_trace) as Hs
    by (repeat (constructor; try (cbn; done))).
  split; intros u.
  - apply (proj1 (rate_window peer crowded_trace (new crowded_config) Hs eq_refl ltac:(done) ltac:(done))).
  - apply (proj1 (rate_window peer crowded_trace (new small_config) Hs eq_refl ltac:(done) ltac:(done))).
Defined.

(** Three attempts to open a second connection. *)
Definition banned_state : DosProtection :=
  foldl (fun d s => (check_connection_allowed (from_secs s) (from_secs s) peer d).2)
    (new small_config) [0; 1; 2; 3].

Lemma banned_refused_witness :
  (check_request_allowed (from_secs 10) (from_secs 10) peer banned_state).1 = Some (Banned 3593).
Proof.
  apply (banned_refused (from_secs 10) (from_secs 10) peer banned_state _ (from_secs 3603)
    (eq_refl : _ = Some _) eq_refl). done.
Defined.

Lemma cleanup_lifts_ban_witness :
  is_banned (from_secs 601) peer banned_state = true /\
  is_banned (from_secs 601) peer (cleanup (from_secs 601) banned_state) = false /\
  (check_connection_allowed (from_secs 601) (from_secs 601) peer
     (cleanup (from_secs 601) banned_state)).1 = None.
Proof.
  split; [reflexivity|].
  apply (cleanup_lifts_ban (from_secs 601) (from_secs 601) peer banned_state _ (from_secs 3603)
    (eq_refl : _ = Some _) eq_refl); done.
Defined.

(** One byte a minute, for three hours. *)
Definition slow_uses : list (Instant * Instant * (Z * Z)) :=
  (fun i => (from_secs (60 * Z.of_nat i), from_secs (60 * Z.of_nat i), (1, 0))) <$> seq 0 103.
Lemma bandwidth_is_cumulative_witness :
  (bytes_of peer (record_all peer slow_uses (new small_config))).1 +
  (bytes_of peer (record_all peer slow_uses (new small_config))).2 = traffic slow_uses /\
  is_banned (from_secs 6121) peer (record_all peer slow_uses (new small_config)) = true.
Proof.
  split; [|vm_compute; reflexivity].
  apply (bandwidth_is_cumulative peer slow_uses (new small_config)); [|reflexivity|done].
  apply Forall_forall. intros u (i & -> & _)%list_elem_of_fmap. done.
Defined.

Lemma dos_limits_witness :
  config banned_state = small_config /\
  forall ip s, peer_states banned_state !! ip = Some s -> 0 <= connections s <= 1.
Proof.
  assert (rtc dos_step (new small_config) banned_state) as Hsteps.
  { unfold banned_state. generalize (new small_config), [0; 1; 2; 3]. intros d l. revert d.
    induction l as [|s l IH]; intros d; [apply rtc_refl|].
    eapply rtc_l; [apply (dos_event (from_secs s) (from_secs s) (Connect peer))|apply IH]. }
  destruct (dos_limits small_config banned_state ltac:(done) Hsteps) as [Hc Hall].
  split; [exact Hc|]. intros ip s Hs. apply (Hall ip s Hs).
Defined.
