(* ===== verification/PreValidation.v ===== *)
(** Stateless admission checks: [src/src/security/pre_validation.rs]. *)
From S2P Require Import Prelude Crypto Transaction Floats Mining Block.

(** Messages are kept as their template and arguments. *)
Inductive ValidationError :=
  | InvalidFormat (msg : error)
  | InvalidSignature
  | InsufficientBalance
  | InvalidNonce
  | GasLimitExceeded
  | InvalidGasPrice
  | DuplicateTransaction
  | BlacklistedAddress.

Record PreValidationResult := {
  is_valid : bool;
  errors : list ValidationError
}.

Record TransactionPreValidator := {
  max_gas_limit : Z;
  min_gas_price : Z;
  max_tx_size : Z;
  blacklisted_addresses : gset Address;
  known_tx_hashes : gset Hash
}.

Definition new (max_gas_limit min_gas_price max_tx_size : Z) : TransactionPreValidator :=
  {| max_gas_limit := max_gas_limit; min_gas_price := min_gas_price; max_tx_size := max_tx_size;
     blacklisted_addresses := ∅; known_tx_hashes := ∅ |}.
Definition default_validator : TransactionPreValidator := new 8000000 1000000000 (128 * 1024).

Definition zero_address : Address := replicate 20 0.

(** [format!("{:?}", error)] *)
Definition debug (e : ValidationError) : arg :=
  match e with
  | InvalidFormat msg => ArgErr (Error "InvalidFormat({:?})" [ArgErr msg])
  | InvalidSignature => ArgStr "InvalidSignature"
  | InsufficientBalance => ArgStr "InsufficientBalance"
  | InvalidNonce => ArgStr "InvalidNonce"
  | GasLimitExceeded => ArgStr "GasLimitExceeded"
  | InvalidGasPrice => ArgStr "InvalidGasPrice"
  | DuplicateTransaction => ArgStr "DuplicateTransaction"
  | BlacklistedAddress => ArgStr "BlacklistedAddress"
  end.

(** A check that passes, or its error. *)
Abbreviation check := (option ValidationError).
Definition format_error (msg : string) (args : list arg) : check := Some (InvalidFormat (Error msg args)).

Section PreValidation.
Context `{Sha256}.

(** [std::mem::size_of_val(tx)]: the size of the [Transaction] struct, which the
    compiler fixes; code and arguments of a payload live on the heap. *)
Context (size_of_Transaction : Z).
Implicit Types (v : TransactionPreValidator) (tx : Transaction).

(** The checks on the payload of [validate_format]. *)
Definition validate_payload tx : check :=
  match payload tx with
  | Transfer to _ =>
      if decide (to = zero_address) then format_error "To address cannot be zero" []
      else if decide (from tx = to)
      then format_error "From and to addresses cannot be the same" []
      else None
  | ContractDeploy wasm_code _ =>
      if decide (wasm_code = []) then format_error "Contract deploy must include WASM code" []
      else None
  | ContractCall contract_address method _ =>
      if decide (contract_address = zero_address)
      then format_error "Contract address cannot be zero" []
      else if decide (method = []) then format_error "Contract method cannot be empty" []
      else None
  end.

Definition validate_format v tx : check :=
  if max_tx_size v <? size_of_Transaction
  then format_error "Transaction size {} exceeds maximum {}"
         [ArgNum size_of_Transaction; ArgNum (max_tx_size v)]
  else
    let amount := match payload tx with Transfer _ amount => amount | _ => 0 end in
    if (amount =? 0) && match payload tx with Transfer _ _ => true | _ => false end
    then format_error "Transfer transaction amount cannot be zero" []
    else if gas_limit tx =? 0 then format_error "Gas limit cannot be zero" []
    else if decide (from tx = zero_address) then format_error "From address cannot be zero" []
    else validate_payload tx.

Definition validate_signature tx : check :=
  if decide (length (data (signature tx)) = 65%nat) then None else Some InvalidSignature.

Definition validate_gas v tx : check :=
  if max_gas_limit v <? gas_limit tx then Some GasLimitExceeded
  else if gas_price tx <? min_gas_price v then Some InvalidGasPrice
  else if u64_mul (min_gas_price v) 1000 <? gas_price tx then Some InvalidGasPrice
  else None.

Definition validate_addresses v tx : check :=
  if decide (from tx ∈ blacklisted_addresses v) then Some BlacklistedAddress
  else match payload tx with
       | Transfer to _ | ContractCall to _ _ =>
           if decide (to ∈ blacklisted_addresses v) then Some BlacklistedAddress else None
       | ContractDeploy _ _ => None
       end.

Definition check_duplicate v tx : check :=
  if decide (hash tx ∈ known_tx_hashes v) then Some DuplicateTransaction else None.

Definition pre_validate_transaction v tx : PreValidationResult :=
  let errors := omap id [validate_format v tx; validate_signature tx; validate_gas v tx;
                         validate_addresses v tx; check_duplicate v tx] in
  {| is_valid := bool_decide (errors = []); errors := errors |}.

Definition pre_validate_transactions v (transactions : list Transaction) : list PreValidationResult :=
  pre_validate_transaction v <$> transactions.

Definition with_known v (known : gset Hash) : TransactionPreValidator :=
  {| max_gas_limit := max_gas_limit v; min_gas_price := min_gas_price v;
     max_tx_size := max_tx_size v; blacklisted_addresses := blacklisted_addresses v;
     known_tx_hashes := known |}.
Definition with_blacklist v (blacklist : gset Address) : TransactionPreValidator :=
  {| max_gas_limit := max_gas_limit v; min_gas_price := min_gas_price v;
     max_tx_size := max_tx_size v; blacklisted_addresses := blacklist;
     known_tx_hashes := known_tx_hashes v |}.

Definition add_known_transaction (h : Hash) v := with_known v ({[h]} ∪ known_tx_hashes v).
Definition remove_known_transaction (h : Hash) v := with_known v (known_tx_hashes v ∖ {[h]}).
Definition clear_known_transactions v := with_known v ∅.
Definition blacklist_address (a : Address) v := with_blacklist v ({[a]} ∪ blacklisted_addresses v).
Definition unblacklist_address (a : Address) v := with_blacklist v (blacklisted_addresses v ∖ {[a]}).
Definition blacklist_size v : nat := size (blacklisted_addresses v).
Definition known_transactions_count v : nat := size (known_tx_hashes v).

(** The loop of [validate_block_transactions]; [idx] counts the transactions. *)
Fixpoint block_errors v (idx : nat) (seen_hashes : gset Hash) (txs : list Transaction)
    : list ValidationError :=
  match txs with
  | [] => []
  | tx :: txs' =>
      ((fun error => InvalidFormat (Error "Transaction {}: {:?}" [ArgNum (Z.of_nat idx); debug error]))
         <$> errors (pre_validate_transaction v tx)) ++
      (if decide (hash tx ∈ seen_hashes)
       then [InvalidFormat (Error "Duplicate transaction in block at index {}" [ArgNum (Z.of_nat idx)])]
       else []) ++
      block_errors v (S idx) ({[hash tx]} ∪ seen_hashes) txs'
  end.

Definition validate_block_transactions v (block : Block) : PreValidationResult :=
  let all_errors := block_errors v 0 ∅ (transactions block) in
  {| is_valid := bool_decide (all_errors = []); errors := all_errors |}.

Definition estimate_gas_usage tx : Z :=
  let gas := 21000 in
  let gas :=
    match payload tx with
    | Transfer _ _ => gas
    | ContractDeploy wasm_code init_args =>
        u64_add (u64_add gas (u64_mul (Z.of_nat (length wasm_code)) 16))
                (u64_mul (Z.of_nat (length init_args)) 4)
    | ContractCall _ _ args => u64_add gas (u64_mul (Z.of_nat (length args)) 4)
    end in
  Z.min gas (gas_limit tx).

(** ** What is accepted *)

(** The payload conditions of the checks. *)
Definition payload_acceptable v tx : Prop :=
  match payload tx with
  | Transfer to amount => amount <> 0 /\ to <> zero_address /\ from tx <> to /\
      to ∉ blacklisted_addresses v
  | ContractDeploy wasm_code _ => wasm_code <> []
  | ContractCall a method _ => a <> zero_address /\ method <> [] /\ a ∉ blacklisted_addresses v
  end.

Definition acceptable v tx : Prop :=
  size_of_Transaction <= max_tx_size v /\ length (data (signature tx)) = 65%nat /\
  gas_limit tx <> 0 /\ gas_limit tx <= max_gas_limit v /\
  min_gas_price v <= gas_price tx <= u64_mul (min_gas_price v) 1000 /\
  from tx <> zero_address /\ from tx ∉ blacklisted_addresses v /\
  hash tx ∉ known_tx_hashes v /\ payload_acceptable v tx.

Lemma omap_id_nil {A} (l : list (option A)) : omap id l = [] <-> Forall (fun o => o = None) l.
Proof.
  induction l as [|[a|] l IH]; cbn; [by split; [constructor|]| |].
  - split; [done|]. by intros [? _]%Forall_cons.
  - rewrite IH, Forall_cons. tauto.
Qed.

Lemma format_ok v tx :
  validate_format v tx = None /\ validate_addresses v tx = None <->
  size_of_Transaction <= max_tx_size v /\ gas_limit tx <> 0 /\ from tx <> zero_address /\
  from tx ∉ blacklisted_addresses v /\ payload_acceptable v tx.
Proof.
  unfold validate_format, validate_addresses, validate_payload, payload_acceptable, format_error.
  destruct (Z.ltb_spec (max_tx_size v) size_of_Transaction); [split; [by intros []|lia]|].
  destruct (Z.eqb_spec (gas_limit tx) 0).
  { destruct (_ && _); (split; [by intros []|tauto]). }
  destruct (decide (from tx = zero_address)); [destruct (_ && _); (split; [by intros []|tauto])|].
  destruct (decide (from tx ∈ blacklisted_addresses v)); [split; [by intros []|tauto]|].
  destruct (payload tx) as [to amount|code args|a method args]; cbn [andb];
    rewrite ?andb_true_r, ?andb_false_r.
  - destruct (Z.eqb_spec amount 0); [split; [by intros []|tauto]|].
    repeat case_decide; split; try (by intros []); tauto.
  - case_decide; split; try (by intros []); tauto.
  - repeat case_decide; split; try (by intros []); tauto.
Qed.

Lemma gas_ok v tx :
  validate_gas v tx = None <->
  gas_limit tx <= max_gas_limit v /\ min_gas_price v <= gas_price tx <= u64_mul (min_gas_price v) 1000.
Proof.
  unfold validate_gas. destruct (Z.ltb_spec (max_gas_limit v) (gas_limit tx)); [split; [done|lia]|].
  destruct (Z.ltb_spec (gas_price tx) (min_gas_price v)); [split; [done|lia]|].
  destruct (Z.ltb_spec (u64_mul (min_gas_price v) 1000) (gas_price tx)); split; (done || lia).
Qed.

Lemma pre_validate_acceptable v tx :
  is_valid (pre_validate_transaction v tx) = true <-> acceptable v tx.
Proof.
  unfold pre_validate_transaction. cbn [is_valid errors]. rewrite bool_decide_eq_true.
  rewrite omap_id_nil, !Forall_cons. unfold acceptable.
  pose proof (format_ok v tx) as Hf. pose proof (gas_ok v tx) as Hg.
  unfold validate_signature, check_duplicate in *.
  destruct (decide (length (data (signature tx)) = 65%nat));
    [|split; [by intros (_ & ? & _)|tauto]].
  destruct (decide (hash tx ∈ known_tx_hashes v)); [split; [naive_solver|tauto]|].
  split; [intros (? & _ & ? & ? & _); tauto|]. intros Ha. split_and!; [tauto|done|tauto|tauto|done|constructor].
Qed.

(** The pre-validator accepts exactly the acceptable transactions, and
    reports at most one error for each of its five checks. *)
Theorem pre_validate_transaction_spec v tx :
  (is_valid (pre_validate_transaction v tx) = true <-> acceptable v tx) /\
  (is_valid (pre_validate_transaction v tx) = true <-> errors (pre_validate_transaction v tx) = []) /\
  (length (errors (pre_validate_transaction v tx)) <= 5)%nat.
Proof.
  split; [apply pre_validate_acceptable|]. unfold pre_validate_transaction.
  cbn [is_valid errors]. rewrite bool_decide_eq_true. split; [done|].
  destruct (validate_format v tx), (validate_signature tx), (validate_gas v tx),
    (validate_addresses v tx), (check_duplicate v tx); cbn; lia.
Qed.

Lemma fmap_empty_iff {A B} (f : A -> B) l : f <$> l = [] <-> l = [].
Proof. split; [apply fmap_nil_inv|by intros ->]. Qed.

Lemma is_valid_errors v tx :
  is_valid (pre_validate_transaction v tx) = true <-> errors (pre_validate_transaction v tx) = [].
Proof. apply bool_decide_eq_true. Qed.

(** A block passes when each of its transactions does and no two share a hash. *)
Lemma block_errors_nil v idx seen txs :
  block_errors v idx seen txs = [] <->
  Forall (fun tx => acceptable v tx /\ hash tx ∉ seen) txs /\ NoDup (hash <$> txs).
Proof.
  revert idx seen. induction txs as [|tx txs IH]; intros idx seen; cbn [block_errors fmap list_fmap].
  { split; [|done]. intros _. split; [constructor|apply NoDup_nil_2]. }
  pose proof (pre_validate_acceptable v tx) as Hv. pose proof (is_valid_errors v tx) as He.
  rewrite !app_nil, fmap_empty_iff, <- He, Hv, IH, Forall_cons, NoDup_cons.
  assert ((if decide (hash tx ∈ seen)
     then [InvalidFormat (Error "Duplicate transaction in block at index {}" [ArgNum (Z.of_nat idx)])]
     else []) = [] <-> hash tx ∉ seen) as -> by (case_decide; split; done).
  rewrite !Forall_forall, list_elem_of_fmap. split.
  - intros (Ha & Hs & Hall & Hnd). split; [split; [done|]|split; [|done]].
    + intros x Hx. destruct (Hall x Hx) as [? Hn]. split; [done|]. set_solver.
    + intros (x & Heq & Hx). destruct (Hall x Hx) as [_ Hn]. rewrite Heq in Hn. set_solver.
  - intros ([[Ha Hs] Hall] & Hni & Hnd). split; [done|]. split; [done|]. split; [|done].
    intros x Hx. destruct (Hall x Hx) as [? Hn]. split; [done|].
    rewrite elem_of_union, elem_of_singleton. intros [Heq|?]; [|done]. apply Hni. eauto.
Qed.

(** Validating a block amounts to validating its transactions one by one and
    looking for repeated hashes. *)
Theorem validate_block_transactions_spec v block :
  is_valid (validate_block_transactions v block) = true <->
  Forall (acceptable v) (transactions block) /\ NoDup (hash <$> transactions block).
Proof.
  unfold validate_block_transactions. cbn [is_valid]. rewrite bool_decide_eq_true, block_errors_nil.
  rewrite !Forall_forall. split; intros [Hall Hnd]; (split; [|done]); intros x Hx.
  - by apply Hall.
  - split; [by apply Hall|]. apply not_elem_of_empty.
Qed.

(** [max_tx_size] limits nothing: the size that is compared is
    that of the fixed-size struct, so an accepted deployment stays accepted whatever
    code of whatever length replaces its own, as far as its hash is new. *)
Theorem tx_size_unchecked v tx code args code' args' :
  payload tx = ContractDeploy code args ->
  let tx' := {| from := from tx; payload := ContractDeploy code' args'; nonce := nonce tx;
                gas_limit := gas_limit tx; gas_price := gas_price tx; signature := signature tx |} in
  is_valid (pre_validate_transaction v tx) = true ->
  code' <> [] -> hash tx' ∉ known_tx_hashes v ->
  is_valid (pre_validate_transaction v tx') = true.
Proof.
  intros Hp tx' Hv Hc Hh. apply (pre_validate_acceptable v tx) in Hv.
  apply (pre_validate_acceptable v tx'). unfold acceptable, payload_acceptable in *.
  rewrite Hp in Hv. cbn [payload]. subst tx'. cbn in *. tauto.
Qed.

(** The upper price limit wraps around: with a minimum price whose thousandfold
    does not fit in 64 bits and wraps below it, nothing is accepted at all. *)
Theorem wrapped_price_limit v :
  u64_mul (min_gas_price v) 1000 < min_gas_price v ->
  forall tx, is_valid (pre_validate_transaction v tx) = false.
Proof.
  intros Hw tx. destruct (is_valid _) eqn:E; [|done]. exfalso.
  apply (pre_validate_acceptable v tx) in E. unfold acceptable in E. lia.
Qed.

(** The estimate never exceeds the gas the sender offers. *)
Lemma estimate_gas_usage_bound tx : estimate_gas_usage tx <= gas_limit tx.
Proof. unfold estimate_gas_usage. lia. Qed.
End PreValidation.

(** ** Witnesses *)

#[local] Existing Instance checksum_sha.

(** A deployment, under a struct size of 200 bytes and a limit of 1000. *)
Definition deploy_tx : Transaction :=
  {| from := replicate 20 1; payload := ContractDeploy [0] []; nonce := 0; gas_limit := 21000;
     gas_price := 1000000000; signature := {| algorithm := Secp256k1; data := replicate 65 0 |} |}.

Lemma tx_size_unchecked_witness :
  is_valid (pre_validate_transaction 200 (new 8000000 1000000000 1000)
    {| from := replicate 20 1; payload := ContractDeploy (replicate 2000 7) []; nonce := 0;
       gas_limit := 21000; gas_price := 1000000000;
       signature := {| algorithm := Secp256k1; data := replicate 65 0 |} |}) = true.
Proof.
  apply (tx_size_unchecked 200 (new 8000000 1000000000 1000) deploy_tx [0] [] (replicate 2000 7) []);
    [reflexivity|vm_compute; reflexivity| |apply not_elem_of_empty].
  intros Heq. apply (f_equal (fun l : Bytes => match l with [] => true | _ => false end)) in Heq.
  vm_compute in Heq. discriminate Heq.
Defined.

Lemma wrapped_price_limit_witness :
  is_valid (pre_validate_transaction 200 (new 8000000 18446744073709552 1000) deploy_tx) = false.
Proof. apply (wrapped_price_limit 200 (new 8000000 18446744073709552 1000)). reflexivity. Defined.
