(* ===== verification/Spam.v ===== *)
(** The spam detector and the fuzz tester: [src/src/security/fuzz_testing.rs].

    Instants are arguments and the background cleanup is a sequence of calls of [cleanup].  The
    random generator is an interface, so the fuzz tester is a function of its state. *)
From stdpp Require Import pretty.
From S2P Require Import Prelude Crypto Transaction Floats Mining Block Window PreValidation.

(** ** The spam detector *)

Abbreviation IpAddr := (list Z).

Record SpamDetectionConfig := {
  max_tps_per_ip : Z;
  burst_window_seconds : Z;
  burst_threshold : Z;
  similarity_threshold : f64;
  spam_cleanup_interval_seconds : Z
}.
Record TransactionPattern := {
  pattern_hash : Hash;
  pattern_amount : Z;
  pattern_gas_price : Z;
  payload_size : Z;
  pattern_timestamp : Instant
}.
Record IpActivity := {
  tx_times : list Instant;
  patterns : list TransactionPattern;
  burst_score : f64;
  last_activity : Instant
}.
Record SpamStats := {
  rate_limit_blocks : Z;
  burst_detections : Z;
  similarity_blocks : Z;
  total_checked : Z
}.
Record SpamDetector := {
  config : SpamDetectionConfig;
  ip_activity : gmap IpAddr IpActivity;
  global_patterns : list TransactionPattern;
  spam_stats : SpamStats
}.
Inductive SpamReason := RateLimitExceeded | BurstDetected | SimilarTransaction.
Inductive SpamResult := Allowed | Blocked (reason : SpamReason).

Definition SpamStats_default : SpamStats :=
  {| rate_limit_blocks := 0; burst_detections := 0; similarity_blocks := 0; total_checked := 0 |}.
Definition detector_new (c : SpamDetectionConfig) : SpamDetector :=
  {| config := c; ip_activity := ∅; global_patterns := []; spam_stats := SpamStats_default |}.

Definition count_rate (s : SpamStats) : SpamStats :=
  {| rate_limit_blocks := u64_add (rate_limit_blocks s) 1; burst_detections := burst_detections s;
     similarity_blocks := similarity_blocks s; total_checked := total_checked s |}.
Definition count_burst (s : SpamStats) : SpamStats :=
  {| rate_limit_blocks := rate_limit_blocks s; burst_detections := u64_add (burst_detections s) 1;
     similarity_blocks := similarity_blocks s; total_checked := total_checked s |}.
Definition count_similar (s : SpamStats) : SpamStats :=
  {| rate_limit_blocks := rate_limit_blocks s; burst_detections := burst_detections s;
     similarity_blocks := u64_add (similarity_blocks s) 1; total_checked := total_checked s |}.

Definition put_activity (ip : IpAddr) (a : IpActivity) (s : SpamStats) (d : SpamDetector) : SpamDetector :=
  {| config := config d; ip_activity := <[ip := a]> (ip_activity d);
     global_patterns := global_patterns d; spam_stats := s |}.

Definition fresh_activity (now : Instant) : IpActivity :=
  {| tx_times := []; patterns := []; burst_score := f64_of_Z 0; last_activity := now |}.
Definition with_times (l : list Instant) (a : IpActivity) : IpActivity :=
  {| tx_times := l; patterns := patterns a; burst_score := burst_score a; last_activity := last_activity a |}.
Definition with_score (x : f64) (a : IpActivity) : IpActivity :=
  {| tx_times := tx_times a; patterns := patterns a; burst_score := x; last_activity := last_activity a |}.

Definition calculate_similarity (a b : TransactionPattern) : f64 :=
  let score := f64_of_Z 0 in
  let factors := f64_of_Z 0 in
  let score := if pattern_amount a =? pattern_amount b then f64_add score (f64_of_Z 1) else score in
  let factors := f64_add factors (f64_of_Z 1) in
  let gas_diff :=
    f64_div (f64_abs (f64_sub (f64_of_Z (pattern_gas_price a)) (f64_of_Z (pattern_gas_price b))))
      (f64_of_Z (pattern_gas_price a)) in
  let score :=
    if f64_ltb gas_diff (f64_lit 1 10)
    then f64_add score (f64_max (f64_sub (f64_of_Z 1) (f64_mul gas_diff (f64_of_Z 10))) (f64_of_Z 0))
    else score in
  let factors := f64_add factors (f64_of_Z 1) in
  let score :=
    if payload_size a =? payload_size b then f64_add score (f64_of_Z 1)
    else if (0 <? payload_size a) && (0 <? payload_size b) then
      let len_diff :=
        f64_div (f64_abs (f64_sub (f64_of_Z (payload_size a)) (f64_of_Z (payload_size b))))
          (f64_of_Z (Z.max (payload_size a) (payload_size b))) in
      f64_add score (f64_max (f64_sub (f64_of_Z 1) len_diff) (f64_of_Z 0))
    else score in
  let factors := f64_add factors (f64_of_Z 1) in
  f64_div score factors.

Section Spam.
Context `{Sha256}.

(** [std::mem::size_of_val(&tx.payload)]: the size of the enum, which the compiler fixes; what a payload
    holds lives on the heap. *)
Context (size_of_TxPayload : Z).
Implicit Types d : SpamDetector.

Definition pattern_of (now : Instant) (tx : Transaction) : TransactionPattern :=
  {| pattern_hash := hash tx;
     pattern_amount := match payload tx with Transfer _ amount => amount | _ => 0 end;
     pattern_gas_price := gas_price tx;
     payload_size := size_of_TxPayload;
     pattern_timestamp := now |}.

(** The burst check: the score and the counters it leaves, and whether it blocks. *)
Definition check_burst (now : Instant) (a : IpActivity) d : bool * IpActivity * SpamStats :=
  let recent_count :=
    length (recent (from_secs (burst_window_seconds (config d))) now (tx_times a)) in
  if burst_threshold (config d) <=? Z.of_nat recent_count
  then
    let a := with_score (f64_add (burst_score a) (f64_of_Z 1)) a in
    (f64_ltb (f64_of_Z 3) (burst_score a), a, count_burst (spam_stats d))
  else (false, a, spam_stats d).

(** Adding an admitted transaction; at most 100 patterns are kept. *)
Definition enter_tx (now : Instant) (p : TransactionPattern) (a : IpActivity) : IpActivity :=
  let ps := patterns a ++ [p] in
  {| tx_times := tx_times a ++ [now];
     patterns := if (100 <? length ps)%nat then drop 1 ps else ps;
     burst_score := burst_score a; last_activity := now |}.

Definition check_spam (now : Instant) (tx : Transaction) (ip : IpAddr) d : SpamResult * SpamDetector :=
  let activity := default (fresh_activity now) (ip_activity d !! ip) in
  let activity := with_times (recent (from_secs 60) now (tx_times activity)) activity in
  if max_tps_per_ip (config d) <=? Z.of_nat (length (tx_times activity))
  then (Blocked RateLimitExceeded, put_activity ip activity (count_rate (spam_stats d)) d)
  else
    let '(blocked, activity, stats) := check_burst now activity d in
    if blocked : bool then (Blocked BurstDetected, put_activity ip activity stats d)
    else
      let tx_pattern := pattern_of now tx in
      if existsb (fun pattern =>
           f64_ltb (similarity_threshold (config d)) (calculate_similarity tx_pattern pattern)) (patterns activity)
      then (Blocked SimilarTransaction, put_activity ip activity (count_similar stats) d)
      else (Allowed, put_activity ip (enter_tx now tx_pattern activity) stats d).

Definition get_stats d : SpamStats := spam_stats d.
Definition reset_stats d : SpamDetector :=
  {| config := config d; ip_activity := ip_activity d; global_patterns := global_patterns d;
     spam_stats := SpamStats_default |}.

(** One round of the cleanup task. *)
Definition spam_cleanup (now : Instant) d : SpamDetector :=
  {| config := config d;
     ip_activity := filter (fun '(_, a) => duration_since now (last_activity a) < from_secs 600) (ip_activity d);
     global_patterns :=
       filter (fun p => duration_since now (pattern_timestamp p) < from_secs 3600) (global_patterns d);
     spam_stats := spam_stats d |}.

(** *** The limits *)

Inductive spam_event :=
  | CheckTx (tx : Transaction) (ip : IpAddr)
  | Cleanup
  | ResetStats.
Definition spam_step (now : Instant) (e : spam_event) d : bool * SpamDetector :=
  match e with
  | CheckTx tx ip => let '(r, d) := check_spam now tx ip d in (match r with Allowed => true | _ => false end, d)
  | Cleanup => (false, spam_cleanup now d)
  | ResetStats => (false, reset_stats d)
  end.

(** The instants at which transactions of [ip] were allowed. *)
Fixpoint allowed (ip : IpAddr) (trace : list (Instant * spam_event)) d : list Instant :=
  match trace with
  | [] => []
  | (now, e) :: trace =>
      let '(b, d) := spam_step now e d in
      (if b && match e with CheckTx _ ip' => bool_decide (ip' = ip) | _ => false end then [now] else []) ++
      allowed ip trace d
  end.

Definition times_of (ip : IpAddr) d : list Instant :=
  match ip_activity d !! ip with Some a => tx_times a | None => [] end.
(** The instants of an address are no later than its last activity, which is no later than [lo]. *)
Definition timely (lo : Instant) d : Prop :=
  map_Forall (fun _ a => Forall (fun t => t <= last_activity a) (tx_times a) /\ last_activity a <= lo) (ip_activity d).

Lemma timely_later lo lo' d : lo <= lo' -> timely lo d -> timely lo' d.
Proof. intros Hlo Hd ip a Ha. destruct (Hd ip a Ha). split; [done|lia]. Qed.

Lemma check_burst_times now a d :
  let '(_, a', _) := check_burst now a d in
  tx_times a' = tx_times a /\ patterns a' = patterns a /\ last_activity a' = last_activity a.
Proof. unfold check_burst. by destruct (_ <=? _). Qed.

(** What a check does to the table. *)
Lemma check_spam_activity now tx ip d :
  let '(r, d') := check_spam now tx ip d in
  config d' = config d /\
  exists a, ip_activity d' = <[ip := a]> (ip_activity d) /\
    match r with
    | Allowed =>
        Z.of_nat (length (recent (from_secs 60) now (times_of ip d))) < max_tps_per_ip (config d) /\
        tx_times a = recent (from_secs 60) now (times_of ip d) ++ [now] /\ last_activity a = now /\
        pattern_of now tx ∈ patterns a
    | Blocked _ =>
        tx_times a = recent (from_secs 60) now (times_of ip d) /\
        last_activity a = last_activity (default (fresh_activity now) (ip_activity d !! ip))
    end.
Proof.
  unfold check_spam. set (act := default _ _). set (a0 := with_times _ act).
  assert (tx_times a0 = recent (from_secs 60) now (times_of ip d)) as Ht.
  { unfold a0, act, times_of. cbn. by destruct (ip_activity d !! ip). }
  assert (last_activity a0 = last_activity act) as Hl by done. clearbody a0.
  destruct (Z.leb_spec (max_tps_per_ip (config d)) (Z.of_nat (length (tx_times a0)))) as [|Hlt].
  { split; [done|]. exists a0. by split. }
  pose proof (check_burst_times now a0 d) as Hb. destruct (check_burst now a0 d) as [[blocked a1] stats].
  destruct Hb as (Hb1 & _ & Hb2). destruct blocked.
  { split; [done|]. exists a1. split; [done|]. by rewrite Hb1, Hb2. }
  destruct (existsb _ _).
  { split; [done|]. exists a1. split; [done|]. by rewrite Hb1, Hb2. }
  split; [done|]. exists (enter_tx now (pattern_of now tx) a1). split; [done|].
  unfold enter_tx. cbn [tx_times patterns last_activity]. split; [by rewrite <- Ht|].
  split; [by rewrite Hb1, Ht|]. split; [done|].
  destruct (Nat.ltb_spec 100 (length (patterns a1 ++ [pattern_of now tx]))) as [Hlen|].
  - destruct (patterns a1) as [|p ps]; [cbn [length app] in Hlen; lia|]. cbn [app drop].
    apply elem_of_app. right. by left.
  - apply elem_of_app. right. by left.
Qed.

Lemma spam_step_timely now e lo d : lo <= now -> timely lo d -> timely now (spam_step now e d).2.
Proof.
  intros Hlo Hd. pose proof (timely_later lo now d Hlo Hd) as Hd'. destruct e as [tx ip| |]; cbn [spam_step snd].
  - pose proof (check_spam_activity now tx ip d) as Hc. destruct (check_spam now tx ip d) as [r d'].
    destruct Hc as (_ & a & Ha & Hr). cbn [snd]. unfold timely. rewrite Ha. apply map_Forall_insert_2; [|exact Hd'].
    assert (Forall (fun t => t <= last_activity (default (fresh_activity now) (ip_activity d !! ip))) (times_of ip d) /\
      last_activity (default (fresh_activity now) (ip_activity d !! ip)) <= now) as [Hall Hle].
    { unfold times_of. destruct (ip_activity d !! ip) as [a0|] eqn:H0; [exact (Hd' ip a0 H0)|].
      split; [constructor|]. cbn. lia. }
    assert (Forall (fun t => t <= last_activity (default (fresh_activity now) (ip_activity d !! ip)))
      (recent (from_secs 60) now (times_of ip d))) as Hall'.
    { rewrite Forall_forall in Hall |- *. intros t Ht. apply Hall. by apply list_elem_of_filter in Ht as [_ Ht]. }
    destruct r as [|reason].
    + destruct Hr as (_ & -> & -> & _). split; [|lia]. apply Forall_app. split; [|by repeat constructor].
      eapply Forall_impl; [exact Hall'|]. cbn. lia.
    + destruct Hr as (-> & ->). split; [exact Hall'|exact Hle].
  - intros ip a Ha. apply map_lookup_filter_Some in Ha as [Ha _]. exact (Hd' ip a Ha).
  - exact Hd'.
Qed.

Lemma one_minute : 0 < from_secs 60.
Proof. done. Qed.

(** One event: what was allowed so far and what is kept of it. *)
Lemma spam_step_sliding ip now e lo d past :
  lo <= now -> timely lo d ->
  sliding (from_secs 60) (max_tps_per_ip (config d)) lo past (times_of ip d) ->
  let '(b, d') := spam_step now e d in
  config d' = config d /\
  sliding (from_secs 60) (max_tps_per_ip (config d)) now
    (past ++ if b && match e with CheckTx _ ip' => bool_decide (ip' = ip) | _ => false end then [now] else [])
    (times_of ip d').
Proof.
  intros Hlo Hd Hs. apply (sliding_later _ _ lo now) in Hs; [|done]. destruct e as [tx ip'| |]; cbn [spam_step].
  - pose proof (check_spam_activity now tx ip' d) as Hc. destruct (check_spam now tx ip' d) as [r d'].
    destruct Hc as (-> & a & Ha & Hr). split; [done|]. unfold times_of at 1. rewrite Ha.
    destruct (decide (ip' = ip)) as [->|Hne].
    + rewrite lookup_insert_eq, bool_decide_true by done. destruct r as [|reason]; cbn [andb].
      * destruct Hr as (Hlt & -> & _). by apply sliding_admit; [apply one_minute|..].
      * destruct Hr as (-> & _). rewrite app_nil_r. by apply sliding_recent; [apply one_minute|].
    + rewrite lookup_insert_ne, bool_decide_false, andb_false_r, app_nil_r by done. exact Hs.
  - split; [done|]. rewrite app_nil_r. unfold times_of in *. cbn [ip_activity spam_cleanup].
    destruct (ip_activity d !! ip) as [a|] eqn:Ha.
    + destruct (decide (duration_since now (last_activity a) < from_secs 600)) as [Hy|Hn].
      * assert (filter (fun '(_, a) => duration_since now (last_activity a) < from_secs 600) (ip_activity d) !! ip = Some a)
          as -> by by apply map_lookup_filter_Some. exact Hs.
      * assert (filter (fun '(_, a) => duration_since now (last_activity a) < from_secs 600) (ip_activity d) !! ip = None)
          as ->. { apply map_lookup_filter_None. right. intros a' Ha'. by simplify_eq. }
        eapply sliding_drop; [|exact Hs]. destruct (Hd ip a Ha) as [Hall _].
        eapply Forall_impl; [exact Hall|]. cbn. intros t Ht. unfold duration_since, from_secs in *. lia.
    + assert (filter (fun '(_, a) => duration_since now (last_activity a) < from_secs 600) (ip_activity d) !! ip = None)
        as -> by (apply map_lookup_filter_None; by left). exact Hs.
  - split; [done|]. rewrite app_nil_r. exact Hs.
Qed.

(** The limit called transactions per second is one per minute.  In any interleaving of checks of any
    addresses, cleanups and resets, with a clock that does not run backwards, at most
    [max_tps_per_ip] transactions of one address are allowed within any sixty seconds. *)
Theorem spam_window ip trace d :
  StronglySorted (fun a b => a.1 <= b.1) trace -> ip_activity d = ∅ -> 0 <= max_tps_per_ip (config d) ->
  forall u, Z.of_nat (within (from_secs 60) u (allowed ip trace d)) <= max_tps_per_ip (config d).
Proof.
  intros Hs Hd Hmax u. destruct trace as [|[now e] trace]; [exact Hmax|].
  assert (forall trace d lo past, StronglySorted (fun a b => a.1 <= b.1) trace -> Forall (fun x => lo <= x.1) trace ->
    timely lo d -> sliding (from_secs 60) (max_tps_per_ip (config d)) lo past (times_of ip d) ->
    forall u, Z.of_nat (within (from_secs 60) u (past ++ allowed ip trace d)) <= max_tps_per_ip (config d)) as Hrun.
  { clear. intros trace d lo past Hs. revert d lo past. induction Hs as [|[now e] trace Hs IH Hall];
      intros d lo past Hlo Ht Hsl; cbn [allowed].
    { intros u. rewrite app_nil_r. apply Hsl. }
    apply Forall_cons in Hlo as [Hnow _]. cbn [fst] in Hnow, Hall.
    pose proof (spam_step_sliding ip now e lo d past Hnow Ht Hsl) as Hst.
    pose proof (spam_step_timely now e lo d Hnow Ht) as Ht'. destruct (spam_step now e d) as [b d'].
    destruct Hst as [Hc Hsl']. cbn [snd] in Ht'. rewrite app_assoc, <- Hc. rewrite <- Hc in Hsl'.
    exact (IH d' now _ Hall Ht' Hsl'). }
  apply (Hrun _ d now [] Hs).
  - apply StronglySorted_inv in Hs as [_ Hall]. by constructor.
  - unfold timely. rewrite Hd. apply map_Forall_empty.
  - unfold times_of. rewrite Hd, lookup_empty. by apply sliding_start.
Qed.

(** Similarity sees only amount, gas price and size, so after a transaction was allowed, a different
    one of the same amount and price from the same address - another recipient, another sender,
    another contract call - is blocked, unless the price defeats the comparison. *)
Theorem similar_transaction_blocked now now' tx tx' ip d d' :
  check_spam now tx ip d = (Allowed, d') ->
  pattern_amount (pattern_of now' tx') = pattern_amount (pattern_of now tx) -> gas_price tx' = gas_price tx ->
  f64_ltb (similarity_threshold (config d))
    (calculate_similarity (pattern_of now tx) (pattern_of now tx)) = true ->
  (check_spam now' tx' ip d').1 <> Allowed.
Proof.
  intros Hc Ha Hg Hsim. pose proof (check_spam_activity now tx ip d) as Hs. rewrite Hc in Hs.
  destruct Hs as (Hconf & a & Hact & _ & _ & _ & Hin). unfold check_spam. rewrite Hact, lookup_insert_eq.
  cbn [default from_option id]. destruct (_ <=? _); [done|].
  set (a0 := with_times _ a). pose proof (check_burst_times now' a0 d') as Hb.
  destruct (check_burst now' a0 d') as [[blocked a1] stats]. destruct Hb as (_ & Hp & _).
  destruct blocked; [done|].
  assert (existsb (fun pattern => f64_ltb (similarity_threshold (config d'))
    (calculate_similarity (pattern_of now' tx') pattern)) (patterns a1) = true) as ->; [|done].
  apply existsb_exists. exists (pattern_of now tx). split; [by apply list_elem_of_In; rewrite Hp|].
  rewrite Hconf, <- Hsim. f_equal. unfold calculate_similarity.
  cbn [pattern_gas_price payload_size pattern_of] in *. by rewrite Ha, Hg.
Qed.
End Spam.

(** ** The fuzz tester *)

(** The random generator: a byte, an integer of a half-open range, a [u64], and [gen_bool] of 0.1. *)
Class Rng (R : Type) := {
  gen_u8 : R -> Z * R;
  gen_range : Z -> Z -> R -> Z * R;
  gen_u64 : R -> Z * R;
  gen_tenth : R -> bool * R
}.

Record FuzzConfig := { iterations : nat; max_fuzz_tx_size : nat; seed : Z }.
Record FuzzResults := {
  pre_validation_tests : Z;
  pre_validation_failures : Z;
  gas_estimation_tests : Z;
  edge_cases_found : list string;
  last_failure : option error
}.
Inductive DosAttackType := SpamBurst | LargeTransactions | InvalidSignatures.
Record DosSimulationResult := {
  attack_type : DosAttackType;
  transactions_generated : Z;
  detection_rate : f64;
  avg_processing_time : Z
}.

Definition FuzzResults_default : FuzzResults :=
  {| pre_validation_tests := 0; pre_validation_failures := 0; gas_estimation_tests := 0;
     edge_cases_found := []; last_failure := None |}.

Section Fuzz.
Context `{Sha256} {R : Type} `{Rng R} (size_of_Transaction : Z).

Fixpoint gen_bytes (n : nat) (rng : R) : Bytes * R :=
  match n with
  | O => ([], rng)
  | S n => let '(b, rng) := gen_u8 rng in let '(bs, rng) := gen_bytes n rng in (b :: bs, rng)
  end.
(** A value that is sometimes 0 and sometimes the greatest. *)
Definition gen_extreme (lo hi : Z) (rng : R) : Z * R :=
  let '(k, rng) := gen_range 0 10 rng in
  match k with 0 => (0, rng) | 1 => (u64_max, rng) | _ => gen_range lo hi rng end.

Definition gen_payload (to : Address) (amount : Z) (rng : R) : TxPayload * R :=
  let '(k, rng) := gen_range 0 3 rng in
  match k with
  | 0 => (Transfer to amount, rng)
  | 1 =>
      let '(n, rng) := gen_range 100 1000 rng in
      let '(wasm_code, rng) := gen_bytes (Z.to_nat n) rng in
      let '(n, rng) := gen_range 0 100 rng in
      let '(init_args, rng) := gen_bytes (Z.to_nat n) rng in
      (ContractDeploy wasm_code init_args, rng)
  | _ =>
      let '(n, rng) := gen_range 0 100 rng in
      let method := ascii_bytes ("method_" +:+ pretty n) in
      let '(n, rng) := gen_range 0 200 rng in
      let '(args, rng) := gen_bytes (Z.to_nat n) rng in
      (ContractCall to method args, rng)
  end.

Definition generate_fuzzed_transaction (rng : R) : Transaction * R :=
  let '(from, rng) := gen_bytes 20 rng in
  let '(to, rng) := gen_bytes 20 rng in
  let '(amount, rng) := gen_extreme 1 1000000 rng in
  let '(gas_limit, rng) := gen_extreme 21000 8000000 rng in
  let '(gas_price, rng) := gen_extreme 1000000000 100000000000 rng in
  let '(payload, rng) := gen_payload to amount rng in
  let '(nonce, rng) := gen_u64 rng in
  let tx := {| from := from; payload := payload; nonce := nonce; gas_limit := gas_limit;
               gas_price := gas_price; signature := Signature_empty |} in
  let '(b, rng) := gen_tenth rng in
  (if b then set_signature tx Signature_empty else tx, rng).

Definition is_transfer (tx : Transaction) : bool := match payload tx with Transfer _ _ => true | _ => false end.

Definition detect_edge_case (tx : Transaction) : option string :=
  let '(amount, to) :=
    match payload tx with
    | Transfer to amount => (amount, to)
    | ContractDeploy _ _ => (0, replicate 20 0)
    | ContractCall contract_address _ _ => (0, contract_address)
    end in
  if (amount =? 0) && is_transfer tx then Some "Zero amount transfer"
  else if amount =? u64_max then Some "Maximum amount transaction"
  else if gas_limit tx =? 0 then Some "Zero gas limit"
  else if gas_limit tx =? u64_max then Some "Maximum gas limit"
  else if bool_decide (from tx = to) && is_transfer tx then Some "Self-transfer transaction"
  else match payload tx with
       | ContractDeploy wasm_code _ =>
           if (100 * 1024 <? Z.of_nat (length wasm_code)) then Some "Large WASM code payload" else None
       | _ => None
       end.

Definition fuzz_one (v : TransactionPreValidator) (i : Z) (tx : Transaction) (r : FuzzResults) : FuzzResults :=
  let pre_result := pre_validate_transaction size_of_Transaction v tx in
  {| pre_validation_tests := u32_add (pre_validation_tests r) 1;
     pre_validation_failures :=
       if is_valid pre_result then pre_validation_failures r else u32_add (pre_validation_failures r) 1;
     gas_estimation_tests := u32_add (gas_estimation_tests r) 1;
     edge_cases_found := match detect_edge_case tx with
                         | Some e => edge_cases_found r ++ [e]
                         | None => edge_cases_found r
                         end;
     last_failure :=
       if is_valid pre_result then last_failure r
       else Some (Error "Iteration {}: {:?}" (ArgNum i :: (debug <$> errors pre_result))) |}.

(** [n] more iterations from number [i]. *)
Fixpoint fuzz_loop (v : TransactionPreValidator) (n : nat) (i : Z) (r : FuzzResults) (rng : R) : FuzzResults * R :=
  match n with
  | O => (r, rng)
  | S n =>
      let '(tx, rng) := generate_fuzzed_transaction rng in
      fuzz_loop v n (i + 1) (fuzz_one v i tx r) rng
  end.
Definition fuzz_transaction_validation (c : FuzzConfig) (v : TransactionPreValidator) (rng : R) : FuzzResults * R :=
  fuzz_loop v (iterations c) 0 FuzzResults_default rng.

Definition generate_burst_transaction (rng : R) : Transaction * R :=
  let '(from, rng) := gen_bytes 20 rng in
  let '(to, rng) := gen_bytes 20 rng in
  (new_transfer from to 1000 0 21000 1000000000, rng).
Definition generate_large_transaction (rng : R) : Transaction * R :=
  let '(from, rng) := gen_bytes 20 rng in
  let '(_, rng) := gen_bytes 20 rng in
  let '(wasm_code, rng) := gen_bytes (50 * 1024) rng in
  (new_deploy from wasm_code [] 0 50000 1000000000, rng).
Definition generate_invalid_signature_transaction (rng : R) : Transaction * R := generate_burst_transaction rng.

(** The transactions of a simulation are validated and the results thrown away. *)
Fixpoint simulate (gen : R -> Transaction * R) (n : nat) (generated : Z) (rng : R) : Z * R :=
  match n with
  | O => (generated, rng)
  | S n => let '(_, rng) := gen rng in simulate gen n (u32_add generated 1) rng
  end.
Definition simulate_dos_attack (start_time end_time : Instant) (a : DosAttackType) (rng : R) : DosSimulationResult * R :=
  let '(n, rng) :=
    match a with
    | SpamBurst => simulate generate_burst_transaction 1000 0 rng
    | LargeTransactions => simulate generate_large_transaction 100 0 rng
    | InvalidSignatures => simulate generate_invalid_signature_transaction 500 0 rng
    end in
  ({| attack_type := a; transactions_generated := n; detection_rate := f64_lit 95 100;
      avg_processing_time := duration_since end_time start_time / Z.max n 1 |}, rng).

(** *** What the tester finds *)

Lemma generated_unsigned (rng : R) : data (signature (generate_fuzzed_transaction rng).1) = [].
Proof.
  unfold generate_fuzzed_transaction.
  repeat match goal with |- context [let '(_, _) := ?x in _] => destruct x end.
  match goal with |- context [if ?b then _ else _] => by destruct b end.
Qed.

Lemma generated_refused v (rng : R) :
  is_valid (pre_validate_transaction size_of_Transaction v (generate_fuzzed_transaction rng).1) = false.
Proof.
  destruct (is_valid _) eqn:E; [|done]. apply pre_validate_acceptable in E as (_ & Hs & _).
  by rewrite generated_unsigned in Hs.
Qed.

(** The fuzz tester never exercises the acceptance of a transaction: what it generates is never signed, so
    every single test is a failure of the pre-validation, whatever the generator yields and however
    the validator is configured. *)
Theorem fuzz_always_fails c v (rng : R) :
  Z.of_nat (iterations c) <= u32_max ->
  let r := (fuzz_transaction_validation c v rng).1 in
  pre_validation_tests r = Z.of_nat (iterations c) /\ pre_validation_failures r = Z.of_nat (iterations c) /\
  (last_failure r = None <-> iterations c = 0%nat).
Proof.
  intros Hn. unfold fuzz_transaction_validation. set (n := iterations c) in *. clearbody n.
  assert (forall n i r rng, 0 <= pre_validation_tests r -> pre_validation_tests r = pre_validation_failures r ->
    pre_validation_tests r + Z.of_nat n <= u32_max ->
    let r' := (fuzz_loop v n i r rng).1 in
    pre_validation_tests r' = pre_validation_tests r + Z.of_nat n /\
  pre_validation_failures r' = pre_validation_tests r + Z.of_nat n /\
  (last_failure r' = None <-> last_failure r = None /\ n = 0%nat)) as Hloop.
  { clear. intros n. induction n as [|n IH]; intros i r rng Hpos He Hn; cbn [fuzz_loop].
    { cbv zeta. cbn [fst]. split; [lia|]. split; [lia|]. tauto. }
    pose proof (generated_refused v rng) as Hf. destruct (generate_fuzzed_transaction rng) as [tx rng'].
    cbn [fst] in Hf. set (r1 := fuzz_one v i tx r).
    assert (pre_validation_tests r1 = pre_validation_tests r + 1 /\
  pre_validation_failures r1 = pre_validation_tests r + 1 /\ last_failure r1 <> None) as (Ht & Hfl & Hl).
    { unfold r1, fuzz_one. cbv zeta. rewrite Hf. cbn [pre_validation_tests pre_validation_failures last_failure].
      unfold u32_add, u32_max in *. rewrite <- He, Z.mod_small by lia.
      by split_and!. }
    destruct (IH (i + 1) r1 rng') as (H1 & H2 & H3); [lia|congruence|lia|]. cbv zeta in *.
    split; [lia|]. split; [lia|]. rewrite H3. split; [tauto|]. intros [_ ?]; lia. }
  destruct (Hloop n 0 FuzzResults_default rng) as (H1 & H2 & H3); [done|done|cbn; lia|]. cbv zeta in *.
  split; [exact H1|]. split; [exact H2|]. rewrite H3. cbn. tauto.
Qed.
End Fuzz.

(** ** Witnesses *)
#[local] Existing Instances checksum_sha.

Definition spam_config : SpamDetectionConfig :=
  {| max_tps_per_ip := 2; burst_window_seconds := 10; burst_threshold := 100;
     similarity_threshold := f64_lit 8 10; spam_cleanup_interval_seconds := 300 |}.
Definition spam_ip : IpAddr := [10; 0; 0; 1].
(** Transfers to [k] of the amount [k]. *)
Definition spam_tx (k : Z) : Transaction := new_transfer (replicate 20 9) (replicate 20 k) k 0 21000 (1000000000 * (k + 1)).
Definition spam_at (s k : Z) : Instant * spam_event := (from_secs s, CheckTx (spam_tx k) spam_ip).

(** Two are allowed, a third is blocked, and allowed a minute later. *)
Lemma spam_window_witness :
  allowed 64 spam_ip [spam_at 0 1; spam_at 1 2; spam_at 2 3; spam_at 61 3] (detector_new spam_config) =
    [from_secs 0; from_secs 1; from_secs 61] /\
  Z.of_nat (within (from_secs 60) (from_secs 61)
    (allowed 64 spam_ip [spam_at 0 1; spam_at 1 2; spam_at 2 3; spam_at 61 3] (detector_new spam_config))) <= 2.
Proof.
  split; [vm_compute; reflexivity|].
  apply (spam_window 64 spam_ip _ (detector_new spam_config)); [|reflexivity|done].
  repeat (constructor; try (cbn; done)).
Defined.

(** The same amount and price to somebody else. *)
Lemma similar_transaction_blocked_witness :
  let d := (check_spam 64 0 (spam_tx 1) spam_ip (detector_new spam_config)).2 in
  (check_spam 64 (from_secs 5) (new_transfer (replicate 20 7) (replicate 20 8) 1 0 21000 2000000000) spam_ip d).1 <> Allowed.
Proof.
  apply (similar_transaction_blocked 64 0 (from_secs 5) (spam_tx 1) _ spam_ip (detector_new spam_config)).
  - vm_compute. reflexivity.
  - reflexivity.
  - reflexivity.
  - vm_compute. reflexivity.
Defined.

(** A generator that counts. *)
#[local] Instance counting_rng : Rng Z := {
  gen_u8 r := (r mod 256, r + 1);
  gen_range lo hi r := (lo + r mod (hi - lo), r + 1);
  gen_u64 r := (r, r + 1);
  gen_tenth r := (r mod 10 =? 0, r + 1)
}.
Lemma fuzz_always_fails_witness :
  pre_validation_failures
    (fuzz_transaction_validation 200 {| iterations := 3; max_fuzz_tx_size := 0; seed := 0 |} default_validator 0).1 = 3.
Proof.
  apply (fuzz_always_fails 200 {| iterations := 3; max_fuzz_tx_size := 0; seed := 0 |} default_validator 0).
  apply Z.leb_le. reflexivity.
Defined.
