(* ===== verification/BatchVerification.v ===== *)
(** Batch signature verification: [src/src/security/batch_verification.rs].

    [None] is a panic.  Recovery happens in order, the chunks are then checked in
    parallel without effects, so a map over them is the same.  The elapsed
    time is an argument. *)
From S2P Require Import Prelude Crypto Transaction Floats Mining Block.

(** What this file uses of [sha3] and of the plain signatures of [secp256k1]. *)
Class BatchCrypto := {
  keccak256 : Bytes -> Hash;
  ecdsa_from_compact : Bytes -> result unit
}.

Record VerificationResult := {
  valid_count : nat;
  invalid_count : nat;
  failed_signatures : list nat;
  result_time_ms : Z
}.

Record VerificationStats := {
  total_verifications : Z;
  failed_verifications : Z;
  total_time_ms : Z
}.

Record BatchSignatureVerifier := {
  stats : VerificationStats;
  max_batch_size : nat
}.

Record ChunkResult := {
  valid : nat;
  invalid : nat;
  failed_indices : list nat
}.

Definition no_stats : VerificationStats :=
  {| total_verifications := 0; failed_verifications := 0; total_time_ms := 0 |}.
Definition new (max_batch_size : nat) : BatchSignatureVerifier :=
  {| stats := no_stats; max_batch_size := max_batch_size |}.

(** [slice.chunks(n)]: the last chunk may be shorter; [n = 0] panics. *)
Fixpoint chunks_from {A} (fuel n : nat) (l : list A) : list (list A) :=
  match fuel, l with
  | S fuel', _ :: _ => take n l :: chunks_from fuel' n (drop n l)
  | _, _ => []
  end.
Definition chunks {A} (n : nat) (l : list A) : option (list (list A)) :=
  match n with O => None | S _ => Some (chunks_from (length l) n l) end.

Section BatchVerification.
Context `{Sha256} `{SecpOps} `{BatchCrypto}.
Implicit Types (v : BatchSignatureVerifier) (tx : Transaction) (elapsed : Z).

Definition recover_public_key_from_tx tx (message : Bytes) : result PublicKey :=
  if decide (length (data (signature tx)) = 65%nat) then
    recovery_id ← map_err "Invalid recovery ID: {}"
      (recovery_id_from_i32 (nth 64 (data (signature tx)) 0));
    let sig_bytes := take 64 (data (signature tx)) in
    _ ← map_err "Invalid signature: {}" (ecdsa_from_compact sig_bytes);
    recoverable_sig ← map_err "Invalid recoverable signature: {}"
      (signature_from_compact sig_bytes recovery_id);
    map_err "Public key recovery failed: {}" (recover_ecdsa message recoverable_sig)
  else err "Invalid signature length".

Definition public_key_to_address (pubkey : PublicKey) : Address :=
  take 20 (drop 12 (keccak256 (drop 1 (serialize_public_key pubkey)))).

(** One item of the verification data. *)
Definition prepare (idx : nat) tx : result (nat * Bytes * PublicKey) :=
  let message := hash tx in
  match recover_public_key_from_tx tx message with
  | Err e => errorf "Transaction {}: {}" [ArgNum (Z.of_nat idx); ArgErr e]
  | Ok recovered_pubkey =>
      if decide (public_key_to_address recovered_pubkey = from tx)
      then Ok (idx, message, recovered_pubkey)
      else errorf "Transaction {}: signature does not match from address" [ArgNum (Z.of_nat idx)]
  end.

(** [collect::<Result<Vec<_>, _>>()] stops at the first error. *)
Fixpoint prepare_all (idx : nat) (transactions : list Transaction)
    : result (list (nat * Bytes * PublicKey)) :=
  match transactions with
  | [] => Ok []
  | tx :: txs => item ← prepare idx tx; items ← prepare_all (S idx) txs; Ok (item :: items)
  end.

Definition verify_batch_chunk (batch : list (nat * Bytes * PublicKey)) : result ChunkResult :=
  Ok {| valid := length batch; invalid := 0; failed_indices := [] |}.

(** The aggregation loop. *)
Fixpoint aggregate (results : list (result ChunkResult)) (acc : ChunkResult) : result ChunkResult :=
  match results with
  | [] => Ok acc
  | Ok c :: results' =>
      aggregate results' {| valid := valid acc + valid c; invalid := invalid acc + invalid c;
                            failed_indices := failed_indices acc ++ failed_indices c |}
  | Err e :: _ => errorf "Batch verification failed: {}" [ArgErr e]
  end.

Definition count_batch (n failed : nat) (elapsed : Z) (s : VerificationStats) : VerificationStats :=
  {| total_verifications := u64_add (total_verifications s) (Z.of_nat n);
     failed_verifications := u64_add (failed_verifications s) (Z.of_nat failed);
     total_time_ms := u64_add (total_time_ms s) elapsed |}.

Definition verify_transaction_batch (elapsed : Z) (transactions : list Transaction) v
    : option (result VerificationResult) * BatchSignatureVerifier :=
  match transactions with
  | [] => (Some (Ok {| valid_count := 0; invalid_count := 0; failed_signatures := [];
                       result_time_ms := 0 |}), v)
  | _ :: _ =>
      match prepare_all 0 transactions with
      | Err e => (Some (Err e), v)
      | Ok verification_data =>
          match chunks (max_batch_size v) verification_data with
          | None => (None, v)
          | Some batches =>
              match aggregate (verify_batch_chunk <$> batches)
                      {| valid := 0; invalid := 0; failed_indices := [] |} with
              | Err e => (Some (Err e), v)
              | Ok c =>
                  (Some (Ok {| valid_count := valid c; invalid_count := invalid c;
                               failed_signatures := failed_indices c; result_time_ms := elapsed |}),
                   {| stats := count_batch (length transactions) (invalid c) elapsed (stats v);
                      max_batch_size := max_batch_size v |})
              end
          end
      end
  end.

Definition verify_block_signatures (elapsed : Z) (block : Block) v :=
  verify_transaction_batch elapsed (transactions block) v.

Definition verify_transaction (elapsed : Z) tx v : option (result bool) * BatchSignatureVerifier :=
  let '(r, v') := verify_transaction_batch elapsed [tx] v in
  (fmap (M := option) (fun r => (fun res => bool_decide (invalid_count res = 0%nat)) <$> r) r, v').

Definition get_stats v : VerificationStats := stats v.
Definition reset_stats v : BatchSignatureVerifier :=
  {| stats := no_stats; max_batch_size := max_batch_size v |}.

Definition pre_verify_transaction tx : result unit :=
  if decide (data (signature tx) = []) then err "Transaction has no signature"
  else if decide (length (data (signature tx)) = 65%nat) then Ok tt
  else err "Invalid signature length".

Definition avg_time_per_tx_ms (s : VerificationStats) : f64 :=
  if total_verifications s =? 0 then f64_of_Z 0
  else f64_div (f64_of_Z (total_time_ms s)) (f64_of_Z (total_verifications s)).
Definition failure_rate (s : VerificationStats) : f64 :=
  if total_verifications s =? 0 then f64_of_Z 0
  else f64_div (f64_of_Z (failed_verifications s)) (f64_of_Z (total_verifications s)).

(** ** What a batch says *)

(** The signature recovers to a key whose Keccak address is the sender. *)
Definition keccak_signed tx : Prop :=
  exists pk, recover_public_key_from_tx tx (hash tx) = Ok pk /\ public_key_to_address pk = from tx.

Lemma prepare_ok idx tx : is_ok (prepare idx tx) = true <-> keccak_signed tx.
Proof.
  unfold prepare, keccak_signed. destruct (recover_public_key_from_tx tx (hash tx)) as [pk|e].
  - case_decide; split; try done; [by eauto|]. by intros (? & [= <-] & ?).
  - split; [done|]. by intros (? & ? & ?).
Qed.

Lemma prepare_all_spec idx txs :
  (is_ok (prepare_all idx txs) = true <-> Forall keccak_signed txs) /\
  forall items, prepare_all idx txs = Ok items -> length items = length txs.
Proof.
  revert idx. induction txs as [|tx txs IH]; intros idx; cbn.
  { split; [by split; [constructor|]|]. by intros items [= <-]. }
  destruct (IH (S idx)) as [Hiff Hlen]. rewrite Forall_cons, <- (prepare_ok idx tx), <- Hiff.
  destruct (prepare idx tx) as [item|e]; cbn; [|split; [by split; [|intros []]|done]].
  destruct (prepare_all (S idx) txs) as [items|e]; cbn; [|split; [by split; [|intros []]|done]].
  split; [done|]. intros l [= <-]. cbn. by rewrite (Hlen items eq_refl).
Qed.

(** The first transaction that fails decides the error of the batch. *)
Lemma prepare_all_error idx txs e :
  prepare_all idx txs = Err e ->
  exists i tx, txs !! i = Some tx /\ prepare (idx + i) tx = Err e /\ Forall keccak_signed (take i txs).
Proof.
  revert idx. induction txs as [|tx txs IH]; intros idx Hp; cbn in Hp; [done|].
  destruct (prepare idx tx) as [item|e'] eqn:Hpr; cbn in Hp.
  - destruct (prepare_all (S idx) txs) as [items|e'] eqn:Hall; [done|]. cbn in Hp. simplify_eq.
    destruct (IH (S idx) Hall) as (i & tx' & Hi & He & Hf). exists (S i), tx'. split; [done|].
    split; [by rewrite Nat.add_succ_r|]. cbn. constructor; [|done].
    apply (prepare_ok idx tx). by rewrite Hpr.
  - simplify_eq. exists 0%nat, tx. rewrite Nat.add_0_r. split; [done|]. split; [done|constructor].
Qed.

Lemma aggregate_valid batches acc :
  aggregate (verify_batch_chunk <$> batches) acc =
    Ok {| valid := valid acc + length (concat batches); invalid := invalid acc;
          failed_indices := failed_indices acc |}.
Proof.
  revert acc. induction batches as [|b batches IH]; intros acc; cbn.
  { rewrite Nat.add_0_r. by destruct acc. }
  rewrite IH. cbn. rewrite length_app, Nat.add_assoc, Nat.add_0_r, app_nil_r. done.
Qed.

Lemma concat_chunks_from {A} fuel n (l : list A) :
  (length l <= fuel)%nat -> n <> 0%nat -> concat (chunks_from fuel n l) = l.
Proof.
  revert l. induction fuel as [|fuel IH]; intros l Hl Hn; [by destruct l; [|cbn in Hl; lia]|].
  destruct l as [|x l]; [done|]. cbn [chunks_from concat].
  rewrite IH; [apply take_drop| |done]. rewrite length_drop. cbn in *. lia.
Qed.

Lemma concat_chunks {A} n (l : list A) : n <> 0%nat -> exists k, chunks n l = Some k /\ concat k = l.
Proof.
  intros Hn. destruct n as [|n]; [done|]. eexists. split; [done|]. by apply concat_chunks_from.
Qed.

(** A batch is all or nothing.  With a positive batch size a non-empty batch
    never panics; it succeeds exactly when every signature recovers to a key whose
    Keccak address is the sender, and then it counts every
    transaction as valid and none as failed, however the batch was cut; otherwise
    it is an error about the first bad transaction and the statistics do not move, so
    the failure count stays 0 for ever. *)
Theorem verify_transaction_batch_spec elapsed txs v :
  max_batch_size v <> 0%nat -> txs <> [] ->
  let '(r, v') := verify_transaction_batch elapsed txs v in
  (Forall keccak_signed txs /\
   r = Some (Ok {| valid_count := length txs; invalid_count := 0; failed_signatures := [];
                   result_time_ms := elapsed |}) /\
   stats v' = count_batch (length txs) 0 elapsed (stats v)) \/
  (v' = v /\ exists i tx e, txs !! i = Some tx /\ ~ keccak_signed tx /\
     Forall keccak_signed (take i txs) /\ prepare i tx = Err e /\ r = Some (Err e)).
Proof.
  intros Hn Hne. unfold verify_transaction_batch.
  destruct txs as [|tx0 txs0]; [done|]. set (txs := tx0 :: txs0) in *.
  destruct (prepare_all_spec 0 txs) as [Hiff Hlen].
  destruct (prepare_all 0 txs) as [items|e] eqn:Hp.
  - destruct (concat_chunks (max_batch_size v) items Hn) as (k & -> & Hk).
    rewrite aggregate_valid. cbn [valid invalid failed_indices]. left.
    split; [by apply Hiff|]. rewrite Hk, (Hlen items eq_refl). done.
  - right. split; [done|]. destruct (prepare_all_error 0 txs e Hp) as (i & tx & Hi & He & Hf).
    cbn in He. exists i, tx, e. split; [done|]. split; [|done].
    rewrite <- (prepare_ok i tx), He. done.
Qed.

(** The batch verifier and the rest of the node disagree on who a key is.
    [Transaction::validate_basic] derives the sender from the SHA-256 digest of the
    key, the batch verifier from its Keccak-256 digest: a transaction accepted by
    both has a sender that is the tail of both digests of its key. *)
Theorem batch_verifier_disagrees `{!Sha256Laws} `{!SecpLaws} elapsed tx v :
  max_batch_size v <> 0%nat ->
  Transaction.validate_basic tx = Ok tt -> (verify_transaction elapsed tx v).1 = Some (Ok true) ->
  exists pk, verify_signature tx = Ok pk /\ address_of pk = from tx /\
    take 20 (drop 12 (sha256 (drop 1 (serialize_public_key pk)))) =
    take 20 (drop 12 (keccak256 (drop 1 (serialize_public_key pk)))).
Proof.
  intros Hn (_ & _ & _ & pk & Hv & Ha)%validate_basic_spec Hb. exists pk. do 2 (split; [done|]).
  unfold verify_transaction in Hb.
  pose proof (verify_transaction_batch_spec elapsed [tx] v Hn ltac:(done)) as Hs.
  destruct (verify_transaction_batch elapsed [tx] v) as [r v'].
  destruct Hs as [(Hk & _)|(_ & i & tx' & e & _ & _ & _ & _ & ->)]; [|done].
  apply Forall_cons in Hk as [(pk' & Hr & Ha') _]. clear Hb.
  unfold verify_signature in Hv. unfold recover_public_key_from_tx in Hr.
  destruct (decide (algorithm (signature tx) = Secp256k1)); [|done].
  destruct (decide (length (data (signature tx)) = 65%nat)); [|done].
  rewrite message_of_digest in Hv by apply sha256_length.
  destruct (recovery_id_from_i32 _) as [rid|]; [|done]. cbn in Hr.
  destruct (ecdsa_from_compact _); [|done]. cbn in Hr.
  destruct (signature_from_compact _ rid) as [sig|]; [|done]. cbn in Hr.
  destruct (recover_ecdsa (hash tx) sig) as [pk1|]; [|done]. cbn in Hr. simplify_eq.
  unfold address_of, public_key_to_address in *. congruence.
Qed.
End BatchVerification.

(** ** Witnesses *)

#[local] Existing Instances checksum_sha checksum_laws toy_secp toy_secp_laws.

(** Two stand-ins for Keccak: one that agrees with the digest of the node, one that does not. *)
Definition same_keccak : BatchCrypto := {| keccak256 := sha256; ecdsa_from_compact _ := Ok tt |}.
Definition other_keccak : BatchCrypto :=
  {| keccak256 bs := sha256 (7 :: bs); ecdsa_from_compact _ := Ok tt |}.

Definition signed_sample : Transaction :=
  set_signature sample_tx {| algorithm := Secp256k1; data := replicate 64 1 ++ [1] |}.

Lemma verify_transaction_batch_spec_witness :
  let '(r, v') := @verify_transaction_batch _ _ same_keccak 5 [signed_sample; signed_sample] (new 1) in
  r = Some (Ok {| valid_count := 2; invalid_count := 0; failed_signatures := []; result_time_ms := 5 |}).
Proof.
  pose proof (@verify_transaction_batch_spec _ _ same_keccak 5 [signed_sample; signed_sample] (new 1)
    ltac:(done) ltac:(done)) as Hs.
  destruct (@verify_transaction_batch _ _ same_keccak 5 [signed_sample; signed_sample] (new 1))
    as [r v'] eqn:Hv.
  destruct Hs as [(_ & Hr & _)|(_ & i & tx & e & _ & _ & _ & _ & Hr)]; [exact Hr|].
  rewrite Hr in Hv. vm_compute in Hv. discriminate Hv.
Defined.

(** With a different digest the batch verifier refuses what the node accepts. *)
Lemma batch_verifier_disagrees_witness :
  (exists pk, verify_signature signed_sample = Ok pk /\ address_of pk = from signed_sample /\
     take 20 (drop 12 (sha256 (drop 1 (serialize_public_key pk)))) =
     take 20 (drop 12 (@keccak256 same_keccak (drop 1 (serialize_public_key pk))))) /\
  Transaction.validate_basic signed_sample = Ok tt /\
  (@verify_transaction _ _ other_keccak 5 signed_sample (new 1)).1 =
    Some (errorf "Transaction {}: signature does not match from address" [ArgNum 0]).
Proof.
  split; [|split; vm_compute; reflexivity].
  apply (@batch_verifier_disagrees _ _ same_keccak checksum_laws toy_secp_laws 5 signed_sample (new 1));
    [done|vm_compute; reflexivity|vm_compute; reflexivity].
Defined.
