(* ===== verification/Producer.v ===== *)
(** Block production: [src/src/block/block_producer.rs].

    The producer shares pool, DAG and state with the node, so they are arguments;
    its own record is what its methods change.  The parallel nonce
    search is rayon's, an interface ([NonceSearch]). *)
From S2P Require Import Prelude Crypto Transaction Floats Mining Block StateTree StateManager.
From S2P Require Import Graph Store DagIndex BlockDag Mempool.

Record BlockProducer := {
  producer_id : Address;
  producer_nonce : Z;
  min_transactions : nat;
  max_transactions : nat;
  difficulty_state : DifficultyState
}.

(** [(0..u64::MAX).into_par_iter().find_any(p)] *)
Class NonceSearch := find_any : (Z -> bool) -> option Z.

(** Some number in the range with the property, if there is one. *)
Class NonceSearchLaws `{NonceSearch} : Prop := {
  find_any_some p n : find_any p = Some n -> 0 <= n < u64_max /\ p n = true;
  find_any_none p n : find_any p = None -> 0 <= n < u64_max -> p n = false
}.

(** The three clock readings of a call. *)
Record BlockClock := {
  block_time : Z;
  validation_time : Z;
  adjustment_time : Z
}.

Definition new (now : Z) (producer_id : Address) (min_transactions max_transactions : nat)
    (difficulty_config : DaaConfig) : BlockProducer :=
  {| producer_id := producer_id; producer_nonce := 0; min_transactions := min_transactions;
     max_transactions := max_transactions;
     difficulty_state := DifficultyState_new now difficulty_config |}.

Definition set_nonce (n : Z) (bp : BlockProducer) : BlockProducer :=
  {| producer_id := producer_id bp; producer_nonce := n; min_transactions := min_transactions bp;
     max_transactions := max_transactions bp; difficulty_state := difficulty_state bp |}.
Definition set_difficulty_state (d : DifficultyState) (bp : BlockProducer) : BlockProducer :=
  {| producer_id := producer_id bp; producer_nonce := producer_nonce bp;
     min_transactions := min_transactions bp; max_transactions := max_transactions bp;
     difficulty_state := d |}.

Definition reset_nonce (bp : BlockProducer) : BlockProducer := set_nonce 0 bp.
Definition get_nonce (bp : BlockProducer) : Z := producer_nonce bp.

Definition get_pending_transactions `{HashOrder} (pool : TxDagMempool) (bp : BlockProducer)
    : list Transaction :=
  transaction <$> take (max_transactions bp) (get_ready_transactions pool).

(** The sender of the reward transaction. *)
Definition coinbase_sender : Address := replicate 20 0.

(** [block.header.nonce = n; block.hash = block.calculate_hash()] *)
Definition with_header_nonce (n : Z) (b : Block) : Block :=
  let hd := header b in
  {| block_hash := block_hash b;
     header :=
       {| parent_hashes := parent_hashes hd; timestamp := timestamp hd; header_nonce := n;
          difficulty := difficulty hd; base_fee := base_fee hd; state_root := state_root hd;
          version := version hd; blue_score := blue_score hd; selected_parent := selected_parent hd;
          chain_height := chain_height hd; topo_index := topo_index hd |};
     transactions := transactions b; producer := producer b; reward := reward b; height := height b |}.

Section Producer.
Context `{Sha256} `{LibM} `{HashOrder} {St : Type} `{BlockStoreI St}.
Implicit Types (pool : TxDagMempool) (dag : BlockDAG St) (st : StateManager) (bp : BlockProducer).

(** [u64::MAX - (gas_price saturating_sub base_fee)], ascending and stable. *)
Definition priority_key (base_fee : Z) (m : MempoolTransaction) : Z :=
  u64_max - saturating_sub (gas_price (transaction m)) base_fee.

(** The transactions a block takes: the table is cut first and sorted after. *)
Definition select_transactions (base_fee : Z) (max : nat) (ready : list MempoolTransaction)
    : list Transaction :=
  transaction <$> sort_by_key (priority_key base_fee) (take max ready).

Definition chain_progress_of dag : Z :=
  max_list_or 0 ((fun b => chain_height (header b)) <$> get_tip_blocks dag).

Definition mining_reward dag st (tx_count : nat) : Z :=
  calculate_expected_block_reward (get_emitted_supply st) (f64_of_Z (chain_progress_of dag))
    (get_recent_timestamps dag (activity_window_size RewardConfig_default)) tx_count
    RewardConfig_default.

Definition coinbase_transaction (reward : Z) bp : Transaction :=
  new_transfer coinbase_sender (producer_id bp) reward 0 0 0.

(** Too few are ready although the pool holds more than the minimum. *)
Definition waits_for_more (ready : nat) pool bp : bool :=
  (ready <? min_transactions bp)%nat && (0 <? ready)%nat &&
  (min_transactions bp <? mempool_size pool)%nat.

(** The block before validation. *)
Definition candidate (clock : BlockClock) (difficulty base_fee : Z) pool dag st bp : Block :=
  let txs := select_transactions base_fee (max_transactions bp) (get_ready_transactions pool) in
  Block.new (dag_get_tips dag) (block_time clock)
    (coinbase_transaction (mining_reward dag st (length txs)) bp :: txs)
    (producer_nonce bp) difficulty base_fee (producer_id bp) (replicate 32 0).

Definition create_block (clock : BlockClock) (difficulty base_fee : Z) pool dag st
    : M BlockProducer Block := fun bp =>
  let ready := length (get_ready_transactions pool) in
  if waits_for_more ready pool bp
  then (errorf "Not enough ready transactions: {} < {}"
          [ArgNum (Z.of_nat ready); ArgNum (Z.of_nat (min_transactions bp))], bp)
  else
    let block := candidate clock difficulty base_fee pool dag st bp in
    let bp := set_nonce (u64_add (producer_nonce bp) 1) bp in
    match validate_basic (validation_time clock) block with
    | Err e => (Err e, bp)
    | Ok _ => (Ok block, bp)
    end.

(** The amount the mined block pays by its first transaction. *)
Definition coinbase_amount (b : Block) : Z :=
  match transactions b with
  | tx :: _ => match payload tx with Transfer _ amount => amount | _ => 0 end
  | [] => 0
  end.

Definition mine_block `{NonceSearch} (clock : BlockClock) (difficulty base_fee : Z) pool dag st bp
    : result Block * BlockProducer * StateManager :=
  match create_block clock difficulty base_fee pool dag st bp with
  | (Err e, bp) => (Err e, bp, st)
  | (Ok base, bp) =>
      let meets n := let b := with_header_nonce n base in
                     meets_difficulty (calculate_hash b) (Block.difficulty (header b)) in
      match find_any meets with
      | None => (err "unable to find valid nonce", bp, st)
      | Some nonce =>
          let base := with_header_nonce nonce base in
          let base := with_hash base (calculate_hash base) in
          match validate_basic (validation_time clock) base with
          | Err e => (Err e, bp, st)
          | Ok _ =>
              let d := add_block (adjustment_time clock) (timestamp (header base)) (difficulty_state bp) in
              (Ok base, set_difficulty_state d bp, add_emitted_supply (coinbase_amount base) st)
          end
      end
  end.

(** ** The blocks that come out *)

Lemma take_priority_sorted base_fee max ready :
  StronglySorted (fun a b => priority_key base_fee a <= priority_key base_fee b)
    (sort_by_key (priority_key base_fee) (take max ready)).
Proof. apply sort_by_key_sorted. Qed.

Lemma elem_of_select base_fee max pool tx :
  tx ∈ select_transactions base_fee max (get_ready_transactions pool) ->
  exists h m, txs pool !! h = Some m /\ is_ready m = true /\ tx = transaction m.
Proof.
  unfold select_transactions. intros (m & -> & Hm)%list_elem_of_fmap.
  unfold sort_by_key in Hm. apply elem_of_sort_by, elem_of_take in Hm as (i & Hi & _).
  apply list_elem_of_lookup_2 in Hi. unfold get_ready_transactions in Hi.
  apply list_elem_of_filter in Hi as [Hr Hi]. unfold get_all_transactions in Hi.
  apply elem_of_hm_iter_snd in Hi as [h Hh]. eauto.
Qed.

Lemma length_select base_fee max ready :
  length (select_transactions base_fee max ready) = Nat.min max (length ready).
Proof.
  unfold select_transactions, sort_by_key. by rewrite length_fmap, sort_by_length, length_take.
Qed.

Lemma mining_reward_nonneg dag st n : 0 <= mining_reward dag st n.
Proof.
  unfold mining_reward, calculate_expected_block_reward, saturating_sub.
  destruct (_ =? 0) eqn:E; [lia|]. apply Z.eqb_neq in E.
  destruct (_ >? _); unfold CTS_MINIMUM_REWARD; lia.
Qed.

(** What [validate_basic] has checked. *)
Lemma validate_basic_pow now b :
  validate_basic now b = Ok tt ->
  block_hash b = calculate_hash b /\
  (0 < Block.difficulty (header b) -> meets_difficulty (block_hash b) (Block.difficulty (header b)) = true) /\
  timestamp (header b) <= u64_add now 3600.
Proof.
  unfold validate_basic. cbv zeta. intros Hv. case_bool_decide; cbn [negb] in Hv; [|done].
  destruct (_ && _) eqn:Hpow in Hv; [done|].
  destruct (negb (reward b =? _)) in Hv; [done|]. destruct (negb (size _ =? _)%nat) in Hv; [done|].
  destruct (Z.ltb_spec (u64_add now 3600) (timestamp (header b))); [done|].
  split; [done|]. split; [|done]. intros Hd. apply andb_false_iff in Hpow as [Hp|Hp].
  - apply Z.ltb_ge in Hp. lia.
  - by apply negb_false_iff.
Qed.

(** A created block consists of the reward transaction and, in
    order of priority, at most [max_transactions] ready transactions of the pool;
    it builds on the tips, pays the expected reward to the producer, carries the
    producer's nonce, which is spent whether the block is accepted or not, and - although it has
    not been mined - already satisfies its difficulty. *)
Theorem create_block_spec clock difficulty base_fee pool dag st bp :
  let '(r, bp') := create_block clock difficulty base_fee pool dag st bp in
  (bp' = bp \/ bp' = set_nonce (u64_add (producer_nonce bp) 1) bp) /\
  forall b, r = Ok b ->
    bp' = set_nonce (u64_add (producer_nonce bp) 1) bp /\
    parent_hashes (header b) = dag_get_tips dag /\ header_nonce (header b) = producer_nonce bp /\
    Block.difficulty (header b) = difficulty /\ producer b = producer_id bp /\
    (0 < difficulty -> meets_difficulty (block_hash b) difficulty = true) /\
    exists ms, transactions b =
        coinbase_transaction (mining_reward dag st (length ms)) bp :: (transaction <$> ms) /\
      (length ms <= max_transactions bp)%nat /\
      StronglySorted (fun a b => priority_key base_fee a <= priority_key base_fee b) ms /\
      forall m, m ∈ ms -> is_ready m = true /\ exists h, txs pool !! h = Some m.
Proof.
  unfold create_block. destruct (waits_for_more _ _ _); [split; [by left|done]|].
  destruct (validate_basic _ _) as [[]|e] eqn:Hv; [|split; [by right|done]].
  split; [by right|]. intros b [= <-]. split; [done|]. do 4 (split; [done|]).
  apply validate_basic_pow in Hv as (_ & Hp & _). split; [exact Hp|].
  exists (sort_by_key (priority_key base_fee) (take (max_transactions bp) (get_ready_transactions pool))).
  split; [|split; [|split; [apply take_priority_sorted|]]].
  - unfold candidate, Block.new. cbn [with_hash transactions]. unfold select_transactions.
    by rewrite length_fmap.
  - unfold sort_by_key. rewrite sort_by_length, length_take. lia.
  - intros m Hm. unfold sort_by_key in Hm. apply elem_of_sort_by, elem_of_take in Hm as (i & Hi & _).
    apply list_elem_of_lookup_2 in Hi. unfold get_ready_transactions in Hi.
    apply list_elem_of_filter in Hi as [Hr Hi]. unfold get_all_transactions in Hi.
    by apply elem_of_hm_iter_snd in Hi.
Qed.

(** Mining needs a block that is already mined.  [mine_block] makes its
    template with [create_block], which rejects templates that miss the
    difficulty, so it gets to search for a nonce only when the producer's own nonce
    happened to be a solution; and then the result is a valid block whose reward is
    counted as emitted, within the mining supply. *)
Theorem mine_block_spec `{NonceSearch} `{!NonceSearchLaws} clock difficulty base_fee pool dag st bp b bp' st' :
  state_ok st -> 0 < difficulty -> get_emitted_supply st <= CTS_MINING_SUPPLY ->
  mine_block clock difficulty base_fee pool dag st bp = (Ok b, bp', st') ->
  let template := candidate clock difficulty base_fee pool dag st bp in
  meets_difficulty (block_hash template) difficulty = true /\
  validate_basic (validation_time clock) b = Ok tt /\
  meets_difficulty (block_hash b) difficulty = true /\
  transactions b = transactions template /\ parent_hashes (header b) = dag_get_tips dag /\
  get_emitted_supply st' = Z.min CTS_MINING_SUPPLY (get_emitted_supply st + coinbase_amount b) /\
  0 <= coinbase_amount b.
Proof.
  intros Hok Hd Hem. unfold mine_block, create_block. destruct (waits_for_more _ _ _); [done|].
  set (template := candidate _ _ _ _ _ _ _).
  destruct (validate_basic (validation_time clock) template) as [[]|e] eqn:Hv; [|done].
  destruct (find_any _) as [nonce|] eqn:Hf; [|done].
  set (base := with_hash _ _) in *.
  destruct (validate_basic (validation_time clock) base) as [[]|e] eqn:Hv'; [|done].
  intros [= <- <- <-]. apply validate_basic_pow in Hv as (_ & Hp & _).
  pose proof (proj1 (proj2 (validate_basic_pow _ _ Hv'))) as Hp'.
  split; [by apply Hp|]. split; [done|]. split; [by apply Hp'|]. do 2 (split; [done|]).
  assert (0 <= coinbase_amount base) as Hc.
  { change (coinbase_amount base) with (mining_reward dag st (length
      (select_transactions base_fee (max_transactions bp) (get_ready_transactions pool)))).
    apply mining_reward_nonneg. }
  split; [|done]. by apply add_emitted_supply_spec.
Qed.

(** A template that misses its target is never mined, whatever nonces exist. *)
Theorem mine_block_unlucky `{NonceSearch} clock difficulty base_fee pool dag st bp :
  0 < difficulty ->
  meets_difficulty (block_hash (candidate clock difficulty base_fee pool dag st bp)) difficulty = false ->
  let '(r, _, st') := mine_block clock difficulty base_fee pool dag st bp in
  is_ok r = false /\ st' = st.
Proof.
  intros Hd Hm. unfold mine_block, create_block. destruct (waits_for_more _ _ _); [done|].
  destruct (validate_basic _ _) as [[]|e] eqn:Hv; [|done]. exfalso.
  apply validate_basic_pow in Hv as (_ & Hp & _). specialize (Hp Hd).
  change (meets_difficulty (block_hash (candidate clock difficulty base_fee pool dag st bp)) difficulty
    = true) in Hp. by rewrite Hm in Hp.
Qed.

(** Its reward transaction would not pass the checks every other transaction passes. *)
Lemma coinbase_invalid `{SecpOps} reward bp :
  Transaction.validate_basic (coinbase_transaction reward bp) =
    err "Gas limit must be greater than 0".
Proof. reflexivity. Qed.

Lemma transfer_without_funds sender to amount nonce fee st :
  0 <= amount -> 0 <= fee -> balance (account_or_zero st sender) = 0 ->
  exists e, apply_transfer sender to amount nonce fee st = (Err e, st).
Proof.
  intros Ha Hf Hb.
  destruct (apply_transfer_cases sender to amount nonce fee st) as [(e & He & _)|(Hal & _)]; [by exists e|].
  exfalso. destruct Hal as (Hne & _ & Hc). rewrite <- account_or_zero_balance, Hb in Hc.
  assert (0 < saturating_add amount fee) by (unfold saturating_add, u64_max; lia). lia.
Qed.

(** Executed as the transfer it is, the reward transaction fails as long as the zero
    address cannot pay the reward. *)
Lemma coinbase_transfer_fails reward bp st :
  0 <= reward -> balance (account_or_zero st coinbase_sender) = 0 ->
  exists e, apply_transaction (coinbase_transaction reward bp) st = (Err e, st).
Proof.
  intros Hr Hb. apply (transfer_without_funds coinbase_sender (producer_id bp) reward 0 0 st); done.
Qed.
End Producer.

(** ** Witnesses *)

#[local] Existing Instances checksum_sha checksum_laws toy_secp constant_exp canonical_order.

(** A search that halves the range and looks at the lower half first. *)
Fixpoint search (p : positive) (start : Z) (f : Z -> bool) : option Z :=
  match p with
  | xH => if f start then Some start else None
  | xO q =>
      match search q start f with
      | Some n => Some n
      | None => search q (start + Z.pos q) f
      end
  | xI q =>
      match search q start f with
      | Some n => Some n
      | None =>
          match search q (start + Z.pos q) f with
          | Some n => Some n
          | None => if f (start + 2 * Z.pos q) then Some (start + 2 * Z.pos q) else None
          end
      end
  end.
Definition first_nonce : NonceSearch := search 18446744073709551615 0.

Lemma search_spec p start f :
  match search p start f with
  | Some n => start <= n < start + Z.pos p /\ f n = true
  | None => forall n, start <= n < start + Z.pos p -> f n = false
  end.
Proof.
  revert start. induction p as [q IH|q IH|]; intros start; cbn [search].
  - pose proof (IH start) as H1. destruct (search q start f) as [n|]; [split; [lia|tauto]|].
    pose proof (IH (start + Z.pos q)) as H2.
    destruct (search q (start + Z.pos q) f) as [n|]; [split; [lia|tauto]|].
    destruct (f (start + 2 * Z.pos q)) eqn:E; [split; [lia|done]|]. intros n Hn.
    destruct (decide (n < start + Z.pos q)); [apply H1; lia|].
    destruct (decide (n < start + 2 * Z.pos q)); [apply H2; lia|].
    replace n with (start + 2 * Z.pos q) by lia. done.
  - pose proof (IH start) as H1. destruct (search q start f) as [n|]; [split; [lia|tauto]|].
    pose proof (IH (start + Z.pos q)) as H2.
    destruct (search q (start + Z.pos q) f) as [n|]; [split; [lia|tauto]|]. intros n Hn.
    destruct (decide (n < start + Z.pos q)); [apply H1; lia|apply H2; lia].
  - destruct (f start) eqn:E; [split; [lia|done]|]. intros n Hn. by replace n with start by lia.
Qed.

Lemma first_nonce_laws : @NonceSearchLaws first_nonce.
Proof.
  split; intros p n; unfold find_any, first_nonce;
    pose proof (search_spec 18446744073709551615 0 p) as Hs; unfold u64_max.
  - intros E. rewrite E in Hs. split; [lia|tauto].
  - intros E. rewrite E in Hs. intros Hn. apply Hs. lia.
Qed.

Definition sample_pool : TxDagMempool :=
  foldl (fun p i => (add_transaction 0 0 funded (priced_tx i [i]) [] None p).2) (Mempool.new 10 1) [3; 4].
Definition sample_producer : BlockProducer :=
  {| producer_id := replicate 20 9; producer_nonce := 0; min_transactions := 0;
     max_transactions := 1; difficulty_state := DifficultyState_new 0 DaaConfig_default |}.
Definition sample_clock : BlockClock := {| block_time := 5; validation_time := 5; adjustment_time := 5 |}.


(** With one place in the block, the table order decides: the cheaper
    transaction is taken although the better one is ready too. *)
Example cheaper_transaction_taken :
  (gas_price <$> select_transactions 1 1 (@get_ready_transactions reverse_order sample_pool)) = [3] /\
  (gas_price <$> select_transactions 1 2 (@get_ready_transactions reverse_order sample_pool)) = [4; 3].
Proof. split; vm_compute; reflexivity. Qed.

#[local] Existing Instances first_nonce first_nonce_laws.

Abbreviation mined := (mine_block sample_clock 1 1 sample_pool dag2 genesis_state sample_producer).
Abbreviation mined_block := (unwrap_or mined.1.1 default_block).

Lemma unwrap_triple {A B C} (r : result A * B * C) (d : A) :
  is_ok r.1.1 = true -> r = (Ok (unwrap_or r.1.1 d), r.1.2, r.2).
Proof. by destruct r as [[[]]]. Qed.

Lemma mined_ok : is_ok mined.1.1 = true.
Proof. vm_compute. reflexivity. Qed.

Lemma mine_block_spec_witness :
  meets_difficulty (block_hash mined_block) 1 = true /\
  get_emitted_supply mined.2 =
    Z.min CTS_MINING_SUPPLY (get_emitted_supply genesis_state + coinbase_amount mined_block).
Proof.
  destruct (mine_block_spec sample_clock 1 1 sample_pool dag2 genesis_state sample_producer
    mined_block mined.1.2 mined.2 (proj1 genesis_supply_ok) ltac:(done) ltac:(vm_compute; discriminate)
    (unwrap_triple mined default_block mined_ok)) as (_ & _ & Hm & _ & _ & He & _).
  split; [exact Hm|exact He].
Defined.

Lemma mine_block_unlucky_witness :
  let '(r, _, st') := mine_block sample_clock 30 1 sample_pool dag2 genesis_state sample_producer in
  is_ok r = false /\ st' = genesis_state.
Proof.
  apply (mine_block_unlucky sample_clock 30 1 sample_pool dag2 genesis_state sample_producer);
    [done|vm_compute; reflexivity].
Defined.
