(* ===== verification/Node.v ===== *)
(** The node: [src/src/node/node_runtime.rs].

    One record holds what the handlers share; each handler is one step, because
    the event loop runs the timers' handlers to their end.  The DAG, the executor,
    the pruner and the registry each open a database of their own.  [None] is a
    panic of a guest's host function inside the executor.  Tasks, sockets and
    metrics are not modelled. *)
From S2P Require Import Prelude Crypto Transaction Floats Mining Block StateTree StateManager.
From S2P Require Import Graph Store DagIndex BlockDag DagTraversal BlueSet GhostDag Daa Finality.
From S2P Require Import Mempool Kv Wasm Contracts Executor BlockStore Pruning Producer.

Record NodeRuntime (St Db PDb : Type) := {
  blockdag : BlockDAG St;
  ghostdag : GHOSTDAGEngine St;
  node_state : StateManager;
  mempool : TxDagMempool;
  block_producer : BlockProducer;
  finality_engine : FinalityEngine;
  executor : ContractExecutor Db;
  pruner : option (RollingWindowPruner PDb);
  contract_registry : ContractRegistry Db;
  node_id : Address;
  block_interval : Z;
  mining_enabled : bool
}.
Arguments blockdag {St Db PDb} _.
Arguments ghostdag {St Db PDb} _.
Arguments node_state {St Db PDb} _.
Arguments mempool {St Db PDb} _.
Arguments block_producer {St Db PDb} _.
Arguments finality_engine {St Db PDb} _.
Arguments executor {St Db PDb} _.
Arguments pruner {St Db PDb} _.
Arguments contract_registry {St Db PDb} _.
Arguments node_id {St Db PDb} _.
Arguments block_interval {St Db PDb} _.
Arguments mining_enabled {St Db PDb} _.

(** The clock readings of [produce_block]. *)
Record NodeClock := {
  creation : BlockClock;
  insertion_time : Z;
  snapshot_time : Z
}.

Record PeerInfo := {
  peer_info_id : Bytes;
  peer_info_address : Bytes;
  peer_info_status : Bytes
}.

Record SystemMetrics := {
  tps : f64;
  network_latency_ms : f64;
  memory_mb : Z;
  storage_mb : Z;
  metric_mempool_size : nat;
  metric_block_count : nat;
  metric_finality_height : Z
}.

Section Node.
Context `{Sha256} `{SecpOps} `{LibM} `{HashOrder} `{Hex} `{Wasmtime}
  {St : Type} `{BlockStoreI St} {Db : Type} `{KvStore Db} `{Codec ContractInfo}
  {PDb : Type} `{CfStore PDb} `{Codec Block} `{Codec BlockMetadata} `{Codec Transaction}
  `{Codec StateSnapshot} `{Codec PruningMetadata}.

Abbreviation Node := (NodeRuntime St Db PDb).
Implicit Types n : Node.

Definition set_dag (d : BlockDAG St) n : Node :=
  {| blockdag := d; ghostdag := ghostdag n; node_state := node_state n; mempool := mempool n;
     block_producer := block_producer n; finality_engine := finality_engine n;
     executor := executor n; pruner := pruner n; contract_registry := contract_registry n;
     node_id := node_id n; block_interval := block_interval n; mining_enabled := mining_enabled n |}.
Definition set_ghostdag (g : GHOSTDAGEngine St) n : Node :=
  {| blockdag := blockdag n; ghostdag := g; node_state := node_state n; mempool := mempool n;
     block_producer := block_producer n; finality_engine := finality_engine n;
     executor := executor n; pruner := pruner n; contract_registry := contract_registry n;
     node_id := node_id n; block_interval := block_interval n; mining_enabled := mining_enabled n |}.
Definition set_state (s : StateManager) n : Node :=
  {| blockdag := blockdag n; ghostdag := ghostdag n; node_state := s; mempool := mempool n;
     block_producer := block_producer n; finality_engine := finality_engine n;
     executor := executor n; pruner := pruner n; contract_registry := contract_registry n;
     node_id := node_id n; block_interval := block_interval n; mining_enabled := mining_enabled n |}.
Definition set_mempool (p : TxDagMempool) n : Node :=
  {| blockdag := blockdag n; ghostdag := ghostdag n; node_state := node_state n; mempool := p;
     block_producer := block_producer n; finality_engine := finality_engine n;
     executor := executor n; pruner := pruner n; contract_registry := contract_registry n;
     node_id := node_id n; block_interval := block_interval n; mining_enabled := mining_enabled n |}.
Definition set_producer (b : BlockProducer) n : Node :=
  {| blockdag := blockdag n; ghostdag := ghostdag n; node_state := node_state n; mempool := mempool n;
     block_producer := b; finality_engine := finality_engine n;
     executor := executor n; pruner := pruner n; contract_registry := contract_registry n;
     node_id := node_id n; block_interval := block_interval n; mining_enabled := mining_enabled n |}.
Definition set_finality (f : FinalityEngine) n : Node :=
  {| blockdag := blockdag n; ghostdag := ghostdag n; node_state := node_state n; mempool := mempool n;
     block_producer := block_producer n; finality_engine := f;
     executor := executor n; pruner := pruner n; contract_registry := contract_registry n;
     node_id := node_id n; block_interval := block_interval n; mining_enabled := mining_enabled n |}.
Definition set_executor (ex : ContractExecutor Db) n : Node :=
  {| blockdag := blockdag n; ghostdag := ghostdag n; node_state := node_state n; mempool := mempool n;
     block_producer := block_producer n; finality_engine := finality_engine n;
     executor := ex; pruner := pruner n; contract_registry := contract_registry n;
     node_id := node_id n; block_interval := block_interval n; mining_enabled := mining_enabled n |}.
Definition set_pruner (p : option (RollingWindowPruner PDb)) n : Node :=
  {| blockdag := blockdag n; ghostdag := ghostdag n; node_state := node_state n; mempool := mempool n;
     block_producer := block_producer n; finality_engine := finality_engine n;
     executor := executor n; pruner := p; contract_registry := contract_registry n;
     node_id := node_id n; block_interval := block_interval n; mining_enabled := mining_enabled n |}.
Definition set_mining (m : bool) n : Node :=
  {| blockdag := blockdag n; ghostdag := ghostdag n; node_state := node_state n; mempool := mempool n;
     block_producer := block_producer n; finality_engine := finality_engine n;
     executor := executor n; pruner := pruner n; contract_registry := contract_registry n;
     node_id := node_id n; block_interval := block_interval n; mining_enabled := m |}.

(** The node over freshly opened stores: a block store for the DAG, one for the
    pruner with its database, databases for executor and registry.  The
    executor gets a [StateManager] of its own. *)
Definition new_node (now : Z) (id : Address) (interval : Z) (confirmation_depth : Z) (mempool_size : nat)
    (dag_store : St) (registry_db storage_db node_registry_db : Db) (pruner_db : PDb)
    (pruner_store : BlockStore PDb) : Node :=
  {| blockdag := BlockDag.new dag_store;
     ghostdag := GhostDag.new 2;
     node_state := StateManager.new;
     mempool := Mempool.new mempool_size DEFAULT_MIN_GAS_PRICE;
     block_producer := Producer.new now id 0 100 DaaConfig_default;
     finality_engine := Finality.new confirmation_depth;
     executor := {| state_manager := StateManager.new;
                    registry := Build_ContractRegistry registry_db;
                    contracts := Build_ContractStorage storage_db |};
     pruner := Some (Pruning.new pruner_db pruner_store 100000 1000 1000);
     contract_registry := Build_ContractRegistry node_registry_db;
     node_id := id; block_interval := interval; mining_enabled := false |}.

Definition initialize (now : Z) n : Node :=
  set_state (initialize_tokenomics (node_state n))
    (set_dag (create_genesis_if_empty now (blockdag n)) n).

(** *** Executing a block *)

(** The part after a successful execution. *)
Definition settle_block (time : Z) (block : Block) (fees : Z) : M Node unit := fun n =>
  match apply_block (transactions block) (node_state n) with
  | (Err e, s) => (Err e, set_state s n)
  | (Ok _, s) =>
      let total_miner_credit := saturating_add (saturating_add 0 (reward block)) fees in
      match credit_account (producer block) total_miner_credit s with
      | (Err e, s) => (Err e, set_state s n)
      | (Ok _, s) =>
          let s := add_emitted_supply (saturating_add (reward block) fees) s in
          let n := set_state s n in
          (Ok tt,
           set_pruner
             (snapshot_and_prune time (Z.of_nat (dag_block_count (blockdag n))) s <$> pruner n) n)
      end
  end.

Definition execute_block (time : Z) (block : Block) : P Node unit := fun n =>
  let expected_reward :=
    mining_reward (blockdag n) (node_state n) (length (transactions block)) in
  if negb (expected_reward =? reward block)
  then Some (errorf "Invalid block reward: expected {} but block has {}"
               [ArgNum expected_reward; ArgNum (reward block)], n)
  else
    match Executor.execute_block block (executor n) with
    | None => None
    | Some (result, ex) =>
        let n := set_executor ex n in
        if success result then Some (settle_block time block (total_fees result) n)
        else Some (Ok tt, n)
    end.

(** *** Producing a block *)

(** Annotation, insertion, and the removal from the pool of a created block. *)
Definition adopt_block (insertion_time : Z) (block : Block) : M Node Block := fun n =>
  let dag_snapshot := blockdag n in
  match annotate_block dag_snapshot block (attach_dag dag_snapshot (ghostdag n)) with
  | (Err e, g) => (Err e, set_ghostdag g n)
  | (Ok block, g) =>
      let n := set_ghostdag g n in
      match BlockDag.insert_block insertion_time block (blockdag n) with
      | (Err e, dag) => (Err e, set_dag dag n)
      | (Ok _, dag) =>
          let n := set_dag dag n in
          let n := set_ghostdag (attach_dag (blockdag n) (ghostdag n)) n in
          let pool := foldl (fun p tx => (remove_transaction (hash tx) p).2) (mempool n)
                        (transactions block) in
          (Ok block, set_mempool pool n)
      end
  end.

Definition produce_block (clock : NodeClock) : P Node unit := fun n =>
  if negb (mining_enabled n) then Some (Ok tt, n)
  else if (mempool_size (mempool n) =? 0)%nat then Some (Ok tt, n)
  else
    let difficulty := next_difficulty (blockdag n) in
    let base_fee := next_base_fee (blockdag n) in
    let n := set_mempool (set_base_fee base_fee (mempool n)) n in
    match create_block (creation clock) difficulty base_fee (mempool n) (blockdag n) (node_state n)
            (block_producer n) with
    | (Err e, bp) => Some (Ok tt, set_producer bp n)
    | (Ok block, bp) =>
        match adopt_block (insertion_time clock) block (set_producer bp n) with
        | (Err e, n) => Some (Err e, n)
        | (Ok block, n) => execute_block (snapshot_time clock) block n
        end
    end.

(** *** The other handlers *)

Definition check_finality : M Node unit := fun n =>
  match Store.get_all_blocks (store (blockdag n)) with
  | [] => (Ok tt, n)
  | _ :: _ =>
      let dag_snapshot := blockdag n in
      let n := set_ghostdag (attach_dag dag_snapshot (ghostdag n)) n in
      match generate_ordering (ghostdag n) with
      | Ok _ =>
          let '(r, f) := compute_finality dag_snapshot (finality_engine n) in (r, set_finality f n)
      | Err _ => (Ok tt, n)
      end
  end.

Definition node_add_transaction (now now' : Z) (tx : Transaction) : M Node unit := fun n =>
  match Mempool.validate_transaction tx with
  | Err e => (Err e, n)
  | Ok _ =>
      let '(r, p) := add_transaction now now' (node_state n) tx [] None (mempool n) in
      (r, set_mempool p n)
  end.

Definition node_get_state_root n : Hash := get_state_root (node_state n).
Definition node_get_tips n : list BlockHash := dag_get_tips (blockdag n).
Definition get_finality_height n : option Z := get_finalization_height (finality_engine n).
Definition get_mempool_size n : nat := mempool_size (mempool n).
Definition get_connected_peers n : list Bytes := [].
Definition get_peer_count n : nat := 0.
Definition get_detailed_peers n : list PeerInfo := [].
Definition node_get_balance (address : Address) n : Z := get_balance (node_state n) address.
Definition node_get_nonce (address : Address) n : Z :=
  match manager_get_account (node_state n) address with
  | Some acc => account_nonce acc
  | None => 0
  end.
Definition start_mining n : Node := set_mining true n.
Definition stop_mining n : Node := set_mining false n.

Definition get_metrics n : SystemMetrics :=
  {| tps := f64_of_Z 0; network_latency_ms := f64_of_Z 0; memory_mb := 0; storage_mb := 0;
     metric_mempool_size := get_mempool_size n;
     metric_block_count := length (Store.get_all_blocks (store (blockdag n)));
     metric_finality_height := default 0 (get_finality_height n) |}.

Definition prune_storage (time : Z) (window : Z) : M Node Z := fun n =>
  match pruner n with
  | Some p =>
      (Ok window, set_pruner (Some (maybe_prune time (u64_add 200000 window) (node_state n) p).2) n)
  | None => (err "Pruning not configured", n)
  end.

Definition node_validate_transaction (tx_hash : Hash) n : bool :=
  bool_decide (is_Some (get_transaction (mempool n) tx_hash)) ||
  existsb (fun b => existsb (fun tx => bool_decide (hash tx = tx_hash)) (transactions b))
    (Store.get_all_blocks (store (blockdag n))).

(** *** Steps

    What an initialized node does: by itself, on its timers and its owner's
    commands, and on a submission.  The clock is read in seconds as a [u64]. *)
Inductive node_acts : Node -> Node -> Prop :=
  | node_produces clock n r n' :
      is_u64 (block_time (creation clock)) -> produce_block clock n = Some (r, n') -> node_acts n n'
  | node_checks_finality n : node_acts n (check_finality n).2
  | node_mines n : node_acts n (start_mining n)
  | node_rests n : node_acts n (stop_mining n)
  | node_prunes time window n : node_acts n (prune_storage time window n).2.

Inductive node_step : Node -> Node -> Prop :=
  | node_does n n' : node_acts n n' -> node_step n n'
  | node_adds now now' tx n : node_step n (node_add_transaction now now' tx n).2.
End Node.

(** ** What becomes of state and pool *)
Section NodeFacts.
Context `{Sha256Laws} `{SecpOps} `{LibM} `{HashOrder} `{Hex} `{Wasmtime}
  {St : Type} `{BlockStoreLaws St} {Db : Type} `{KvStore Db} `{Codec ContractInfo}
  {PDb : Type} `{CfStore PDb} `{Codec Block} `{Codec BlockMetadata} `{Codec Transaction}
  `{Codec StateSnapshot} `{Codec PruningMetadata}.
Implicit Types n : NodeRuntime St Db PDb.

(** Annotation leaves the content of a block alone. *)
Lemma annotate_block_content dag b (g : GHOSTDAGEngine St) :
  match annotate_block dag b g with
  | (Ok b', _) => exists sp s c t, b' = set_consensus_metadata b sp s c t
  | (Err _, _) => True
  end.
Proof.
  unfold annotate_block, mbind, M_bind, mret, M_ret.
  destruct (parent_hashes (header b)) as [|p ps].
  - destruct (calculate_blue_score_for_new_block b g) as [[s|e] g2]; [|done]. eauto 10.
  - destruct (select_parent_from_parents (p :: ps) g) as [[sp|e] g1]; [|done].
    destruct (calculate_blue_score_for_new_block b g1) as [[s|e] g2]; [|done]. eauto 10.
Qed.

Lemma remove_all_txs (l : list Transaction) (p : TxDagMempool) h :
  txs (foldl (fun p tx => (remove_transaction (hash tx) p).2) p l) !! h =
    if decide (h ∈ hash <$> l) then None else txs p !! h.
Proof.
  revert p. induction l as [|tx l IH]; intros p; cbn [foldl].
  { rewrite decide_False; [done|apply not_elem_of_nil]. }
  rewrite IH, remove_transaction_txs, fmap_cons.
  destruct (decide (h ∈ hash <$> l)) as [Hin|Hin]; [by rewrite decide_True by by right|].
  destruct (decide (h = hash tx)) as [->|Hne].
  - rewrite decide_True by left. apply lookup_delete_eq.
  - rewrite decide_False by (rewrite elem_of_cons; tauto). by apply lookup_delete_ne.
Qed.

(** A block adopted is the created one with its metadata; both passed the validation,
    and its transactions have left the pool. *)
Lemma adopt_block_spec t block n :
  store_ok (store (blockdag n)) ->
  store_ok (store (blockdag (adopt_block t block n).2)) /\
  match adopt_block t block n with
  | (Err _, n') =>
      node_state n' = node_state n /\ executor n' = executor n /\ mempool n' = mempool n /\
      pruner n' = pruner n /\ forall h, dag_get_block (blockdag n') h = dag_get_block (blockdag n) h
  | (Ok b', n') =>
      (exists sp s c tp, b' = set_consensus_metadata block sp s c tp) /\
      Block.validate_basic t b' = Ok tt /\
      node_state n' = node_state n /\ executor n' = executor n /\ pruner n' = pruner n /\
      (forall h, txs (mempool n') !! h =
         if decide (h ∈ hash <$> transactions b') then None else txs (mempool n) !! h) /\
      forall h, dag_get_block (blockdag n') h =
        if decide (h = block_hash (annotate (blockdag n) b')) then Some (annotate (blockdag n) b')
        else dag_get_block (blockdag n) h
  end.
Proof.
  intros Hok. unfold adopt_block.
  pose proof (annotate_block_content (blockdag n) block (attach_dag (blockdag n) (ghostdag n))) as Ha.
  destruct (annotate_block _ _ _) as [[b'|e] g]; [|done].
  pose proof (BlockDag.insert_block_cases t b' (blockdag n) Hok) as [Hok' Hi].
  cbn [blockdag set_ghostdag].
  destruct (BlockDag.insert_block t b' (blockdag n)) as [[[]|e] dag']; cbn [fst snd] in Hi, Hok';
    (split; [exact Hok'|]).
  - destruct Hi as (Hv & _ & _ & _ & _ & Hg). split; [done|]. split; [done|].
    do 3 (split; [done|]). split; [|exact Hg]. intros h.
    cbn [mempool set_mempool set_ghostdag set_dag]. apply remove_all_txs.
  - destruct Hi as [_ Hg]. do 4 (split; [done|]). exact Hg.
Qed.

(** The executor has nothing to pay the reward transaction with. *)
Definition penniless (ex : ContractExecutor Db) : Prop :=
  balance (account_or_zero (state_manager ex) coinbase_sender) = 0.

(** A block that starts with the reward transaction stops there. *)
Lemma coinbase_stops_execution ex block reward bp txs :
  penniless ex -> 0 <= reward -> transactions block = coinbase_transaction reward bp :: txs ->
  exists result, Executor.execute_block block ex = Some (result, ex) /\
    success result = false /\ executed_transactions result = 0%nat.
Proof.
  intros Hp Hr Htx. unfold Executor.execute_block. rewrite Htx. cbn [execute_loop].
  unfold execute_transaction. cbn [payload coinbase_transaction new_transfer].
  destruct (coinbase_transfer_fails reward bp (state_manager ex) Hr Hp) as [e ->].
  replace (set_manager (state_manager ex) ex) with ex by (by destruct ex).
  eexists. split; [reflexivity|]. done.
Qed.

(** Everything that can happen when a block is produced. *)
Lemma produce_block_cases clock n r n' :
  store_ok (store (blockdag n)) -> penniless (executor n) ->
  produce_block clock n = Some (r, n') ->
  store_ok (store (blockdag n')) /\
  node_state n' = node_state n /\ executor n' = executor n /\ pruner n' = pruner n /\
  ((forall h, dag_get_block (blockdag n') h = dag_get_block (blockdag n) h) \/
   exists template b',
     template = candidate (creation clock) (next_difficulty (blockdag n)) (next_base_fee (blockdag n))
       (set_base_fee (next_base_fee (blockdag n)) (mempool n)) (blockdag n) (node_state n) (block_producer n) /\
     Block.validate_basic (validation_time (creation clock)) template = Ok tt /\
     (exists sp s c tp, b' = set_consensus_metadata template sp s c tp) /\
     Block.validate_basic (insertion_time clock) b' = Ok tt /\
     dag_get_block (blockdag n') (block_hash (annotate (blockdag n) b')) = Some (annotate (blockdag n) b') /\
     (forall h, h ∈ hash <$> transactions b' -> txs (mempool n') !! h = None) /\
     forall h, dag_get_block (blockdag n') h =
       if decide (h = block_hash (annotate (blockdag n) b')) then Some (annotate (blockdag n) b')
       else dag_get_block (blockdag n) h).
Proof.
  intros Hok Hpen. unfold produce_block. destruct (negb _); [intros [= <- <-]; do 4 (split; [done|]); by left|].
  destruct (_ =? _)%nat; [intros [= <- <-]; do 4 (split; [done|]); by left|].
  cbn [mempool set_mempool blockdag node_state block_producer].
  set (pool := set_base_fee _ _). unfold create_block.
  destruct (waits_for_more _ _ _); [intros [= <- <-]; do 4 (split; [done|]); by left|].
  set (template := candidate _ _ _ _ _ _ _).
  destruct (Block.validate_basic (validation_time (creation clock)) template) as [[]|e] eqn:Hv;
    [|intros [= <- <-]; do 4 (split; [done|]); by left].
  set (n1 := set_producer _ _). pose proof (adopt_block_spec (insertion_time clock) template n1 Hok) as [Hok2 Ha].
  destruct (adopt_block (insertion_time clock) template n1) as [[b'|e] n2]; cbn [snd] in Hok2.
  2:{ intros [= <- <-]. destruct Ha as (? & ? & _ & ? & ?). do 4 (split; [done|]). by left. }
  destruct Ha as (Hb' & Hv' & Hs & He & Hp & Htx & Hg). intros Hexec.
  assert (node_state n' = node_state n2 /\ executor n' = executor n2 /\ pruner n' = pruner n2 /\
    blockdag n' = blockdag n2 /\ mempool n' = mempool n2) as (Hs2 & He2 & Hp2 & Hd2 & Hm2).
  { unfold execute_block in Hexec. destruct (negb _); [by simplify_eq|].
    destruct Hb' as (sp & s & c & tp & ->).
    assert (penniless (executor n2)) as Hpen2 by (by rewrite He).
    destruct (coinbase_stops_execution (executor n2) (set_consensus_metadata template sp s c tp)
      (mining_reward (blockdag n) (node_state n) (length (select_transactions (next_base_fee (blockdag n))
         (max_transactions (block_producer n)) (get_ready_transactions pool))))
      (block_producer n) (select_transactions (next_base_fee (blockdag n))
         (max_transactions (block_producer n)) (get_ready_transactions pool)) Hpen2
      (mining_reward_nonneg _ _ _) eq_refl) as (result & Hres & Hsucc & _).
    rewrite Hres, Hsucc in Hexec. by simplify_eq. }
  rewrite Hs2, He2, Hp2, Hd2, Hm2. do 4 (split; [done|]). right. exists template, b'.
  do 4 (split; [done|]). split.
  - rewrite Hg. by rewrite decide_True.
  - split; [|exact Hg]. intros h Hh. rewrite Htx. by rewrite decide_True.
Qed.

Lemma node_step_frozen n n' :
  node_step n n' -> store_ok (store (blockdag n)) -> penniless (executor n) ->
  store_ok (store (blockdag n')) /\ node_state n' = node_state n /\ executor n' = executor n.
Proof.
  intros Hstep Hok Hpen. destruct Hstep as [n n' [clock m r m' _ Hrun|m|m|m|time window m]|now now' tx n].
  - destruct (produce_block_cases clock m r m' Hok Hpen Hrun) as (? & ? & ? & _). done.
  - unfold check_finality. destruct (Store.get_all_blocks _); [done|].
    destruct (generate_ordering _); [|done]. by destruct (compute_finality _ _).
  - done.
  - done.
  - unfold prune_storage. by destruct (pruner m).
  - unfold node_add_transaction. destruct (Mempool.validate_transaction tx); [|done].
    by destruct (add_transaction _ _ _ _ _ _ _).
Qed.

Lemma initialize_store_ok now n :
  store_ok (store (blockdag n)) -> store_ok (store (blockdag (initialize now n))).
Proof.
  intros Hok. cbn [initialize set_state set_dag blockdag]. unfold create_genesis_if_empty.
  destruct (_ =? _)%nat; [|done]. by apply BlockDag.insert_block_cases.
Qed.

(** The one account with a balance. *)
Lemma initial_accounts :
  accounts (initialize_tokenomics StateManager.new) =
    <[GENESIS_WALLET := Account_new 100000000 0]> (<[EMISSION_STATE_ACCOUNT := Account_new 0 0]> ∅).
Proof. etrans; [apply initialize_tokenomics_accounts|apply genesis_accounts]. Qed.

Lemma initial_balance a :
  get_balance (initialize_tokenomics StateManager.new) a =
    if decide (a = GENESIS_WALLET) then 100000000 else 0.
Proof.
  rewrite get_balance_accounts, initial_accounts, !balance_of_insert.
  destruct (decide (GENESIS_WALLET = a)) as [<-|Hne]; [by rewrite decide_True|].
  rewrite (decide_False (P := a = GENESIS_WALLET)) by congruence. by case_decide.
Qed.

(** C21: the reward transaction at the head of every produced block stops its
    execution, and the state manager of the executor is not the node's, so nothing
    that happens in a running node ever reaches an account: after any
    sequence of block productions, finality checks, submissions and prunings, the
    node's state and the executor's are those of the start, no reward has been
    credited and nothing counts as emitted. *)
Theorem running_node_never_settles now id interval depth size dag_store d1 d2 d3 pdb pstore n' :
  store_ok dag_store ->
  let n0 := initialize now (new_node (St := St) (Db := Db) (PDb := PDb) now id interval depth size
              dag_store d1 d2 d3 pdb pstore) in
  rtc node_step n0 n' ->
  node_state n' = initialize_tokenomics StateManager.new /\
  state_manager (executor n') = StateManager.new /\
  (forall a, get_balance (node_state n') a = if decide (a = GENESIS_WALLET) then 100000000 else 0) /\
  get_emitted_supply (node_state n') = 0.
Proof.
  intros Hok n0 Hsteps.
  assert (penniless (executor n0)) as Hpen.
  { unfold penniless. rewrite account_or_zero_balance.
    change (balance_of (accounts StateManager.new) coinbase_sender = 0).
    unfold balance_of. by rewrite accounts_new. }
  assert (store_ok (store (blockdag n0))) as Hok0 by (by apply initialize_store_ok).
  assert (node_state n' = node_state n0 /\ executor n' = executor n0) as [-> ->].
  { clearbody n0. induction Hsteps as [n|n n1 n2 Hstep _ IH]; [done|].
    destruct (node_step_frozen n n1 Hstep Hok0 Hpen) as (Hok1 & Hs1 & He1).
    rewrite <- Hs1, <- He1. apply IH; [by rewrite He1|done]. }
  split; [done|]. split; [done|].
  split; [intros a; apply initial_balance|]. rewrite get_emitted_accounts.
  change (balance_of (accounts (initialize_tokenomics StateManager.new)) EMISSION_STATE_ACCOUNT = 0).
  rewrite initial_accounts, !balance_of_insert. by rewrite decide_False, decide_True.
Qed.

Lemma annotate_transactions (dag : BlockDAG St) b : transactions (annotate dag b) = transactions b.
Proof. unfold annotate. by destruct (match parent_hashes (header b) with [] => _ | _ => _ end). Qed.

(** A produced block takes its transactions out of the pool but executes none of
    them: they are in the DAG, no longer pending, and without effect. *)
Theorem produced_transactions_lost clock n r n' h b :
  store_ok (store (blockdag n)) -> penniless (executor n) ->
  produce_block clock n = Some (r, n') ->
  dag_get_block (blockdag n) h = None -> dag_get_block (blockdag n') h = Some b ->
  node_state n' = node_state n /\
  (forall tx, tx ∈ transactions b -> txs (mempool n') !! hash tx = None) /\
  exists amount, transactions b !! 0%nat = Some (coinbase_transaction amount (block_producer n)).
Proof.
  intros Hok Hpen Hrun Hnone Hsome.
  destruct (produce_block_cases clock n r n' Hok Hpen Hrun)
    as (_ & Hs & _ & _ & [Hsame|(template & b' & -> & _ & (sp & s & c & tp & ->) & _ & Hget & Htx & Hall)]).
  { rewrite Hsame in Hsome. congruence. }
  split; [done|]. rewrite Hall in Hsome. case_decide; [|congruence]. simplify_eq.
  rewrite annotate_transactions. split.
  - intros tx Hin. apply Htx. apply list_elem_of_fmap. by exists tx.
  - eexists. reflexivity.
Qed.

(** A block enters the DAG only if its hash satisfies the difficulty twice by
    accident: once for the template with the producer's nonce, and again for the
    template with the consensus metadata in it.  The node never searches for a
    nonce. *)
Theorem produced_block_is_lucky clock n r n' h :
  store_ok (store (blockdag n)) -> penniless (executor n) -> 0 < next_difficulty (blockdag n) ->
  produce_block clock n = Some (r, n') ->
  dag_get_block (blockdag n) h = None -> is_Some (dag_get_block (blockdag n') h) ->
  let d := next_difficulty (blockdag n) in
  let fee := next_base_fee (blockdag n) in
  let template := candidate (creation clock) d fee (set_base_fee fee (mempool n)) (blockdag n)
                    (node_state n) (block_producer n) in
  meets_difficulty (block_hash template) d = true /\
  exists sp s c t, meets_difficulty (block_hash (set_consensus_metadata template sp s c t)) d = true.
Proof.
  intros Hok Hpen Hd Hrun Hnone [b Hsome] d fee template.
  destruct (produce_block_cases clock n r n' Hok Hpen Hrun)
    as (_ & _ & _ & _ & [Hsame|(tm & b' & -> & Hv & (sp & s & c & tp & ->) & Hv' & _ & _)]).
  { rewrite Hsame in Hsome. congruence. }
  apply validate_basic_pow in Hv as (_ & Hp & _). apply validate_basic_pow in Hv' as (_ & Hp' & _).
  split; [by apply Hp|]. exists sp, s, c, tp. by apply Hp'.
Qed.

Lemma credit_account_other to amount st a :
  a <> to -> accounts (credit_account to amount st).2 !! a = accounts st !! a.
Proof.
  intros Hne. unfold credit_account. destruct (_ =? _); [done|]. destruct (_ <? _); [done|].
  cbn [snd]. rewrite refresh_root_accounts, put_account_accounts. by apply lookup_insert_ne.
Qed.

Lemma add_emitted_other amount st a :
  a <> EMISSION_STATE_ACCOUNT -> accounts (add_emitted_supply amount st) !! a = accounts st !! a.
Proof.
  intros Hne. unfold add_emitted_supply. destruct (_ =? _); [done|]. destruct (_ =? _); [done|].
  rewrite refresh_root_accounts, put_account_accounts. by apply lookup_insert_ne.
Qed.

(** Executing a block through the node, whatever the executor makes of it,
    touches two accounts of the node's state at most: the producer's and the
    emission counter.  The transfers of the block happen in the executor's own
    state and never show in the balances the node reports. *)
Theorem execute_block_hides_transfers time block n r n' a :
  execute_block time block n = Some (r, n') ->
  a <> producer block -> a <> EMISSION_STATE_ACCOUNT ->
  manager_get_account (node_state n') a = manager_get_account (node_state n) a /\
  node_get_balance a n' = node_get_balance a n /\ node_get_nonce a n' = node_get_nonce a n.
Proof.
  intros Hrun Hp He.
  assert (manager_get_account (node_state n') a = manager_get_account (node_state n) a) as Hacc.
  { unfold execute_block in Hrun. destruct (negb _); [by simplify_eq|].
    destruct (Executor.execute_block block (executor n)) as [[result ex]|]; [|done].
    destruct (success result); [|by simplify_eq]. apply (inj Some) in Hrun.
    unfold settle_block, apply_block, mret, M_ret in Hrun. cbn [node_state set_executor] in Hrun.
    pose proof (credit_account_other (producer block)
      (saturating_add (saturating_add 0 (reward block)) (total_fees result)) (node_state n) a Hp) as Hc.
    destruct (credit_account _ _ (node_state n)) as [[[]|e] s1]; simplify_eq; cbn [snd] in Hc.
    - change (accounts (add_emitted_supply (saturating_add (reward block) (total_fees result)) s1) !! a
        = accounts (node_state n) !! a). by rewrite add_emitted_other.
    - exact Hc. }
  split; [done|]. unfold node_get_balance, get_balance, node_get_nonce. unfold manager_get_account in *.
  by rewrite Hacc.
Qed.
End NodeFacts.

(** ** Witnesses *)

#[local] Existing Instances checksum_sha checksum_laws toy_secp constant_exp canonical_order.

Definition idle_node : NodeRuntime MemStore MemDb MemCf :=
  initialize 10 (new_node 10 (replicate 20 9) 5000 10 1000 (∅ : MemStore) (∅ : MemDb) (∅ : MemDb)
    (∅ : MemDb) mem_cf_empty empty_store).
(** Mining, with two transactions pending. *)
Definition busy_node : NodeRuntime MemStore MemDb MemCf :=
  start_mining (set_mempool sample_pool idle_node).
Definition sample_node_clock : NodeClock :=
  {| creation := {| block_time := 20; validation_time := 20; adjustment_time := 20 |};
     insertion_time := 20; snapshot_time := 20 |}.


(** A DAG whose only block has difficulty 1. *)
Definition strict_dag : BlockDAG MemStore :=
  let b := Block.new [] 10 [] 0 1 1 (replicate 20 0) (replicate 32 0) in
  let st : MemStore := {[block_hash b := b]} in {| store := st; index := build_from_store st |}.
Definition strict_node : NodeRuntime MemStore MemDb MemCf :=
  set_producer (set_nonce 0 (block_producer busy_node)) (set_dag strict_dag busy_node).

(** The hash a run adds to the DAG, if there is one. *)
Definition added_hash (n : NodeRuntime MemStore MemDb MemCf) : option BlockHash :=
  match produce_block sample_node_clock n with
  | Some (_, n') =>
      List.find (fun h => bool_decide (dag_get_block (blockdag n) h = None))
        (Store.get_all_hashes (store (blockdag n')))
  | None => None
  end.

Lemma added_hash_spec n h :
  added_hash n = Some h ->
  exists r n' b, produce_block sample_node_clock n = Some (r, n') /\
    dag_get_block (blockdag n) h = None /\ dag_get_block (blockdag n') h = Some b.
Proof.
  unfold added_hash. destruct (produce_block sample_node_clock n) as [[r n']|]; [|done].
  intros [Hin Hd]%List.find_some. apply bool_decide_eq_true in Hd. exists r, n'.
  apply list_elem_of_In in Hin. cbn in Hin. apply list_elem_of_fmap in Hin as ([h' b] & -> & Hb).
  apply elem_of_map_to_list in Hb. exists b. done.
Qed.

Lemma empty_mem_ok : store_ok (∅ : MemStore).
Proof. exact mem_ok_empty. Qed.
Lemma idle_store_ok : store_ok (store (blockdag idle_node)).
Proof. unfold idle_node. apply initialize_store_ok. exact mem_ok_empty. Qed.
Lemma busy_like (n : NodeRuntime MemStore MemDb MemCf) p :
  store_ok (store (blockdag n)) -> store_ok (store (blockdag (start_mining (set_mempool p n)))).
Proof. done. Qed.
Lemma busy_store_ok : store_ok (store (blockdag busy_node)).
Proof. unfold busy_node. apply busy_like. exact idle_store_ok. Qed.
Lemma busy_penniless : penniless (executor busy_node).
Proof. vm_compute. reflexivity. Qed.
Lemma mem_ok_singleton b : mem_ok ({[block_hash b := b]} : MemStore).
Proof. by intros h b' [<- <-]%lookup_singleton_Some. Qed.
Lemma strict_like (n : NodeRuntime MemStore MemDb MemCf) p d :
  store_ok (store d) -> store_ok (store (blockdag (set_producer p (set_dag d n)))).
Proof. done. Qed.
Lemma strict_store_ok : store_ok (store (blockdag strict_node)).
Proof. unfold strict_node. apply strict_like. apply mem_ok_singleton. Qed.

Lemma busy_adds : exists h, added_hash busy_node = Some h.
Proof.
  assert (bool_decide (is_Some (added_hash busy_node)) = true) as Hs by (vm_compute; reflexivity).
  by apply bool_decide_eq_true in Hs.
Qed.
Lemma strict_adds : exists h, added_hash strict_node = Some h.
Proof.
  assert (bool_decide (is_Some (added_hash strict_node)) = true) as Hs by (vm_compute; reflexivity).
  by apply bool_decide_eq_true in Hs.
Qed.

(** The clock ticks for a mining node, which then checks finality. *)
Abbreviation ticked := (produce_block sample_node_clock (start_mining idle_node)).

Lemma node_ticks : exists r n', ticked = Some (r, n').
Proof.
  assert (bool_decide (is_Some ticked) = true) as Hs by (vm_compute; reflexivity).
  apply bool_decide_eq_true in Hs as [[r n'] Hn]. by exists r, n'.
Qed.

Lemma running_node_never_settles_witness :
  exists r n', ticked = Some (r, n') /\
    node_state (check_finality n').2 = initialize_tokenomics StateManager.new /\
    state_manager (executor (check_finality n').2) = StateManager.new.
Proof.
  destruct node_ticks as (r & n' & Hrun). exists r, n'. split; [exact Hrun|].
  destruct (running_node_never_settles 10 (replicate 20 9) 5000 10 1000 (∅ : MemStore) (∅ : MemDb)
    (∅ : MemDb) (∅ : MemDb) mem_cf_empty empty_store (check_finality n').2 empty_mem_ok) as (Hs & He & _).
  - eapply rtc_l; [apply node_does, node_mines|].
    eapply rtc_l; [apply node_does, (node_produces sample_node_clock _ r n');
      [change (is_u64 20); machine|exact Hrun]|].
    apply rtc_once, node_does, node_checks_finality.
  - split; [exact Hs|exact He].
Defined.

Lemma produced_transactions_lost_witness :
  exists r n' h b, produce_block sample_node_clock busy_node = Some (r, n') /\
    dag_get_block (blockdag n') h = Some b /\ node_state n' = node_state busy_node /\
    (forall tx, tx ∈ transactions b -> txs (mempool n') !! hash tx = None).
Proof.
  destruct busy_adds as [h Hh].
  destruct (added_hash_spec busy_node h Hh) as (r & n' & b & Hrun & Hnone & Hsome).
  exists r, n', h, b. split; [exact Hrun|]. split; [exact Hsome|].
  destruct (produced_transactions_lost sample_node_clock busy_node r n' h b busy_store_ok busy_penniless
    Hrun Hnone Hsome) as (Hs & Ht & _).
  split; [exact Hs|exact Ht].
Defined.

Lemma produced_block_is_lucky_witness :
  let template := candidate (creation sample_node_clock) (next_difficulty (blockdag strict_node))
    (next_base_fee (blockdag strict_node))
    (set_base_fee (next_base_fee (blockdag strict_node)) (mempool strict_node)) (blockdag strict_node)
    (node_state strict_node) (block_producer strict_node) in
  meets_difficulty (block_hash template) (next_difficulty (blockdag strict_node)) = true.
Proof.
  destruct strict_adds as [h Hh].
  destruct (added_hash_spec strict_node h Hh) as (r & n' & b & Hrun & Hnone & Hsome).
  assert (0 <? next_difficulty (blockdag strict_node) = true) as Hd by (vm_compute; reflexivity).
  apply (produced_block_is_lucky sample_node_clock strict_node r n' h strict_store_ok busy_penniless
    (proj1 (Z.ltb_lt _ _) Hd) Hrun Hnone). exists b. exact Hsome.
Defined.

(** A node whose executor, unlike its own state, can pay: the transfer succeeds
    there, the miner is credited, and the receiver still has nothing. *)
Definition funded_node : NodeRuntime MemStore MemDb MemCf :=
  set_executor (Executor.set_manager genesis_state (executor idle_node)) idle_node.

Definition funded_run : option (result unit * NodeRuntime MemStore MemDb MemCf) :=
  execute_block 20 transfer_block funded_node.
Definition receiver : Address := replicate 20 2.

Lemma funded_runs :
  bool_decide (is_Some funded_run) = true /\
  option_map (fun rn => get_balance (state_manager (executor rn.2)) receiver) funded_run = Some 1000 /\
  node_get_balance receiver funded_node = 0.
Proof. split; [|split]; vm_compute; reflexivity. Qed.

Lemma execute_block_hides_transfers_witness :
  exists r n', funded_run = Some (r, n') /\
    get_balance (state_manager (executor n')) receiver = 1000 /\ node_get_balance receiver n' = 0.
Proof.
  destruct funded_runs as (Hrun & Hex & Hnode). apply bool_decide_eq_true in Hrun as [[r n'] Hrun].
  exists r, n'. rewrite Hrun in Hex. split; [exact Hrun|]. split; [exact (inj Some _ _ Hex)|].
  destruct (execute_block_hides_transfers 20 transfer_block funded_node r n' receiver Hrun)
    as (_ & Hb & _); [discriminate|discriminate|]. rewrite Hb. exact Hnode.
Defined.
