(* ===== verification/NodeInv.v ===== *)
(** What holds of a node whenever it is between two steps: [node_inv] puts the
    invariants of the components of [Node.v] together and says what they owe each
    other. *)
From S2P Require Import Prelude Crypto Transaction Floats Mining Block StateTree StateManager.
From S2P Require Import Graph Store DagIndex BlockDag DagTraversal BlueSet GhostDag Daa Finality.
From S2P Require Import Mempool Kv Wasm Contracts Executor BlockStore Pruning Producer Node.

(** What the pool let in. *)
Definition admitted `{Sha256} `{SecpOps} (tx : Transaction) : Prop :=
  data (signature tx) <> [] /\ Mempool.validate_transaction tx = Ok tt.

(** The genesis, or a block that pays its producer first and carries at most
    [max] transactions the pool let in. *)
Definition well_made `{Sha256} `{SecpOps} (max : nat) (b : Block) : Prop :=
  parent_hashes (header b) = [] \/
  exists amount txs, transactions b = new_transfer coinbase_sender (producer b) amount 0 0 0 :: txs /\
    (length txs <= max)%nat /\ Forall admitted txs.

(** The blocks of one DAG are blocks of the other, under the same hashes. *)
Definition extends {St} `{BlockStoreI St} (d d' : BlockDAG St) : Prop :=
  forall h b, dag_get_block d h = Some b -> dag_get_block d' h = Some b.

Section NodeInv.
Context `{Sha256Laws} `{SecpOps} `{LibM} `{HashOrder} `{Hex} `{Wasmtime}
  {St : Type} `{BlockStoreLaws St} {Db : Type} `{KvStore Db} `{Codec ContractInfo}
  {PDb : Type} `{CfStore PDb} `{Codec Block} `{Codec BlockMetadata} `{Codec Transaction}
  `{Codec StateSnapshot} `{Codec PruningMetadata}.
Abbreviation Node := (NodeRuntime St Db PDb).
Implicit Types n : Node.

Record producer_ok (id : Address) (bp : BlockProducer) : Prop := {
  po_id : producer_id bp = id;
  po_nonce : is_u64 (producer_nonce bp);
  po_max : max_transactions bp = 100%nat
}.

(** The ordering engine answers from caches of a DAG the node had. *)
Definition ghostdag_ok (dag : BlockDAG St) (g : GHOSTDAGEngine St) : Prop :=
  forall d, engine_dag g = Some d -> dag_inv d /\ extends d dag /\ GhostDag.cache_ok g.

(** The finality engine has never run, or holds the results of a run on a DAG
    the node had. *)
Definition finality_ok (dag : BlockDAG St) (f : FinalityEngine) : Prop :=
  fin_k f = 8 /\
  (finalized_blocks f = ∅ \/ exists d, dag_inv d /\ extends d dag /\ computed d 8 f).

Record node_inv (id : Address) n : Prop := {
  ni_dag : dag_inv (blockdag n);
  ni_blocks : forall h b, dag_get_block (blockdag n) h = Some b -> well_made 100 b;
  ni_pool : pool_ok (mempool n);
  ni_entries : forall h m, txs (mempool n) !! h = Some m ->
    admitted (transaction m) /\ is_ready m = true;
  ni_producer : producer_ok id (block_producer n);
  ni_ghostdag : ghostdag_ok (blockdag n) (ghostdag n);
  ni_finality : finality_ok (blockdag n) (finality_engine n)
}.

(** ** Growing DAGs *)

Lemma extends_refl d : extends d d.
Proof. by intros h b. Qed.
Lemma extends_trans d1 d2 d3 : extends d1 d2 -> extends d2 d3 -> extends d1 d3.
Proof. intros H1' H2' h b Hb. by apply H2', H1'. Qed.

Lemma ghostdag_ok_extends d d' g : extends d d' -> ghostdag_ok d g -> ghostdag_ok d' g.
Proof.
  intros He Hg d0 Hd0. destruct (Hg d0 Hd0) as (? & ? & ?). split; [done|].
  split; [by eapply extends_trans|done].
Qed.
Lemma finality_ok_extends d d' f : extends d d' -> finality_ok d f -> finality_ok d' f.
Proof.
  intros He [Hk [Hn|(d0 & ? & ? & ?)]]; (split; [done|]); [by left|right]. exists d0.
  split; [done|]. split; [by eapply extends_trans|done].
Qed.
Lemma attached_ghostdag_ok d dag g : dag_inv d -> extends d dag -> attached d g -> ghostdag_ok dag g.
Proof. intros Hd He [Hg Hc] d'. rewrite Hg. by intros [= <-]. Qed.

(** Insertion into a DAG only adds, unless the new block's hash is taken. *)
Lemma insert_extends now b dag :
  dag_inv dag -> fields_wf b -> Z.of_nat (length (parent_hashes (header b))) <= u64_max ->
  Z.of_nat (dag_block_count dag) < u64_max ->
  extends dag (BlockDag.insert_block now b dag).2 \/ annotation_collides dag b.
Proof.
  intros Hinv Hwf Hsz Hcount.
  pose proof (BlockDag.insert_block_cases now b dag (inv_ok _ Hinv)) as [_ Hcase].
  destruct (BlockDag.insert_block now b dag) as [[[]|e] dag']; cbn [fst snd] in *.
  - destruct Hcase as (_ & Hchk & _ & _ & _ & Hget).
    destruct (annotate_fresh dag b) as [Hnew|Hc]; [unfold insertable; tauto| |by right]. left.
    intros h b' Hb'. rewrite Hget. case_decide; [congruence|done].
  - left. intros h b' Hb'. destruct Hcase as [_ ->]. done.
Qed.

(** What one insertion does to all of it. *)
Lemma insert_step now b dag :
  dag_inv dag -> fields_wf b -> Z.of_nat (length (parent_hashes (header b))) <= u64_max ->
  Z.of_nat (dag_block_count dag) < u64_max ->
  let dag' := (BlockDag.insert_block now b dag).2 in
  dag_inv dag' /\ extends dag dag' /\ (dag_block_count dag' <= S (dag_block_count dag))%nat \/
  annotation_collides dag b.
Proof.
  intros Hinv Hwf Hsz Hcount.
  destruct (insert_keeps_inv now b dag) as [?|?]; [done..| |by right].
  destruct (insert_extends now b dag) as [?|?]; [done..| |by right].
  destruct (insert_fresh_count now b dag) as [?|?]; [done..|by left|by right].
Qed.

(** Only the inserted block is new. *)
Lemma insert_block_new now b dag h b' :
  store_ok (store dag) -> dag_get_block (BlockDag.insert_block now b dag).2 h = Some b' ->
  dag_get_block dag h = Some b' \/ b' = annotate dag b.
Proof.
  intros Hok. pose proof (BlockDag.insert_block_cases now b dag Hok) as [_ Hcase].
  destruct (BlockDag.insert_block now b dag) as [[[]|e] dag']; cbn [fst snd] in *.
  - destruct Hcase as (_ & _ & _ & _ & _ & Hget). rewrite Hget. case_decide; [|by left].
    intros [= <-]. by right.
  - destruct Hcase as [_ ->]. by left.
Qed.

(** ** The block a node makes *)

Definition next_block (clock : NodeClock) n : Block :=
  candidate (creation clock) (next_difficulty (blockdag n)) (next_base_fee (blockdag n))
    (set_base_fee (next_base_fee (blockdag n)) (mempool n)) (blockdag n) (node_state n)
    (block_producer n).

Lemma next_block_wf id clock n :
  node_inv id n -> length id = 20%nat -> is_u64 (block_time (creation clock)) ->
  fields_wf (next_block clock n).
Proof.
  intros Hn Hid Ht. pose proof (ni_dag _ _ Hn) as Hinv. destruct (ni_producer _ _ Hn) as [Hp Hnonce _].
  unfold fields_wf, next_block, candidate, Block.new, with_hash.
  cbn [header parent_hashes state_root producer timestamp header_nonce difficulty base_fee version].
  split; [|split; [reflexivity|split; [by rewrite Hp|]]].
  - apply Forall_forall. intros p Hp'. apply (stored_hash_length (blockdag n)); [done|].
    by apply dag_tips_stored.
  - pose proof (next_difficulty_range (blockdag n) Hinv).
    pose proof (next_base_fee_range (blockdag n) Hinv). split_and!; try done; machine.
Qed.

Lemma next_block_parents id clock n :
  node_inv id n -> Z.of_nat (dag_block_count (blockdag n)) < u64_max ->
  Z.of_nat (length (parent_hashes (header (next_block clock n)))) <= u64_max.
Proof.
  intros Hn Hc. pose proof (length_tips_le (blockdag n) (ni_dag _ _ Hn)) as Hl.
  change (parent_hashes (header (next_block clock n))) with (dag_get_tips (blockdag n)). lia.
Qed.

Lemma next_block_made id clock n (dag : BlockDAG St) :
  node_inv id n -> well_made 100 (annotate dag (next_block clock n)).
Proof.
  intros Hn. destruct (ni_producer _ _ Hn) as [_ _ Hmax].
  destruct (annotate_fields dag (next_block clock n)) as (_ & Ht & Hp & _). right.
  rewrite Ht, Hp. eexists _, _. split; [reflexivity|]. split.
  - rewrite length_select, Hmax. lia.
  - apply Forall_forall. intros tx Htx. apply elem_of_select in Htx as (h & m & Hm & _ & ->).
    by destruct (ni_entries _ _ Hn h m Hm).
Qed.

(** ** The steps *)

Lemma remove_all_ok l p :
  pool_ok p -> pool_ok (foldl (fun p tx => (remove_transaction (hash tx) p).2) p l).
Proof.
  revert p. induction l as [|tx l IH]; intros p Hp; [done|]. by apply IH, remove_transaction_ok.
Qed.

Lemma settle_block_keeps time b fees n :
  let n' := (settle_block time b fees n).2 in
  blockdag n' = blockdag n /\ ghostdag n' = ghostdag n /\ mempool n' = mempool n /\
  block_producer n' = block_producer n /\ finality_engine n' = finality_engine n.
Proof.
  unfold settle_block. destruct (apply_block _ _) as [[[]|e] s]; [|done].
  by destruct (credit_account _ _ s) as [[[]|e] s'].
Qed.

(** Executing a block reaches the states, the executor and the pruner only. *)
Lemma execute_block_keeps time b n r n' :
  execute_block time b n = Some (r, n') ->
  blockdag n' = blockdag n /\ ghostdag n' = ghostdag n /\ mempool n' = mempool n /\
  block_producer n' = block_producer n /\ finality_engine n' = finality_engine n.
Proof.
  unfold execute_block. destruct (negb _); [by intros [= _ <-]|].
  destruct (Executor.execute_block b (executor n)) as [[result ex]|]; [|done].
  destruct (success result); [|by intros [= _ <-]]. intros [= Hs].
  pose proof (settle_block_keeps time b (total_fees result) (set_executor ex n)) as Hk.
  by rewrite Hs in Hk.
Qed.

(** The parts of a node that its invariant reads. *)
Lemma node_inv_ext id n n' :
  blockdag n' = blockdag n /\ ghostdag n' = ghostdag n /\ mempool n' = mempool n /\
  block_producer n' = block_producer n /\ finality_engine n' = finality_engine n ->
  node_inv id n -> node_inv id n'.
Proof. intros (Hd & Hg & Hm & Hb & Hf) [? ? ? ? ? ? ?]. split; by rewrite ?Hd, ?Hg, ?Hm, ?Hb, ?Hf. Qed.

(** Adopting a block of the node's making. *)
Lemma adopt_block_keeps id t b n :
  node_inv id n -> fields_wf b -> Z.of_nat (length (parent_hashes (header b))) <= u64_max ->
  (forall dag : BlockDAG St, well_made 100 (annotate dag b)) ->
  Z.of_nat (dag_block_count (blockdag n)) < u64_max ->
  let n' := (adopt_block t b n).2 in
  node_inv id n' /\ (dag_block_count (blockdag n') <= S (dag_block_count (blockdag n)))%nat \/
  annotation_collides (blockdag n) b.
Proof.
  intros Hn Hwf Hsz Hmade Hc. cbv zeta. pose proof (ni_dag _ _ Hn) as Hinv. unfold adopt_block.
  pose proof (annotate_block_content (blockdag n) b (attach_dag (blockdag n) (ghostdag n))) as Hcont.
  pose proof (stays_annotate_block (blockdag n) (blockdag n) b _
    (attach_dag_attached (blockdag n) (ghostdag n))) as Hg.
  destruct (annotate_block _ _ _) as [[b'|e] g]; cbn [snd] in Hg.
  2:{ left. split; [|cbn [snd blockdag set_ghostdag]; lia].
    destruct Hn as [? ? ? ? ? _ ?]. split; try done. by eapply attached_ghostdag_ok; [exact Hinv|apply extends_refl|]. }
  destruct Hcont as (sp & s & c & tp & ->). cbn [blockdag set_ghostdag].
  pose proof (insert_step t (set_consensus_metadata b sp s c tp) (blockdag n) Hinv Hwf Hsz Hc) as Hstep.
  pose proof (fun h b' => insert_block_new t (set_consensus_metadata b sp s c tp)
    (blockdag n) h b' (inv_ok _ Hinv)) as Hnew.
  cbv zeta in Hstep. unfold annotation_collides in Hstep.
  rewrite annotate_metadata in Hstep. destruct Hstep as [(Hinv' & He & Hc')|?]; [left|by right].
  destruct Hn as [_ Hb Hpool Hent Hprod Hgd Hfin].
  assert (forall h b', dag_get_block (BlockDag.insert_block t
    (set_consensus_metadata b sp s c tp) (blockdag n)).2 h = Some b' -> well_made 100 b') as Hb'.
  { intros h b' Hh. destruct (Hnew h b' Hh) as [Hold | ->]; [by eapply Hb|].
    rewrite annotate_metadata. apply Hmade. }
  destruct (BlockDag.insert_block t (set_consensus_metadata b sp s c tp)
    (blockdag n)) as [[[]|e] dag'].
  - split; [|exact Hc']. split; cbn [snd blockdag set_mempool set_ghostdag set_dag mempool block_producer
      ghostdag finality_engine] in *; try done.
    + by apply remove_all_ok.
    + intros h m. rewrite remove_all_txs. case_decide; [done|]. apply Hent.
    + by eapply attached_ghostdag_ok; [exact Hinv'|apply extends_refl|apply attach_dag_attached].
    + by eapply finality_ok_extends.
  - split; [|exact Hc']. split; cbn [snd blockdag set_mempool set_ghostdag set_dag mempool block_producer
      ghostdag finality_engine] in *; try done.
    + by eapply attached_ghostdag_ok; [exact Hinv|exact He|].
    + by eapply finality_ok_extends.
Qed.

Lemma node_inv_set_mempool id p n :
  node_inv id n -> pool_ok p ->
  (forall h m, txs p !! h = Some m -> admitted (transaction m) /\ is_ready m = true) ->
  node_inv id (set_mempool p n).
Proof. intros [? ? _ _ ? ? ?] ? ?. by split. Qed.

Lemma node_inv_set_fee id fee n :
  node_inv id n -> node_inv id (set_mempool (set_base_fee fee (mempool n)) n).
Proof.
  intros Hn. apply node_inv_set_mempool; [done| |apply Hn].
  by destruct (ni_pool _ _ Hn).
Qed.

Lemma node_inv_set_producer id bp n :
  node_inv id n -> producer_ok id bp -> node_inv id (set_producer bp n).
Proof. intros [? ? ? ? _ ? ?] ?. by split. Qed.

Lemma create_block_producer_ok id clock d fee pool (dag : BlockDAG St) st bp :
  producer_ok id bp -> producer_ok id (create_block clock d fee pool dag st bp).2.
Proof.
  intros [? ? ?]. unfold create_block. destruct (waits_for_more _ _ _); [done|].
  assert (producer_ok id (set_nonce (u64_add (producer_nonce bp) 1) bp)) as Hok.
  { split; [done|apply u64_wrap_range|done]. }
  by destruct (Block.validate_basic _ _) as [[]|].
Qed.

Lemma produce_block_keeps id clock n r n' :
  node_inv id n -> length id = 20%nat -> is_u64 (block_time (creation clock)) ->
  Z.of_nat (dag_block_count (blockdag n)) < u64_max ->
  produce_block clock n = Some (r, n') ->
  node_inv id n' /\ (dag_block_count (blockdag n') <= S (dag_block_count (blockdag n)))%nat \/
  annotation_collides (blockdag n) (next_block clock n).
Proof.
  intros Hn Hid Ht Hc. unfold produce_block.
  destruct (negb _); [intros [= _ <-]; left; split; [done|lia]|].
  destruct (_ =? _)%nat; [intros [= _ <-]; left; split; [done|lia]|].
  pose proof (node_inv_set_fee id (next_base_fee (blockdag n)) n Hn) as Hn1.
  set (n1 := set_mempool (set_base_fee _ _) n) in *.
  pose proof (create_block_producer_ok id (creation clock) (next_difficulty (blockdag n))
    (next_base_fee (blockdag n)) (mempool n1) (blockdag n1) (node_state n1) (block_producer n1)
    (ni_producer _ _ Hn1)) as Hbp.
  assert (forall b, (create_block (creation clock) (next_difficulty (blockdag n))
    (next_base_fee (blockdag n)) (mempool n1) (blockdag n1) (node_state n1) (block_producer n1)).1 = Ok b ->
    b = next_block clock n) as Hb.
  { intros b. unfold create_block. destruct (waits_for_more _ _ _); [done|].
    destruct (Block.validate_basic _ _) as [[]|]; [|done]. intros [= <-]. reflexivity. }
  destruct (create_block _ _ _ _ _ _ _) as [[b|e] bp]; cbn [fst snd] in Hbp, Hb.
  2:{ intros [= _ <-]. left. split; [by apply node_inv_set_producer|cbn; lia]. }
  rewrite (Hb b eq_refl). clear Hb b.
  pose proof (adopt_block_keeps id (insertion_time clock) (next_block clock n) (set_producer bp n1)
    (node_inv_set_producer id bp n1 Hn1 Hbp) (next_block_wf id clock n Hn Hid Ht)
    (next_block_parents id clock n Hn Hc) (fun dag => next_block_made id clock n dag Hn) Hc) as Hadopt.
  cbv zeta in Hadopt. destruct (adopt_block _ _ _) as [[b|e] n2]; cbn [snd] in Hadopt.
  2:{ intros [= _ <-]. exact Hadopt. }
  intros Hexec. apply execute_block_keeps in Hexec.
  destruct Hadopt as [[Hn2 Hc2]|?]; [left|by right].
  split; [by eapply node_inv_ext|]. destruct Hexec as (-> & _). exact Hc2.
Qed.

Lemma check_finality_keeps id n :
  node_inv id n -> Z.of_nat (dag_block_count (blockdag n)) < u64_max ->
  node_inv id (check_finality n).2 /\ blockdag (check_finality n).2 = blockdag n.
Proof.
  intros Hn Hc. pose proof (ni_dag _ _ Hn) as Hinv. unfold check_finality.
  destruct (Store.get_all_blocks (store (blockdag n))) as [|b0 bs] eqn:Hall; [done|].
  set (n1 := set_ghostdag _ n).
  assert (node_inv id n1) as Hn1.
  { destruct Hn as [? ? ? ? ? _ ?]. split; try done.
    eapply attached_ghostdag_ok; [exact Hinv|apply extends_refl|apply attach_dag_attached]. }
  destruct (generate_ordering (ghostdag n1)); [|done].
  assert (dag_block_count (blockdag n) <> 0%nat) as Hne.
  { unfold dag_block_count. rewrite <- get_all_blocks_length by apply Hinv. by rewrite Hall. }
  destruct (compute_finality_ok (blockdag n) (finality_engine n1) Hinv Hne) as (f & Hf & Hcmp).
  rewrite Hf. cbn [snd]. split; [|done]. destruct (ni_finality _ _ Hn1) as [Hk _].
  rewrite Hk in Hcmp. destruct Hn1. split; try done. split; [apply Hcmp|]. right.
  exists (blockdag n). split; [done|]. split; [apply extends_refl|done].
Qed.

Lemma node_add_transaction_keeps id now now' tx n :
  node_inv id n -> node_inv id (node_add_transaction now now' tx n).2.
Proof.
  intros Hn. unfold node_add_transaction.
  destruct (Mempool.validate_transaction tx) as [[]|] eqn:Hv; [|done].
  pose proof (add_transaction_cases now now' (node_state n) tx [] None (mempool n) (ni_pool _ _ Hn)) as Hok.
  pose proof (add_transaction_entries now now' (node_state n) tx [] None (mempool n)) as Hent.
  destruct (add_transaction _ _ _ _ _ _ _) as [r p]. cbn [snd] in *. destruct Hok as [Hok _].
  apply node_inv_set_mempool; [done|done|]. intros h m Hm.
  destruct (Hent h m Hm) as [Hold|(_ & Hsig & base & ->)]; [by apply (ni_entries _ _ Hn h)|done].
Qed.

(** One step keeps the invariant and adds at most one block, or the block
    it made collides with a stored one. *)
Lemma node_step_keeps id n n' :
  node_step n n' -> node_inv id n -> length id = 20%nat ->
  Z.of_nat (dag_block_count (blockdag n)) < u64_max ->
  node_inv id n' /\ (dag_block_count (blockdag n') <= S (dag_block_count (blockdag n)))%nat \/
  exists clock r, produce_block clock n = Some (r, n') /\
    annotation_collides (blockdag n) (next_block clock n).
Proof.
  intros Hstep Hn Hid Hc. destruct Hstep as [n n' [clock m r m' Ht Hrun|m|m|m|time window m]|now now' tx n].
  - destruct (produce_block_keeps id clock m r m' Hn Hid Ht Hc Hrun) as [?|?]; [by left|right].
    by exists clock, r.
  - left. destruct (check_finality_keeps id m Hn Hc) as [? ->]. split; [done|lia].
  - left. split; [by eapply node_inv_ext; [|exact Hn]|cbn; lia].
  - left. split; [by eapply node_inv_ext; [|exact Hn]|cbn; lia].
  - left. unfold prune_storage. destruct (pruner m); [|split; [done|cbn; lia]].
    split; [by eapply node_inv_ext; [|exact Hn]|cbn; lia].
  - left. split; [by apply node_add_transaction_keeps|]. unfold node_add_transaction.
    destruct (Mempool.validate_transaction tx); [|cbn; lia].
    destruct (add_transaction _ _ _ _ _ _ _). cbn. lia.
Qed.

(** ** The start *)

Lemma empty_block_count (st : St) : store_ok st -> (forall h, Store.get_block st h = None) -> Store.block_count st = 0%nat.
Proof.
  intros Hok Hnone. unfold Store.block_count. destruct (Store.get_all_hashes st) as [|h l] eqn:Hl; [done|].
  assert (h ∈ Store.get_all_hashes st) as Hin by (rewrite Hl; left).
  apply hashes_get in Hin; [|done]. rewrite Hnone in Hin. by destruct Hin.
Qed.

Lemma initial_node_inv now id interval depth size dag_store d1 d2 d3 pdb pstore :
  store_ok dag_store -> (forall h, Store.get_block dag_store h = None) -> is_u64 now ->
  let n0 := initialize now (new_node (St := St) (Db := Db) (PDb := PDb) now id interval depth size
              dag_store d1 d2 d3 pdb pstore) in
  node_inv id n0 /\ (dag_block_count (blockdag n0) <= 1)%nat.
Proof.
  intros Hok Hnone Hnow. cbv zeta. set (n := new_node _ _ _ _ _ _ _ _ _ _ _).
  pose proof (dag_inv_new dag_store Hok Hnone) as Hinv.
  assert (dag_block_count (BlockDag.new dag_store) = 0%nat) as Hzero by by apply empty_block_count.
  unfold initialize. cbn [blockdag n new_node]. unfold create_genesis_if_empty. rewrite Hzero.
  cbn [Nat.eqb]. unfold create_genesis_block. cbn [snd]. set (g := Block.new _ _ _ _ _ _ _ _).
  assert (fields_wf g) as Hwf.
  { unfold fields_wf, g, Block.new, with_hash.
    cbn [header parent_hashes state_root producer timestamp header_nonce difficulty base_fee version].
    split_and!; try done; try (constructor; done); try (by rewrite length_replicate); machine. }
  assert (~ annotation_collides (BlockDag.new dag_store) g) as Hnc.
  { intros (h & b & Hb & _). unfold dag_get_block in Hb. simpl in Hb. by rewrite Hnone in Hb. }
  destruct (insert_step now g (BlockDag.new dag_store)) as [(Hinv' & He & Hc)|]; [done|done|done| |  |done].
  { rewrite Hzero. done. }
  pose proof (fun h b => insert_block_new now g (BlockDag.new dag_store) h b Hok) as Hnew.
  split; [|cbn [blockdag set_state set_dag]; lia]. split.
  - exact Hinv'.
  - intros h b Hb. cbn [blockdag set_state set_dag] in Hb.
    destruct (Hnew h b Hb) as [Hold | ->].
    { unfold dag_get_block in Hold. simpl in Hold. by rewrite Hnone in Hold. }
    left. by destruct (annotate_fields (BlockDag.new dag_store) g) as [-> _].
  - apply pool_ok_new.
  - intros h m Hm. cbn in Hm. by rewrite lookup_empty in Hm.
  - split; [done|change (is_u64 0); machine|done].
  - intros d Hd. done.
  - split; [done|by left].
Qed.

Lemma finality_ok_final dag f h :
  finality_ok dag f -> is_finalized f h = true ->
  is_Some (dag_get_block dag h) /\
  forall p, p ∈ parents_of (store dag) h -> is_finalized f p = true.
Proof.
  intros [_ [Hnone|(d & Hinv & He & Hcmp)]] Hh.
  { apply is_finalized_in in Hh as (ht & s & Hs & _). by rewrite Hnone, lookup_empty in Hs. }
  destruct (computed_final_closed d 8 f h Hinv Hcmp Hh) as [[b Hb] Hp].
  pose proof (He h b Hb) as Hb'. split; [by exists b|]. intros p Hpp. apply Hp.
  rewrite (parents_of_get (store dag) h b Hb') in Hpp.
  by rewrite (parents_of_get (store d) h b Hb).
Qed.

(** A block the node produced collided with a block of its DAG. *)
Definition collision_on_run n0 n' : Prop :=
  exists n1 n2 clock r, rtc node_step n0 n1 /\ produce_block clock n1 = Some (r, n2) /\
    rtc node_step n2 n' /\ annotation_collides (blockdag n1) (next_block clock n1).

(** C4: a node started on an empty store keeps the invariants of all its components at
    once: whatever it does for [k] steps, its DAG satisfies [dag_inv] and has at most
    [k] blocks above the genesis; every block but the genesis pays its producer
    first and then carries at most 100 transactions, all of them signed and valid
    when they were submitted; the pool is well formed and every entry of it is
    such a transaction, ready; the ordering engine's caches are right for a DAG
    the node has had; and what is final is in the DAG, with its ancestors.  The
    exception is a SHA-256 collision between a block the run produced and one
    that was stored. *)
Theorem reachable_node_inv k now id interval depth size dag_store d1 d2 d3 pdb pstore n' :
  store_ok dag_store -> (forall h, Store.get_block dag_store h = None) -> is_u64 now ->
  length id = 20%nat -> Z.of_nat (S k) < u64_max ->
  let n0 := initialize now (new_node (St := St) (Db := Db) (PDb := PDb) now id interval depth size
              dag_store d1 d2 d3 pdb pstore) in
  nsteps node_step k n0 n' ->
  (node_inv id n' /\ (dag_block_count (blockdag n') <= S k)%nat /\
   forall h, is_finalized (finality_engine n') h = true ->
     is_Some (dag_get_block (blockdag n') h) /\
     forall p, p ∈ parents_of (store (blockdag n')) h -> is_finalized (finality_engine n') p = true) \/
  collision_on_run n0 n'.
Proof.
  intros Hok Hnone Hnow Hid Hk n0 Hsteps.
  enough (node_inv id n' /\ (dag_block_count (blockdag n') <= S k)%nat \/ collision_on_run n0 n')
    as Hor.
  { destruct Hor as [[Hn Hc]|?]; [left|by right]. split; [done|]. split; [done|]. intros h. apply finality_ok_final, Hn. }
  destruct (initial_node_inv now id interval depth size dag_store d1 d2 d3 pdb pstore Hok Hnone Hnow)
    as [Hn0 Hc0]. fold n0 in Hn0, Hc0. clearbody n0.
  revert n' Hsteps. induction k as [|k IH]; intros n' Hsteps.
  { inversion Hsteps; subst. by left. }
  apply nsteps_inv_r in Hsteps as (n1 & Hsteps & Hstep).
  destruct (IH ltac:(lia) n1 Hsteps) as [[Hn1 Hc1]|Hcol].
  - destruct (node_step_keeps id n1 n' Hstep Hn1 Hid) as [[Hn' Hc']|(clock & r & Hrun & Hcol)].
    + lia.
    + left. split; [done|lia].
    + right. exists n1, n', clock, r. split; [by eapply rtc_nsteps_2|done].
  - right. destruct Hcol as (m1 & m2 & clock & r & Hr1 & Hrun & Hr2 & Hcol).
    exists m1, m2, clock, r. do 2 (split; [done|]). split; [by eapply rtc_r|done].
Qed.
(** ** Who can use a fresh node *)

(** Steps in which nobody submits a transaction of the genesis wallet. *)
Inductive outsider_step : Node -> Node -> Prop :=
  | outsider_waits n n' : node_acts n n' -> outsider_step n n'
  | outsider_adds now now' tx n :
      from tx <> GENESIS_WALLET -> outsider_step n (node_add_transaction now now' tx n).2.

(** A sender without balance is refused; the pool keeps what it had. *)
Lemma unfunded_refused now now' tx n :
  get_balance (node_state n) (from tx) = 0 -> txs (mempool n) = ∅ ->
  is_ok (node_add_transaction now now' tx n).1 = false /\
  txs (mempool (node_add_transaction now now' tx n).2) = ∅.
Proof.
  intros Hbal Hempty. unfold node_add_transaction.
  destruct (Mempool.validate_transaction tx) as [[]|]; [|done].
  unfold add_transaction, mbind, M_bind, check_rate.
  pose proof (check_capacity_spec tx (mempool n)) as Hcap.
  destruct (check_capacity tx (mempool n)) as [[[]|e] p].
  - destruct Hcap as [[_ ->]|(_ & low & m & Hm & _)]; [|by rewrite Hempty, lookup_empty in Hm].
    assert (is_ok (check_admission (node_state n) tx (mempool n)) = false) as Herr
      by (apply check_admission_err; by right; right; left).
    unfold gets, lift. by destruct (check_admission (node_state n) tx (mempool n)) as [[]|e].
  - by destruct Hcap as (-> & _).
Qed.

(** With nothing pending no block is made, and finality checks leave DAG and pool. *)
Lemma node_acts_idle n n' :
  node_acts n n' -> txs (mempool n) = ∅ ->
  blockdag n' = blockdag n /\ node_state n' = node_state n /\ mempool n' = mempool n.
Proof.
  intros Hact Hempty. destruct Hact as [clock m r m' _ Hrun|m|m|m|time window m]; try done.
  - unfold produce_block in Hrun. destruct (negb _); [by simplify_eq|].
    unfold mempool_size in Hrun. rewrite Hempty, map_size_empty in Hrun. cbn [Nat.eqb] in Hrun. by simplify_eq.
  - unfold check_finality. destruct (Store.get_all_blocks _); [done|].
    destruct (generate_ordering _); [|done]. by destruct (compute_finality _ _).
  - unfold prune_storage. by destruct (pruner m).
Qed.

Lemma outsider_step_idle n n' :
  outsider_step n n' -> txs (mempool n) = ∅ -> node_state n = initialize_tokenomics StateManager.new ->
  blockdag n' = blockdag n /\ node_state n' = node_state n /\ txs (mempool n') = ∅.
Proof.
  intros Hstep Hempty Hst. destruct Hstep as [n n' Hact|now1 now2 tx n Htx].
  - destruct (node_acts_idle n n' Hact Hempty) as (? & ? & ->). done.
  - destruct (unfunded_refused now1 now2 tx n) as [_ Hp]; [|done|].
    + rewrite Hst, initial_balance. by rewrite decide_False.
    + split; [|split; [|done]]; unfold node_add_transaction;
        (destruct (Mempool.validate_transaction tx); [|done]);
        by destruct (add_transaction _ _ _ _ _ _ _).
Qed.

(** C11: a fresh node serves one address only.  The genesis wallet, 0x0101..01, is the
    one account that ever has a balance, and the pool refuses senders without
    balance, so until somebody submits a transaction signed with a key that
    hashes to that address, every submission fails, the pool stays empty and no
    block is produced, however long the node mines: the DAG remains what
    initialization made it. *)
Theorem fresh_node_serves_one_address now id interval depth size dag_store d1 d2 d3 pdb pstore n' :
  let n0 := initialize now (new_node (St := St) (Db := Db) (PDb := PDb) now id interval depth size
              dag_store d1 d2 d3 pdb pstore) in
  rtc outsider_step n0 n' ->
  blockdag n' = blockdag n0 /\ txs (mempool n') = ∅ /\
  forall now now' tx, is_ok (node_add_transaction now now' tx n').1 = true ->
    from tx = GENESIS_WALLET /\
    exists pubkey, verify_signature tx = Ok pubkey /\ address_of pubkey = GENESIS_WALLET.
Proof.
  intros n0 Hsteps.
  assert (txs (mempool n0) = ∅) as Hempty by done.
  assert (node_state n0 = initialize_tokenomics StateManager.new) as Hst by done.
  assert (blockdag n' = blockdag n0 /\ txs (mempool n') = ∅ /\
    node_state n' = initialize_tokenomics StateManager.new) as (Hd & Hp & Hs).
  { clearbody n0. induction Hsteps as [n|n n1 n2 Hstep _ IH]; [done|].
    destruct (outsider_step_idle n n1 Hstep Hempty Hst) as (Hd & Hs & Hp).
    rewrite <- Hd. apply IH; [done|by rewrite Hs]. }
  split; [done|]. split; [done|]. intros now1 now2 tx Hok.
  assert (from tx = GENESIS_WALLET) as Hfrom.
  { destruct (decide (from tx = GENESIS_WALLET)) as [|Hne]; [done|].
    destruct (unfunded_refused now1 now2 tx n') as [He _]; [|done|congruence].
    rewrite Hs, initial_balance. by rewrite decide_False. }
  split; [done|]. unfold node_add_transaction in Hok.
  destruct (Mempool.validate_transaction tx) as [[]|e] eqn:Hv; [|done].
  unfold Mempool.validate_transaction in Hv.
  destruct (Transaction.validate_basic tx) as [[]|e] eqn:Hb; [|done].
  unfold Transaction.validate_basic in Hb.
  destruct (gas_limit tx =? 0); [done|]. destruct (gas_price tx =? 0); [done|].
  destruct (match payload tx with Transfer _ amount => amount =? 0 | _ => false end); [done|].
  destruct (verify_signature tx) as [pk|e]; cbn [mbind result_bind] in Hb; [|done].
  exists pk. split; [done|]. destruct (decide (address_of pk = from tx)); [congruence|done].
Qed.
End NodeInv.

(** ** Witnesses *)

#[local] Existing Instances checksum_sha checksum_laws toy_secp constant_exp canonical_order.

(** A tick of a mining node, and a finality check. *)
Lemma reachable_node_inv_witness :
  exists r n', ticked = Some (r, n') /\
   ((node_inv (replicate 20 9) (check_finality n').2 /\
     (dag_block_count (blockdag (check_finality n').2) <= 4)%nat) \/
    collision_on_run idle_node (check_finality n').2).
Proof.
  destruct node_ticks as (r & n' & Hrun). exists r, n'. split; [exact Hrun|].
  destruct (reachable_node_inv 3 10 (replicate 20 9) 5000 10 1000 (∅ : MemStore) (∅ : MemDb)
    (∅ : MemDb) (∅ : MemDb) mem_cf_empty empty_store (check_finality n').2) as [(Hn & Hc & _)|Hcol].
  - exact empty_mem_ok.
  - intros h. reflexivity.
  - machine.
  - reflexivity.
  - machine.
  - eapply nsteps_l; [apply node_does, node_mines|].
    eapply nsteps_l; [apply node_does, (node_produces sample_node_clock _ r n');
      [change (is_u64 20); machine|exact Hrun]|].
    apply nsteps_once, node_does, node_checks_finality.
  - left. split; [exact Hn|exact Hc].
  - right. exact Hcol.
Defined.

(** A submission in another name after the tick. *)
Definition foreign_tx : Transaction := new_transfer (replicate 20 5) (replicate 20 2) 5 0 21000 3.

Lemma fresh_node_serves_one_address_witness :
  exists r n', ticked = Some (r, n') /\
    let n2 := (node_add_transaction 30 30 foreign_tx n').2 in
    blockdag n2 = blockdag idle_node /\ txs (mempool n2) = ∅ /\
    is_ok (node_add_transaction 40 40 foreign_tx n2).1 = false.
Proof.
  destruct node_ticks as (r & n' & Hrun). exists r, n'. split; [exact Hrun|]. intros n2.
  destruct (fresh_node_serves_one_address 10 (replicate 20 9) 5000 10 1000 (∅ : MemStore) (∅ : MemDb)
    (∅ : MemDb) (∅ : MemDb) mem_cf_empty empty_store n2) as (Hd & Hp & Hall).
  - eapply rtc_l; [apply outsider_waits, node_mines|].
    eapply rtc_l; [apply outsider_waits, (node_produces sample_node_clock _ r n');
      [change (is_u64 20); machine|exact Hrun]|].
    apply rtc_once, outsider_adds. discriminate.
  - split; [exact Hd|]. split; [exact Hp|].
    destruct (is_ok (node_add_transaction 40 40 foreign_tx n2).1) eqn:Hok; [|reflexivity].
    destruct (Hall 40 40 foreign_tx Hok) as [Hf _]. discriminate Hf.
Defined.
