(* ===== verification/Peers.v ===== *)
(** The peer table: [src/src/network/peer_manager.rs].

    Two reader-writer locks guard the table and the ban list, and one method
    takes them both, so the locks are part of the state: a method is a
    computation that may block for ever ([L]), which is what parking_lot's locks do
    when the thread that asks already holds the lock the other way.  A thread that
    blocks keeps the locks it has.  Every method takes the table's lock first,
    so methods of different threads do not interleave once they hold it;
    [reconnect_peers], which takes it again and again, is a sequence of
    such steps.  The periodic tasks are calls of their bodies; the clock
    is an argument. *)
From S2P Require Import Prelude.

Abbreviation PeerId := Bytes.

Record PeerInfo := {
  peer_id : PeerId;
  peer_address : Bytes;
  last_seen : Z;
  is_connected : bool;
  dag_height : Z;
  score : Z
}.

(** A reader-writer lock, as parking_lot's: not reentrant. *)
Inductive RwState := Free | Readers (n : nat) | Writer.
Inductive lock := PeersLock | BansLock.

Record PeerManager := {
  peers : gmap PeerId PeerInfo;
  bans : gmap PeerId Z;
  max_peers : nat;
  peers_lock : RwState;
  bans_lock : RwState
}.

Definition new (max : nat) : PeerManager :=
  {| peers := ∅; bans := ∅; max_peers := max; peers_lock := Free; bans_lock := Free |}.

(** ** Computations that may block *)

(** [None]: the thread waits for ever, in the state given. *)
Definition L (A : Type) : Type := PeerManager -> option A * PeerManager.
#[global] Instance L_ret : MRet L := fun A a st => (Some a, st).
#[global] Instance L_bind : MBind L := fun A B f m st =>
  match m st with (Some a, st') => f a st' | (None, st') => (None, st') end.

Definition lock_of (l : lock) (st : PeerManager) : RwState :=
  match l with PeersLock => peers_lock st | BansLock => bans_lock st end.
Definition set_lock (l : lock) (s : RwState) (st : PeerManager) : PeerManager :=
  match l with
  | PeersLock => {| peers := peers st; bans := bans st; max_peers := max_peers st;
                    peers_lock := s; bans_lock := bans_lock st |}
  | BansLock => {| peers := peers st; bans := bans st; max_peers := max_peers st;
                   peers_lock := peers_lock st; bans_lock := s |}
  end.

(** [lock.read()], [lock.write()] and the end of their guards. *)
Definition read_lock (l : lock) : L unit := fun st =>
  match lock_of l st with
  | Free => (Some tt, set_lock l (Readers 1) st)
  | Readers n => (Some tt, set_lock l (Readers (S n)) st)
  | Writer => (None, st)
  end.
Definition write_lock (l : lock) : L unit := fun st =>
  match lock_of l st with
  | Free => (Some tt, set_lock l Writer st)
  | _ => (None, st)
  end.
Definition release (l : lock) : L unit := fun st =>
  (Some tt, set_lock l (match lock_of l st with Readers (S (S n)) => Readers (S n) | _ => Free end) st).

Definition get {A} (f : PeerManager -> A) : L A := fun st => (Some (f st), st).
Definition set_peers (f : gmap PeerId PeerInfo -> gmap PeerId PeerInfo) : L unit := fun st =>
  (Some tt, {| peers := f (peers st); bans := bans st; max_peers := max_peers st;
               peers_lock := peers_lock st; bans_lock := bans_lock st |}).
Definition set_bans (f : gmap PeerId Z -> gmap PeerId Z) : L unit := fun st =>
  (Some tt, {| peers := peers st; bans := f (bans st); max_peers := max_peers st;
               peers_lock := peers_lock st; bans_lock := bans_lock st |}).

(** The whole method under one guard of the table. *)
Definition reading {A} (body : L A) : L A :=
  read_lock PeersLock ≫= fun _ => body ≫= fun a => release PeersLock ≫= fun _ => mret a.
Definition writing {A} (body : L A) : L A :=
  write_lock PeersLock ≫= fun _ => body ≫= fun a => release PeersLock ≫= fun _ => mret a.

(** ** The methods *)

Definition with_status (now : Z) (connected : bool) (p : PeerInfo) : PeerInfo :=
  {| peer_id := peer_id p; peer_address := peer_address p; last_seen := now;
     is_connected := connected; dag_height := dag_height p; score := score p |}.
Definition with_height (h : Z) (p : PeerInfo) : PeerInfo :=
  {| peer_id := peer_id p; peer_address := peer_address p; last_seen := last_seen p;
     is_connected := is_connected p; dag_height := h; score := score p |}.
Definition with_score (s : Z) (connected : bool) (p : PeerInfo) : PeerInfo :=
  {| peer_id := peer_id p; peer_address := peer_address p; last_seen := last_seen p;
     is_connected := connected; dag_height := dag_height p; score := s |}.

(** The end of [add_peer], after the ban list has been consulted. *)
Definition enter_peer (now : Z) (id : PeerId) (address : Bytes) : L (result unit) :=
  get (fun st => peers st !! id) ≫= fun (existing : option PeerInfo) =>
  match existing with
  | Some p =>
      if is_connected p then mret (err "Peer already exists")
      else
        set_peers (insert id
          {| peer_id := peer_id p; peer_address := address; last_seen := now;
             is_connected := true; dag_height := 0; score := 100 |}) ≫= fun _ => mret (Ok tt)
  | None =>
      set_peers (insert id
        {| peer_id := id; peer_address := address; last_seen := now;
           is_connected := false; dag_height := 0; score := 100 |}) ≫= fun _ => mret (Ok tt)
  end.

(** [if let Some(exp) = self.bans.read().get(&peer_id) { .. }]: the guard of the
    ban list lives until the end of the statement, past the [write()] in it. *)
Definition check_ban (now : Z) (id : PeerId) : L bool :=
  read_lock BansLock ≫= fun _ =>
  get (fun st => bans st !! id) ≫= fun (entry : option Z) =>
  match entry with
  | Some exp =>
      if now <? exp then release BansLock ≫= fun _ => mret true
      else
        write_lock BansLock ≫= fun _ => set_bans (delete id) ≫= fun _ =>
        release BansLock ≫= fun _ => release BansLock ≫= fun _ => mret false
  | None => release BansLock ≫= fun _ => mret false
  end.

Definition add_peer (now : Z) (id : PeerId) (address : Bytes) : L (result unit) :=
  writing (
    get (fun st => (max_peers st <=? size (peers st))%nat) ≫= fun (full : bool) =>
    if full then mret (err "Maximum peers reached")
    else
      check_ban now id ≫= fun (banned : bool) =>
      if banned then mret (err "Peer is temporarily banned") else enter_peer now id address).

Definition remove_peer (id : PeerId) : L unit := writing (set_peers (delete id)).

Definition update_peer_status (now : Z) (id : PeerId) (connected : bool) : L unit :=
  writing (set_peers (alter (with_status now connected) id)).

Definition update_peer_height (id : PeerId) (height : Z) : L unit :=
  writing (set_peers (alter (with_height height) id)).

Definition connected_ids `{HashOrder} (m : gmap PeerId PeerInfo) : list PeerId :=
  peer_id <$> filter (fun p => is_connected p = true) (hm_iter m).*2.

Definition get_connected_peers `{HashOrder} : L (list PeerId) :=
  reading (get (fun st => connected_ids (peers st))).

Definition get_all_peers `{HashOrder} : L (list PeerId) :=
  reading (get (fun st => (hm_iter (peers st)).*1)).

Definition get_peer_info (id : PeerId) : L (option PeerInfo) :=
  reading (get (fun st => peers st !! id)).

(** [sort_by(|a, b| b.dag_height.cmp(&a.dag_height))], stable. *)
Definition sync_ids `{HashOrder} (count : nat) (m : gmap PeerId PeerInfo) : list PeerId :=
  peer_id <$> take count
    (sort_by_key (fun p => - dag_height p)
      (filter (fun p => is_connected p = true) (hm_iter m).*2)).

Definition get_sync_peers `{HashOrder} (count : nat) : L (list PeerId) :=
  reading (get (fun st => sync_ids count (peers st))).

(** One round of the loop of [cleanup_stale_peers]. *)
Definition cleanup_stale_peers (now : Z) : L unit :=
  writing (set_peers (filter (fun kv => ~ 600 < u64_sub now (last_seen kv.2)))).

(** The table is only logged. *)
Definition discover_peers : L (result unit) := reading (mret (Ok tt)).

Fixpoint mark_connected (now : Z) (ids : list PeerId) : L unit :=
  match ids with
  | [] => mret tt
  | id :: ids => update_peer_status now id true ≫= fun _ => mark_connected now ids
  end.

Definition disconnected_ids `{HashOrder} (m : gmap PeerId PeerInfo) : list PeerId :=
  peer_id <$> filter (fun p => is_connected p = false) (hm_iter m).*2.

Definition reconnect_peers `{HashOrder} (now : Z) : L unit :=
  reading (get (fun st => disconnected_ids (peers st))) ≫= fun ids => mark_connected now ids.

Definition penalize_peer (now : Z) (id : PeerId) (points : Z) : L unit :=
  writing (
    get (fun st => peers st !! id) ≫= fun (peer : option PeerInfo) =>
    match peer with
    | None => mret tt
    | Some p =>
        let score := i32_sub (score p) points in
        if score <=? 0 then
          set_peers (insert id (with_score score false p)) ≫= fun _ =>
          write_lock BansLock ≫= fun _ =>
          set_bans (insert id (u64_add now (24 * 3600))) ≫= fun _ =>
          release BansLock
        else set_peers (insert id (with_score score (is_connected p) p))
    end).

Definition reward_peer (id : PeerId) (points : Z) : L unit :=
  writing (set_peers (alter
    (fun p => with_score (Z.min (i32_add (score p) points) 100) (is_connected p) p) id)).

(** ** Runs *)

(** The public methods, each with its arguments. *)
Inductive call :=
  | AddPeer (now : Z) (id : PeerId) (address : Bytes)
  | RemovePeer (id : PeerId)
  | UpdateStatus (now : Z) (id : PeerId) (connected : bool)
  | UpdateHeight (id : PeerId) (height : Z)
  | GetConnected
  | GetAll
  | GetInfo (id : PeerId)
  | GetSync (count : nat)
  | Cleanup (now : Z)
  | Discover
  | Reconnect (now : Z)
  | Penalize (now : Z) (id : PeerId) (points : Z)
  | Reward (id : PeerId) (points : Z).

(** Whether the call returns, and the state it leaves. *)
Definition finished {A} (r : option A * PeerManager) : bool * PeerManager :=
  (bool_decide (is_Some r.1), r.2).

Definition run_call `{HashOrder} (c : call) (st : PeerManager) : bool * PeerManager :=
  match c with
  | AddPeer now id address => finished (add_peer now id address st)
  | RemovePeer id => finished (remove_peer id st)
  | UpdateStatus now id b => finished (update_peer_status now id b st)
  | UpdateHeight id h => finished (update_peer_height id h st)
  | GetConnected => finished (get_connected_peers st)
  | GetAll => finished (get_all_peers st)
  | GetInfo id => finished (get_peer_info id st)
  | GetSync n => finished (get_sync_peers n st)
  | Cleanup now => finished (cleanup_stale_peers now st)
  | Discover => finished (discover_peers st)
  | Reconnect now => finished (reconnect_peers now st)
  | Penalize now id points => finished (penalize_peer now id points st)
  | Reward id points => finished (reward_peer id points st)
  end.

Definition call_step `{HashOrder} (st st' : PeerManager) : Prop :=
  exists c, st' = (run_call c st).2.

(** Nobody holds a lock; or a blocked thread holds the table's for ever. *)
Definition unlocked (st : PeerManager) : Prop := peers_lock st = Free /\ bans_lock st = Free.
Definition dead (st : PeerManager) : Prop := peers_lock st = Writer.

Definition with_peers (f : gmap PeerId PeerInfo -> gmap PeerId PeerInfo) (st : PeerManager) : PeerManager :=
  {| peers := f (peers st); bans := bans st; max_peers := max_peers st;
     peers_lock := peers_lock st; bans_lock := bans_lock st |}.

Section PeerFacts.
Context `{HashOrder}.
Implicit Types st : PeerManager.

Lemma writing_set f st : unlocked st -> writing (set_peers f) st = (Some tt, with_peers f st).
Proof. destruct st as [p b m [] []]; intros [Hp Hb]; by simplify_eq/=. Qed.
Lemma reading_get {A} (f : PeerManager -> A) st :
  unlocked st -> (forall s, f (set_lock PeersLock s st) = f st) ->
  reading (get f) st = (Some (f st), st).
Proof.
  destruct st as [p b m [] []]; intros [Hp Hb] Hf; simplify_eq/=.
  unfold reading, mbind, L_bind, get, mret, L_ret. cbn. by rewrite <- (Hf (Readers 1)).
Qed.
Lemma discover_peers_spec st : unlocked st -> discover_peers st = (Some (Ok tt), st).
Proof. destruct st as [p b m [] []]; intros [Hp Hb]; by simplify_eq/=. Qed.
Lemma with_peers_unlocked f st : unlocked st -> unlocked (with_peers f st).
Proof. done. Qed.

(** What asks for the table's lock waits for ever once it is taken for ever. *)
Lemma dead_reading {A} (m : L A) st : dead st -> reading m st = (None, st).
Proof. unfold dead, reading, mbind, L_bind, read_lock, lock_of. by intros ->. Qed.
Lemma dead_writing {A} (m : L A) st : dead st -> writing m st = (None, st).
Proof. unfold dead, writing, mbind, L_bind, write_lock, lock_of. by intros ->. Qed.

Lemma dead_call c st : dead st -> run_call c st = (false, st).
Proof.
  intros Hd. destruct c; cbn [run_call]; unfold finished, add_peer, remove_peer, update_peer_status,
    update_peer_height, get_connected_peers, get_all_peers, get_peer_info, get_sync_peers,
    cleanup_stale_peers, discover_peers, penalize_peer, reward_peer, reconnect_peers;
    try (by rewrite dead_reading); try (by rewrite dead_writing).
  unfold mbind, L_bind. by rewrite dead_reading.
Qed.

(** *** [add_peer] *)

Definition fresh_entry (now : Z) (id : PeerId) (address : Bytes) (connected : bool) : PeerInfo :=
  {| peer_id := id; peer_address := address; last_seen := now; is_connected := connected;
     dag_height := 0; score := 100 |}.

Lemma add_peer_cases now id address st :
  unlocked st ->
  match add_peer now id address st with
  | (None, st') =>
      (size (peers st) < max_peers st)%nat /\ dead st' /\ peers st' = peers st /\
      max_peers st' = max_peers st /\
      exists exp, bans st !! id = Some exp /\ exp <= now
  | (Some (Err _), st') =>
      st' = st /\ ((max_peers st <= size (peers st))%nat \/ (exists exp, bans st !! id = Some exp /\ now < exp) \/
        bans st !! id = None /\ exists p, peers st !! id = Some p /\ is_connected p = true)
  | (Some (Ok _), st') =>
      (size (peers st) < max_peers st)%nat /\ bans st !! id = None /\
      exists p, st' = with_peers (insert id p) st /\ score p = 100 /\
        peer_id p = default id (peer_id <$> peers st !! id) /\
        is_connected p = bool_decide (is_Some (peers st !! id))
  end.
Proof.
  destruct st as [ps bs mx [] []]; intros [Hp Hb]; simplify_eq/=.
  unfold add_peer, writing, check_ban, enter_peer, mbind, L_bind, mret, L_ret. cbn.
  destruct (Nat.leb_spec mx (size ps)) as [Hfull|Hroom]; cbn; [split; [done|by left]|].
  destruct (bs !! id) as [exp|] eqn:Hban; cbn.
  - destruct (Z.ltb_spec now exp); cbn; [split; [done|]; right; left; eauto|].
    do 4 (split; [done|]). eauto.
  - destruct (ps !! id) as [p|] eqn:Hid; cbn.
    + destruct (is_connected p) eqn:Hc; cbn; [split; [done|]; right; right; eauto|].
      do 2 (split; [done|]). by eexists.
    + do 2 (split; [done|]). by eexists.
Qed.

Lemma mark_connected_spec now ids st :
  unlocked st ->
  mark_connected now ids st =
    (Some tt, with_peers (fun m => foldl (fun (m : gmap PeerId PeerInfo) id => alter (with_status now true) id m) m ids) st).
Proof.
  revert st. induction ids as [|id ids IH]; intros st Hu; cbn [mark_connected foldl].
  - by destruct st.
  - unfold mbind, L_bind, update_peer_status. rewrite writing_set by done.
    rewrite IH by done. by destruct st.
Qed.

Lemma reconnect_peers_spec now st :
  unlocked st ->
  reconnect_peers now st =
    (Some tt, with_peers (fun m => foldl (fun (m : gmap PeerId PeerInfo) id => alter (with_status now true) id m) m
                                     (disconnected_ids (peers st))) st).
Proof.
  intros Hu. unfold reconnect_peers, mbind, L_bind. rewrite reading_get by (done || by destruct st).
  by apply mark_connected_spec.
Qed.

Lemma penalize_peer_spec now id points st :
  unlocked st ->
  penalize_peer now id points st =
    (Some tt,
     match peers st !! id with
     | None => st
     | Some p =>
         let score := i32_sub (score p) points in
         if score <=? 0 then
           {| peers := <[id := with_score score false p]> (peers st);
              bans := <[id := u64_add now (24 * 3600)]> (bans st); max_peers := max_peers st;
              peers_lock := peers_lock st; bans_lock := bans_lock st |}
         else with_peers (insert id (with_score score (is_connected p) p)) st
     end).
Proof.
  destruct st as [ps bs mx [] []]; intros [Hp Hb]; simplify_eq/=.
  unfold penalize_peer, writing, mbind, L_bind, mret, L_ret. cbn.
  destruct (ps !! id) as [p|]; cbn; [|done]. by destruct (_ <=? 0).
Qed.
End PeerFacts.

Section PeerTheorems.
Context `{HashOrder}.
Implicit Types (st : PeerManager) (id : PeerId) (ids : list PeerId) (now : Z).

(** A request to add a peer whose ban has run out, with room in the table. *)
Definition meets_expired_ban (c : call) st : Prop :=
  match c with
  | AddPeer now id _ =>
      (size (peers st) < max_peers st)%nat /\ exists exp, bans st !! id = Some exp /\ exp <= now
  | _ => False
  end.

(** The state after a call made while nobody holds a lock. *)
Lemma call_cases c st :
  unlocked st ->
  (run_call c st).1 = true /\ unlocked (run_call c st).2 /\ ~ meets_expired_ban c st \/
  (run_call c st).1 = false /\ dead (run_call c st).2 /\ meets_expired_ban c st.
Proof.
  intros Hu. destruct c as [now id a|id|now id b|id h| | |id|n|now| |now|now id pts|id pts];
    cbn [run_call meets_expired_ban].
  2-13: left; split_and!; [..|tauto]; unfold finished, remove_peer, update_peer_status,
    update_peer_height, get_connected_peers, get_all_peers, get_peer_info, get_sync_peers,
    cleanup_stale_peers, reward_peer;
    rewrite ?writing_set, ?reconnect_peers_spec, ?penalize_peer_spec, ?discover_peers_spec by done;
    try (rewrite reading_get by (done || by destruct st)); try done.
  - pose proof (add_peer_cases now id a st Hu) as Hc. unfold finished.
    destruct (add_peer now id a st) as [[[[]|e]|] st']; cbn [fst snd] in *.
    + destruct Hc as (_ & Hn & p & -> & _). left. split; [done|]. split; [done|].
      intros (_ & exp & Hb & _). by rewrite Hn in Hb.
    + destruct Hc as [-> Hc]. left. split; [done|]. split; [done|]. intros (Hroom & exp & Hb & Hle).
      destruct Hc as [?|[(exp' & Hb' & ?)|[Hn _]]]; [lia|simplify_eq; lia|by rewrite Hn in Hb].
    + destruct Hc as (Hroom & Hd & _ & _ & exp & Hb & Hle). right. split; [done|]. split; [done|]. eauto.
  - cbn. destruct (peers st !! id); [|done]. by destruct (_ <=? 0).
Qed.

Fixpoint run_calls (cs : list call) st : list bool * PeerManager :=
  match cs with
  | [] => ([], st)
  | c :: cs => let '(b, st) := run_call c st in let '(bs, st) := run_calls cs st in (b :: bs, st)
  end.

Lemma dead_calls cs st : dead st -> run_calls cs st = (replicate (length cs) false, st).
Proof.
  intros Hd. induction cs as [|c cs IH]; [done|]. cbn [run_calls length replicate].
  by rewrite dead_call, IH.
Qed.

(** C23: a ban that has run out takes the peer table down with it.  Called while
    nobody holds a lock, a method returns and releases its locks - unless it is
    [add_peer] for a peer whose ban is over, with room in the table: that call
    asks for the ban list's write lock while it still holds its read lock and waits
    for ever, with the table locked, so that from then on no call of any
    method returns, whoever makes it. *)
Theorem expired_ban_deadlocks c st cs :
  unlocked st ->
  (~ meets_expired_ban c st -> (run_call c st).1 = true /\ unlocked (run_call c st).2) /\
  (meets_expired_ban c st ->
     (run_call c st).1 = false /\
     (run_calls cs (run_call c st).2).1 = replicate (length cs) false).
Proof.
  intros Hu. destruct (call_cases c st Hu) as [(Hf & Hu' & Hn)|(Hf & Hd & Hm)];
    (split; [|]); intros ?; try done. split; [done|]. by rewrite dead_calls.
Qed.

(** *** What the table holds *)

Definition keyed (m : gmap PeerId PeerInfo) : Prop := map_Forall (fun id p => peer_id p = id) m.
Definition table_ok (max : nat) st : Prop :=
  max_peers st = max /\ (size (peers st) <= max)%nat /\ keyed (peers st).

Lemma keyed_alter f id m : (forall p, peer_id (f p) = peer_id p) -> keyed m -> keyed (alter f id m).
Proof.
  intros Hf Hk i p. destruct (decide (id = i)) as [->|Hne].
  - rewrite lookup_alter_eq. intros (q & Hq & ->)%fmap_Some_1. rewrite Hf. by apply Hk.
  - rewrite lookup_alter_ne by done. apply Hk.
Qed.
Lemma size_alter (f : PeerInfo -> PeerInfo) id (m : gmap PeerId PeerInfo) : size (alter f id m) = size m.
Proof. by rewrite <- !(size_dom (D := gset PeerId)), dom_alter_L. Qed.

Lemma table_alter max f id st :
  (forall p, peer_id (f p) = peer_id p) -> table_ok max st -> table_ok max (with_peers (alter f id) st).
Proof.
  intros Hf (Hm & Hs & Hk). split; [done|]. cbn. split; [by rewrite size_alter|by apply keyed_alter].
Qed.
Lemma table_alter_all max f ids st :
  (forall p, peer_id (f p) = peer_id p) -> table_ok max st ->
  table_ok max (with_peers (fun m => foldl (fun (m : gmap PeerId PeerInfo) id => alter f id m) m ids) st).
Proof.
  intros Hf. revert st. induction ids as [|id ids IH]; intros st Ht; [by destruct st|].
  exact (IH (with_peers (alter f id) st) (table_alter max f id st Hf Ht)).
Qed.
Lemma table_subseteq max f st :
  (forall m, f m ⊆ m) -> table_ok max st -> table_ok max (with_peers f st).
Proof.
  intros Hf (Hm & Hs & Hk). split; [done|]. cbn. split.
  - etrans; [|exact Hs]. rewrite <- !(size_dom (D := gset PeerId)). apply subseteq_size, subseteq_dom, Hf.
  - intros i p Hp. apply Hk. by eapply lookup_weaken.
Qed.
Lemma table_insert max id p st :
  peer_id p = id -> ((size (peers st) < max_peers st)%nat \/ is_Some (peers st !! id)) ->
  table_ok max st -> table_ok max (with_peers (insert id p) st).
Proof.
  intros Hp Hroom (Hm & Hs & Hk). split; [done|]. cbn. split.
  - destruct (peers st !! id) as [q|] eqn:Hq.
    + by rewrite map_size_insert, Hq.
    + rewrite map_size_insert, Hq. destruct Hroom as [?|[]]; [lia|done].
  - by apply map_Forall_insert_2.
Qed.

Lemma call_keeps_table max c st :
  unlocked st \/ dead st -> table_ok max st ->
  (unlocked (run_call c st).2 \/ dead (run_call c st).2) /\ table_ok max (run_call c st).2.
Proof.
  intros [Hu|Hd] Ht; [|rewrite dead_call by done; split; [by right|done]].
  split; [destruct (call_cases c st Hu) as [(_ & ? & _)|(_ & ? & _)]; auto|].
  destruct c as [now id a|id|now id b|id h| | |id|n|now| |now|now id pts|id pts]; cbn [run_call];
    unfold finished; cbn [snd].
  - pose proof (add_peer_cases now id a st Hu) as Hc.
    destruct (add_peer now id a st) as [[[[]|e]|] st']; cbn [snd].
    + destruct Hc as (Hroom & _ & p & -> & _ & Hp & _). apply table_insert; [|by left|done].
      rewrite Hp. destruct (peers st !! id) as [q|] eqn:Hq; [|done]. cbn. by apply Ht.
    + by destruct Hc as [-> _].
    + destruct Hc as (_ & _ & Hp & Hm & _). destruct Ht as (? & ? & ?). unfold table_ok.
      by rewrite Hp, Hm.
  - unfold remove_peer. rewrite writing_set by done. cbn. apply table_subseteq; [|done].
    intros m. apply delete_subseteq.
  - unfold update_peer_status. rewrite writing_set by done. by apply table_alter.
  - unfold update_peer_height. rewrite writing_set by done. by apply table_alter.
  - unfold get_connected_peers. by rewrite reading_get by (done || by destruct st).
  - unfold get_all_peers. by rewrite reading_get by (done || by destruct st).
  - unfold get_peer_info. by rewrite reading_get by (done || by destruct st).
  - unfold get_sync_peers. by rewrite reading_get by (done || by destruct st).
  - unfold cleanup_stale_peers. rewrite writing_set by done. apply table_subseteq; [|done].
    intros m. apply map_filter_subseteq.
  - by rewrite discover_peers_spec.
  - rewrite reconnect_peers_spec by done. by apply table_alter_all.
  - rewrite penalize_peer_spec by done. cbn. destruct (peers st !! id) as [p|] eqn:Hp; [|done].
    pose proof (proj2 (proj2 Ht) id p Hp) as Hid.
    destruct (_ <=? 0).
    + exact (table_insert max id (with_score (i32_sub (score p) pts) false p) st Hid
        (or_intror (ex_intro _ p Hp)) Ht).
    + exact (table_insert max id (with_score (i32_sub (score p) pts) (is_connected p) p) st Hid
        (or_intror (ex_intro _ p Hp)) Ht).
  - unfold reward_peer. rewrite writing_set by done. by apply table_alter.
Qed.

Lemma reached_table max st :
  rtc call_step (new max) st -> (unlocked st \/ dead st) /\ table_ok max st.
Proof.
  intros Hsteps.
  assert (unlocked (new max) \/ dead (new max)) as Hu by (by left).
  assert (table_ok max (new max)) as Ht.
  { split; [done|]. split; [cbn; rewrite map_size_empty; lia|apply map_Forall_empty]. }
  revert Hu Ht. induction Hsteps as [st|st1 st2 st3 [c ->] _ IH]; intros Hu Ht; [done|].
  destruct (call_keeps_table max c st1 Hu Ht). by apply IH.
Qed.

(** In every state reached by calls of the methods, in any order and with any
    arguments, the table has at most the allowed number of peers, each under its own
    id, and between two calls the locks are free, or the table is locked for
    ever. *)
Theorem peer_table_bounded max st :
  rtc call_step (new max) st ->
  (unlocked st \/ dead st) /\ (size (peers st) <= max)%nat /\
  forall id p, peers st !! id = Some p -> peer_id p = id.
Proof. intros Hsteps. by destruct (reached_table max st Hsteps) as [? (_ & ? & ?)]. Qed.

(** *** Reconnection *)

Lemma with_status_twice now b p : with_status now b (with_status now b p) = with_status now b p.
Proof. done. Qed.

Lemma mark_all_lookup now ids (m : gmap PeerId PeerInfo) id :
  foldl (fun (m : gmap PeerId PeerInfo) id => alter (with_status now true) id m) m ids !! id =
    if decide (id ∈ ids) then with_status now true <$> m !! id else m !! id.
Proof.
  revert m. induction ids as [|i ids IH]; intros m; cbn [foldl].
  { by rewrite decide_False by apply not_elem_of_nil. }
  rewrite IH. destruct (decide (i = id)) as [->|Hne].
  - rewrite lookup_alter_eq, (decide_True (P := id ∈ id :: ids)) by left.
    case_decide; [|done]. by destruct (m !! id).
  - rewrite lookup_alter_ne by done. repeat case_decide; set_solver.
Qed.

Lemma elem_of_connected (m : gmap PeerId PeerInfo) id :
  keyed m -> id ∈ connected_ids m <-> exists p, m !! id = Some p /\ is_connected p = true.
Proof.
  intros Hk. unfold connected_ids. rewrite list_elem_of_fmap. split.
  - intros (p & -> & [Hc Hin]%list_elem_of_filter). apply list_elem_of_fmap in Hin as ([i q] & -> & Hi).
    apply elem_of_hm_iter in Hi. exists q. cbn. by rewrite (Hk i q Hi).
  - intros (p & Hp & Hc). exists p. split; [by rewrite (Hk id p Hp)|].
    apply list_elem_of_filter. split; [done|]. apply list_elem_of_fmap. exists (id, p).
    split; [done|]. by apply elem_of_hm_iter.
Qed.
Lemma elem_of_disconnected (m : gmap PeerId PeerInfo) id p :
  keyed m -> m !! id = Some p -> is_connected p = false -> id ∈ disconnected_ids m.
Proof.
  intros Hk Hp Hc. unfold disconnected_ids. apply list_elem_of_fmap. exists p.
  split; [by rewrite (Hk id p Hp)|]. apply list_elem_of_filter. split; [done|].
  apply list_elem_of_fmap. exists (id, p). split; [done|]. by apply elem_of_hm_iter.
Qed.

(** A ban does not keep a peer out.  A peer whose score falls to zero is
    disconnected and banned for a day; the next [reconnect_peers] marks it as
    connected again, so that messages are sent to it, while its ban stands. *)
Theorem banned_peer_reconnected now now' id points p st :
  unlocked st -> keyed (peers st) -> peers st !! id = Some p -> i32_sub (score p) points <= 0 ->
  let st1 := (penalize_peer now id points st).2 in
  let st2 := (reconnect_peers now' st1).2 in
  id ∉ connected_ids (peers st1) /\
  bans st2 !! id = Some (u64_add now (24 * 3600)) /\ id ∈ connected_ids (peers st2).
Proof.
  intros Hu Hk Hp Hs. cbn zeta. rewrite penalize_peer_spec, Hp by done. cbn [snd].
  rewrite (proj2 (Z.leb_le _ _) Hs). rewrite reconnect_peers_spec by exact Hu. cbn [snd peers bans with_peers].
  set (q := with_score _ false p).
  assert (keyed (<[id := q]> (peers st))) as Hk1 by (apply map_Forall_insert_2; [exact (Hk id p Hp)|exact Hk]).
  split; [|split; [apply lookup_insert_eq|]].
  - intros (q' & Hq & Hc)%elem_of_connected; [|done]. rewrite lookup_insert_eq in Hq. by simplify_eq.
  - apply elem_of_connected.
    + clear -Hk1. generalize (disconnected_ids (<[id:=q]> (peers st))) as ids. intros ids.
      revert Hk1. generalize (<[id:=q]> (peers st)) as m. induction ids as [|i ids IH]; intros m Hk; [done|].
      cbn. apply IH. by apply keyed_alter.
    + exists (with_status now' true q). split; [|done]. rewrite mark_all_lookup, lookup_insert_eq.
      rewrite decide_True; [done|]. by apply (elem_of_disconnected _ id q); [|apply lookup_insert_eq|].
Qed.

(** *** The peers to synchronize with *)

Lemma sorted_prefix {A} (R : A -> A -> Prop) n (l : list A) x y :
  StronglySorted R l -> x ∈ take n l -> y ∈ l -> y ∈ take n l \/ R x y.
Proof.
  intros Hs Hx Hy. rewrite <- (take_drop n l) in Hs, Hy. apply elem_of_app in Hy as [?|Hy]; [by left|].
  right. apply StronglySorted_app in Hs as (Hxy & _). by apply Hxy.
Qed.

(** [get_sync_peers] picks connected peers of the table with the greatest
    heights, highest first, as many as asked for or as there are, whatever the
    order of the table. *)
Theorem get_sync_peers_spec count st :
  unlocked st ->
  exists ps, get_sync_peers count st = (Some (peer_id <$> ps), st) /\
    length ps = Nat.min count (length (connected_ids (peers st))) /\
    StronglySorted (fun a b => dag_height b <= dag_height a) ps /\
    (forall p, p ∈ ps -> is_connected p = true /\ exists id, peers st !! id = Some p) /\
    forall id q p, peers st !! id = Some q -> is_connected q = true -> p ∈ ps ->
      q ∈ ps \/ dag_height q <= dag_height p.
Proof.
  intros Hu. unfold get_sync_peers. rewrite reading_get by (done || by destruct st).
  unfold sync_ids. set (l := filter _ _). eexists. split; [done|].
  assert (StronglySorted (fun a b => dag_height b <= dag_height a) (sort_by_key (fun p => - dag_height p) l)) as Hs.
  { eapply sorted_weaken; [|apply sort_by_key_sorted]. cbn. lia. }
  assert (forall p, p ∈ sort_by_key (fun p => - dag_height p) l <->
    is_connected p = true /\ exists id, peers st !! id = Some p) as Hin.
  { intros p. unfold sort_by_key. rewrite elem_of_sort_by. unfold l. rewrite list_elem_of_filter, list_elem_of_fmap.
    split; intros [Hc Hx]; (split; [done|]).
    - destruct Hx as ([i q] & -> & Hi). exists i. by apply elem_of_hm_iter.
    - destruct Hx as [i Hi]. exists (i, p). split; [done|]. by apply elem_of_hm_iter. }
  split; [|split; [|split]].
  - rewrite length_take. f_equal. unfold connected_ids. rewrite length_fmap. fold l.
    apply sort_by_length.
  - rewrite <- (take_drop count (sort_by_key _ l)) in Hs. eapply StronglySorted_app_1_l, Hs.
  - intros p Hp. apply Hin. rewrite <- (take_drop count (sort_by_key _ l)). apply elem_of_app. by left.
  - intros id q p Hq Hc Hp. eapply (sorted_prefix _ _ _ p q Hs Hp). apply Hin. eauto.
Qed.
End PeerTheorems.

(** ** Witnesses *)

#[local] Existing Instance canonical_order.

Definition alice : PeerId := [1].
Definition bob : PeerId := [2].
(** Two peers; the first is penalized to zero, which bans it until 86407. *)
Definition two_peers : PeerManager :=
  Eval vm_compute in
    (run_calls [AddPeer 5 alice []; AddPeer 5 bob []; UpdateStatus 6 alice true; UpdateStatus 6 bob true;
                UpdateHeight bob 7; Penalize 7 alice 100] (new 3)).2.

Lemma two_peers_reached : rtc call_step (new 3) two_peers.
Proof.
  assert (forall cs st, rtc call_step st (run_calls cs st).2) as Hr.
  { induction cs as [|c cs IH]; intros st; [done|]. cbn [run_calls].
    specialize (IH (run_call c st).2). destruct (run_call c st) as [b st1] eqn:Hc. cbn [snd] in IH.
    destruct (run_calls cs st1) as [bs st2]. eapply rtc_l; [|exact IH]. exists c. by rewrite Hc. }
  exact (Hr [AddPeer 5 alice []; AddPeer 5 bob []; UpdateStatus 6 alice true; UpdateStatus 6 bob true;
             UpdateHeight bob 7; Penalize 7 alice 100] (new 3)).
Qed.

Lemma two_peers_unlocked : unlocked two_peers.
Proof. split; reflexivity. Qed.

(** A day later the peer comes back. *)
Lemma expired_ban_deadlocks_witness :
  (run_call (AddPeer 86407 alice []) two_peers).1 = false /\
  (run_calls [GetConnected; Discover] (run_call (AddPeer 86407 alice []) two_peers).2).1 = [false; false].
Proof.
  apply (expired_ban_deadlocks (AddPeer 86407 alice []) two_peers [GetConnected; Discover]
    two_peers_unlocked).
  split; [vm_compute; lia|]. exists 86407. split; [vm_compute; reflexivity|lia].
Defined.

Lemma peer_table_bounded_witness :
  (unlocked two_peers \/ dead two_peers) /\ (size (peers two_peers) <= 3)%nat /\
  size (peers two_peers) = 2%nat.
Proof.
  destruct (peer_table_bounded 3 two_peers two_peers_reached) as (Hu & Hs & _).
  split; [exact Hu|]. split; [exact Hs|]. vm_compute. reflexivity.
Defined.

Definition connected_bob : PeerInfo :=
  {| peer_id := bob; peer_address := []; last_seen := 6; is_connected := true; dag_height := 7;
     score := 100 |}.

Lemma banned_peer_reconnected_witness :
  let st2 := (reconnect_peers 9 (penalize_peer 8 bob 100 two_peers).2).2 in
  bans st2 !! bob = Some (u64_add 8 (24 * 3600)) /\ bob ∈ connected_ids (peers st2).
Proof.
  apply (banned_peer_reconnected 8 9 bob 100 connected_bob two_peers two_peers_unlocked).
  - apply (reached_table 3 two_peers two_peers_reached).
  - vm_compute. reflexivity.
  - vm_compute. discriminate.
Defined.

Lemma get_sync_peers_spec_witness :
  exists ps, get_sync_peers 5 two_peers = (Some (peer_id <$> ps), two_peers) /\ length ps = 1%nat.
Proof.
  destruct (get_sync_peers_spec 5 two_peers two_peers_unlocked) as (ps & Hg & Hl & _).
  exists ps. split; [exact Hg|]. rewrite Hl. vm_compute. reflexivity.
Defined.
