(* ===== verification/Gossip.v ===== *)
(** Messages and their spreading: [src/src/network/message.rs] and
    [src/src/network/gossip.rs].

    A task ([T]) returns a result or blocks for ever on the peer table.  The
    unbounded channel of tokio that carries outgoing messages is an interface
    ([MessageSender]).  The guards of the seen sets end before the peers
    are asked, so each method is one step. *)
From S2P Require Import Prelude Crypto Transaction Floats Mining Block Peers.

Inductive NetworkMessage :=
  | NewBlock (b : Block)
  | NewTransaction (tx : Transaction)
  | RequestBlock (h : BlockHash)
  | RequestDag
  | DagResponse (blocks : list Block)
  | GetHeaders (start : BlockHash) (max : nat)
  | Headers (headers : list (BlockHash * BlockHeader))
  | GetBlocks (hashes : list BlockHash)
  | Blocks (blocks : list Block)
  | RequestState
  | StateSnapshot (data : Bytes).

(** [mpsc::UnboundedSender<(PeerId, NetworkMessage)>]: sending fails when the
    receiver is gone, and otherwise appends. *)
Class MessageSender (Ch : Type) := send : PeerId * NetworkMessage -> Ch -> result unit * Ch.
Class MessageSenderLaws (Ch : Type) `{MessageSender Ch} := {
  sent : Ch -> list (PeerId * NetworkMessage);
  sent_ok m c : is_ok (send m c).1 = true -> sent (send m c).2 = sent c ++ [m];
  sent_err m c : is_ok (send m c).1 = false -> sent (send m c).2 = sent c
}.

(** ** Tasks *)

(** [None]: the task waits for ever. *)
Definition T (S A : Type) : Type := S -> option (result A) * S.
#[global] Instance T_ret {S} : MRet (T S) := fun A a s => (Some (Ok a), s).
#[global] Instance T_bind {S} : MBind (T S) := fun A B f m s =>
  match m s with
  | (Some (Ok a), s') => f a s'
  | (Some (Err e), s') => (Some (Err e), s')
  | (None, s') => (None, s')
  end.
Definition task {S A} (m : M S A) : T S A := fun s => let '(r, s') := m s in (Some r, s').

(** ** The protocol *)

Record GossipProtocol (Ch : Type) := {
  gossip_peers : PeerManager;
  gossip_sender : Ch;
  seen_blocks : gset BlockHash;
  seen_transactions : gset Hash
}.
Arguments gossip_peers {Ch} _.
Arguments gossip_sender {Ch} _.
Arguments seen_blocks {Ch} _.
Arguments seen_transactions {Ch} _.

Definition gossip_new {Ch} (pm : PeerManager) (sender : Ch) : GossipProtocol Ch :=
  {| gossip_peers := pm; gossip_sender := sender; seen_blocks := ∅; seen_transactions := ∅ |}.

Section Gossip.
Context `{Sha256} `{HashOrder} {Ch : Type} `{MessageSender Ch}.
Abbreviation G := (GossipProtocol Ch).
Implicit Types g : G.

Definition set_gossip_peers (pm : PeerManager) g : G :=
  {| gossip_peers := pm; gossip_sender := gossip_sender g; seen_blocks := seen_blocks g;
     seen_transactions := seen_transactions g |}.
Definition set_gossip_sender (c : Ch) g : G :=
  {| gossip_peers := gossip_peers g; gossip_sender := c; seen_blocks := seen_blocks g;
     seen_transactions := seen_transactions g |}.
Definition set_seen_blocks (s : gset BlockHash) g : G :=
  {| gossip_peers := gossip_peers g; gossip_sender := gossip_sender g; seen_blocks := s;
     seen_transactions := seen_transactions g |}.
Definition set_seen_transactions (s : gset Hash) g : G :=
  {| gossip_peers := gossip_peers g; gossip_sender := gossip_sender g;
     seen_blocks := seen_blocks g; seen_transactions := s |}.

(** A call of the shared peer manager. *)
Definition gossip_call {A} (m : L A) : T G A := fun g =>
  let '(a, pm) := m (gossip_peers g) in (Ok <$> a, set_gossip_peers pm g).

(** A failed [send] is logged. *)
Definition send_all (message : NetworkMessage) (peers : list PeerId) (c : Ch) : Ch :=
  foldl (fun c peer => (send (peer, message) c).2) c peers.

Definition broadcast_message (message : NetworkMessage) : T G unit :=
  gossip_call get_connected_peers ≫= fun peers =>
  task (modify (fun g => set_gossip_sender (send_all message peers (gossip_sender g)) g)).

Definition broadcast_block (b : Block) : T G unit := fun g =>
  if decide (block_hash b ∈ seen_blocks g) then (Some (Ok tt), g)
  else broadcast_message (NewBlock b) (set_seen_blocks ({[block_hash b]} ∪ seen_blocks g) g).

Definition broadcast_transaction (tx : Transaction) : T G unit := fun g =>
  if decide (hash tx ∈ seen_transactions g) then (Some (Ok tt), g)
  else broadcast_message (NewTransaction tx)
         (set_seen_transactions ({[hash tx]} ∪ seen_transactions g) g).

Definition handle_gossip_message (message : NetworkMessage) : T G unit := fun g =>
  match message with
  | NewBlock b =>
      if decide (block_hash b ∈ seen_blocks g) then (Some (Ok tt), g)
      else
        broadcast_message (NewBlock b) (set_seen_blocks ({[block_hash b]} ∪ seen_blocks g) g)
  | NewTransaction tx =>
      if decide (hash tx ∈ seen_transactions g) then (Some (Ok tt), g)
      else
        broadcast_message (NewTransaction tx)
          (set_seen_transactions ({[hash tx]} ∪ seen_transactions g) g)
  | _ => (Some (Ok tt), g)
  end.

(** One round of the loop of [cleanup_seen_messages]. *)
Definition cleanup_seen_messages g : G := set_seen_transactions ∅ (set_seen_blocks ∅ g).

(** What happens around the protocol between two cleanups: its own calls, and
    calls of the peer manager by anyone. *)
Inductive gossip_event :=
  | Broadcast (b : Block)
  | BroadcastTx (tx : Transaction)
  | Handle (m : NetworkMessage)
  | PeerCall (c : call).

Definition gossip_run (e : gossip_event) g : G :=
  match e with
  | Broadcast b => (broadcast_block b g).2
  | BroadcastTx tx => (broadcast_transaction tx g).2
  | Handle m => (handle_gossip_message m g).2
  | PeerCall c => set_gossip_peers (run_call c (gossip_peers g)).2 g
  end.
End Gossip.

(** ** Once per peer *)
Section GossipFacts.
Context `{Sha256} `{HashOrder} {Ch : Type} `{MessageSenderLaws Ch}.
Implicit Types (g : GossipProtocol Ch) (p : PeerId) (h : BlockHash).

Definition is_copy p h (m : PeerId * NetworkMessage) : Prop :=
  m.1 = p /\ match m.2 with NewBlock b => block_hash b = h | _ => False end.
#[local] Instance is_copy_dec p h m : Decision (is_copy p h m).
Proof. unfold is_copy. destruct m as [q []]; apply _. Defined.

(** How often a block of that hash has been sent to the peer. *)
Definition copies p h (c : Ch) : nat := length (filter (is_copy p h) (sent c)).

Lemma copies_send p h m (c : Ch) :
  (copies p h (send m c).2 <= copies p h c + (if decide (is_copy p h m) then 1 else 0))%nat.
Proof.
  unfold copies. destruct (is_ok (send m c).1) eqn:Hs.
  - rewrite (sent_ok _ _ Hs), filter_app, length_app, filter_cons, filter_nil.
    destruct (decide _); cbn; lia.
  - rewrite (sent_err _ _ Hs). lia.
Qed.

Lemma copies_send_all p h message ids (c : Ch) :
  NoDup ids ->
  (copies p h (send_all message ids c) <=
   copies p h c + (if decide (p ∈ ids /\ is_copy p h (p, message)) then 1 else 0))%nat.
Proof.
  intros Hnd. revert c. induction Hnd as [|q ids Hq _ IH]; intros c; cbn [send_all foldl].
  { rewrite decide_False; [lia|]. by intros [?%not_elem_of_nil _]. }
  etrans; [apply IH|]. pose proof (copies_send p h (q, message) c) as Hc.
  destruct (decide (is_copy p h (q, message))) as [Hi|Hi].
  - pose proof Hi as [Hqp Hm]. cbn in Hqp. subst q.
    rewrite (decide_False (P := p ∈ ids /\ _)) by (by intros [? _]).
    rewrite decide_True by (split; [by left|done]). lia.
  - destruct (decide (p ∈ ids /\ is_copy p h (p, message))) as [[Hin Hcp]|Hn].
    + rewrite decide_True by (split; [by right|done]). lia.
    + destruct (decide _); lia.
Qed.

(** The potential: copies sent plus one if a first copy may still come. *)
Definition potential p h g : nat :=
  (copies p h (gossip_sender g) + (if decide (h ∈ seen_blocks g) then 0 else 1))%nat.

Lemma NoDup_connected_ids (m : gmap PeerId PeerInfo) : keyed m -> NoDup (connected_ids m).
Proof.
  intros Hk. unfold connected_ids.
  assert (NoDup (peer_id <$> (hm_iter m).*2)) as Hnd.
  { rewrite <- list_fmap_compose.
    rewrite (list_fmap_ext (peer_id ∘ snd) fst (hm_iter m)); [apply NoDup_hm_iter_fst|].
    intros i [id q] Hi. apply list_elem_of_lookup_2, elem_of_hm_iter in Hi. by apply (Hk id q). }
  revert Hnd. generalize (hm_iter m).*2 as l. induction l as [|q l IH]; intros Hnd; [constructor|].
  rewrite fmap_cons, NoDup_cons in Hnd. destruct Hnd as [Hq Hnd]. rewrite filter_cons.
  case_decide; [|by apply IH]. rewrite fmap_cons. constructor; [|by apply IH].
  intros (x & Hx & [_ Hin]%list_elem_of_filter)%list_elem_of_fmap. apply Hq, list_elem_of_fmap. eauto.
Qed.

(** The table as [peer_table_bounded] leaves it. *)
Definition peers_ok g : Prop :=
  (unlocked (gossip_peers g) \/ dead (gossip_peers g)) /\ keyed (peers (gossip_peers g)).

Lemma broadcast_message_cases message g :
  peers_ok g ->
  exists c, (broadcast_message message g).2 = set_gossip_sender c g /\
    forall p h, (copies p h c <= copies p h (gossip_sender g) +
      (if decide (is_copy p h (p, message)) then 1 else 0))%nat.
Proof.
  intros [Hu Hk]. unfold broadcast_message, gossip_call, get_connected_peers.
  cbv [mbind T_bind]. destruct Hu as [Hu|Hd].
  - rewrite reading_get by (done || by destruct (gossip_peers g)). cbn.
    eexists. split; [by destruct g|]. intros p h. etrans; [by apply copies_send_all, NoDup_connected_ids|].
    repeat case_decide; try lia; tauto.
  - rewrite dead_reading by done. cbn. exists (gossip_sender g). split; [by destruct g|].
    intros. lia.
Qed.

Lemma potential_keep p h g pm c sb stx :
  (copies p h c <= copies p h (gossip_sender g))%nat -> seen_blocks g ⊆ sb ->
  (potential p h {| gossip_peers := pm; gossip_sender := c; seen_blocks := sb; seen_transactions := stx |}
   <= potential p h g)%nat.
Proof. intros Hc Hs. unfold potential. cbn. repeat case_decide; try lia; set_solver. Qed.

Lemma broadcast_block_potential p h b g :
  peers_ok g ->
  (potential p h (broadcast_block b g).2 <= potential p h g)%nat /\
  gossip_peers (broadcast_block b g).2 = gossip_peers g.
Proof.
  intros Hok. unfold broadcast_block. case_decide as Hin; [by split|].
  destruct (broadcast_message_cases (NewBlock b) (set_seen_blocks ({[block_hash b]} ∪ seen_blocks g) g) Hok)
    as (c & -> & Hc). split; [|done]. specialize (Hc p h). unfold potential, is_copy in *. cbn in *.
  repeat case_decide; try lia; try set_solver; naive_solver.
Qed.

Lemma broadcast_other_potential p h message s g :
  (forall b, message <> NewBlock b) -> peers_ok g ->
  (potential p h (broadcast_message message (set_seen_transactions s g)).2 <= potential p h g)%nat /\
  gossip_peers (broadcast_message message (set_seen_transactions s g)).2 = gossip_peers g.
Proof.
  intros Hm Hok.
  destruct (broadcast_message_cases message (set_seen_transactions s g) Hok) as (c & -> & Hc).
  split; [|done]. apply potential_keep; [|done]. specialize (Hc p h). cbn in Hc.
  rewrite decide_False in Hc; [lia|]. intros [_ Hx]. by destruct message; try done; eapply Hm.
Qed.

Lemma gossip_run_potential max p h e g :
  peers_ok g -> table_ok max (gossip_peers g) ->
  (potential p h (gossip_run e g) <= potential p h g)%nat /\
  peers_ok (gossip_run e g) /\ table_ok max (gossip_peers (gossip_run e g)).
Proof.
  intros Hok Ht.
  assert (forall g', (potential p h g' <= potential p h g)%nat /\ gossip_peers g' = gossip_peers g ->
    (potential p h g' <= potential p h g)%nat /\ peers_ok g' /\ table_ok max (gossip_peers g')) as Hgen.
  { intros g' [? Heq]. unfold peers_ok. by rewrite Heq. }
  destruct e as [b|tx|m|c]; cbn [gossip_run].
  - by apply Hgen, broadcast_block_potential.
  - apply Hgen. unfold broadcast_transaction. case_decide; [done|]. by apply broadcast_other_potential.
  - apply Hgen. destruct m; cbn; try done.
    + by apply (broadcast_block_potential p h b).
    + case_decide; [done|]. by apply broadcast_other_potential.
  - destruct (call_keeps_table max c (gossip_peers g) (proj1 Hok) Ht) as [Hu Ht'].
    split; [by apply potential_keep|]. split; [|done]. split; [exact Hu|apply Ht'].
Qed.

(** C33: gossip does not echo.  Between two cleanups, whatever is broadcast, received
    or done to the peer table, in any order, a peer is sent at most one block
    with a given hash, and none if that hash had been seen before: so a block that
    floods the network stops travelling. *)
Theorem gossip_at_most_once max p h es g :
  rtc call_step (Peers.new max) (gossip_peers g) ->
  (copies p h (gossip_sender (foldl (fun g e => gossip_run e g) g es)) <=
   copies p h (gossip_sender g) + (if decide (h ∈ seen_blocks g) then 0 else 1))%nat.
Proof.
  intros Hreach. destruct (reached_table max _ Hreach) as [Hu Ht].
  assert (peers_ok g) as Hok by (split; [done|apply Ht]). clear Hreach Hu.
  assert (potential p h (foldl (fun g e => gossip_run e g) g es) <= potential p h g)%nat as Hp;
    [|unfold potential in Hp; lia].
  revert g Ht Hok. induction es as [|e es IH]; intros g Ht Hok; cbn [foldl]; [lia|].
  destruct (gossip_run_potential max p h e g Hok Ht) as (Hle & Hok' & Ht').
  etrans; [by apply IH|done].
Qed.

(** The hash by which blocks are recognized is the one the message claims.  Nothing
    is checked before a hash counts as seen, so whoever sends any block that
    claims the hash of a good one first silences the good one: it is neither
    forwarded nor broadcast until the next cleanup. *)
Theorem claimed_hash_silences forged good g :
  block_hash forged = block_hash good ->
  let g1 := (handle_gossip_message (NewBlock forged) g).2 in
  handle_gossip_message (NewBlock good) g1 = (Some (Ok tt), g1) /\
  broadcast_block good g1 = (Some (Ok tt), g1).
Proof.
  intros Heq g1. assert (block_hash good ∈ seen_blocks g1) as Hin.
  { subst g1. cbn. rewrite Heq. case_decide as Hd; [done|].
    unfold broadcast_message, gossip_call. cbv [mbind T_bind].
    destruct (get_connected_peers _) as [[ids|] pm]; cbn; set_solver. }
  split; cbn; unfold broadcast_block; by rewrite decide_True.
Qed.
End GossipFacts.

(** ** Witnesses

    A channel whose receiver stays. *)
Definition Queue : Type := list (PeerId * NetworkMessage).
#[export] Instance queue_sender : MessageSender Queue := fun m c => (Ok tt, c ++ [m]).
#[export] Instance queue_laws : MessageSenderLaws Queue := {
  sent c := c;
  sent_ok m c _ := eq_refl;
  sent_err m c (H : true = false) := match eq_ind true (fun b => if b then True else False) I false H with end
}.

#[local] Existing Instances checksum_sha constant_exp canonical_order.

Definition news : Block := Block.new [] 10 [] 0 0 1 (replicate 20 0) (replicate 32 0).
(** The same hash on another content. *)
Definition forgery : Block :=
  with_hash (Block.new [] 11 [] 7 0 1 (replicate 20 0) (replicate 32 0)) (block_hash news).
Definition quiet : GossipProtocol Queue := gossip_new two_peers [].

Lemma gossip_at_most_once_witness :
  copies bob (block_hash news)
    (gossip_sender (foldl (fun g e => gossip_run e g) quiet
       [Handle (NewBlock news); PeerCall (Reconnect 9); Broadcast news; Handle (NewBlock news)])) = 1%nat.
Proof.
  apply Nat.le_antisymm; [|vm_compute; lia].
  exact (gossip_at_most_once 3 bob (block_hash news)
    [Handle (NewBlock news); PeerCall (Reconnect 9); Broadcast news; Handle (NewBlock news)]
    quiet two_peers_reached).
Defined.

Lemma claimed_hash_silences_witness :
  let g1 := (handle_gossip_message (NewBlock forgery) quiet).2 in
  block_hash forgery = block_hash news /\ timestamp (header forgery) <> timestamp (header news) /\
  broadcast_block news g1 = (Some (Ok tt), g1).
Proof.
  split; [vm_compute; reflexivity|]. split; [vm_compute; discriminate|].
  apply (claimed_hash_silences forgery news quiet). vm_compute. reflexivity.
Defined.
