(* ===== verification/Sync.v ===== *)
(** Block synchronization: [src/src/network/sync_manager.rs].

    The manager shares the DAG, the peers, the outgoing channel and the state with
    the node; they are fields here and the node writes them back.  The
    guards of the pending set end with each statement, and the DAG's write lock is held for
    a whole response, so every method is one step.  The rounds of the periodic
    check are calls of its body. *)
From S2P Require Import Prelude Crypto Transaction Floats Mining Block StateTree StateManager.
From S2P Require Import Graph Store DagIndex BlockDag Kv Peers Gossip.

Record SyncManager (St Ch : Type) := {
  sync_dag : BlockDAG St;
  sync_peers : PeerManager;
  sync_sender : Ch;
  pending_requests : gset BlockHash;
  sync_state : StateManager
}.
Arguments sync_dag {St Ch} _.
Arguments sync_peers {St Ch} _.
Arguments sync_sender {St Ch} _.
Arguments pending_requests {St Ch} _.
Arguments sync_state {St Ch} _.

Definition sync_new {St Ch} (dag : BlockDAG St) (pm : PeerManager) (sender : Ch) (state : StateManager)
    : SyncManager St Ch :=
  {| sync_dag := dag; sync_peers := pm; sync_sender := sender; pending_requests := ∅;
     sync_state := state |}.

Section Sync.
Context `{Sha256} `{LibM} `{HashOrder} {St : Type} `{BlockStoreI St} {Ch : Type} `{MessageSender Ch}
  `{Codec StateManager}.
Abbreviation S := (SyncManager St Ch).
Implicit Types s : S.

Definition set_sync_dag (d : BlockDAG St) s : S :=
  {| sync_dag := d; sync_peers := sync_peers s; sync_sender := sync_sender s;
     pending_requests := pending_requests s; sync_state := sync_state s |}.
Definition set_sync_peers (pm : PeerManager) s : S :=
  {| sync_dag := sync_dag s; sync_peers := pm; sync_sender := sync_sender s;
     pending_requests := pending_requests s; sync_state := sync_state s |}.
Definition set_sync_sender (c : Ch) s : S :=
  {| sync_dag := sync_dag s; sync_peers := sync_peers s; sync_sender := c;
     pending_requests := pending_requests s; sync_state := sync_state s |}.
Definition set_pending (p : gset BlockHash) s : S :=
  {| sync_dag := sync_dag s; sync_peers := sync_peers s; sync_sender := sync_sender s;
     pending_requests := p; sync_state := sync_state s |}.

Definition sync_call {A} (m : L A) : T S A := fun s =>
  let '(a, pm) := m (sync_peers s) in (Ok <$> a, set_sync_peers pm s).

(** [self.message_sender.send((peer, message))] *)
Definition sync_send (peer : PeerId) (message : NetworkMessage) : M S unit := fun s =>
  let '(r, c) := send (peer, message) (sync_sender s) in (r, set_sync_sender c s).

Definition start_sync : T S unit :=
  sync_call (get_sync_peers 1) ≫= fun peers =>
  match peers with
  | peer :: _ => task (fun s => let '(r, s') := sync_send peer RequestDag s in
                                (map_err "Failed to send sync request: {}" r, s'))
  | [] => mret tt
  end.

(** One received block: checked and inserted.  The clock is read twice. *)
Definition receive_block (now now' : Z) (b : Block) : M (BlockDAG St) unit :=
  if is_ok (validate_basic now b) then BlockDag.insert_block now' b else mret tt.

(** Every block comes with its two readings of the clock. *)
Definition handle_dag_response (blocks : list (Z * Z * Block)) : M S unit := fun s =>
  let '(r, dag) := for_each blocks (fun x => receive_block x.1.1 x.1.2 x.2) (sync_dag s) in
  (r, set_sync_dag dag s).

Fixpoint query_peers (message : NetworkMessage) (peers : list PeerId) s : S :=
  match peers with
  | [] => s
  | peer :: peers => query_peers message peers (sync_send peer message s).2
  end.

(** The set of missing blocks that is returned is never filled. *)
Definition ask_headers (peers : list PeerId) : T S (list BlockHash) := fun s =>
  (Some (Ok []), query_peers (GetHeaders (replicate 32 0) 1000) peers s).
Definition detect_missing_blocks : T S (list BlockHash) :=
  sync_call (get_sync_peers 3) ≫= ask_headers.

Definition request_block (peers : list PeerId) (h : BlockHash) : M S unit := fun s =>
  if decide (h ∈ pending_requests s) then (Ok tt, s)
  else
    for_each peers
      (fun peer s => let '(r, s') := sync_send peer (RequestBlock h) s in
                     (map_err "Failed to send block request: {}" r, s'))
      (set_pending ({[h]} ∪ pending_requests s) s).

Definition request_missing_blocks (hashes : list BlockHash) : T S unit :=
  sync_call (get_sync_peers 3) ≫= fun peers => task (for_each hashes (request_block peers)).

Definition handle_block_response (now now' : Z) (block : option Block) : M S unit := fun s =>
  match block with
  | None => (Ok tt, s)
  | Some b =>
      let s := set_pending (pending_requests s ∖ {[block_hash b]}) s in
      let '(r, dag) := receive_block now now' b (sync_dag s) in (r, set_sync_dag dag s)
  end.

Definition is_synced s : bool := bool_decide (pending_requests s = ∅).

Definition handle_headers (headers : list (BlockHash * BlockHeader)) : T S unit := fun s =>
  let missing := filter (fun h => dag_get_block (sync_dag s) h = None) headers.*1 in
  match missing with [] => (Some (Ok tt), s) | _ :: _ => request_missing_blocks missing s end.

(** The loop over the order: [include] is set once [from] has been passed, and
    the limit is looked at after a header has been added. *)
Fixpoint collect_headers (dag : BlockDAG St) (from : BlockHash) (max : nat) (order : list BlockHash)
    (incl : bool) (headers : list (BlockHash * BlockHeader)) : list (BlockHash * BlockHeader) :=
  match order with
  | [] => headers
  | h :: order =>
      if negb incl then collect_headers dag from max order (bool_decide (h = from)) headers
      else
        match dag_get_block dag h with
        | Some b =>
            let headers := headers ++ [(h, header b)] in
            if (max <=? length headers)%nat then headers
            else collect_headers dag from max order true headers
        | None => collect_headers dag from max order true headers
        end
  end.

Definition handle_message (peer : PeerId) (msg : NetworkMessage) : T S unit := fun s =>
  match msg with
  | GetHeaders from max =>
      let headers := collect_headers (sync_dag s) from max (dag_get_topological_order (sync_dag s))
                       (bool_decide (from = replicate 32 0)) [] in
      (Some (Ok tt), (sync_send peer (Headers headers) s).2)
  | Headers headers => handle_headers headers s
  | GetBlocks hashes =>
      let blocks := omap (dag_get_block (sync_dag s)) hashes in
      (Some (Ok tt), (sync_send peer (Blocks blocks) s).2)
  | RequestState =>
      match serialize (sync_state s) with
      | Ok snapshot => (Some (Ok tt), (sync_send peer (StateSnapshot snapshot) s).2)
      | Err e => (Some (Err e), s)
      end
  | _ => (Some (Ok tt), s)
  end.

Definition get_sync_status s : nat * nat :=
  (length (Store.get_all_blocks (store (sync_dag s))), size (pending_requests s)).

(** One round of the loop of [periodic_sync_check]. *)
Definition periodic_sync_check : T S unit := fun s =>
  if negb (is_synced s) then (Some (Ok tt), s)
  else
    match detect_missing_blocks s with
    | (Some (Ok (h :: hs)), s) =>
        match request_missing_blocks (h :: hs) s with
        | (Some _, s) => (Some (Ok tt), s)
        | (None, s) => (None, s)
        end
    | (Some _, s) => (Some (Ok tt), s)
    | (None, s) => (None, s)
    end.
End Sync.

(** ** Handing a DAG over *)
Section Replay.
Context `{Sha256Laws} `{LibM} `{HashOrder} {St : Type} `{BlockStoreLaws St}.
Implicit Types (dag : BlockDAG St) (b : Block).

(** Two DAGs whose stores answer alike. *)
Definition agree dag dag' : Prop :=
  store_ok (store dag) /\ store_ok (store dag') /\
  forall h, dag_get_block dag' h = dag_get_block dag h.

Lemma agree_count dag dag' : agree dag dag' -> dag_block_count dag' = dag_block_count dag.
Proof. intros (Ho & Ho' & Hg). by apply block_count_ext. Qed.

Lemma agree_annotate dag dag' b : agree dag dag' -> annotate dag' b = annotate dag b.
Proof.
  intros Ha. unfold annotate. rewrite (agree_count _ _ Ha). destruct Ha as (_ & _ & Hg).
  assert (forall ps acc, foldl (better_parent dag') acc ps = foldl (better_parent dag) acc ps) as Hbp.
  { induction ps as [|p ps IH]; intros acc; [done|]. cbn [foldl]. unfold better_parent at 2 4.
    rewrite Hg. apply IH. }
  assert (compute_blue_score dag' b = compute_blue_score dag b) as ->.
  { unfold compute_blue_score. f_equal. generalize 0 as m. induction (parent_hashes (header b)); intros m;
      [done|]. cbn [foldl]. by rewrite Hg. }
  unfold best_parent. destruct (parent_hashes (header b)); [done|]. by rewrite Hbp.
Qed.

(** Annotating again changes nothing. *)
Lemma annotate_idem dag b : annotate dag (annotate dag b) = annotate dag b.
Proof.
  unfold annotate at 1 3. unfold compute_blue_score.
  replace (parent_hashes (header (annotate dag b))) with (parent_hashes (header b))
    by (symmetry; apply (annotate_fields dag b)).
  unfold annotate. by destruct (match parent_hashes (header b) with [] => _ | _ => _ end).
Qed.

Lemma agree_check dag dag' b :
  agree dag dag' -> check_new dag b = Ok tt <-> check_new dag' b = Ok tt.
Proof.
  intros Ha. pose proof (agree_count _ _ Ha) as Hn. destruct Ha as (Ho & Ho' & Hg).
  rewrite !check_new_spec, Hn, Hg by done. by setoid_rewrite Hg.
Qed.

(** A write never fails. *)
Definition reliable : Prop := forall b (st : St), is_ok (Store.insert_block b st).1 = true.

(** A stored block is accepted by a DAG that agrees with the one that annotated
    it, and the DAGs agree afterwards. *)
Lemma replay_one dag dag' dag1 now now1 now2 b :
  reliable -> agree dag dag' -> BlockDag.insert_block now b dag = (Ok tt, dag1) ->
  dag_get_block dag (block_hash (annotate dag b)) = None ->
  validate_basic now1 (annotate dag b) = Ok tt -> validate_basic now2 (annotate dag b) = Ok tt ->
  exists dag1', receive_block now1 now2 (annotate dag b) dag' = (Ok tt, dag1') /\ agree dag1 dag1'.
Proof.
  intros Hrel Ha Hins Hfresh Hv1 Hv2. pose proof Ha as (Ho & Ho' & Hg).
  pose proof (BlockDag.insert_block_cases now b dag Ho) as [Hok1 Hc]. rewrite Hins in Hok1, Hc.
  destruct Hc as (_ & Hchk & _ & _ & _ & Hget).
  unfold receive_block. rewrite Hv1. cbn [is_ok].
  set (a := annotate dag b) in *.
  pose proof (BlockDag.insert_block_cases now2 a dag' Ho') as [Hok1' Hc'].
  assert (annotate dag' a = a) as Han.
  { rewrite (agree_annotate dag dag' a Ha). apply annotate_idem. }
  assert (check_new dag' a = Ok tt) as Hchk'.
  { apply (agree_check dag dag' a Ha), check_new_spec; [done|]. apply check_new_spec in Hchk as (_ & Hp & Hn); [|done].
    pose proof (annotate_fields dag b) as (Ep & _). fold a in Ep. rewrite Ep. done. }
  destruct (BlockDag.insert_block now2 a dag') as [r dag1'] eqn:Hr. cbn [fst snd] in *.
  assert (r = Ok tt) as ->.
  { unfold BlockDag.insert_block in Hr. rewrite Hv2 in Hr. cbn [mbind result_bind] in Hr.
    rewrite Hchk', Han in Hr. specialize (Hrel a (store dag')).
    destruct (Store.insert_block a (store dag')) as [[[]|e] st]; [|done]. by simplify_eq. }
  exists dag1'. split; [done|]. split; [done|]. split; [done|]. intros h.
  destruct Hc' as (_ & _ & _ & _ & _ & Hget'). rewrite Hget, Hget', Han. case_decide; [done|]. apply Hg.
Qed.

(** The DAGs built from [dag0] by successful insertions, with the blocks as they were
    stored, in order. *)
Inductive built dag0 : list Block -> BlockDAG St -> Prop :=
  | built_nil : built dag0 [] dag0
  | built_snoc bs dag now b dag' :
      built dag0 bs dag -> BlockDag.insert_block now b dag = (Ok tt, dag') ->
      built dag0 (bs ++ [annotate dag b]) dag'.

Lemma built_stored dag0 bs dag :
  store_ok (store dag0) -> (forall h, dag_get_block dag0 h = None) -> built dag0 bs dag ->
  store_ok (store dag) /\ forall h x, dag_get_block dag h = Some x -> h ∈ block_hash <$> bs.
Proof.
  intros Hok Hnone Hb. induction Hb as [|bs dag now b dag' Hb [IHo IHg] Hins].
  { split; [done|]. intros h x Hx. by rewrite Hnone in Hx. }
  pose proof (BlockDag.insert_block_cases now b dag IHo) as [Hok' Hc]. rewrite Hins in Hok', Hc.
  destruct Hc as (_ & _ & _ & _ & _ & Hget). split; [done|]. intros h x. cbn [snd] in Hget. rewrite Hget.
  rewrite fmap_app, elem_of_app. case_decide as Hd; [intros _; right; subst; by left|].
  intros Hx. left. by eapply IHg.
Qed.

Lemma for_each_snoc {X} (xs : list X) x (f : X -> M (BlockDAG St) unit) s :
  for_each (xs ++ [x]) f s =
    match for_each xs f s with (Ok _, s') => f x s' | (Err e, s') => (Err e, s') end.
Proof.
  revert s. induction xs as [|y xs IH]; intros s; cbn [app for_each]; unfold mbind, M_bind, mret, M_ret.
  - by destruct (f x s) as [[[]|e] s'].
  - destruct (f y s) as [[[]|e] s']; [|done]. apply IH.
Qed.

Lemma replay_all dag0 dag0' bs dag xs :
  reliable -> agree dag0 dag0' -> (forall h, dag_get_block dag0 h = None) ->
  built dag0 bs dag -> NoDup (block_hash <$> bs) -> xs.*2 = bs ->
  Forall (fun x => validate_basic x.1.1 x.2 = Ok tt /\ validate_basic x.1.2 x.2 = Ok tt) xs ->
  exists dag', for_each xs (fun x => receive_block x.1.1 x.1.2 x.2) dag0' = (Ok tt, dag') /\ agree dag dag'.
Proof.
  intros Hrel Ha Hnone Hb. revert xs. induction Hb as [|bs dag now b dag1 Hb IH Hins]; intros xs Hnd Hx Hv.
  { apply fmap_nil_inv in Hx as ->. by exists dag0'. }
  destruct (exists_last (l := xs)) as (ys & [[t1 t2] a] & ->); [intros ->; by destruct bs|].
  rewrite fmap_app in Hx. apply app_inj_tail in Hx as [Hx Hxa]. cbn in Hxa. subst a.
  rewrite fmap_app, NoDup_app in Hnd. destruct Hnd as (Hnd & Hdisj & _).
  apply Forall_app in Hv as [Hv [[Hv1 Hv2] _]%Forall_cons]. cbn [fst snd] in Hv1, Hv2.
  destruct (IH ys Hnd Hx Hv) as (dag' & Hf & Ha').
  destruct (built_stored dag0 bs dag (proj1 Ha) Hnone Hb) as [Hok Hin].
  assert (dag_get_block dag (block_hash (annotate dag b)) = None) as Hfresh.
  { destruct (dag_get_block dag (block_hash (annotate dag b))) as [y|] eqn:Hy; [|done]. exfalso.
    eapply Hdisj; [by eapply Hin|]. apply list_elem_of_singleton. done. }
  destruct (replay_one dag dag' dag1 now t1 t2 b Hrel Ha' Hins Hfresh Hv1 Hv2) as (dag1' & Hr & Ha1).
  exists dag1'. split; [|done]. rewrite for_each_snoc, Hf. exact Hr.
Qed.

(** Whether a block passes the stateless validation at both of its readings of the clock. *)
Definition revalidates (x : Z * Z * Block) : bool :=
  is_ok (validate_basic x.1.1 x.2) && is_ok (validate_basic x.1.2 x.2).

(** How many blocks of a response pass before the first that does not. *)
Fixpoint leading (xs : list (Z * Z * Block)) : nat :=
  match xs with
  | [] => 0
  | x :: xs => if revalidates x then S (leading xs) else 0
  end.

Lemma revalidates_true x :
  revalidates x = true <-> validate_basic x.1.1 x.2 = Ok tt /\ validate_basic x.1.2 x.2 = Ok tt.
Proof.
  unfold revalidates. rewrite andb_true_iff.
  by destruct (validate_basic x.1.1 x.2) as [[]|], (validate_basic x.1.2 x.2) as [[]|]; intuition discriminate.
Qed.

Lemma leading_le xs : (leading xs <= length xs)%nat.
Proof. induction xs as [|x xs IH]; cbn [leading length]; [lia|]. destruct (revalidates x); lia. Qed.

Lemma leading_pass xs :
  Forall (fun x => validate_basic x.1.1 x.2 = Ok tt /\ validate_basic x.1.2 x.2 = Ok tt)
    (take (leading xs) xs).
Proof.
  induction xs as [|x xs IH]; cbn [leading]; [by rewrite take_nil|].
  destruct (revalidates x) eqn:Hx; [|constructor]. constructor; [by apply revalidates_true|done].
Qed.

Lemma leading_stop xs x : xs !! leading xs = Some x -> revalidates x = false.
Proof.
  induction xs as [|y xs IH]; cbn [leading]; [done|].
  destruct (revalidates y) eqn:Hy; cbn; [apply IH|congruence].
Qed.

(** A block that does not pass is not stored. *)
Lemma receive_refused x dag :
  revalidates x = false -> (receive_block x.1.1 x.1.2 x.2 dag).2 = dag.
Proof.
  unfold revalidates, receive_block. destruct (is_ok (validate_basic x.1.1 x.2)); [|done].
  intros Hx. unfold BlockDag.insert_block.
  by destruct (validate_basic x.1.2 x.2) as [[]|].
Qed.

(** Receiving keeps the blocks there are. *)
Definition keeps dag dag' : Prop :=
  store_ok (store dag) ->
  store_ok (store dag') /\
  forall h, is_Some (dag_get_block dag h) -> is_Some (dag_get_block dag' h).

Lemma receive_keeps now now' b dag : keeps dag (receive_block now now' b dag).2.
Proof.
  intros Hok. unfold receive_block. destruct (is_ok _); [|done].
  pose proof (BlockDag.insert_block_cases now' b dag Hok) as [Hok' Hc].
  destruct (BlockDag.insert_block now' b dag) as [[[]|e] dag']; cbn [fst snd] in *.
  - destruct Hc as (_ & _ & _ & _ & _ & Hget). split; [done|]. intros h Hh. rewrite Hget.
    case_decide; [by eexists|done].
  - destruct Hc as [_ Hget]. split; [done|]. intros h. by rewrite Hget.
Qed.

Lemma receive_all_keeps (xs : list (Z * Z * Block)) dag :
  keeps dag (for_each xs (fun x => receive_block x.1.1 x.1.2 x.2) dag).2.
Proof.
  revert dag. induction xs as [|x xs IH]; intros dag Hok; [done|].
  cbn [for_each]. unfold mbind, M_bind.
  pose proof (receive_keeps x.1.1 x.1.2 x.2 dag Hok) as [Hok1 Hk1].
  destruct (receive_block x.1.1 x.1.2 x.2 dag) as [[[]|e] dag1]; [|done].
  destruct (IH dag1 Hok1) as [Hok2 Hk2]. split; [done|]. intros h Hh. by apply Hk2, Hk1.
Qed.

Lemma for_each_app {X} (xs ys : list X) (f : X -> M (BlockDAG St) unit) s :
  for_each (xs ++ ys) f s =
    match for_each xs f s with (Ok _, s') => for_each ys f s' | (Err e, s') => (Err e, s') end.
Proof.
  revert s. induction xs as [|x xs IH]; intros s; cbn [app for_each]; unfold mbind, M_bind; [done|].
  destruct (f x s) as [[[]|e] s']; [|done]. apply IH.
Qed.

Lemma built_take dag0 bs dag n :
  built dag0 bs dag ->
  exists dagn, built dag0 (take n bs) dagn /\ ((length bs <= n)%nat -> dagn = dag).
Proof.
  induction 1 as [|bs dag now b dag' Hb (dagn & Hn & He) Hins].
  { exists dag0. rewrite take_nil. split; [constructor|done]. }
  destruct (decide (n <= length bs)%nat) as [Hle|Hgt].
  - exists dagn. rewrite take_app_le by done. split; [done|]. rewrite length_app. cbn. lia.
  - exists dag'. rewrite take_ge by (rewrite length_app; cbn; lia). split; [|done].
    by eapply built_snoc.
Qed.

Lemma built_annotated dag0 bs dag :
  store_ok (store dag0) -> built dag0 bs dag ->
  store_ok (store dag) /\
  Forall (fun b' => exists now dag b, validate_basic now b = Ok tt /\ b' = annotate dag b) bs.
Proof.
  intros Hok. induction 1 as [|bs dag now b dag' Hb [IHo IHb] Hins]; [done|].
  pose proof (BlockDag.insert_block_cases now b dag IHo) as [Hok' Hc]. rewrite Hins in Hok', Hc.
  split; [done|]. apply Forall_app_2; [done|]. constructor; [|done].
  exists now, dag, b. split; [apply Hc|done].
Qed.

(** Of a stored block, the only rules that can fail again are those of the hash, which the
    insertion has changed, and of the clock. *)
Lemma annotated_passes now dag b t :
  validate_basic now b = Ok tt ->
  let b' := annotate dag b in
  validate_basic t b' = Ok tt <->
  (0 < difficulty (header b') -> meets_difficulty (block_hash b') (difficulty (header b')) = true) /\
  timestamp (header b') <= u64_add t 3600.
Proof.
  intros Hv b'. apply validate_basic_iff in Hv as (_ & _ & Hr & Hnd & _).
  destruct (annotate_fields dag b) as (_ & Et & _ & Er & _ & _ & _ & _ & _ & _ & Eh & _). fold b' in Et, Er, Eh.
  rewrite validate_basic_iff, Et, Er. tauto.
Qed.

Lemma revalidates_spec dag0 bs dag i x (xs : list (Z * Z * Block)) :
  store_ok (store dag0) -> built dag0 bs dag -> xs.*2 = bs -> xs !! i = Some x ->
  let hd := header x.2 in
  revalidates x = true <->
  (0 < difficulty hd -> meets_difficulty (block_hash x.2) (difficulty hd) = true) /\
  timestamp hd <= u64_add x.1.1 3600 /\ timestamp hd <= u64_add x.1.2 3600.
Proof.
  intros Hok Hb Hx Hi hd. destruct (built_annotated _ _ _ Hok Hb) as [_ Hall].
  assert (bs !! i = Some x.2) as Hbi by (by rewrite <- Hx, list_lookup_fmap, Hi).
  pose proof (Forall_lookup_1 _ _ _ _ Hall Hbi) as (now & dag1 & b & Hv & He).
  unfold hd. rewrite revalidates_true, He, !(annotated_passes now dag1 b _ Hv). tauto.
Qed.
End Replay.

Section SyncFacts.
Context `{Sha256Laws} `{LibM} `{HashOrder} {St : Type} `{BlockStoreLaws St} {Ch : Type} `{MessageSender Ch}
  `{Codec StateManager}.
Implicit Types (dag : BlockDAG St) (b : Block) (s : SyncManager St Ch).

(** C12: what a response that lists the blocks of a DAG in the order in which they
    were inserted, with their annotations, does at a peer with an empty store.  Every
    block passes the stateless validation there unless its stored hash, which
    the insertion made after the proof of work had been checked, misses the difficulty,
    or the peer's clock is behind.  The blocks before the first that does not pass are all
    accepted and make up the DAG as it was after that many insertions, with the same
    answer to every lookup; that block is not stored; and whatever the rest of the
    response does, none of the blocks is lost.  So if all blocks pass, which
    those of difficulty zero do, the peer ends up with the very DAG. *)
Theorem dag_response_rebuilds stA stB bs dag xs s :
  (forall b (st : St), is_ok (Store.insert_block b st).1 = true) ->
  store_ok stA -> store_ok stB ->
  (forall h, get_block stA h = None) -> (forall h, get_block stB h = None) ->
  built (BlockDag.new stA) bs dag -> NoDup (block_hash <$> bs) ->
  xs.*2 = bs -> sync_dag s = BlockDag.new stB ->
  let n := leading xs in
  (forall i x, xs !! i = Some x ->
     revalidates x = true <->
     (0 < difficulty (header x.2) ->
        meets_difficulty (block_hash x.2) (difficulty (header x.2)) = true) /\
     timestamp (header x.2) <= u64_add x.1.1 3600 /\
     timestamp (header x.2) <= u64_add x.1.2 3600) /\
  exists dagn sn,
    built (BlockDag.new stA) (take n bs) dagn /\
    handle_dag_response (take n xs) s = (Ok tt, sn) /\
    (forall h, dag_get_block (sync_dag sn) h = dag_get_block dagn h) /\
    (forall x, xs !! n = Some x ->
       revalidates x = false /\ sync_dag (handle_dag_response [x] sn).2 = sync_dag sn) /\
    handle_dag_response xs s = handle_dag_response (drop n xs) sn /\
    (forall h, is_Some (dag_get_block dagn h) ->
       is_Some (dag_get_block (sync_dag (handle_dag_response xs s).2) h)) /\
    (n = length xs -> dagn = dag /\ handle_dag_response xs s = (Ok tt, sn)).
Proof.
  intros Hrel HoA HoB HnA HnB Hb Hnd Hx Hs n.
  split; [intros i x; by eapply (revalidates_spec (BlockDag.new stA))|].
  assert (agree (BlockDag.new stA) (BlockDag.new stB)) as Ha.
  { split; [done|]. split; [done|]. intros h. unfold dag_get_block. cbn. by rewrite HnA, HnB. }
  destruct (built_take _ _ _ n Hb) as (dagn & Hbn & Hfull).
  destruct (replay_all _ _ (take n bs) dagn (take n xs) Hrel Ha HnA Hbn) as (dag' & Hf & Ha').
  { rewrite fmap_take. rewrite <- (take_drop n (block_hash <$> bs)), NoDup_app in Hnd. apply Hnd. }
  { by rewrite fmap_take, Hx. }
  { apply leading_pass. }
  destruct Ha' as (_ & Hok' & Hg).
  assert (handle_dag_response xs s = handle_dag_response (drop n xs) (set_sync_dag dag' s)) as Hrest.
  { unfold handle_dag_response. rewrite <- (take_drop n xs) at 1.
    rewrite for_each_app, Hs, Hf. cbn [sync_dag set_sync_dag].
    by destruct (for_each (drop n xs) _ dag'). }
  exists dagn, (set_sync_dag dag' s). split; [done|].
  split; [unfold handle_dag_response; by rewrite Hs, Hf|]. split; [done|].
  split; [|split; [done|split]].
  - intros x Hn. pose proof (leading_stop _ _ Hn) as Hr. split; [done|].
    unfold handle_dag_response. cbn [for_each sync_dag set_sync_dag]. unfold mbind, M_bind.
    pose proof (receive_refused x dag' Hr) as Hsame.
    destruct (receive_block x.1.1 x.1.2 x.2 dag') as [[[]|e] d]; exact Hsame.
  - intros h Hh. rewrite <- Hg in Hh. rewrite Hrest. unfold handle_dag_response. cbn [sync_dag set_sync_dag].
    destruct (receive_all_keeps (drop n xs) dag' Hok') as [_ Hk].
    destruct (for_each (drop n xs) _ dag') as [r d]. by apply Hk.
  - intros Hn. split; [apply Hfull; rewrite <- Hx, length_fmap; lia|].
    rewrite Hrest, drop_ge by lia. reflexivity.
Qed.

(** C32: the order of arrival decides the hash.  The annotation that is hashed
    contains the number of blocks already stored, so two nodes that accept the same
    block when they hold different numbers of blocks store it under
    different hashes, neither node knows the other's hash, and
    each refuses every later block built on it by the other - or SHA-256
    collides. *)
Theorem arrival_order_splits now now' b dag dag' dag1 dag1' :
  insertable dag b -> insertable dag' b -> dag_block_count dag <> dag_block_count dag' ->
  BlockDag.insert_block now b dag = (Ok tt, dag1) -> BlockDag.insert_block now' b dag' = (Ok tt, dag1') ->
  let h := block_hash (annotate dag b) in
  let h' := block_hash (annotate dag' b) in
  dag_get_block dag' h = None ->
  (h <> h' /\ is_Some (dag_get_block dag1 h) /\ is_Some (dag_get_block dag1' h') /\
   dag_get_block dag1' h = None /\
   forall c, h ∈ parent_hashes (header c) -> check_new dag1' c <> Ok tt) \/
  sha256_collision [block_preimage (annotate dag b); block_preimage (annotate dag' b)].
Proof.
  intros Hi Hi' Hn Hins Hins' h h' Hnone.
  pose proof (annotate_annotated dag b Hi) as Ha. pose proof (annotate_annotated dag' b Hi') as Ha'.
  destruct (decide (h = h')) as [Heq|Hne].
  - right. unfold h, h' in Heq. rewrite (ann_hash _ _ _ Ha), (ann_hash _ _ _ Ha') in Heq.
    destruct (hash_commits_header _ _ (ann_wf _ _ _ Ha) (ann_wf _ _ _ Ha') Heq) as [Hc|Hc]; [|done].
    exfalso. destruct Hc as (_ & _ & _ & _ & _ & _ & Ht & _).
    destruct (annotate_fields dag b) as (_ & _ & _ & _ & _ & _ & _ & _ & _ & _ & _ & _ & Et & _).
    destruct (annotate_fields dag' b) as (_ & _ & _ & _ & _ & _ & _ & _ & _ & _ & _ & _ & Et' & _). lia.
  - left. pose proof (inv_ok _ (proj1 Hi)) as Ho. pose proof (inv_ok _ (proj1 Hi')) as Ho'.
    pose proof (BlockDag.insert_block_cases now b dag Ho) as [_ Hc]. rewrite Hins in Hc.
    pose proof (BlockDag.insert_block_cases now' b dag' Ho') as [Hok' Hc']. rewrite Hins' in Hok', Hc'.
    destruct Hc as (_ & _ & _ & _ & _ & Hg), Hc' as (_ & _ & _ & _ & _ & Hg'). cbn [snd] in *.
    assert (dag_get_block dag1' h = None) as Hlost by (by rewrite Hg', decide_False).
    split; [done|]. split; [rewrite Hg, decide_True; eauto|]. split; [rewrite Hg', decide_True; eauto|].
    split; [done|]. intros c Hc Hchk. apply check_new_spec in Hchk as (_ & Hp & _); [|done].
    apply Hp in Hc. rewrite Hlost in Hc. by destruct Hc.
Qed.

(** *** Headers *)

(** The order past the first occurrence of a hash; everything for the zero hash. *)
Fixpoint skip_past (from : BlockHash) (order : list BlockHash) : list BlockHash :=
  match order with
  | [] => []
  | h :: order => if decide (h = from) then order else skip_past from order
  end.
Definition order_after (from : BlockHash) (order : list BlockHash) : list BlockHash :=
  if decide (from = replicate 32 0) then order else skip_past from order.

Definition with_header dag (h : BlockHash) : option (BlockHash * BlockHeader) :=
  (fun b => (h, header b)) <$> dag_get_block dag h.

Lemma collect_included dag from max order hs :
  (length hs < Nat.max 1 max)%nat -> (forall h, h ∈ order -> is_Some (dag_get_block dag h)) ->
  collect_headers dag from max order true hs =
    hs ++ omap (with_header dag) (take (Nat.max 1 max - length hs) order).
Proof.
  revert hs. induction order as [|h order IH]; intros hs Hlt Hin; cbn [collect_headers negb].
  { by rewrite take_nil, app_nil_r. }
  destruct (Hin h ltac:(left)) as [b Hb]. rewrite Hb.
  replace (Nat.max 1 max - length hs)%nat with (S (Nat.max 1 max - length (hs ++ [(h, header b)])))
    by (rewrite length_app; cbn; lia).
  cbn [take omap list_omap]. unfold with_header at 1. rewrite Hb. cbn [fmap option_fmap option_map].
  rewrite length_app. cbn [length]. destruct (Nat.leb_spec max (length hs + 1)) as [Hfull|Hroom].
  - replace (Nat.max 1 max - (length hs + 1))%nat with 0%nat by lia. by rewrite take_0.
  - rewrite IH; [|rewrite length_app; cbn; lia|intros; apply Hin; by right].
    rewrite length_app, <- app_assoc. cbn [length app]. do 4 f_equal.
Qed.

Lemma collect_skipping dag from max order :
  (forall h, h ∈ order -> is_Some (dag_get_block dag h)) ->
  collect_headers dag from max order (bool_decide (from = replicate 32 0)) [] =
    omap (with_header dag) (take (Nat.max 1 max) (order_after from order)).
Proof.
  unfold order_after. case_bool_decide as Hz; intros Hin.
  - rewrite decide_True, collect_included by (done || cbn; lia). cbn [length app].
    by rewrite Nat.sub_0_r.
  - rewrite decide_False by done. clear Hz. induction order as [|h order IH]; [cbn [skip_past]; by rewrite take_nil|].
    cbn [collect_headers negb skip_past]. case_bool_decide as Hd.
    + rewrite decide_True, collect_included by (done || cbn; lia || (intros; apply Hin; by right)).
      cbn [length app]. by rewrite Nat.sub_0_r.
    + rewrite decide_False by done. apply IH. intros; apply Hin; by right.
Qed.

(** A request for headers is answered, whatever it asks, with the headers of a
    stretch of one fixed list: all stored blocks, parents before children, past
    the hash that was named, from the beginning for the zero hash; at most as many
    as asked for but at least one if there is one.  Since [detect_missing_blocks] always
    asks for the first 1000 from the beginning, blocks beyond these are never
    announced. *)
Theorem get_headers_spec peer from max s :
  dag_inv (sync_dag s) ->
  exists order, order ≡ₚ get_all_hashes (store (sync_dag s)) /\
    topologically_ordered (store (sync_dag s)) order /\
    handle_message peer (GetHeaders from max) s =
      (Some (Ok tt), (sync_send peer (Headers (omap (with_header (sync_dag s))
                        (take (Nat.max 1 max) (order_after from order)))) s).2) /\
    forall h, h ∈ order -> is_Some (with_header (sync_dag s) h).
Proof.
  intros Hinv. exists (dag_get_topological_order (sync_dag s)).
  destruct (kahn_order (index (sync_dag s)) (store (sync_dag s)) _ (dag_inv_shape _ Hinv) (inv_index _ Hinv))
    as [Hp Ht].
  assert (forall h, h ∈ dag_get_topological_order (sync_dag s) -> is_Some (dag_get_block (sync_dag s) h)) as Hin.
  { intros h Hh. apply hashes_get; [apply (inv_ok _ Hinv)|]. by rewrite <- Hp. }
  split; [exact Hp|]. split; [exact Ht|]. split.
  - cbn [handle_message]. by rewrite collect_skipping.
  - intros h Hh. destruct (Hin h Hh) as [b Hb]. unfold with_header. rewrite Hb. by eexists.
Qed.
End SyncFacts.

(** ** Witnesses *)

#[local] Existing Instances checksum_sha checksum_laws constant_exp canonical_order.

(** A serializer of states that writes nothing; it is not called. *)
#[local] Instance no_state_codec : Codec StateManager := {
  serialize _ := Ok [];
  deserialize _ := err "no state"
}.

Definition fresh_sync : SyncManager MemStore Queue :=
  sync_new (BlockDag.new (∅ : MemStore)) two_peers [] StateManager.new.

Definition genesis1 : Block := Eval vm_compute in annotate dag0 (test_block [] 1).
Definition child2 : Block := Eval vm_compute in annotate dag1 (create_block_on_tips 2 dag1 []).

Lemma dag1_inserted : BlockDag.insert_block 0 (test_block [] 1) dag0 = (Ok tt, dag1).
Proof. rewrite dag1_eq. apply fst_ok_pair. vm_compute. reflexivity. Qed.

Lemma dag2_built : built dag0 [genesis1; child2] dag2.
Proof.
  assert (genesis1 = annotate dag0 (test_block [] 1)) as -> by (vm_compute; reflexivity).
  assert (child2 = annotate dag1 (create_block_on_tips 2 dag1 [])) as -> by (vm_compute; reflexivity).
  apply (built_snoc dag0 [annotate dag0 (test_block [] 1)] dag1 0); [|apply dag2_inserted].
  apply (built_snoc dag0 [] dag0 0); [constructor|apply dag1_inserted].
Qed.

(** A third block, mined at difficulty 8: its own hash starts with a zero byte, the one
    it is stored under does not. *)
Definition mined : Block :=
  Block.new (dag_get_tips dag2) 3 [] 249 8 0 (replicate 20 0) (replicate 32 0).
Definition mined3 : Block := Eval vm_compute in annotate dag2 mined.
Definition dag3 : BlockDAG MemStore := Eval vm_compute in (BlockDag.insert_block 0 mined dag2).2.

Lemma mined3_eq : mined3 = annotate dag2 mined.
Proof. vm_compute. reflexivity. Qed.
Lemma dag3_inserted : BlockDag.insert_block 0 mined dag2 = (Ok tt, dag3).
Proof. vm_compute. reflexivity. Qed.
Lemma dag3_built : built dag0 [genesis1; child2; mined3] dag3.
Proof.
  rewrite mined3_eq.
  apply (built_snoc dag0 [genesis1; child2] dag2 0); [apply dag2_built|apply dag3_inserted].
Qed.

(** A node stores a block with its proof of work and no peer accepts it from there. *)
Lemma mined_block_refused :
  (BlockDag.insert_block 0 mined dag2).1 = Ok tt /\
  forall dag, receive_block 5 5 mined3 dag = (Ok tt, dag).
Proof.
  split; [by rewrite dag3_inserted|]. intros dag. unfold receive_block.
  assert (is_ok (validate_basic 5 mined3) = false) as -> by (vm_compute; reflexivity). done.
Qed.

Definition response3 : list (Z * Z * Block) :=
  [((5, 5), genesis1); ((5, 5), child2); ((5, 5), mined3)].

Lemma dag_response_rebuilds_witness :
  leading response3 = 2%nat /\
  exists dagn sn, built dag0 [genesis1; child2] dagn /\
    handle_dag_response [((5, 5), genesis1); ((5, 5), child2)] fresh_sync = (Ok tt, sn) /\
    (forall h, dag_get_block (sync_dag sn) h = dag_get_block dagn h) /\
    handle_dag_response response3 fresh_sync = handle_dag_response [((5, 5), mined3)] sn /\
    sync_dag (handle_dag_response [((5, 5), mined3)] sn).2 = sync_dag sn.
Proof.
  assert (leading response3 = 2%nat) as Hn by (vm_compute; reflexivity). split; [exact Hn|].
  destruct (dag_response_rebuilds (∅ : MemStore) (∅ : MemStore) [genesis1; child2; mined3] dag3
    response3 fresh_sync)
    as (_ & dagn & sn & Hb & Hr & Hg & Hstop & Hrest & _);
    [done|apply mem_ok_empty|apply mem_ok_empty|done|done|exact dag3_built| |reflexivity|reflexivity|].
  - apply (bool_decide_unpack _). vm_compute. done.
  - rewrite Hn in Hb, Hr, Hstop, Hrest. exists dagn, sn. split; [exact Hb|]. split; [exact Hr|].
    split; [exact Hg|]. split; [exact Hrest|]. by apply (Hstop ((5, 5), mined3)).
Defined.

(** The second child of the genesis arrives first at one node and second at the
    other. *)
Definition sibling : Block := Eval vm_compute in test_block (dag_get_tips dag1) 7.
Definition early : BlockDAG MemStore := Eval vm_compute in (BlockDag.insert_block 0 sibling dag1).2.

Lemma sibling_eq : sibling = test_block (dag_get_tips dag1) 7.
Proof. vm_compute. reflexivity. Qed.
Lemma sibling_wf : block_wf sibling.
Proof.
  rewrite sibling_eq. apply test_block_wf; [|machine]. apply Forall_forall. vm_compute.
  intros p [->|Hp]%elem_of_cons; [reflexivity|by apply not_elem_of_nil in Hp].
Qed.
Lemma sibling_insertable dag :
  dag_inv dag -> bool_decide (Z.of_nat (dag_block_count dag) < u64_max) = true ->
  is_ok (check_new dag sibling) = true -> insertable dag sibling.
Proof.
  intros Hinv Hn Hc. apply bool_decide_eq_true in Hn.
  split; [done|]. split; [apply block_wf_fields, sibling_wf|]. split; [vm_compute; discriminate|]. split; [done|].
  by destruct (check_new dag sibling) as [[]|].
Qed.
Lemma early_inserted : BlockDag.insert_block 0 sibling dag1 = (Ok tt, early).
Proof. vm_compute. reflexivity. Qed.
Lemma late_inserted : BlockDag.insert_block 0 sibling dag2 = (Ok tt, fork).
Proof. rewrite fork_eq, <- sibling_eq. apply fst_ok_pair. vm_compute. reflexivity. Qed.

Lemma arrival_order_splits_witness :
  let h := block_hash (annotate dag1 sibling) in
  let h' := block_hash (annotate dag2 sibling) in
  (h <> h' /\ is_Some (dag_get_block early h) /\ is_Some (dag_get_block fork h') /\
   dag_get_block fork h = None /\
   forall c, h ∈ parent_hashes (header c) -> check_new fork c <> Ok tt) \/
  sha256_collision [block_preimage (annotate dag1 sibling); block_preimage (annotate dag2 sibling)].
Proof.
  apply (arrival_order_splits 0 0 sibling dag1 dag2 early fork).
  - apply sibling_insertable; [apply dag1_inv|vm_compute; reflexivity|vm_compute; reflexivity].
  - apply sibling_insertable; [apply dag2_inv|vm_compute; reflexivity|vm_compute; reflexivity].
  - vm_compute. discriminate.
  - apply early_inserted.
  - apply late_inserted.
  - vm_compute. reflexivity.
Defined.

Definition two_block_sync : SyncManager MemStore Queue := set_sync_dag dag2 fresh_sync.

Lemma get_headers_spec_witness :
  exists order, order ≡ₚ get_all_hashes (store dag2) /\
    handle_message bob (GetHeaders (replicate 32 0) 0) two_block_sync =
      (Some (Ok tt),
       (sync_send bob (Headers (omap (with_header dag2) (take 1 (order_after (replicate 32 0) order))))
          two_block_sync).2).
Proof.
  destruct (get_headers_spec bob (replicate 32 0) 0 two_block_sync dag2_inv)
    as (order & Hp & _ & Hm & _).
  exists order. split; [exact Hp|exact Hm].
Defined.
