(* ===== verification/P2p.v ===== *)
(** The peer-to-peer node and a network of such nodes:
    [src/src/network/p2p_node.rs].

    The node dispatches what arrives to the gossip protocol and the sync manager,
    which share its peer table and its outgoing channel.  libp2p is the
    environment: its events are those of [p2p_event], and what a node publishes may
    reach any other node, any number of times ([net_step]).  Building the
    transport and the swarm, and logging, are not modelled. *)
From S2P Require Import Prelude Crypto Transaction Floats Mining Block StateTree StateManager.
From S2P Require Import Graph Store DagIndex BlockDag Kv Peers Gossip Sync.

(** [UnboundedReceiver::recv] takes the oldest message. *)
Class MessageReceiver (Ch : Type) := recv : Ch -> option ((PeerId * NetworkMessage) * Ch).
Class MessageReceiverLaws (Ch : Type) `{MessageReceiver Ch, MessageSenderLaws Ch} := {
  recv_some c m c' : recv c = Some (m, c') -> sent c = m :: sent c';
  recv_none c : recv c = None -> sent c = []
}.

Record P2PNode (St Ch : Type) := {
  p2p_peers : PeerManager;
  p2p_channel : Ch;
  p2p_seen_blocks : gset BlockHash;
  p2p_seen_transactions : gset Hash;
  p2p_pending : gset BlockHash;
  p2p_dag : BlockDAG St;
  p2p_state : StateManager
}.
Arguments p2p_peers {St Ch} _.
Arguments p2p_channel {St Ch} _.
Arguments p2p_seen_blocks {St Ch} _.
Arguments p2p_seen_transactions {St Ch} _.
Arguments p2p_pending {St Ch} _.
Arguments p2p_dag {St Ch} _.
Arguments p2p_state {St Ch} _.

Section Node.
Context `{Sha256} `{LibM} `{HashOrder} {St : Type} `{BlockStoreI St} {Ch : Type} `{MessageSender Ch}
  `{MessageReceiver Ch} `{Codec StateManager} `{Codec NetworkMessage}.
Abbreviation N := (P2PNode St Ch).
Implicit Types n : N.

(** The peer table has room for 1000. *)
Definition p2p_new (dag : BlockDAG St) (state : StateManager) (channel : Ch) : N :=
  {| p2p_peers := Peers.new 1000; p2p_channel := channel; p2p_seen_blocks := ∅;
     p2p_seen_transactions := ∅; p2p_pending := ∅; p2p_dag := dag; p2p_state := state |}.

(** The parts the node shares with its two protocols. *)
Definition gossip n : GossipProtocol Ch :=
  {| gossip_peers := p2p_peers n; gossip_sender := p2p_channel n;
     seen_blocks := p2p_seen_blocks n; seen_transactions := p2p_seen_transactions n |}.
Definition put_gossip (g : GossipProtocol Ch) n : N :=
  {| p2p_peers := gossip_peers g; p2p_channel := gossip_sender g; p2p_seen_blocks := seen_blocks g;
     p2p_seen_transactions := seen_transactions g; p2p_pending := p2p_pending n;
     p2p_dag := p2p_dag n; p2p_state := p2p_state n |}.
Definition sync_manager n : SyncManager St Ch :=
  {| sync_dag := p2p_dag n; sync_peers := p2p_peers n; sync_sender := p2p_channel n;
     pending_requests := p2p_pending n; sync_state := p2p_state n |}.
Definition put_sync (s : SyncManager St Ch) n : N :=
  {| p2p_peers := sync_peers s; p2p_channel := sync_sender s; p2p_seen_blocks := p2p_seen_blocks n;
     p2p_seen_transactions := p2p_seen_transactions n; p2p_pending := pending_requests s;
     p2p_dag := sync_dag s; p2p_state := sync_state s |}.
Definition put_peers (pm : PeerManager) n : N :=
  {| p2p_peers := pm; p2p_channel := p2p_channel n; p2p_seen_blocks := p2p_seen_blocks n;
     p2p_seen_transactions := p2p_seen_transactions n; p2p_pending := p2p_pending n;
     p2p_dag := p2p_dag n; p2p_state := p2p_state n |}.
Definition put_channel (c : Ch) n : N :=
  {| p2p_peers := p2p_peers n; p2p_channel := c; p2p_seen_blocks := p2p_seen_blocks n;
     p2p_seen_transactions := p2p_seen_transactions n; p2p_pending := p2p_pending n;
     p2p_dag := p2p_dag n; p2p_state := p2p_state n |}.

(** Errors are logged at this level, so a handler is a function of the node's state. *)
Definition in_gossip {A} (m : T (GossipProtocol Ch) A) n : N := put_gossip (m (gossip n)).2 n.
Definition in_sync {A} (m : T (SyncManager St Ch) A) n : N := put_sync (m (sync_manager n)).2 n.
Definition in_peers (c : call) n : N := put_peers (run_call c (p2p_peers n)).2 n.

(** The [i]-th block of a list is handled at the clock readings [2 i] and [2 i + 1]. *)
Definition at_times (clock : nat -> Z) (blocks : list Block) : list (Z * Z * Block) :=
  imap (fun i b => ((clock (2 * i)%nat, clock (2 * i + 1)%nat), b)) blocks.

(** A snapshot is compared with the own state, and that is logged. *)
Definition handle_network_message (clock : nat -> Z) (peer : PeerId) (message : NetworkMessage) n : N :=
  match message with
  | NewBlock b => in_gossip (handle_gossip_message (NewBlock b)) n
  | NewTransaction tx => in_gossip (handle_gossip_message (NewTransaction tx)) n
  | RequestBlock _ => n
  | RequestDag => in_sync (task (handle_dag_response [])) n
  | DagResponse blocks => in_sync (task (handle_dag_response (at_times clock blocks))) n
  | GetHeaders from max => in_sync (handle_message peer (GetHeaders from max)) n
  | Headers headers => in_sync (handle_headers headers) n
  | GetBlocks hashes => in_sync (handle_message peer (GetBlocks hashes)) n
  | Blocks blocks =>
      foldl (fun n x => in_sync (task (handle_block_response x.1.1 x.1.2 (Some x.2))) n) n
        (at_times clock blocks)
  | RequestState => in_sync (handle_message peer RequestState) n
  | StateSnapshot _ => n
  end.

(** What the tasks of the node do, and what libp2p tells it. *)
Inductive p2p_event :=
  | ConnectionEstablished (now : Z) (peer : PeerId)
  | ConnectionClosed (now : Z) (peer : PeerId)
  | Discovered (now : Z) (peers : list PeerId)
  | Expired (peers : list PeerId)
  | Received (clock : nat -> Z) (source : PeerId) (data : Bytes)
  | StartSync
  | PeriodicSync
  | CleanupPeers (now : Z)
  | CleanupSeen
  | BroadcastBlock (b : Block)
  | BroadcastTransaction (tx : Transaction).

Definition handle_event (e : p2p_event) n : N :=
  match e with
  | ConnectionEstablished now peer => in_peers (UpdateStatus now peer true) n
  | ConnectionClosed now peer => in_peers (UpdateStatus now peer false) n
  | Discovered now ids => foldl (fun n id => in_peers (AddPeer now id []) n) n ids
  | Expired ids => foldl (fun n id => in_peers (RemovePeer id) n) n ids
  | Received clock source data =>
      match deserialize data with
      | Ok message => handle_network_message clock source message n
      | Err _ => n
      end
  | StartSync => in_sync start_sync n
  | PeriodicSync => in_sync periodic_sync_check n
  | CleanupPeers now => in_peers (Cleanup now) n
  | CleanupSeen => put_gossip (cleanup_seen_messages (gossip n)) n
  | BroadcastBlock b => in_gossip (broadcast_block b) n
  | BroadcastTransaction tx => in_gossip (broadcast_transaction tx) n
  end.

(** [send_message_to_peer]: the bytes that are published to everyone; a message
    that cannot be serialized becomes the empty string. *)
Definition publish (message : NetworkMessage) : Bytes := unwrap_or (serialize message) [].

Definition p2p_get_connected_peers n : option (list PeerId) := (get_connected_peers (p2p_peers n)).1.

(** ** The network *)

Record Network := {
  nodes : gmap PeerId N;
  published : list (PeerId * Bytes)
}.

Definition is_local (e : p2p_event) : bool :=
  match e with Received _ _ _ => false | _ => true end.

Inductive net_step (nw : Network) : Network -> Prop :=
  | net_local i n e :
      nodes nw !! i = Some n -> is_local e = true ->
      net_step nw {| nodes := <[i := handle_event e n]> (nodes nw); published := published nw |}
  | net_publish i n to message c :
      nodes nw !! i = Some n -> recv (p2p_channel n) = Some ((to, message), c) ->
      net_step nw {| nodes := <[i := put_channel c n]> (nodes nw);
                     published := (i, publish message) :: published nw |}
  | net_deliver i n clock source data :
      (source, data) ∈ published nw -> nodes nw !! i = Some n ->
      net_step nw {| nodes := <[i := handle_event (Received clock source data) n]> (nodes nw);
                     published := published nw |}.
End Node.
Arguments Network : clear implicits.

(** ** What the messages of such nodes can do *)
Section NetworkFacts.
Context `{Sha256} `{LibM} `{HashOrder} {St : Type} `{BlockStoreI St} {Ch : Type} `{MessageReceiverLaws Ch}
  `{Codec StateManager} `{CodecLaws NetworkMessage}.
Implicit Types (n : P2PNode St Ch) (s : SyncManager St Ch) (g : GossipProtocol Ch).

(** Messages whose handling inserts no block and asks for none in full. *)
Definition harmless (m : NetworkMessage) : Prop :=
  match m with DagResponse _ | GetBlocks _ | Blocks _ => False | _ => True end.
Definition channel_ok (c : Ch) : Prop := Forall (fun m => harmless m.2) (sent c).

Lemma send_ok peer m c : harmless m -> channel_ok c -> channel_ok (send (peer, m) c).2.
Proof.
  intros Hm Hc. unfold channel_ok. destruct (is_ok (send (peer, m) c).1) eqn:Hs.
  - rewrite (sent_ok _ _ Hs). apply Forall_app. split; [done|]. by constructor.
  - by rewrite (sent_err _ _ Hs).
Qed.

(** A step of the sync manager that touches neither DAG nor state, sends nothing but
    harmless messages and forgets no request. *)
Record quiet s s' : Prop := {
  quiet_dag : sync_dag s' = sync_dag s;
  quiet_state : sync_state s' = sync_state s;
  quiet_pending : pending_requests s ⊆ pending_requests s';
  quiet_channel : channel_ok (sync_sender s) -> channel_ok (sync_sender s')
}.
#[local] Instance quiet_refl : Reflexive quiet.
Proof. intros s. by split. Qed.
#[local] Instance quiet_trans : Transitive quiet.
Proof. intros s1 s2 s3 [] []. split; [congruence|congruence|set_solver|auto]. Qed.

Lemma sync_send_quiet peer m s : harmless m -> quiet s (sync_send peer m s).2.
Proof.
  intros Hm. unfold sync_send. pose proof (send_ok peer m (sync_sender s) Hm) as Hs.
  destruct (send (peer, m) (sync_sender s)). by split.
Qed.
Lemma query_peers_quiet m peers s : harmless m -> quiet s (query_peers m peers s).
Proof.
  intros Hm. revert s. induction peers as [|p peers IH]; intros s; [done|].
  etrans; [apply (sync_send_quiet p m s Hm)|apply IH].
Qed.
Lemma sync_call_quiet {A} (m : L A) s : quiet s (sync_call m s).2.
Proof. unfold sync_call. by destruct (m (sync_peers s)). Qed.

Lemma bind_quiet {A B} (m : T (SyncManager St Ch) A) (f : A -> T (SyncManager St Ch) B) s :
  (forall s, quiet s (m s).2) -> (forall a s, quiet s (f a s).2) -> quiet s ((m ≫= f) s).2.
Proof.
  intros Hm Hf. cbv [mbind T_bind]. specialize (Hm s). destruct (m s) as [[[a|e]|] s']; [|done..].
  etrans; [exact Hm|apply Hf].
Qed.
Lemma for_each_quiet {A} (xs : list A) (f : A -> M (SyncManager St Ch) unit) s :
  (forall x s, quiet s (f x s).2) -> quiet s (for_each xs f s).2.
Proof.
  intros Hf. revert s. induction xs as [|x xs IH]; intros s; [done|].
  cbn [for_each]. cbv [mbind M_bind]. specialize (Hf x s). destruct (f x s) as [[[]|e] s']; [|done].
  etrans; [exact Hf|apply IH].
Qed.
Lemma task_snd {X A} (m : M X A) (x : X) : (task m x).2 = (m x).2.
Proof. unfold task. by destruct (m x). Qed.

Lemma start_sync_quiet s : quiet s (start_sync s).2.
Proof.
  unfold start_sync. apply bind_quiet; [apply sync_call_quiet|]. intros [|p ps] s'; [done|].
  rewrite task_snd. pose proof (sync_send_quiet p RequestDag s' I) as Hq.
  by destruct (sync_send p RequestDag s').
Qed.

Lemma request_block_quiet peers h s : quiet s (request_block peers h s).2.
Proof.
  unfold request_block. case_decide; [done|].
  etrans; [|apply for_each_quiet].
  - split; [done|done|cbn; set_solver|done].
  - intros p s'. pose proof (sync_send_quiet p (RequestBlock h) s' I) as Hq.
    by destruct (sync_send p (RequestBlock h) s').
Qed.
Lemma request_missing_quiet hashes s : quiet s (request_missing_blocks hashes s).2.
Proof.
  unfold request_missing_blocks. apply bind_quiet; [apply sync_call_quiet|]. intros peers s'.
  rewrite task_snd. apply for_each_quiet. intros h s2. apply request_block_quiet.
Qed.
Lemma handle_headers_quiet headers s : quiet s (handle_headers headers s).2.
Proof. unfold handle_headers. destruct (filter _ _); [done|apply request_missing_quiet]. Qed.

Lemma detect_quiet s : quiet s (detect_missing_blocks s).2.
Proof.
  unfold detect_missing_blocks. apply bind_quiet; [apply sync_call_quiet|]. intros peers s'.
  by apply query_peers_quiet.
Qed.
Lemma periodic_quiet s : quiet s (periodic_sync_check s).2.
Proof.
  unfold periodic_sync_check. destruct (negb _); [done|]. pose proof (detect_quiet s) as Hd.
  destruct (detect_missing_blocks s) as [[[[|h hs]|e]|] s']; [done| |done..].
  pose proof (request_missing_quiet (h :: hs) s') as Hr. cbn [snd] in Hd.
  destruct (request_missing_blocks (h :: hs) s') as [[r|] s2]; cbn [snd] in *; by etrans.
Qed.

Lemma handle_message_quiet peer m s : harmless m -> quiet s (handle_message peer m s).2.
Proof.
  intros Hm. destruct m; try done; cbn [handle_message].
  - by apply sync_send_quiet.
  - apply handle_headers_quiet.
  - destruct (serialize (sync_state s)); [by apply sync_send_quiet|done].
Qed.

(** *** The node *)

Record node_quiet n n' : Prop := {
  nq_dag : p2p_dag n' = p2p_dag n;
  nq_state : p2p_state n' = p2p_state n;
  nq_pending : p2p_pending n ⊆ p2p_pending n';
  nq_channel : channel_ok (p2p_channel n) -> channel_ok (p2p_channel n')
}.
#[local] Instance node_quiet_refl : Reflexive node_quiet.
Proof. intros n. by split. Qed.
#[local] Instance node_quiet_trans : Transitive node_quiet.
Proof. intros n1 n2 n3 [] []. split; [congruence|congruence|set_solver|auto]. Qed.

Lemma in_sync_quiet {A} (m : T (SyncManager St Ch) A) n :
  (forall s, quiet s (m s).2) -> node_quiet n (in_sync m n).
Proof. intros Hm. unfold in_sync. destruct (Hm (sync_manager n)). by split. Qed.
Lemma in_peers_quiet c n : node_quiet n (in_peers c n).
Proof. by split. Qed.

Lemma broadcast_message_channel m g :
  harmless m -> channel_ok (gossip_sender g) -> channel_ok (gossip_sender (broadcast_message m g).2).
Proof.
  intros Hm Hc. unfold broadcast_message, gossip_call. cbv [mbind T_bind].
  destruct (get_connected_peers (gossip_peers g)) as [[ids|] pm]; cbn; [|done].
  unfold send_all. revert Hc. generalize (gossip_sender g) as c.
  induction ids as [|id ids IH]; intros c Hc; [done|]. cbn. by apply IH, send_ok.
Qed.
Lemma in_gossip_quiet {A} (m : T (GossipProtocol Ch) A) n :
  (forall g, channel_ok (gossip_sender g) -> channel_ok (gossip_sender (m g).2)) ->
  node_quiet n (in_gossip m n).
Proof. intros Hm. split; [done|done|done|]. cbn. intros Hc. by apply Hm. Qed.

Lemma handle_harmless clock peer m n :
  harmless m -> node_quiet n (handle_network_message clock peer m n).
Proof.
  intros Hm. destruct m; try done; cbn [handle_network_message].
  - apply in_gossip_quiet. intros g Hg. cbn [handle_gossip_message]. case_decide; [done|].
    by apply broadcast_message_channel.
  - apply in_gossip_quiet. intros g Hg. cbn [handle_gossip_message]. case_decide; [done|].
    by apply broadcast_message_channel.
  - apply in_sync_quiet. intros s. by apply handle_message_quiet.
  - apply in_sync_quiet. intros s. apply handle_headers_quiet.
  - apply in_sync_quiet. intros s. by apply handle_message_quiet.
Qed.

Lemma fold_quiet {A} (f : A -> P2PNode St Ch -> P2PNode St Ch) (l : list A) n :
  (forall a n, node_quiet n (f a n)) -> node_quiet n (foldl (fun n a => f a n) n l).
Proof.
  intros Hf. revert n. induction l as [|a l IH]; intros n; [done|]. cbn. etrans; [apply (Hf a n)|apply IH].
Qed.

Lemma local_quiet e n : is_local e = true -> node_quiet n (handle_event e n).
Proof.
  intros He. destruct e; try done; cbn [handle_event].
  - apply (fold_quiet (fun id n => in_peers (AddPeer now id []) n)). intros. apply in_peers_quiet.
  - apply (fold_quiet (fun id n => in_peers (RemovePeer id) n)). intros. apply in_peers_quiet.
  - apply in_sync_quiet. apply start_sync_quiet.
  - apply in_sync_quiet. apply periodic_quiet.
  - apply in_gossip_quiet. intros g Hg. unfold broadcast_block. case_decide; [done|].
    by apply broadcast_message_channel.
  - apply in_gossip_quiet. intros g Hg. unfold broadcast_transaction. case_decide; [done|].
    by apply broadcast_message_channel.
Qed.

(** *** The network *)

(** JSON has no empty document. *)
Hypothesis empty_document : is_ok (@deserialize NetworkMessage _ []) = false.

Definition data_ok (data : Bytes) : Prop :=
  match deserialize (A := NetworkMessage) data with Ok m => harmless m | Err _ => True end.
Definition network_ok (nw : Network St Ch) : Prop :=
  map_Forall (fun _ n => channel_ok (p2p_channel n)) (nodes nw) /\
  Forall (fun x => data_ok x.2) (published nw).

Lemma publish_ok m : harmless m -> data_ok (publish m).
Proof.
  intros Hm. unfold data_ok, publish. destruct (serialize m) as [bs|e] eqn:Hs; cbn [unwrap_or].
  - by rewrite (codec_roundtrip m bs Hs).
  - by destruct (deserialize []).
Qed.

(** One step changes no DAG and forgets no request. *)
Definition same_chain n n' : Prop :=
  p2p_dag n' = p2p_dag n /\ p2p_state n' = p2p_state n /\ p2p_pending n ⊆ p2p_pending n'.

Lemma update_node (nw : Network St Ch) i n n' msgs :
  network_ok nw -> nodes nw !! i = Some n -> Forall (fun x => data_ok x.2) msgs ->
  channel_ok (p2p_channel n') -> same_chain n n' ->
  network_ok {| nodes := <[i := n']> (nodes nw); published := msgs |} /\
  forall j m', <[i := n']> (nodes nw) !! j = Some m' ->
    exists m, nodes nw !! j = Some m /\ same_chain m m'.
Proof.
  intros [Hn _] Hi Hm Hc Hs. split; [split; [by apply map_Forall_insert_2|done]|].
  intros j m'. destruct (decide (i = j)) as [<-|Hne].
  - rewrite lookup_insert_eq. intros [= <-]. by exists n.
  - rewrite lookup_insert_ne by done. intros Hj. by exists m'.
Qed.

Lemma net_step_frozen (nw nw' : Network St Ch) :
  network_ok nw -> net_step nw nw' ->
  network_ok nw' /\ forall j m', nodes nw' !! j = Some m' ->
    exists m, nodes nw !! j = Some m /\ same_chain m m'.
Proof.
  intros Hok Hstep. pose proof Hok as [Hn Hp].
  destruct Hstep as [i n e Hi He|i n to m c Hi Hr|i n clock source data Hin Hi]; cbn [nodes].
  - destruct (local_quiet e n He) as [? ? ? Hc]. apply (update_node nw i n); [done|done|done| |done].
    apply Hc. by eapply Hn.
  - pose proof (recv_some _ _ _ Hr) as Hs. pose proof (Hn i n Hi) as Hc. cbn in Hc.
    unfold channel_ok in Hc. rewrite Hs in Hc. apply Forall_cons in Hc as [Hm Hc].
    apply (update_node nw i n); [done|done| |done|done]. constructor; [by apply publish_ok|done].
  - rewrite Forall_forall in Hp. pose proof (Hp _ Hin) as Hd. unfold data_ok in Hd. cbn in Hd.
    assert (node_quiet n (handle_event (Received clock source data) n)) as [? ? ? Hc].
    { cbn [handle_event]. destruct (deserialize data) as [m|]; [by apply handle_harmless|done]. }
    apply (update_node nw i n); [done|done|by apply Forall_forall| |done]. apply Hc. by eapply Hn.
Qed.

(** C10: nodes of this program never exchange a block of their DAGs.  Take any number
    of nodes with any DAGs, states and peer tables and with empty channels, and
    let them run in any interleaving - starting synchronization, checking
    periodically, broadcasting blocks and transactions, connecting and disconnecting,
    publishing and receiving each other's messages in any order and any number of
    times.  Every DAG and every state stays what it was, and a block that a node has
    asked for stays requested for ever, so that a node which is not
    synchronized never is again. *)
Theorem network_never_syncs (nw nw' : Network St Ch) :
  published nw = [] -> (forall i n, nodes nw !! i = Some n -> sent (p2p_channel n) = []) ->
  rtc net_step nw nw' ->
  forall i n', nodes nw' !! i = Some n' -> exists n, nodes nw !! i = Some n /\
    p2p_dag n' = p2p_dag n /\ p2p_state n' = p2p_state n /\ p2p_pending n ⊆ p2p_pending n' /\
    (is_synced (sync_manager n) = false -> is_synced (sync_manager n') = false).
Proof.
  intros Hpub Hch Hsteps.
  assert (network_ok nw) as Hok.
  { split; [|rewrite Hpub; constructor]. intros i n Hi. unfold channel_ok. by rewrite (Hch i n Hi). }
  assert (forall i n', nodes nw' !! i = Some n' -> exists n, nodes nw !! i = Some n /\ same_chain n n') as Hall.
  { clear Hpub Hch. induction Hsteps as [nw|nw nw1 nw2 Hstep _ IH]; [by intros i n' Hi; exists n'|].
    destruct (net_step_frozen nw nw1 Hok Hstep) as [Hok1 Hs]. intros i n' Hi.
    destruct (IH Hok1 i n' Hi) as (n1 & Hi1 & Hd1 & Hs1 & Hp1).
    destruct (Hs i n1 Hi1) as (n & Hi0 & Hd & Hst & Hp). exists n. split; [done|].
    split; [congruence|]. split; [congruence|set_solver]. }
  intros i n' Hi. destruct (Hall i n' Hi) as (n & Hi0 & Hd & Hst & Hp). exists n.
  do 4 (split; [done|]). unfold is_synced. cbn. rewrite !bool_decide_eq_false. intros Hne Heq.
  apply Hne. rewrite Heq in Hp. set_solver.
Qed.
End NetworkFacts.

(** ** Witness *)

#[local] Existing Instances checksum_sha constant_exp canonical_order no_state_codec.

(** A receiver for the channel, and a format that has the two requests only. *)
#[export] Instance queue_receiver : MessageReceiver Queue := fun c =>
  match c with [] => None | m :: c => Some (m, c) end.
#[export] Instance queue_receiver_laws : MessageReceiverLaws Queue.
Proof. split; intros [|m' c]; cbn; congruence. Qed.

#[local] Instance request_codec : Codec NetworkMessage := {
  serialize m := match m with
    | RequestDag => Ok [0] | RequestBlock h => Ok (1 :: h) | _ => err "not a request" end;
  deserialize bs := match bs with
    | [0] => Ok RequestDag | 1 :: h => Ok (RequestBlock h) | _ => err "not a request" end
}.
#[local] Instance request_codec_laws : CodecLaws NetworkMessage.
Proof. split. intros [] bs; cbn; intros [= <-]; done. Qed.

(** Bob has two blocks and Alice none; she knows him. *)
Definition node_of (dag : BlockDAG MemStore) : P2PNode MemStore Queue :=
  {| p2p_peers := two_peers; p2p_channel := []; p2p_seen_blocks := ∅;
     p2p_seen_transactions := ∅; p2p_pending := {[replicate 32 9]}; p2p_dag := dag;
     p2p_state := StateManager.new |}.
Definition two_nodes : Network MemStore Queue :=
  {| nodes := <[alice := node_of dag0]> {[bob := node_of dag2]}; published := [] |}.

(** Alice asks Bob for his DAG, and the question reaches him. *)
Definition asking : P2PNode MemStore Queue := handle_event StartSync (node_of dag0).
Definition asked : Network MemStore Queue :=
  {| nodes := <[alice := asking]> (nodes two_nodes); published := [] |}.
Definition question : Network MemStore Queue :=
  {| nodes := <[alice := put_channel [] asking]> (nodes asked);
     published := (alice, publish RequestDag) :: published asked |}.
Definition answering : P2PNode MemStore Queue :=
  handle_event (Received (fun _ => 5) alice (publish RequestDag)) (node_of dag2).
Definition answered : Network MemStore Queue :=
  {| nodes := <[bob := answering]> (nodes question); published := published question |}.

Lemma asking_sent : recv (p2p_channel asking) = Some ((bob, RequestDag), []).
Proof. vm_compute. reflexivity. Qed.

Lemma question_run : rtc net_step two_nodes answered.
Proof.
  eapply rtc_l; [apply (net_local two_nodes alice (node_of dag0) StartSync); [apply lookup_insert_eq|done]|].
  eapply rtc_l; [apply (net_publish asked alice asking bob RequestDag []);
                 [apply lookup_insert_eq|apply asking_sent]|].
  apply rtc_once.
  apply (net_deliver question bob (node_of dag2) (fun _ => 5) alice (publish RequestDag)); [by left|].
  cbn [nodes question asked two_nodes]. rewrite !lookup_insert_ne by done. apply lookup_singleton_eq.
Qed.

Lemma network_never_syncs_witness :
  rtc net_step two_nodes answered /\ nodes answered !! alice = Some (put_channel [] asking) /\
  p2p_dag (put_channel [] asking) = dag0 /\ is_synced (sync_manager (put_channel [] asking)) = false.
Proof.
  assert (nodes answered !! alice = Some (put_channel [] asking)) as Ha.
  { cbn [nodes answered question asked two_nodes]. rewrite lookup_insert_ne by done. apply lookup_insert_eq. }
  split; [apply question_run|]. split; [exact Ha|].
  edestruct (network_never_syncs
    (eq_refl : is_ok (@deserialize NetworkMessage request_codec []) = false) two_nodes answered) as (n & Hn & Hd & _ & _ & Hs).
  - reflexivity.
  - intros i n. cbn [nodes two_nodes]. rewrite lookup_insert_Some, lookup_singleton_Some. by intros [[_ <-]|[_ [_ <-]]].
  - apply question_run.
  - exact Ha.
  - cbn [nodes two_nodes] in Hn. rewrite lookup_insert_eq in Hn. injection Hn as <-.
    split; [exact Hd|]. apply Hs. vm_compute. reflexivity.
Defined.
