(* ===== verification/StateSync.v ===== *)
(** State snapshots between nodes: [src/src/network/state_sync.rs].

    The locks of the manager are taken one after the other in every method and the state's
    last, so each method is one step; reading a lock is reading the field. *)
From S2P Require Import Prelude Crypto Transaction Mining Block StateTree StateManager Kv Peers Gossip.

Record StateSnapshot := {
  snap_root : Hash;
  snap_height : Z;
  snap_block : BlockHash;
  state_data : Bytes
}.

Record StateSyncManager (Ch : Type) := {
  synced_state : StateManager;
  last_synced_root : Hash;
  snapshot_sender : Ch;
  sync_in_progress : bool
}.
Arguments synced_state {Ch} _.
Arguments last_synced_root {Ch} _.
Arguments snapshot_sender {Ch} _.
Arguments sync_in_progress {Ch} _.

Section StateSync.
Context `{Codec StateManager} {Ch : Type} `{MessageSender Ch}.
Abbreviation Mgr := (StateSyncManager Ch).
Implicit Types m : Mgr.

Definition from_state_manager (st : StateManager) (height : Z) (block : BlockHash) : result StateSnapshot :=
  data ← map_err "Failed to serialize state: {}" (serialize st);
  mret {| snap_root := get_state_root st; snap_height := height; snap_block := block; state_data := data |}.

Definition restore_to_state_manager (snap : StateSnapshot) : result StateManager :=
  map_err "Failed to deserialize state: {}" (deserialize (state_data snap)).

Definition validate (snap : StateSnapshot) : result unit :=
  st ← restore_to_state_manager snap;
  if bool_decide (get_state_root st = snap_root snap) then Ok tt
  else err "State root mismatch after deserialization".

Definition size_bytes (snap : StateSnapshot) : nat := length (state_data snap).

Definition state_sync_new (st : StateManager) (sender : Ch) : Mgr :=
  {| synced_state := st; last_synced_root := get_state_root st; snapshot_sender := sender;
     sync_in_progress := false |}.

Definition set_in_progress (b : bool) m : Mgr :=
  {| synced_state := synced_state m; last_synced_root := last_synced_root m;
     snapshot_sender := snapshot_sender m; sync_in_progress := b |}.

Definition request_state_sync (peer : PeerId) : M Mgr unit := fun m =>
  if sync_in_progress m then (err "State sync already in progress", m)
  else
    let '(r, c) := send (peer, RequestState) (snapshot_sender m) in
    (map_err "Failed to send state request: {}" r,
     {| synced_state := synced_state m; last_synced_root := last_synced_root m;
        snapshot_sender := c; sync_in_progress := true |}).

Definition handle_state_snapshot (snap : StateSnapshot) : M Mgr unit := fun m =>
  match validate snap with
  | Err e => (Err e, m)
  | Ok _ =>
      if bool_decide (snap_root snap = get_state_root (synced_state m))
      then (Ok tt, set_in_progress false m)
      else
        match restore_to_state_manager snap with
        | Err e => (Err e, m)
        | Ok st =>
            (Ok tt, {| synced_state := st; last_synced_root := snap_root snap;
                       snapshot_sender := snapshot_sender m; sync_in_progress := false |})
        end
  end.

Definition create_snapshot (height : Z) (block : BlockHash) m : result StateSnapshot :=
  from_state_manager (synced_state m) height block.

Definition is_syncing m : bool := sync_in_progress m.
Definition get_last_synced_root m : Hash := last_synced_root m.
Definition get_current_state_root m : Hash := get_state_root (synced_state m).
Definition is_state_synced m : bool :=
  bool_decide (get_current_state_root m = get_last_synced_root m).

(** The two operations that change the manager, and their results one after the other. *)
Inductive sync_event :=
  | Ask (peer : PeerId)
  | Receive (snap : StateSnapshot).
Definition sync_event_run (e : sync_event) : M Mgr unit :=
  match e with Ask peer => request_state_sync peer | Receive snap => handle_state_snapshot snap end.
Fixpoint sync_results (es : list sync_event) m : list (result unit) * Mgr :=
  match es with
  | [] => ([], m)
  | e :: es =>
      let '(r, m) := sync_event_run e m in
      let '(rs, m) := sync_results es m in (r :: rs, m)
  end.
End StateSync.

Section StateSyncFacts.
Context `{CodecLaws StateManager} {Ch : Type} `{MessageSender Ch}.
Implicit Types m : StateSyncManager Ch.

Lemma restore_serialized st data height block root :
  serialize st = Ok data ->
  restore_to_state_manager {| snap_root := root; snap_height := height; snap_block := block; state_data := data |}
    = Ok st.
Proof. intros Hs. unfold restore_to_state_manager. cbn. by rewrite (codec_roundtrip _ _ Hs). Qed.

(** What a snapshot of [st] does, whatever [st] is: nothing but its cached root is
    looked at. *)
Lemma handle_serialized st data height block m :
  serialize st = Ok data ->
  handle_state_snapshot
    {| snap_root := current_state_root st; snap_height := height; snap_block := block; state_data := data |} m =
  (Ok tt,
   if bool_decide (current_state_root st = get_current_state_root m) then set_in_progress false m
   else {| synced_state := st; last_synced_root := current_state_root st;
           snapshot_sender := snapshot_sender m; sync_in_progress := false |}).
Proof.
  intros Hs. unfold handle_state_snapshot, validate. rewrite (restore_serialized _ _ _ _ _ Hs).
  cbv [mbind result_bind]. cbn [snap_root]. unfold get_state_root at 1. rewrite bool_decide_true by done.
  unfold get_current_state_root. by case_bool_decide.
Qed.

Lemma from_state_manager_ok st height block snap :
  from_state_manager st height block = Ok snap ->
  exists data, serialize st = Ok data /\
    snap = {| snap_root := current_state_root st; snap_height := height; snap_block := block;
              state_data := data |}.
Proof.
  unfold from_state_manager. destruct (serialize st) as [data|e]; cbn; [|done].
  intros [= <-]. by exists data.
Qed.

(** C22: what a snapshot that was made of a state does at a receiver in whatever
    state.  It is always accepted and no synchronization is in progress any more.  If the
    cached roots differ, the receiver's state is the sender's.  If they agree, the
    snapshot is skipped and the receiver keeps what it has: the
    sender's accounts, unless SHA-256 collides, when both states are
    well-formed and have accounts - but a receiver whose state only caches that
    root, as a forged snapshot leaves it (see [forged_snapshot_applied]), keeps
    the forged accounts.  A skipped snapshot does not move the last synchronized root, so the
    manager may go on reporting that it is not synchronized. *)
Theorem state_sync_converges `{!Sha256, !HashOrder, !Sha256Laws} st height block snap m :
  from_state_manager st height block = Ok snap ->
  exists m', handle_state_snapshot snap m = (Ok tt, m') /\
    is_syncing m' = false /\ snapshot_sender m' = snapshot_sender m /\
    get_current_state_root m' = get_state_root st /\
    (get_state_root st <> get_current_state_root m ->
       synced_state m' = st /\ is_state_synced m' = true) /\
    (get_state_root st = get_current_state_root m ->
       synced_state m' = synced_state m /\
       is_state_synced m' = bool_decide (get_state_root st = get_last_synced_root m) /\
       (state_ok st -> state_ok (synced_state m) ->
        accounts st <> ∅ -> accounts (synced_state m) <> ∅ ->
        accounts (synced_state m') = accounts st \/
        sha256_collision (tree_inputs (state_tree (synced_state m)) ++ tree_inputs (state_tree st)))).
Proof.
  intros Hsnap. apply from_state_manager_ok in Hsnap as (data & Hs & ->).
  rewrite (handle_serialized _ _ _ _ _ Hs). eexists. split; [done|].
  fold (get_state_root st). case_bool_decide as Heq.
  - split; [done|]. split; [done|]. split; [done|]. split; [done|]. intros _.
    split; [done|]. split.
    + rewrite Heq. done.
    + intros [Ht Hr] [Htm Hrm] Hne Hmne. apply (root_determines_leaves _ _ Htm Ht Hmne Hne).
      unfold get_current_state_root, get_state_root in Heq. by rewrite <- Hr, <- Hrm.
  - split; [done|]. split; [done|]. split; [done|]. split; [|done]. intros _.
    split; [done|]. by apply bool_decide_true.
Qed.

(** A snapshot is checked against its own claim only.  Any accounts with any root
    other than the local one, serialized as a state that caches this root, pass
    validation and replace the whole local state, asked for or not; the
    manager then reports that it is synchronized. *)
Theorem forged_snapshot_applied t root height block data m :
  serialize {| state_tree := t; current_state_root := root |} = Ok data ->
  root <> get_current_state_root m ->
  let snap := {| snap_root := root; snap_height := height; snap_block := block; state_data := data |} in
  validate snap = Ok tt /\
  exists m', handle_state_snapshot snap m = (Ok tt, m') /\
    (forall a, manager_get_account (synced_state m') a = leaves t !! a) /\
    get_current_state_root m' = root /\ is_state_synced m' = true.
Proof.
  intros Hs Hne snap. split.
  - unfold validate, snap. rewrite (restore_serialized _ _ _ _ _ Hs). cbn. by rewrite bool_decide_true.
  - eexists. split; [apply (handle_serialized _ _ height block m Hs)|]. cbn [current_state_root].
    rewrite bool_decide_false by done. split; [done|]. split; [done|]. by apply bool_decide_true.
Qed.

(** What a request gets while another is in progress. *)
Definition refused (e : sync_event) (r : result unit) : Prop :=
  match e with Ask _ => r = err "State sync already in progress" | Receive _ => is_ok r = false end.
Definition invalid (e : sync_event) : Prop :=
  match e with Ask _ => True | Receive snap => is_ok (validate snap) = false end.

Lemma syncing_refuses es m :
  sync_in_progress m = true -> Forall invalid es ->
  (sync_results es m).2 = m /\ Forall2 refused es (sync_results es m).1.
Proof.
  intros Hp. induction es as [|e es IH]; intros Hes; cbn [sync_results];
    [split; [done|constructor]|].
  apply Forall_cons in Hes as [He Hes]. destruct (IH Hes) as [Hm Hr].
  assert (exists r, sync_event_run e m = (r, m) /\ refused e r) as (r & -> & Hre).
  { destruct e as [peer|snap]; cbn [sync_event_run invalid refused] in *.
    - unfold request_state_sync. rewrite Hp. by eexists.
    - unfold handle_state_snapshot. destruct (validate snap) as [|e]; [done|]. by exists (Err e). }
  destruct (sync_results es m) as [rs m']. cbn in *. subst m'. split; [done|by constructor].
Qed.

(** Once a state synchronization has been requested - even when the request could not
    be sent - only a valid snapshot ends it: for as long as none arrives, every further
    request is refused, to whichever peer, and every snapshot that fails its
    validation leaves the manager waiting. *)
Theorem failed_sync_stuck peer es m :
  Forall invalid es ->
  let m1 := (request_state_sync peer m).2 in
  is_syncing m1 = true /\ synced_state m1 = synced_state m /\
  (sync_results es m1).2 = m1 /\ Forall2 refused es (sync_results es m1).1.
Proof.
  intros Hes m1. assert (sync_in_progress m1 = true /\ synced_state m1 = synced_state m) as [Hp Hs].
  { unfold m1, request_state_sync. destruct (sync_in_progress m) eqn:Hp; [done|].
    by destruct (send _ _). }
  split; [done|]. split; [done|]. by apply syncing_refuses.
Qed.
End StateSyncFacts.

(** ** Witnesses

    A serializer of states: a tree is written node by node from its root down. *)
Section Formats.
Context {A : Type} (fa : format A).
Definition put_option (o : option A) : Bytes :=
  match o with None => [0] | Some a => 1 :: fmt_put fa a end.
Definition get_option (bs : Bytes) : option (option A * Bytes) :=
  '(z, bs) ← get_Z bs;
  if z =? 0 then Some (None, bs) else '(a, bs) ← fmt_get fa bs; Some (Some a, bs).
Lemma get_put_option o rest : get_option (put_option o ++ rest) = Some (o, rest).
Proof. destruct o as [a|]; [|done]. unfold get_option. cbn. by rewrite fmt_get_put. Qed.
Definition fmt_option : format (option A) :=
  {| fmt_put := put_option; fmt_get := get_option; fmt_get_put := get_put_option |}.
End Formats.

Definition fmt_account : format Account :=
  fmt_map (fmt_pair fmt_Z fmt_Z) (fun a => (balance a, account_nonce a))
    (fun '(b, n) => Some (Account_new b n)) (fun a => match a with Build_Account _ _ => eq_refl end).

Definition fmt_fields : format (Hash * (option Address * option Account)) :=
  fmt_pair fmt_bytes (fmt_pair (fmt_option fmt_bytes) (fmt_option fmt_account)).

Fixpoint put_node (n : MerkleNode) : Bytes :=
  let 'Node h l r k v := n in
  fmt_put fmt_fields (h, (k, v)) ++
  match l with None => [0] | Some l => 1 :: put_node l end ++
  match r with None => [0] | Some r => 1 :: put_node r end.

Fixpoint get_node (fuel : nat) (bs : Bytes) : option (MerkleNode * Bytes) :=
  match fuel with
  | O => None
  | S fuel =>
      let child (bs : Bytes) : option (option MerkleNode * Bytes) :=
        '(z, bs) ← get_Z bs;
        if z =? 0 then Some (None, bs) else '(n, bs) ← get_node fuel bs; Some (Some n, bs) in
      '(x, bs) ← fmt_get fmt_fields bs;
      '(l, bs) ← child bs; '(r, bs) ← child bs; Some (Node x.1 l r x.2.1 x.2.2, bs)
  end.

Lemma merkle_ind (P : MerkleNode -> Prop) :
  (forall h l r k v, (forall n, l = Some n -> P n) -> (forall n, r = Some n -> P n) -> P (Node h l r k v)) ->
  forall n, P n.
Proof.
  intros Hn. fix IH 1. intros [h l r k v]. apply Hn.
  - destruct l as [l|]; [|discriminate]. intros n [= <-]. apply IH.
  - destruct r as [r|]; [|discriminate]. intros n [= <-]. apply IH.
Qed.

Definition put_child (o : option MerkleNode) : Bytes :=
  match o with None => [0] | Some n => 1 :: put_node n end.

Lemma get_put_node n : forall fuel rest,
  (length (put_node n) <= fuel)%nat -> get_node fuel (put_node n ++ rest) = Some (n, rest).
Proof.
  induction n as [h l r k v IHl IHr] using merkle_ind. intros fuel rest Hf.
  change (put_node (Node h l r k v)) with
    (fmt_put fmt_fields (h, (k, v)) ++ put_child l ++ put_child r) in *.
  rewrite !length_app in Hf.
  assert (0 < length (fmt_put fmt_fields (h, (k, v))))%nat as Hpos by (cbn; lia).
  destruct fuel as [|fuel]; [lia|]. cbn [get_node]. rewrite <- !app_assoc, fmt_get_put. cbn [mbind option_bind].
  assert (forall o rest, (forall n, o = Some n -> (length (put_node n) <= fuel)%nat ->
      get_node fuel (put_node n ++ rest) = Some (n, rest)) ->
    (length (put_child o) <= fuel)%nat ->
    ('(z, bs) ← get_Z (put_child o ++ rest);
     if z =? 0 then Some (None, bs) else '(n, bs) ← get_node fuel bs; Some (Some n, bs)) = Some (o, rest)) as Hchild.
  { intros [n|] rest' Hn Hlen; cbn in *; [|done]. by rewrite (Hn n eq_refl) by lia. }
  rewrite Hchild; [|intros n -> Hl; by apply IHl|lia]. cbn [mbind option_bind].
  rewrite Hchild; [|intros n -> Hl; by apply IHr|lia]. done.
Qed.

Definition fmt_node : format MerkleNode :=
  {| fmt_put := put_node; fmt_get bs := get_node (length bs) bs;
     fmt_get_put n rest := get_put_node n (length (put_node n ++ rest)) rest
       ltac:(rewrite length_app; lia) |}.
Definition fmt_state : format StateManager :=
  fmt_map (fmt_pair (fmt_pair (fmt_option fmt_node) (fmt_list (fmt_pair fmt_bytes fmt_account))) fmt_bytes)
    (fun st => ((root (state_tree st), map_to_list (leaves (state_tree st))), current_state_root st))
    (fun '((r, l), h) => Some {| state_tree := {| root := r; leaves := list_to_map l |}; current_state_root := h |})
    (fun st => match st with Build_StateManager (Build_SparseMerkleTree r m) h =>
       f_equal (fun m => Some {| state_tree := {| root := r; leaves := m |}; current_state_root := h |})
         (list_to_map_to_list m) end).

#[export] Instance state_codec : Codec StateManager := fmt_codec fmt_state.
#[export] Instance state_codec_laws : CodecLaws StateManager := fmt_codec_laws fmt_state.

#[local] Existing Instances checksum_sha checksum_laws canonical_order.

Definition idle : StateSyncManager Queue := state_sync_new genesis_state [].
(** The sender has credited one more account. *)
Definition richer : StateManager :=
  refresh_root (put_account (replicate 20 7) (Account_new 5 0) genesis_state).

Lemma genesis_nonempty : accounts genesis_state <> ∅.
Proof.
  unfold genesis_state. rewrite initialize_tokenomics_accounts, genesis_accounts. apply insert_non_empty.
Qed.

Definition snapshot_of (st : StateManager) : StateSnapshot :=
  {| snap_root := get_state_root st; snap_height := 9; snap_block := replicate 32 4;
     state_data := fmt_put fmt_state st |}.

Lemma roots_differ : bool_decide (get_state_root richer = get_current_state_root idle) = false.
Proof. vm_compute. reflexivity. Qed.

(** Eighteen quintillion coins, under a root of zeros. *)
Definition windfall : SparseMerkleTree :=
  {| root := None; leaves := {[replicate 20 6 := Account_new u64_max 0]} |}.

(** A receiver that holds no real account but caches the root of [richer]. *)
Definition fooled : StateSyncManager Queue :=
  state_sync_new {| state_tree := windfall; current_state_root := get_state_root richer |} [].

Lemma state_sync_converges_witness :
  (exists m', handle_state_snapshot (snapshot_of richer) idle = (Ok tt, m') /\
    synced_state m' = richer /\ is_state_synced m' = true) /\
  (exists m', handle_state_snapshot (snapshot_of richer) fooled = (Ok tt, m') /\
    synced_state m' = synced_state fooled) /\
  (exists m', handle_state_snapshot (snapshot_of genesis_state) idle = (Ok tt, m') /\
    (accounts (synced_state m') = accounts genesis_state \/
     sha256_collision (tree_inputs (state_tree genesis_state) ++ tree_inputs (state_tree genesis_state)))).
Proof.
  split; [|split].
  - destruct (state_sync_converges richer 9 (replicate 32 4) (snapshot_of richer) idle)
      as (m' & Hm & _ & _ & _ & Hd & _); [reflexivity|].
    exists m'. split; [exact Hm|]. apply Hd.
    exact (proj1 (bool_decide_eq_false _) roots_differ).
  - destruct (state_sync_converges richer 9 (replicate 32 4) (snapshot_of richer) fooled)
      as (m' & Hm & _ & _ & _ & _ & Hd); [reflexivity|].
    exists m'. split; [exact Hm|]. by apply Hd.
  - destruct (state_sync_converges genesis_state 9 (replicate 32 4) (snapshot_of genesis_state) idle)
      as (m' & Hm & _ & _ & _ & _ & Hd); [reflexivity|].
    exists m'. split; [exact Hm|]. apply Hd; [reflexivity|..];
      exact (proj1 genesis_supply_ok) || exact genesis_nonempty.
Defined.

Lemma forged_snapshot_applied_witness :
  exists snap m', handle_state_snapshot snap idle = (Ok tt, m') /\
    manager_get_account (synced_state m') (replicate 20 6) = Some (Account_new u64_max 0) /\
    is_state_synced m' = true.
Proof.
  destruct (forged_snapshot_applied windfall (replicate 32 0) 1 []
    (fmt_put fmt_state {| state_tree := windfall; current_state_root := replicate 32 0 |}) idle)
    as (_ & m' & Hm & Ha & _ & Hs).
  - reflexivity.
  - apply (bool_decide_unpack _). vm_compute. exact I.
  - eexists _, m'. split; [exact Hm|]. split; [|exact Hs]. rewrite Ha. apply lookup_singleton_eq.
Defined.

Definition garbled : StateSnapshot :=
  {| snap_root := []; snap_height := 0; snap_block := []; state_data := [] |}.

Lemma failed_sync_stuck_witness :
  let m1 := (request_state_sync bob idle).2 in
  (sync_results [Ask bob; Receive garbled; Ask alice] m1).2 = m1 /\
  Forall2 refused [Ask bob; Receive garbled; Ask alice]
    (sync_results [Ask bob; Receive garbled; Ask alice] m1).1.
Proof.
  destruct (failed_sync_stuck bob [Ask bob; Receive garbled; Ask alice] idle) as (_ & _ & Hm & Hr).
  - repeat (constructor; [vm_compute; done|]). constructor.
  - split; [exact Hm|exact Hr].
Defined.
