(* ===== verification/Discovery.v ===== *)
(** Peer discovery and reputation: [src/src/network/discovery.rs].

    Every method takes the locks of the peer table, the trusted set and the banned set in
    this order and holds the table's to its end, so each is one step.  An [Instant] is
    a number of nanoseconds, and where the code reads the clock the reading is an
    argument; so are the random peer ids of the mock DNS query.  Spawning the
    maintenance task is not modelled; a round of it is. *)
From S2P Require Import Prelude Floats.

Abbreviation PeerId := Bytes.
Abbreviation Multiaddr := Bytes.
Abbreviation Instant := Z.

(** ** Reputation *)

Abbreviation ReputationScore := Z.
Definition MAX_SCORE : Z := 1000.
Definition MIN_SCORE : Z := -1000.
Definition DEFAULT_SCORE : Z := 0.

(** [Self(score.clamp(..))] *)
Definition score_new (score : Z) : ReputationScore := Z.min (Z.max score MIN_SCORE) MAX_SCORE.
Definition increase (amount : Z) (r : ReputationScore) : ReputationScore := Z.min (i32_add r amount) MAX_SCORE.
Definition decrease (amount : Z) (r : ReputationScore) : ReputationScore := Z.max (i32_sub r amount) MIN_SCORE.
Definition is_banned (r : ReputationScore) : bool := r <=? -500.
Definition is_trusted (r : ReputationScore) : bool := 500 <=? r.

(** ** Peers *)

Record PeerData := {
  pd_id : PeerId;
  addresses : list Multiaddr;
  reputation : ReputationScore;
  pd_last_seen : Instant;
  connected : bool;
  connection_attempts : Z;
  successful_connections : Z;
  messages_sent : Z;
  messages_received : Z;
  bytes_sent : Z;
  bytes_received : Z;
  first_discovered : Instant
}.

Definition peer_data_new (now now' : Instant) (id : PeerId) (address : Multiaddr) : PeerData :=
  {| pd_id := id; addresses := [address]; reputation := DEFAULT_SCORE; pd_last_seen := now;
     connected := false; connection_attempts := 0; successful_connections := 0; messages_sent := 0;
     messages_received := 0; bytes_sent := 0; bytes_received := 0; first_discovered := now' |}.

Definition success_rate (p : PeerData) : f64 :=
  if connection_attempts p =? 0 then f64_of_Z 0
  else f64_div (f64_of_Z (successful_connections p)) (f64_of_Z (connection_attempts p)).

(** One field each. *)
Definition put_addresses (l : list Multiaddr) (p : PeerData) : PeerData :=
  {| pd_id := pd_id p; addresses := l; reputation := reputation p; pd_last_seen := pd_last_seen p;
     connected := connected p; connection_attempts := connection_attempts p;
     successful_connections := successful_connections p; messages_sent := messages_sent p;
     messages_received := messages_received p; bytes_sent := bytes_sent p;
     bytes_received := bytes_received p; first_discovered := first_discovered p |}.
Definition put_reputation (r : ReputationScore) (p : PeerData) : PeerData :=
  {| pd_id := pd_id p; addresses := addresses p; reputation := r; pd_last_seen := pd_last_seen p;
     connected := connected p; connection_attempts := connection_attempts p;
     successful_connections := successful_connections p; messages_sent := messages_sent p;
     messages_received := messages_received p; bytes_sent := bytes_sent p;
     bytes_received := bytes_received p; first_discovered := first_discovered p |}.
Definition update_last_seen (now : Instant) (p : PeerData) : PeerData :=
  {| pd_id := pd_id p; addresses := addresses p; reputation := reputation p; pd_last_seen := now;
     connected := connected p; connection_attempts := connection_attempts p;
     successful_connections := successful_connections p; messages_sent := messages_sent p;
     messages_received := messages_received p; bytes_sent := bytes_sent p;
     bytes_received := bytes_received p; first_discovered := first_discovered p |}.
Definition put_connected (b : bool) (p : PeerData) : PeerData :=
  {| pd_id := pd_id p; addresses := addresses p; reputation := reputation p;
     pd_last_seen := pd_last_seen p; connected := b; connection_attempts := connection_attempts p;
     successful_connections := successful_connections p; messages_sent := messages_sent p;
     messages_received := messages_received p; bytes_sent := bytes_sent p;
     bytes_received := bytes_received p; first_discovered := first_discovered p |}.
Definition put_counts (attempts successes : Z) (p : PeerData) : PeerData :=
  {| pd_id := pd_id p; addresses := addresses p; reputation := reputation p;
     pd_last_seen := pd_last_seen p; connected := connected p; connection_attempts := attempts;
     successful_connections := successes; messages_sent := messages_sent p;
     messages_received := messages_received p; bytes_sent := bytes_sent p;
     bytes_received := bytes_received p; first_discovered := first_discovered p |}.
Definition put_sent (messages bytes : Z) (p : PeerData) : PeerData :=
  {| pd_id := pd_id p; addresses := addresses p; reputation := reputation p;
     pd_last_seen := pd_last_seen p; connected := connected p;
     connection_attempts := connection_attempts p;
     successful_connections := successful_connections p; messages_sent := messages;
     messages_received := messages_received p; bytes_sent := bytes;
     bytes_received := bytes_received p; first_discovered := first_discovered p |}.
Definition put_received (messages bytes : Z) (p : PeerData) : PeerData :=
  {| pd_id := pd_id p; addresses := addresses p; reputation := reputation p;
     pd_last_seen := pd_last_seen p; connected := connected p;
     connection_attempts := connection_attempts p;
     successful_connections := successful_connections p; messages_sent := messages_sent p;
     messages_received := messages; bytes_sent := bytes_sent p;
     bytes_received := bytes; first_discovered := first_discovered p |}.

Definition record_connection_attempt (success : bool) (p : PeerData) : PeerData :=
  let p := put_counts (u32_add (connection_attempts p) 1) (successful_connections p) p in
  if success then
    put_reputation (increase 10 (reputation p))
      (put_counts (connection_attempts p) (u32_add (successful_connections p) 1) p)
  else put_reputation (decrease 5 (reputation p)) p.

Definition record_message_sent (size : Z) (p : PeerData) : PeerData :=
  put_sent (u64_add (messages_sent p) 1) (u64_add (bytes_sent p) size) p.

Definition record_message_received (size : Z) (p : PeerData) : PeerData :=
  put_reputation (increase 1 (reputation p))
    (put_received (u64_add (messages_received p) 1) (u64_add (bytes_received p) size) p).

Definition elapsed (now t : Instant) : Z := Z.max 0 (now - t).
Definition should_connect (now : Instant) (p : PeerData) : bool :=
  negb (is_banned (reputation p)) && f64_ltb (f64_lit 1 10) (success_rate p) &&
  (elapsed now (pd_last_seen p) <? 3600 * 1000000000).

(** ** The manager *)

Record DnsSeed := { hostname : string; port : Z }.
Record BootstrapPeer := { address : string; bootstrap_id : option string }.

Record DiscoveryManager := {
  dns_seeds : list DnsSeed;
  bootstrap_peers : list BootstrapPeer;
  known : gmap PeerId PeerData;
  trusted_peers : gset PeerId;
  banned_peers : gset PeerId;
  local_peer_id : PeerId;
  enable_mdns : bool;
  enable_dht : bool;
  max_peers : nat;
  min_peers : nat
}.

Definition discovery_new (id : PeerId) : DiscoveryManager :=
  {| dns_seeds := [{| hostname := "seed.cytah-speed.net"; port := 8333 |};
                   {| hostname := "seed2.cytah-speed.net"; port := 8333 |}];
     bootstrap_peers := [{| address := "/ip4/127.0.0.1/tcp/8333"; bootstrap_id := None |}];
     known := ∅; trusted_peers := ∅; banned_peers := ∅; local_peer_id := id;
     enable_mdns := true; enable_dht := true; max_peers := 100; min_peers := 8 |}.

Definition put_seeds (l : list DnsSeed) (d : DiscoveryManager) : DiscoveryManager :=
  {| dns_seeds := l; bootstrap_peers := bootstrap_peers d; known := known d;
     trusted_peers := trusted_peers d; banned_peers := banned_peers d;
     local_peer_id := local_peer_id d; enable_mdns := enable_mdns d; enable_dht := enable_dht d;
     max_peers := max_peers d; min_peers := min_peers d |}.
Definition put_bootstrap (l : list BootstrapPeer) (d : DiscoveryManager) : DiscoveryManager :=
  {| dns_seeds := dns_seeds d; bootstrap_peers := l; known := known d;
     trusted_peers := trusted_peers d; banned_peers := banned_peers d;
     local_peer_id := local_peer_id d; enable_mdns := enable_mdns d; enable_dht := enable_dht d;
     max_peers := max_peers d; min_peers := min_peers d |}.
Definition put_known (m : gmap PeerId PeerData) (trusted banned : gset PeerId) (d : DiscoveryManager)
    : DiscoveryManager :=
  {| dns_seeds := dns_seeds d; bootstrap_peers := bootstrap_peers d; known := m;
     trusted_peers := trusted; banned_peers := banned;
     local_peer_id := local_peer_id d; enable_mdns := enable_mdns d; enable_dht := enable_dht d;
     max_peers := max_peers d; min_peers := min_peers d |}.
Definition set_mdns_enabled (b : bool) (d : DiscoveryManager) : DiscoveryManager :=
  {| dns_seeds := dns_seeds d; bootstrap_peers := bootstrap_peers d; known := known d;
     trusted_peers := trusted_peers d; banned_peers := banned_peers d;
     local_peer_id := local_peer_id d; enable_mdns := b; enable_dht := enable_dht d;
     max_peers := max_peers d; min_peers := min_peers d |}.

Section Discovery.
Context `{HashOrder}.
Implicit Types (d : DiscoveryManager) (id : PeerId).

Definition add_dns_seed (seed : DnsSeed) d : DiscoveryManager := put_seeds (dns_seeds d ++ [seed]) d.
Definition add_bootstrap_peer (peer : BootstrapPeer) d : DiscoveryManager :=
  put_bootstrap (bootstrap_peers d ++ [peer]) d.
Definition add_bootstrap_peer_legacy (a : string) d : DiscoveryManager :=
  add_bootstrap_peer {| address := a; bootstrap_id := None |} d.
Definition get_bootstrap_addresses d : list string := address <$> bootstrap_peers d.
Definition get_bootstrap_peers_legacy d : list string := get_bootstrap_addresses d.
Definition is_mdns_enabled d : bool := enable_mdns d.

(** [random i]: the [i]-th random id; a seed is answered with three. *)
Definition query_dns_seed (random : nat -> PeerId) (i : nat) (_ : DnsSeed) : result (list PeerId) :=
  Ok [random (3 * i)%nat; random (3 * i + 1)%nat; random (3 * i + 2)%nat].
Definition discover_from_dns (random : nat -> PeerId) d : result (list PeerId) :=
  Ok (concat (imap (fun i seed =>
    match query_dns_seed random i seed with
    | Ok ids => filter (fun id => id <> local_peer_id d) ids
    | Err _ => []
    end) (dns_seeds d))).

(** The address of a new peer is entered twice. *)
Definition add_peer (now now' : Instant) id (addr : Multiaddr) d : DiscoveryManager :=
  let entry := default (peer_data_new now now' id addr) (known d !! id) in
  put_known (<[id := put_addresses (addresses entry ++ [addr]) entry]> (known d))
    (trusted_peers d) (banned_peers d) d.

Definition update_peer_reputation id (delta : Z) d : DiscoveryManager :=
  match known d !! id with
  | None => d
  | Some p =>
      let r := if 0 <? delta then increase delta (reputation p)
               else decrease (i32_sub 0 delta) (reputation p) in
      put_known (<[id := put_reputation r p]> (known d))
        (if is_trusted r then {[id]} ∪ trusted_peers d else trusted_peers d ∖ {[id]})
        (if is_banned r then {[id]} ∪ banned_peers d else banned_peers d ∖ {[id]}) d
  end.

Definition update_known (f : PeerData -> PeerData) id d : DiscoveryManager :=
  put_known (alter f id (known d)) (trusted_peers d) (banned_peers d) d.
Definition record_connection_success (now : Instant) id d : DiscoveryManager :=
  update_known (fun p => update_last_seen now (put_connected true (record_connection_attempt true p))) id d.
Definition record_connection_failure id d : DiscoveryManager :=
  update_known (record_connection_attempt false) id d.

(** The clock is read for every entry. *)
Definition wanted (now : PeerId -> Instant) d (x : PeerId * PeerData) : bool :=
  negb (bool_decide (x.1 ∈ banned_peers d)) && negb (connected x.2) && should_connect (now x.1) x.2.
Definition get_peers_to_connect (now : PeerId -> Instant) d : list PeerId :=
  (take (max_peers d) (filter (fun x => wanted now d x = true) (hm_iter (known d)))).*1.

Definition get_trusted_peers d : list PeerId := hs_iter (trusted_peers d).
Definition get_peer_reputation id d : ReputationScore := default DEFAULT_SCORE (reputation <$> known d !! id).
Definition is_peer_banned id d : bool := bool_decide (id ∈ banned_peers d).
Definition get_peer_stats id d : option PeerData := known d !! id.

Definition keep (cutoff : Instant) (p : PeerData) : bool :=
  (cutoff <? first_discovered p) || (0 <? successful_connections p) || is_trusted (reputation p).
Definition cleanup_stale_peers (now : Instant) d : DiscoveryManager :=
  let cutoff := now - 7 * 24 * 3600 * 1000000000 in
  let gone := dom (filter (fun x => keep cutoff x.2 = false) (known d)) in
  put_known (filter (fun x => keep cutoff x.2 = true) (known d))
    (trusted_peers d ∖ gone) (banned_peers d ∖ gone) d.

(** One round of the task of [start_maintenance]; what DNS found is logged. *)
Definition maintenance (now : Instant) d : DiscoveryManager := cleanup_stale_peers now d.

(** *** Addresses *)

(** [str::find] and [&s[i..]] on UTF-8: [None] is a panic. *)
Fixpoint find_from (i : nat) (pat s : Bytes) : option nat :=
  if bool_decide (take (length pat) s = pat) then Some i
  else match s with [] => None | _ :: s => find_from (S i) pat s end.
Definition str_find (pat s : Bytes) : option nat := find_from 0 pat s.
Definition is_char_boundary (s : Bytes) (i : nat) : bool :=
  match s !! i with
  | Some b => negb ((128 <=? b) && (b <? 192))
  | None => bool_decide (i = length s)
  end.
Definition slice_from (s : Bytes) (i : nat) : option Bytes :=
  if is_char_boundary s i then Some (drop i s) else None.

Definition slash : Z := 47.
Definition p2p_tag : Bytes := [47; 112; 50; 112; 47].
Definition parse_multiaddr (addr : Bytes) : option (option Bytes) :=
  match str_find p2p_tag addr with
  | Some pos =>
      part ← slice_from addr (pos + 6);
      Some (Some (match str_find [slash] part with Some e => take e part | None => part end))
  | None => Some None
  end.
End Discovery.

(** ** Runs *)

Inductive discovery_event :=
  | Seed (s : DnsSeed)
  | Bootstrap (b : BootstrapPeer)
  | Found (now now' : Instant) (id : PeerId) (addr : Multiaddr)
  | Reputation (id : PeerId) (delta : Z)
  | Success (now : Instant) (id : PeerId)
  | Failure (id : PeerId)
  | Clean (now : Instant)
  | Mdns (b : bool).

Definition discovery_run (d : DiscoveryManager) (e : discovery_event) : DiscoveryManager :=
  match e with
  | Seed s => add_dns_seed s d
  | Bootstrap b => add_bootstrap_peer b d
  | Found now now' id addr => add_peer now now' id addr d
  | Reputation id delta => update_peer_reputation id delta d
  | Success now id => record_connection_success now id d
  | Failure id => record_connection_failure id d
  | Clean now => cleanup_stale_peers now d
  | Mdns b => set_mdns_enabled b d
  end.

Section DiscoveryFacts.
Context `{HashOrder}.
Implicit Types (d : DiscoveryManager) (id : PeerId) (p : PeerData).

(** What every entry satisfies is kept by changing one entry, and by cleaning up. *)
Lemma update_known_all (P : PeerId -> PeerData -> Prop) f id d :
  map_Forall P (known d) -> (forall p, P id p -> P id (f p)) -> map_Forall P (known (update_known f id d)).
Proof.
  intros Hd Hf i p. cbn. rewrite lookup_alter_Some. intros [(<- & q & Hq & ->)|[_ Hp]]; [|by apply Hd].
  apply Hf. by apply Hd.
Qed.

Lemma run_all (P : PeerId -> PeerData -> Prop) (ok : discovery_event -> Prop) e d :
  ok e ->
  (forall now now' id addr, P id (peer_data_new now now' id addr)) ->
  (forall id p l, P id p -> P id (put_addresses l p)) ->
  (forall id p delta, ok (Reputation id delta) -> P id p ->
     P id (put_reputation (if 0 <? delta then increase delta (reputation p)
                           else decrease (i32_sub 0 delta) (reputation p)) p)) ->
  (forall id p now, P id p ->
     P id (update_last_seen now (put_connected true (record_connection_attempt true p)))) ->
  (forall id p, P id p -> P id (record_connection_attempt false p)) ->
  map_Forall P (known d) -> map_Forall P (known (discovery_run d e)).
Proof.
  intros He Hnew Haddr Hrep Hs Hf Hd. destruct e as [s|b|now now' id addr|id delta|now id|id|now|b];
    cbn [discovery_run]; try exact Hd.
  - unfold add_peer. cbn. apply map_Forall_insert_2; [|exact Hd]. apply Haddr.
    destruct (known d !! id) as [p|] eqn:Hid; cbn; [by apply Hd|apply Hnew].
  - unfold update_peer_reputation. destruct (known d !! id) as [p|] eqn:Hid; [|exact Hd].
    cbn. apply map_Forall_insert_2; [|exact Hd]. apply Hrep; [exact He|by apply Hd].
  - apply update_known_all; [exact Hd|]. intros p. apply Hs.
  - apply update_known_all; [exact Hd|]. intros p. apply Hf.
  - cbn. intros i p Hp%map_lookup_filter_Some. by apply Hd, Hp.
Qed.

(** *** Nothing to connect to *)

Definition unconnected_unsuccessful (_ : PeerId) p : Prop :=
  connected p = false -> successful_connections p = 0.

Lemma unsuccessful_rate p : successful_connections p = 0 -> f64_ltb (f64_lit 1 10) (success_rate p) = false.
Proof.
  intros Hs. unfold success_rate. case_match; [vm_compute; reflexivity|]. rewrite Hs.
  change (f64_of_Z 0) with (S754_zero false). by destruct (f64_of_Z (connection_attempts p)).
Qed.

(** C35: the manager never offers a peer.  Whatever peers are found, rewarded, punished,
    connected to, lost or cleaned up, in any order, [get_peers_to_connect] is empty: a peer
    that was never connected to has a success rate of zero and is left out for that,
    and one that was counts as connected for ever. *)
Theorem no_peer_to_connect now id es :
  get_peers_to_connect now (foldl discovery_run (discovery_new id) es) = [].
Proof.
  assert (forall d, map_Forall unconnected_unsuccessful (known d) ->
    map_Forall unconnected_unsuccessful (known (foldl discovery_run d es))) as Hinv.
  { induction es as [|e es IH]; intros d Hd; [exact Hd|]. apply IH.
    apply (run_all _ (fun _ => True)); try done; unfold unconnected_unsuccessful, record_connection_attempt; cbn; auto. }
  specialize (Hinv (discovery_new id) (map_Forall_empty _)).
  set (d := foldl _ _ _) in *. unfold get_peers_to_connect.
  rewrite (filter_none (fun x => wanted now d x = true)); [by rewrite take_nil|].
  intros [i p] Hin%elem_of_hm_iter. apply not_true_iff_false. unfold wanted. cbn.
  destruct (connected p) eqn:Hc; [by rewrite andb_false_r|].
  rewrite (andb_comm _ (should_connect _ _)). unfold should_connect.
  rewrite unsuccessful_rate by (by apply (Hinv i p)). by rewrite andb_false_r.
Qed.

(** *** Reputation *)

Definition in_range (r : ReputationScore) : Prop := MIN_SCORE <= r <= MAX_SCORE.
(** A change that no reputation in range can overflow on. *)
Definition moderate (e : discovery_event) : Prop :=
  match e with Reputation _ delta => Z.abs delta <= i32_max - 1000 | _ => True end.

Lemma increase_range a r : 0 <= a <= i32_max - 1000 -> in_range r -> in_range (increase a r).
Proof.
  unfold in_range, increase, i32_add, MIN_SCORE, MAX_SCORE. intros Ha Hr.
  rewrite as_i32_small; unfold is_i32, i32_max in *; lia.
Qed.
Lemma decrease_range a r : 0 <= a <= i32_max - 1000 -> in_range r -> in_range (decrease a r).
Proof.
  unfold in_range, decrease, i32_sub, MIN_SCORE, MAX_SCORE. intros Ha Hr.
  rewrite as_i32_small; unfold is_i32, i32_max in *; lia.
Qed.

(** The two sets of peers are disjoint, and about known peers. *)
Record sets_ok d : Prop := {
  sets_disjoint : trusted_peers d ## banned_peers d;
  trusted_known : trusted_peers d ⊆ dom (known d);
  banned_known : banned_peers d ⊆ dom (known d)
}.

Lemma not_both r : is_trusted r = true -> is_banned r = false.
Proof. unfold is_trusted, is_banned. rewrite Z.leb_le, Z.leb_gt. lia. Qed.

Lemma sets_alter f id d : sets_ok d -> sets_ok (update_known f id d).
Proof. intros []. split; cbn; [done|..]; by rewrite dom_alter_L. Qed.

Lemma sets_reputation id delta d : sets_ok d -> sets_ok (update_peer_reputation id delta d).
Proof.
  intros [Hd Ht Hb]. unfold update_peer_reputation. destruct (known d !! id) as [p|] eqn:Hid; [|done].
  assert (id ∈ dom (known d)) as Hin by (apply elem_of_dom; by eexists).
  set (r := if 0 <? delta then _ else _). pose proof (not_both r) as Hnb.
  split; cbn; rewrite ?dom_insert_L.
  - destruct (is_trusted r) eqn:Hr; [rewrite (Hnb eq_refl); set_solver|].
    destruct (is_banned r); set_solver.
  - destruct (is_trusted r); set_solver.
  - destruct (is_banned r); set_solver.
Qed.

Lemma sets_cleanup now d : sets_ok d -> sets_ok (cleanup_stale_peers now d).
Proof.
  intros [Hd Ht Hb].
  assert (forall s : gset PeerId, s ⊆ dom (known d) ->
    s ∖ dom (filter (fun x => keep (now - 7 * 24 * 3600 * 1000000000) x.2 = false) (known d)) ⊆
    dom (filter (fun x => keep (now - 7 * 24 * 3600 * 1000000000) x.2 = true) (known d))) as Hs.
  { intros s Hs i [Hi Hng]%elem_of_difference. apply Hs, elem_of_dom in Hi as [p Hp].
    destruct (keep (now - 7 * 24 * 3600 * 1000000000) p) eqn:Hk.
    - apply elem_of_dom. exists p. by apply map_lookup_filter_Some.
    - destruct Hng. apply elem_of_dom. exists p. by apply map_lookup_filter_Some. }
  split; cbn; [set_solver|by apply Hs|by apply Hs].
Qed.

Lemma sets_run e d : sets_ok d -> sets_ok (discovery_run d e).
Proof.
  intros Hd. destruct e; cbn [discovery_run]; try (destruct Hd; by split).
  - destruct Hd. split; cbn; [done|..]; rewrite dom_insert_L; set_solver.
  - by apply sets_reputation.
  - by apply sets_alter.
  - by apply sets_alter.
  - by apply sets_cleanup.
Qed.

(** C39: the manager's table: after any events whose reputation changes are moderate, every
    reputation lies between -1000 and 1000, no peer is both trusted and banned, and
    only known peers are either. *)
Theorem reputation_bounded id es :
  Forall moderate es ->
  let d := foldl discovery_run (discovery_new id) es in
  (forall i, in_range (get_peer_reputation i d)) /\ trusted_peers d ## banned_peers d /\
  trusted_peers d ∪ banned_peers d ⊆ dom (known d).
Proof.
  intros Hes d.
  assert (map_Forall (fun _ p => in_range (reputation p)) (known d) /\ sets_ok d) as [Hr [Hd Ht Hb]].
  { unfold d. assert (sets_ok (discovery_new id)) as Hs by (split; set_solver).
    assert (map_Forall (fun _ p => in_range (reputation p)) (known (discovery_new id))) as Hk
      by apply map_Forall_empty.
    revert Hs Hk. generalize (discovery_new id) as d0. induction Hes as [|e es He Hes IH]; intros d0 Hs Hk; [done|].
    apply IH; [by apply sets_run|]. apply (run_all _ moderate); [done|..|exact Hk]; cbn.
    - done.
    - done.
    - intros i p delta Hm Hp. destruct (Z.ltb_spec 0 delta); [apply increase_range; [lia|done]|].
      assert (i32_sub 0 delta = - delta) as ->
        by (unfold i32_sub; rewrite as_i32_small; unfold is_i32, i32_max in *; lia).
      apply decrease_range; [lia|done].
    - intros i p _ Hp. apply increase_range; [unfold i32_max; lia|done].
    - intros i p Hp. apply decrease_range; [unfold i32_max; lia|done]. }
  split; [|split; [done|set_solver]]. intros i. unfold get_peer_reputation.
  destruct (known d !! i) as [p|] eqn:Hi; cbn; [by apply (Hr i p)|done].
Qed.

(** Beyond that the 32-bit arithmetic wraps before it is clamped: the greatest reward
    throws a peer of positive reputation out of the range and bans it, and the
    greatest punishment makes one of negative reputation trusted. *)
Theorem reputation_overflow id d p :
  known d !! id = Some p -> in_range (reputation p) ->
  (0 < reputation p ->
     let d' := update_peer_reputation id i32_max d in
     get_peer_reputation id d' = reputation p + i32_max - 2 ^ 32 /\ is_peer_banned id d' = true) /\
  (reputation p < 0 ->
     let d' := update_peer_reputation id (- i32_max - 1) d in
     get_peer_reputation id d' = reputation p + 2 ^ 31 /\ id ∈ trusted_peers d').
Proof.
  intros Hid [Hlo Hhi]. unfold MIN_SCORE, MAX_SCORE in *.
  split; intros Hsign; unfold update_peer_reputation, get_peer_reputation; rewrite Hid.
  - assert (increase i32_max (reputation p) = reputation p + i32_max - 2 ^ 32) as Hi.
    { unfold increase, i32_add, as_i32, i32_max, MAX_SCORE.
      replace (reputation p + 2147483647 + 2147483648) with (reputation p - 1 + 1 * 4294967296) by lia.
      rewrite Z.mod_add, Z.mod_small by lia. lia. }
    cbn. rewrite Hi, lookup_insert_eq. cbn. split; [done|]. unfold is_peer_banned, is_banned. cbn.
    rewrite (proj2 (Z.leb_le _ _)) by (unfold i32_max; lia). apply bool_decide_true. set_solver.
  - assert (decrease (i32_sub 0 (- i32_max - 1)) (reputation p) = reputation p + 2 ^ 31) as Hd.
    { change (i32_sub 0 (- i32_max - 1)) with (-2147483648). unfold decrease, i32_sub, MIN_SCORE.
      rewrite as_i32_small; unfold is_i32, i32_max; lia. }
    change (0 <? - i32_max - 1) with false. cbv beta iota zeta. rewrite Hd. cbn. rewrite lookup_insert_eq. cbn.
    split; [done|]. unfold is_trusted. rewrite (proj2 (Z.leb_le _ _)) by lia. set_solver.
Qed.
End DiscoveryFacts.

(** *** Addresses *)
Lemma find_slash_none i s : slash ∉ s -> find_from i [slash] s = None.
Proof.
  revert i. induction s as [|b s IH]; intros i Hs; [done|]. apply not_elem_of_cons in Hs as [Hb Hs].
  cbn [find_from]. rewrite bool_decide_false by (cbn; congruence). by apply IH.
Qed.
Lemma find_slash_some i s r : slash ∉ s -> find_from i [slash] (s ++ slash :: r) = Some (i + length s)%nat.
Proof.
  revert i. induction s as [|b s IH]; intros i Hs; cbn [app find_from].
  - rewrite bool_decide_true by done. f_equal. cbn. lia.
  - apply not_elem_of_cons in Hs as [Hb Hs]. rewrite bool_decide_false by (cbn; congruence).
    rewrite (IH _ Hs). f_equal. cbn. lia.
Qed.

(** [parse_multiaddr] loses the first character of every peer id: the tag is five bytes
    long and six are skipped.  For an address with the tag at some position, followed by
    a one-byte character and the rest of the id - to the end or to the next slash -
    it returns that rest; and for one that ends with the tag it panics. *)
Theorem parse_multiaddr_spec pre c id rest :
  str_find p2p_tag (pre ++ p2p_tag ++ c :: id ++ rest) = Some (length pre) ->
  is_char_boundary (id ++ rest) 0 = true -> slash ∉ id ->
  rest = [] \/ (exists r, rest = slash :: r) ->
  parse_multiaddr (pre ++ p2p_tag ++ c :: id ++ rest) = Some (Some id) /\
  (str_find p2p_tag (pre ++ p2p_tag) = Some (length pre) -> parse_multiaddr (pre ++ p2p_tag) = None).
Proof.
  intros Hf Hb Hid Hrest. unfold parse_multiaddr. split.
  - rewrite Hf. unfold slice_from.
    assert (forall s, pre ++ p2p_tag ++ c :: s = (pre ++ p2p_tag ++ [c]) ++ s) as Happ
      by (intros s; by rewrite <- !app_assoc).
    assert (length (pre ++ p2p_tag ++ [c]) = length pre + 6)%nat as Hlen by (rewrite !length_app; cbn; lia).
    rewrite Happ, <- Hlen, drop_app_length.
    assert (is_char_boundary ((pre ++ p2p_tag ++ [c]) ++ id ++ rest) (length (pre ++ p2p_tag ++ [c])) = true) as ->.
    { unfold is_char_boundary in *. rewrite lookup_app_r, Nat.sub_diag by lia.
      destruct ((id ++ rest) !! 0%nat); [done|]. revert Hb. rewrite !bool_decide_eq_true, !length_app. cbn. lia. }
    cbn [mbind option_bind]. unfold str_find. do 2 f_equal. destruct Hrest as [->|[r ->]].
    + by rewrite app_nil_r, find_slash_none.
    + rewrite find_slash_some by done. cbn [plus]. by rewrite take_app_length.
  - intros ->. unfold slice_from, is_char_boundary. rewrite lookup_ge_None_2 by (rewrite length_app; cbn; lia).
    rewrite bool_decide_false; [done|]. rewrite length_app. cbn. lia.
Qed.

(** ** Witnesses *)

(** The address "/ip4/1/p2p/Qm/x". *)
Lemma parse_multiaddr_spec_witness :
  parse_multiaddr ([47; 105; 112; 52; 47; 49] ++ p2p_tag ++ 81 :: [109] ++ [47; 120]) = Some (Some [109]) /\
  parse_multiaddr ([47; 105; 112; 52; 47; 49] ++ p2p_tag) = None.
Proof.
  destruct (parse_multiaddr_spec [47; 105; 112; 52; 47; 49] 81 [109] [47; 120]) as [Hp Hn].
  - vm_compute. reflexivity.
  - vm_compute. reflexivity.
  - apply (bool_decide_unpack _). vm_compute. exact I.
  - right. by exists [120].
  - split; [exact Hp|]. apply Hn. vm_compute. reflexivity.
Defined.

#[local] Existing Instance canonical_order.

(** A peer is found, connected to, rewarded and lost. *)
Definition a_life : list discovery_event :=
  [Found 0 0 [1] [9]; Failure [1]; Success 5 [1]; Reputation [1] 600; Found 6 6 [2] []; Reputation [2] (-700);
   Clean 1000000000000000].

Lemma reputation_bounded_witness :
  let d := foldl discovery_run (discovery_new []) a_life in
  (forall i, in_range (get_peer_reputation i d)) /\ get_trusted_peers d = [[1]] /\ banned_peers d = ∅.
Proof.
  destruct (reputation_bounded [] a_life) as [Hr _].
  - repeat (constructor; [try exact I; cbn; unfold i32_max; lia|]). constructor.
  - split; [exact Hr|]. split; vm_compute; reflexivity.
Defined.

Lemma reputation_overflow_witness :
  let d := foldl discovery_run (discovery_new []) [Found 0 0 [1] [9]; Success 5 [1]] in
  get_peer_reputation [1] (update_peer_reputation [1] i32_max d) = -2147483639 /\
  is_peer_banned [1] (update_peer_reputation [1] i32_max d) = true.
Proof.
  intros d.
  assert (exists p, known d !! [1] = Some p /\ reputation p = 10) as (p & Hp & Hr)
    by (eexists; split; vm_compute; reflexivity).
  destruct (reputation_overflow [1] d p Hp) as [Hup _].
  - rewrite Hr. split; vm_compute; discriminate.
  - destruct Hup as [Hu Hb]; [rewrite Hr; reflexivity|]. rewrite Hr in Hu. split; [exact Hu|exact Hb].
Defined.
