(* ===== verification/Wallet.v ===== *)
(** Keys, wallets and the transaction builder: [src/src/wallet/wallet.rs] of the node
    and [src/sdk/rust/src/{crypto,wallet,transaction,errors}.rs] of the SDK.

    Randomness is an argument.  [save_to_file] and [load_from_file] are in [Interactive], with the files. *)
From S2P Require Import Prelude Crypto Transaction Kv.

(** Keys as bytes, in the secp256k1 crate. *)
Class SecpKeys `{SecpOps} := {
  secret_key_from_slice : Bytes -> result SecretKey;
  secret_bytes : SecretKey -> Bytes;
  PublicKey_eq_dec :: EqDecision PublicKey
}.
Class SecpKeysLaws `{SecpKeys} : Prop := {
  secret_bytes_length sk : length (secret_bytes sk) = 32%nat;
  secret_bytes_range sk : Forall is_byte (secret_bytes sk);
  secret_key_roundtrip sk : secret_key_from_slice (secret_bytes sk) = Ok sk
}.

(** [hex::decode]: it reads back what [hex::encode] wrote, which is ASCII. *)
Class HexDecode := hex_decode : Bytes -> option Bytes.
Class HexDecodeLaws `{Hex, HexDecode} : Prop := {
  hex_roundtrip bs : Forall is_byte bs -> hex_decode (hex_encode bs) = Some bs;
  hex_ascii bs : Forall is_byte bs -> Forall (fun c => 0 <= c < 128) (hex_encode bs)
}.

(** "cyt" *)
Definition cyt : Bytes := [99; 121; 116].

(** The number that libsecp256k1 calls the recovery id, as a byte. *)
Definition compact_signature `{SecpOps} (s : RecoverableSignature) : Bytes :=
  let '(recovery_id, sig_bytes) := serialize_compact s in sig_bytes ++ [recovery_id mod 256].

(** ** The node's wallet *)

Record Wallet `{SecpOps} := {
  private_key : SecretKey;
  wallet_public_key : PublicKey;
  wallet_address : Bytes
}.
Arguments private_key {_} _.
Arguments wallet_public_key {_} _.
Arguments wallet_address {_} _.

Section NodeWallet.
Context `{Sha256} `{Hex} `{SecpKeys}.
Implicit Types w : Wallet.

Definition public_key_to_address (pk : PublicKey) : Bytes :=
  cyt ++ hex_encode (take 20 (sha256 (serialize_public_key pk))).

Definition from_private_key (sk : SecretKey) : Wallet :=
  {| private_key := sk; wallet_public_key := public_key sk;
     wallet_address := public_key_to_address (public_key sk) |}.

(** [None]: the 32 random bytes are no secret key and the code panics. *)
Definition wallet_new (random : Bytes) : option Wallet :=
  match secret_key_from_slice random with Ok sk => Some (from_private_key sk) | Err _ => None end.

Definition sign_message w (message : Bytes) : result Bytes :=
  m ← message_from_digest (sha256 message);
  mret (compact_signature (sign_ecdsa_recoverable m (private_key w))).

(** [None]: [signature[64]] is out of range. *)
Definition verify_message w (message sig : Bytes) : option (result bool) :=
  match message_from_digest (sha256 message) with
  | Err e => Some (Err e)
  | Ok m =>
      b ← sig !! 64%nat;
      Some (recovery_id ← recovery_id_from_i32 b;
            s ← signature_from_compact (take 64 sig) recovery_id;
            pk ← recover_ecdsa m s;
            mret (bool_decide (pk = wallet_public_key w)))
  end.
End NodeWallet.

(** ** The SDK *)

Inductive SdkError :=
  | NetworkError (e : error) | RpcError (e : error) | CryptoError (e : error)
  | TransactionError (e : error) | ContractError (e : error) | ConfigError (e : error)
  | SerializationError (e : error) | Unknown.

Definition sdk (A : Type) : Type := A + SdkError.
#[global] Instance sdk_ret : MRet sdk := fun A a => inl a.
#[global] Instance sdk_bind : MBind sdk := fun A B f r =>
  match r with inl a => f a | inr e => inr e end.

(** [map_err(|e| SdkError::Variant(e.to_string()))] and [ok_or_else]. *)
Definition sdk_of {A} (variant : error -> SdkError) (r : result A) : sdk A :=
  match r with Ok a => inl a | Err e => inr (variant e) end.
Definition sdk_err {A} (variant : error -> SdkError) (message : string) : sdk A :=
  inr (variant (Error message [])).
Definition sdk_ok_or {A} (o : option A) (variant : error -> SdkError) (message : string) : sdk A :=
  match o with Some a => inl a | None => sdk_err variant message end.

Record Keypair `{SecpOps} := { kp_secret : SecretKey; kp_public : PublicKey }.
Arguments kp_secret {_} _.
Arguments kp_public {_} _.

(** Keys as bytes. *)
Record SdkWallet := { sdk_secret : Bytes; sdk_public : Bytes; sdk_address : Address }.

Record TransactionBuilder := {
  b_from : option Address;
  b_payload : option TxPayload;
  b_nonce : option Z;
  b_gas_limit : option Z;
  b_gas_price : option Z
}.

Section Sdk.
Context `{Sha256} `{Hex} `{SecpKeys}.
Implicit Types (kp : Keypair) (w : SdkWallet) (b : TransactionBuilder).

(** *** crypto.rs *)

(** The random secret is an argument. *)
Definition generate (secret : SecretKey) : sdk Keypair :=
  mret {| kp_secret := secret; kp_public := public_key secret |}.

Definition from_secret_bytes (bytes : Bytes) : sdk Keypair :=
  if negb (length bytes =? 32)%nat then sdk_err CryptoError "Secret key must be 32 bytes"
  else
    secret ← sdk_of CryptoError (secret_key_from_slice bytes);
    mret {| kp_secret := secret; kp_public := public_key secret |}.

Definition kp_secret_bytes kp : Bytes := secret_bytes (kp_secret kp).
Definition kp_public_bytes kp : Bytes := serialize_public_key (kp_public kp).

Definition derive_address kp : Address :=
  take 20 (drop 12 (sha256 (drop 1 (serialize_public_key (kp_public kp))))).

Definition kp_sign kp (data : Bytes) : sdk Bytes :=
  msg ← sdk_of CryptoError (message_from_digest (sha256 data));
  mret (compact_signature (sign_ecdsa_recoverable msg (kp_secret kp))).

Definition kp_verify kp (data sig : Bytes) : sdk bool :=
  if negb (length sig =? 65)%nat then sdk_err CryptoError "Signature must be 65 bytes"
  else
    msg ← sdk_of CryptoError (message_from_digest (sha256 data));
    rec_id ← sdk_of CryptoError (recovery_id_from_i32 (nth 64 sig 0));
    s ← sdk_of CryptoError (signature_from_compact (take 64 sig) rec_id);
    recovered ← sdk_of CryptoError (recover_ecdsa msg s);
    mret (bool_decide (recovered = kp_public kp)).

(** *** wallet.rs *)

Definition wallet_of kp : SdkWallet :=
  {| sdk_secret := kp_secret_bytes kp; sdk_public := kp_public_bytes kp; sdk_address := derive_address kp |}.

Definition create_wallet (secret : SecretKey) : sdk SdkWallet :=
  kp ← generate secret; mret (wallet_of kp).

Definition import_private_key (bytes : Bytes) : sdk SdkWallet :=
  kp ← from_secret_bytes bytes; mret (wallet_of kp).

Definition export_private_key_hex w : Bytes := hex_encode (sdk_secret w).

Definition sign_transaction w (tx : Transaction) : sdk Transaction :=
  kp ← from_secret_bytes (sdk_secret w);
  sdk_of TransactionError (sign tx (kp_secret kp)).

Definition wallet_derive_address w : Address := sdk_address w.

(** *** transaction.rs *)

Definition builder_new : TransactionBuilder :=
  {| b_from := None; b_payload := None; b_nonce := None; b_gas_limit := None; b_gas_price := None |}.

Definition b_put_payload (p : TxPayload) b : TransactionBuilder :=
  {| b_from := b_from b; b_payload := Some p; b_nonce := b_nonce b; b_gas_limit := b_gas_limit b;
     b_gas_price := b_gas_price b |}.
Definition builder_from (a : Address) b : TransactionBuilder :=
  {| b_from := Some a; b_payload := b_payload b; b_nonce := b_nonce b; b_gas_limit := b_gas_limit b;
     b_gas_price := b_gas_price b |}.
Definition transfer (to : Address) (amount : Z) b : TransactionBuilder := b_put_payload (Transfer to amount) b.
Definition deploy_contract (wasm_code init_args : Bytes) b : TransactionBuilder :=
  b_put_payload (ContractDeploy wasm_code init_args) b.
Definition call_contract (contract : Address) (method args : Bytes) b : TransactionBuilder :=
  b_put_payload (ContractCall contract method args) b.
Definition builder_nonce (n : Z) b : TransactionBuilder :=
  {| b_from := b_from b; b_payload := b_payload b; b_nonce := Some n; b_gas_limit := b_gas_limit b;
     b_gas_price := b_gas_price b |}.
Definition builder_gas_limit (n : Z) b : TransactionBuilder :=
  {| b_from := b_from b; b_payload := b_payload b; b_nonce := b_nonce b; b_gas_limit := Some n;
     b_gas_price := b_gas_price b |}.
Definition builder_gas_price (n : Z) b : TransactionBuilder :=
  {| b_from := b_from b; b_payload := b_payload b; b_nonce := b_nonce b; b_gas_limit := b_gas_limit b;
     b_gas_price := Some n |}.

Definition build b : sdk Transaction :=
  from ← sdk_ok_or (b_from b) TransactionError "Missing from address";
  payload ← sdk_ok_or (b_payload b) TransactionError "Missing payload";
  let nonce := default 0 (b_nonce b) in
  let gas_limit := default 21000 (b_gas_limit b) in
  let gas_price := default 1 (b_gas_price b) in
  mret match payload with
       | Transfer to amount => new_transfer from to amount nonce gas_limit gas_price
       | ContractDeploy code args => new_deploy from code args nonce gas_limit gas_price
       | ContractCall contract method args => new_call from contract method args nonce gas_limit gas_price
       end.

Definition build_and_sign b w : sdk Transaction :=
  tx ← build b; sign_transaction w tx.
End Sdk.

(** ** Signatures and addresses *)
Section WalletFacts.
Context `{Sha256} `{!Sha256Laws} `{HexDecodeLaws} `{SecpKeysLaws} `{!SecpLaws}.

Lemma compact_signature_length s : length (compact_signature s) = 65%nat.
Proof.
  unfold compact_signature. pose proof (compact_length s) as Hl. destruct (serialize_compact s) as [r bs].
  cbn in Hl. rewrite length_app, Hl. done.
Qed.
Lemma compact_signature_read s :
  exists r, compact_signature s !! 64%nat = Some r /\ nth 64 (compact_signature s) 0 = r /\
    recovery_id_from_i32 r = Ok r /\ signature_from_compact (take 64 (compact_signature s)) r = Ok s.
Proof.
  unfold compact_signature. pose proof (compact_length s) as Hl. pose proof (compact_recovery_id s) as Hr.
  pose proof (compact_roundtrip s) as Hs. destruct (serialize_compact s) as [r bs]. cbn in *.
  exists r. rewrite Z.mod_small by lia.
  rewrite <- Hl. rewrite lookup_app_r, Nat.sub_diag, app_nth2, Nat.sub_diag, take_app_length by lia.
  split; [done|]. split; [done|]. split; [by apply recovery_id_ok|done].
Qed.

(** Messages: both wallets verify what they sign, with exactly the key that signed, so a
    signature by another wallet is recognised as foreign; and the one difference
    between the two is the input that is no signature - the SDK refuses anything
    but 65 bytes, the node's wallet panics on anything shorter. *)
Theorem message_signature_spec (w w' : Wallet) (message : Bytes) :
  wallet_public_key w = public_key (private_key w) ->
  let kp := {| kp_secret := private_key w; kp_public := wallet_public_key w |} in
  let kp' := {| kp_secret := private_key w'; kp_public := wallet_public_key w' |} in
  exists sig, sign_message w message = Ok sig /\ kp_sign kp message = inl sig /\ length sig = 65%nat /\
    verify_message w' message sig = Some (Ok (bool_decide (wallet_public_key w = wallet_public_key w'))) /\
    kp_verify kp' message sig = inl (bool_decide (wallet_public_key w = wallet_public_key w')) /\
    forall short, (length short < 65)%nat ->
      verify_message w' message short = None /\
      kp_verify kp' message short = sdk_err CryptoError "Signature must be 65 bytes".
Proof.
  intros Hw kp kp'. unfold sign_message, kp_sign, kp_verify, verify_message.
  rewrite message_of_digest by apply sha256_length. cbn [mbind result_bind sdk_of sdk_bind].
  set (s := sign_ecdsa_recoverable (sha256 message) (private_key w)).
  pose proof (compact_signature_length s) as Hl.
  destruct (compact_signature_read s) as (r & Hr & Hn & Hid & Hs).
  exists (compact_signature s). split; [done|]. split; [done|]. split; [exact Hl|].
  rewrite Hr, Hn, Hl. cbn [mbind option_bind sdk_bind negb Nat.eqb]. rewrite Hid. cbn [mbind result_bind sdk_bind sdk_of].
  rewrite Hs. cbn [mbind result_bind sdk_bind sdk_of]. unfold s. rewrite recover_sign.
  cbn [mbind result_bind sdk_bind sdk_of mret result_ret sdk_ret kp_public kp'].
  rewrite <- Hw. split; [done|]. split; [done|]. intros short Hshort. split.
  - by rewrite lookup_ge_None_2 by lia.
  - by rewrite (proj2 (Nat.eqb_neq (length short) 65)) by lia.
Qed.

Lemma from_own_bytes sk :
  from_secret_bytes (secret_bytes sk) = inl {| kp_secret := sk; kp_public := public_key sk |}.
Proof. unfold from_secret_bytes. rewrite secret_bytes_length. cbn. by rewrite secret_key_roundtrip. Qed.

(** An exported SDK wallet can be imported again. *)
Theorem import_export_roundtrip sk w :
  create_wallet sk = inl w ->
  exists bytes, hex_decode (export_private_key_hex w) = Some bytes /\ import_private_key bytes = inl w.
Proof.
  unfold create_wallet, generate. cbn. intros [= <-]. exists (secret_bytes sk). split.
  - unfold export_private_key_hex. cbn. apply hex_roundtrip, secret_bytes_range.
  - unfold import_private_key. by rewrite from_own_bytes.
Qed.

Lemma build_and_sign_accepted sk w p b :
  create_wallet sk = inl w ->
  b_from b = Some (sdk_address w) -> b_payload b = Some p ->
  0 < default 21000 (b_gas_limit b) -> 0 < default 1 (b_gas_price b) ->
  (forall to amount, p = Transfer to amount -> 0 < amount) ->
  exists tx, build_and_sign b w = inl tx /\ validate_basic tx = Ok tt /\
    from tx = sdk_address w /\ payload tx = p /\ nonce tx = default 0 (b_nonce b) /\
    gas_limit tx = default 21000 (b_gas_limit b) /\ gas_price tx = default 1 (b_gas_price b).
Proof.
  unfold create_wallet, generate. cbn. intros [= <-] Hf Hp Hgl Hgp Ha.
  assert (exists tx0, build b = inl tx0 /\ from tx0 = address_of (public_key sk) /\ payload tx0 = p /\
    nonce tx0 = default 0 (b_nonce b) /\ gas_limit tx0 = default 21000 (b_gas_limit b) /\
    gas_price tx0 = default 1 (b_gas_price b)) as (tx0 & Hb & Hfrom & Hpl & Hn & Hl & Hg).
  { unfold build. rewrite Hf, Hp. cbn. eexists. split; [done|]. by destruct p. }
  assert (exists tx, sign tx0 sk = Ok tx) as [tx Hs].
  { unfold sign. rewrite message_of_digest by apply sha256_length.
    destruct (serialize_compact _). by eexists. }
  assert (exists sg, tx = set_signature tx0 sg) as [sg Htx].
  { unfold sign in Hs. rewrite message_of_digest in Hs by apply sha256_length.
    destruct (serialize_compact _). injection Hs as <-. by eexists. }
  exists tx. split.
  { unfold build_and_sign. rewrite Hb. cbn. unfold sign_transaction. cbn [sdk_secret wallet_of].
    unfold kp_secret_bytes. cbn [kp_secret]. rewrite from_own_bytes. cbn. by rewrite Hs. }
  pose proof (verify_sign _ _ _ Hs) as Hv. subst tx. cbn [from payload nonce gas_limit gas_price set_signature].
  split; [|by rewrite Hfrom].
  apply validate_basic_spec. cbn [from payload nonce gas_limit gas_price set_signature].
  split; [lia|]. split; [lia|]. split.
  - intros to amount Heq. rewrite Hpl in Heq. specialize (Ha to amount Heq). lia.
  - exists (public_key sk). by split.
Qed.

(** What the SDK's builder makes with the SDK's wallet is accepted by the stateless checks of
    the node: the transaction carries the payload and the gas terms of the builder (a nonce of
    0, 21000 gas at a price of 1 where they were not set), the sender is the
    wallet, and it passes [validate_basic] as soon as the gas terms and a transferred
    amount are positive. *)
Theorem build_and_sign_valid sk w p b :
  create_wallet sk = inl w ->
  b_from b = Some (sdk_address w) -> b_payload b = Some p ->
  0 < default 21000 (b_gas_limit b) -> 0 < default 1 (b_gas_price b) ->
  (forall to amount, p = Transfer to amount -> 0 < amount) ->
  exists tx, build_and_sign b w = inl tx /\ validate_basic tx = Ok tt /\
    from tx = sdk_address w /\ payload tx = p /\ nonce tx = default 0 (b_nonce b) /\
    gas_limit tx = default 21000 (b_gas_limit b) /\ gas_price tx = default 1 (b_gas_price b).
Proof. apply build_and_sign_accepted. Qed.

(** Whatever a key signs for an address that is not its own is refused. *)
Lemma foreign_sender_refused sk tx signed :
  sign tx sk = Ok signed -> from tx <> address_of (public_key sk) ->
  is_ok (validate_basic signed) = false.
Proof.
  intros Hs Hne. pose proof (verify_sign _ _ _ Hs) as Hv.
  assert (from signed = from tx) as Hf.
  { unfold sign in Hs. destruct (message_from_digest _); [|done].
    destruct (serialize_compact _). by injection Hs as <-. }
  destruct (validate_basic signed) as [[]|] eqn:Hb; [|done].
  apply validate_basic_spec in Hb as (_ & _ & _ & pk & Hpk & Ha). congruence.
Qed.
End WalletFacts.

(** ** Witnesses

    Lower-case hexadecimal read back, and keys of one byte padded to 32. *)
Definition hex_value (c : Z) : option Z :=
  if (48 <=? c) && (c <=? 57) then Some (c - 48)
  else if (97 <=? c) && (c <=? 102) then Some (c - 87)
  else if (65 <=? c) && (c <=? 70) then Some (c - 55)
  else None.
Fixpoint hex_read (s : Bytes) : option Bytes :=
  match s with
  | [] => Some []
  | a :: b :: s => hi ← hex_value a; lo ← hex_value b; bs ← hex_read s; Some (16 * hi + lo :: bs)
  | _ => None
  end.
#[export] Instance hex_reader : HexDecode := hex_read.

Lemma hex_value_digit d : 0 <= d < 16 -> hex_value (hex_digit d) = Some d.
Proof.
  intros Hd. unfold hex_value, hex_digit. destruct (Z.ltb_spec d 10).
  - rewrite (proj2 (Z.leb_le 48 _)), (proj2 (Z.leb_le _ 57)) by lia. cbn. f_equal. lia.
  - rewrite (proj2 (Z.leb_le 48 _)), (proj2 (Z.leb_gt _ 57)) by lia. cbn [andb].
    rewrite (proj2 (Z.leb_le 97 _)), (proj2 (Z.leb_le _ 102)) by lia. cbn. f_equal. lia.
Qed.
Lemma hex_read_back bs : Forall is_byte bs -> hex_decode (hex_encode bs) = Some bs.
Proof.
  unfold hex_decode, hex_reader, hex_encode, lower_hex.
  induction bs as [|b bs IH]; intros Hbs; [done|]. apply Forall_cons in Hbs as [Hb Hbs]. unfold is_byte in Hb.
  cbn. assert (0 <= b / 16 < 16) by (split; [apply Z.div_pos; lia|apply Z.div_lt_upper_bound; lia]).
  rewrite !hex_value_digit by (try apply Z.mod_pos_bound; lia). cbn. rewrite (IH Hbs). cbn. do 2 f_equal.
  pose proof (Z.div_mod b 16). lia.
Qed.
Lemma hex_digit_ascii d : 0 <= d < 16 -> 0 <= hex_digit d < 128.
Proof. unfold hex_digit. destruct (Z.ltb_spec d 10); lia. Qed.
#[export] Instance hex_reader_laws : HexDecodeLaws.
Proof.
  split; [exact hex_read_back|]. intros bs Hbs. unfold hex_encode, lower_hex. apply Forall_bind.
  apply (Forall_impl _ _ _ Hbs). unfold is_byte. intros b Hb.
  assert (0 <= b / 16 < 16) by (split; [apply Z.div_pos; lia|apply Z.div_lt_upper_bound; lia]).
  pose proof (Z.mod_pos_bound b 16 ltac:(lia)).
  constructor; [by apply hex_digit_ascii|]. constructor; [by apply hex_digit_ascii|constructor].
Qed.

#[local] Existing Instances checksum_sha checksum_laws toy_secp toy_secp_laws.

#[export] Instance toy_keys : SecpKeys := {
  secret_key_from_slice bs := match bs with b :: _ => Ok (b =? 1) | [] => err "malformed secret key" end;
  secret_bytes (sk : bool) := (if sk then 1 else 0) :: replicate 31 0;
  PublicKey_eq_dec := bool_eq_dec
}.
#[export] Instance toy_keys_laws : SecpKeysLaws.
Proof. split; intros []; try done; repeat constructor; lia. Qed.

Definition toy_key : @SecretKey toy_secp := true.
Definition other_key : @SecretKey toy_secp := false.

Lemma message_signature_spec_witness :
  exists sig, sign_message (from_private_key toy_key) [104; 105] = Ok sig /\
    verify_message (from_private_key toy_key) [104; 105] sig = Some (Ok true) /\
    verify_message (from_private_key other_key) [104; 105] sig = Some (Ok false) /\
    verify_message (from_private_key toy_key) [104; 105] [7] = None.
Proof.
  destruct (message_signature_spec (from_private_key toy_key) (from_private_key toy_key) [104; 105])
    as (sig & Hs & _ & _ & Hv & _ & Hshort); [reflexivity|].
  exists sig. split; [exact Hs|]. split; [exact Hv|]. split.
  - injection Hs as <-. vm_compute. reflexivity.
  - apply (Hshort [7]). apply (bool_decide_unpack _). vm_compute. exact I.
Defined.

Definition toy_wallet : SdkWallet := wallet_of {| kp_secret := toy_key; kp_public := public_key toy_key |}.

Lemma import_export_roundtrip_witness :
  exists bytes, hex_decode (export_private_key_hex toy_wallet) = Some bytes /\
    import_private_key bytes = inl toy_wallet.
Proof. apply (import_export_roundtrip toy_key toy_wallet). reflexivity. Defined.

Lemma build_and_sign_valid_witness :
  exists tx, build_and_sign (transfer (replicate 20 2) 100 (builder_from (sdk_address toy_wallet) builder_new))
      toy_wallet = inl tx /\ validate_basic tx = Ok tt.
Proof.
  destruct (build_and_sign_valid toy_key toy_wallet (Transfer (replicate 20 2) 100)
    (transfer (replicate 20 2) 100 (builder_from (sdk_address toy_wallet) builder_new)))
    as (tx & Hb & Hv & _).
  - reflexivity.
  - reflexivity.
  - reflexivity.
  - reflexivity.
  - reflexivity.
  - intros to amount [= _ <-]. reflexivity.
  - exists tx. split; [exact Hb|exact Hv].
Defined.
