(* ===== verification/Index.v ===== *)
(** What the three indexers of [src/indexer/] share: a database that is written
    key by key, the scan of the keys under a prefix, and the specification of such
    a scan. *)
From S2P Require Import Prelude Crypto Transaction Kv Wallet.

(** A method of an indexer: the database is behind an [Arc]. *)
Definition Ix (Db A : Type) : Type := Db -> sdk A * Db.
#[global] Instance Ix_ret {Db} : MRet (Ix Db) := fun A a db => (inl a, db).
#[global] Instance Ix_bind {Db} : MBind (Ix Db) := fun A B f m db =>
  match m db with
  | (inl a, db') => f a db'
  | (inr e, db') => (inr e, db')
  end.
Definition query {Db A} (f : Db -> sdk A) : Ix Db A := fun db => (f db, db).

(** [.map_err(|e| SdkError::TransactionError(format!(template, e)))] *)
Definition tx_error (template : string) (e : error) : SdkError :=
  TransactionError (Error template [ArgErr e]).

Section Index.
Context {Db : Type} `{KvStore Db} `{Hex}.

Definition put_or (template : string) (key value : Bytes) : Ix Db unit := fun db =>
  let '(r, db') := db_put key value db in (sdk_of (tx_error template) r, db').

Definition get_or (template : string) (key : Bytes) (db : Db) : sdk (option Bytes) :=
  sdk_of (tx_error template) (db_get db key).

(** [serde_json::from_slice] of what is stored under the key. *)
Definition get_decoded {A} `{Codec A} (template : string) (key : Bytes) (db : Db) : sdk (option A) :=
  stored ← get_or template key db;
  match stored with
  | Some data => a ← sdk_of SerializationError (deserialize data); inl (Some a)
  | None => inl None
  end.

Definition iterate_from (start : Bytes) (db : Db) : sdk (list (Bytes * Bytes)) :=
  sdk_of (tx_error "Iterator error: {}") (db_iterator_from start db).

(** The values of the keys under a prefix, in hexadecimal, in key order. *)
Fixpoint collect (prefix : Bytes) (items : list (Bytes * Bytes)) : list Bytes :=
  match items with
  | [] => []
  | (k, v) :: rest => if starts_with prefix k then hex_encode v :: collect prefix rest else []
  end.

(** With a limit that is tested after each push. *)
Fixpoint collect_upto (prefix : Bytes) (max_results : nat) (acc : list Bytes)
    (items : list (Bytes * Bytes)) : list Bytes :=
  match items with
  | [] => acc
  | (k, v) :: rest =>
      if starts_with prefix k then
        let acc := acc ++ [hex_encode v] in
        if (max_results <=? length acc)%nat then acc else collect_upto prefix max_results acc rest
      else acc
  end.
End Index.

(** ** Scans *)

Lemma starts_with_cons b p x k :
  starts_with (b :: p) (x :: k) = bool_decide (x = b) && starts_with p k.
Proof.
  unfold starts_with. cbn [length take]. destruct (decide (x = b)) as [->|Hne].
  - rewrite (bool_decide_true (b = b)) by done. apply bool_decide_ext. split; congruence.
  - rewrite (bool_decide_false (x = b)) by done. apply bool_decide_eq_false. congruence.
Qed.

Lemma starts_with_inv p k : starts_with p k = true -> exists t, k = p ++ t.
Proof.
  unfold starts_with. rewrite bool_decide_eq_true. intros Ht. exists (drop (length p) k).
  by rewrite <- Ht at 1; rewrite take_drop.
Qed.

(** What lies between a prefix and a key under it is under it. *)
Lemma between_prefix p x y :
  bytes_leb p x = true -> bytes_leb x y = true -> starts_with p y = true -> starts_with p x = true.
Proof.
  revert x y. induction p as [|b p IH]; intros x y Hpx Hxy Hpy; [done|].
  destruct x as [|u x]; [done|]. destruct y as [|w y]; [done|].
  rewrite starts_with_cons in *. apply andb_prop in Hpy as [->%bool_decide_eq_true Hpy].
  unfold bytes_leb in *. cbn [bytes_cmp] in *.
  destruct (Z.compare_spec b u) as [E|E|E]; [subst u| |done].
  - rewrite Z.compare_refl in Hxy. rewrite bool_decide_true by done. by apply (IH x y).
  - destruct (Z.compare_spec u b); [lia|lia|done].
Qed.

Lemma sorted_split {A} (R : A -> A -> Prop) (P : A -> Prop) `{forall x, Decision (P x)} (l : list A) :
  StronglySorted R l -> (forall x y, x ∈ l -> R x y -> P y -> P x) ->
  l = filter P l ++ filter (fun x => ~ P x) l.
Proof.
  induction 1 as [|x l Hs IH Hall]; intros HP; [done|].
  rewrite !filter_cons. destruct (decide (P x)) as [Hx|Hx].
  - rewrite (decide_False (P := ~ P x)) by tauto. cbn [app]. f_equal. apply IH.
    intros y z Hy. apply HP. by right.
  - rewrite (decide_True (P := ~ P x)) by done.
    assert (forall y, y ∈ l -> ~ P y) as Hno.
    { intros y Hy Hp. apply Hx. rewrite Forall_forall in Hall. apply (HP x y); [left|by apply Hall|done]. }
    rewrite (filter_none P l Hno).
    cbn [app]. f_equal. clear -Hno. induction l as [|y l IH]; [done|].
    rewrite filter_cons_True by (apply Hno; left). f_equal. apply IH. intros z Hz. apply Hno. by right.
Qed.

Lemma sorted_filter {A} (R : A -> A -> Prop) (P : A -> Prop) `{forall x, Decision (P x)} (l : list A) :
  StronglySorted R l -> StronglySorted R (filter P l).
Proof.
  induction 1 as [|x l _ IH Hall]; [constructor|]. rewrite filter_cons. case_decide; [|done].
  constructor; [done|]. rewrite Forall_forall in *. intros y [_ Hy]%list_elem_of_filter. auto.
Qed.

Section Scan.
Context {Db : Type} `{KvLaws Db} `{Hex}.

(** An iteration from a prefix yields the entries under the prefix, in key
    order, and then others. *)
Lemma scan_split (p : Bytes) (db : Db) :
  exists l rest, db_iterator_from p db = Ok (l ++ rest) /\
    (forall kv, kv ∈ l -> starts_with p kv.1 = true) /\
    (forall kv, kv ∈ rest -> starts_with p kv.1 = false) /\
    (forall k v, (k, v) ∈ l <-> db_view db !! k = Some v /\ starts_with p k = true) /\
    StronglySorted (fun a b => bytes_leb a.1 b.1 = true) l /\ NoDup l.
Proof.
  unfold db_iterator_from. destruct (db_iterator_view db) as (all & Hall & Hperm & Hs). rewrite Hall.
  cbn [fmap result_fmap].
  set (items := filter (fun kv : Bytes * Bytes => bytes_leb p kv.1 = true) all).
  pose proof (sorted_filter _ (fun kv : Bytes * Bytes => bytes_leb p kv.1 = true) all Hs) as Hsi.
  fold items in Hsi.
  set (P := fun kv : Bytes * Bytes => starts_with p kv.1 = true).
  exists (filter P items), (filter (fun kv => ~ P kv) items).
  assert (NoDup all) as Hnd by (rewrite Hperm; apply NoDup_map_to_list).
  split; [|split; [|split; [|split; [|split]]]].
  - f_equal. apply (sorted_split _ P items Hsi). intros x y Hx Hxy Hy.
    apply list_elem_of_filter in Hx as [Hx _]. by eapply between_prefix.
  - by intros kv [Hp _]%list_elem_of_filter.
  - intros kv [Hp _]%list_elem_of_filter. by apply not_true_is_false.
  - intros k v. unfold items. rewrite !list_elem_of_filter, Hperm, elem_of_map_to_list. unfold P. cbn [fst].
    split; [tauto|]. intros [? Hp]. split_and!; try done.
    apply starts_with_inv in Hp as [t ->]. apply bytes_leb_prefix.
  - by apply sorted_filter.
  - by do 2 apply NoDup_filter.
Qed.

Lemma collect_under p l rest :
  (forall kv, kv ∈ l -> starts_with p kv.1 = true) ->
  (forall kv, kv ∈ rest -> starts_with p kv.1 = false) ->
  collect p (l ++ rest) = hex_encode <$> l.*2.
Proof.
  intros Hl Hr. induction l as [|[k v] l IH]; cbn [app].
  - destruct rest as [|[k v] rest]; [done|]. cbn [collect].
    pose proof (Hr (k, v) ltac:(left)) as Hk. cbn [fst] in Hk. by rewrite Hk.
  - cbn [collect]. pose proof (Hl (k, v) ltac:(left)) as Hk. cbn [fst] in Hk. rewrite Hk.
    rewrite IH; [done|]. intros kv Hkv. apply Hl. by right.
Qed.

(** The limit is reached after at least one. *)
Lemma collect_upto_under p max l rest :
  (forall kv, kv ∈ l -> starts_with p kv.1 = true) ->
  (forall kv, kv ∈ rest -> starts_with p kv.1 = false) ->
  collect_upto p max [] (l ++ rest) = take (Nat.max 1 max) (hex_encode <$> l.*2).
Proof.
  intros Hl Hr.
  enough (forall acc, (length acc < Nat.max 1 max)%nat ->
    collect_upto p max acc (l ++ rest) = acc ++ take (Nat.max 1 max - length acc) (hex_encode <$> l.*2))
    as Hgen by (rewrite (Hgen []) by (simpl; lia); simpl; by rewrite Nat.sub_0_r).
  induction l as [|[k v] l IH]; intros acc Hacc; cbn [app].
  - cbn [fmap list_fmap]. rewrite take_nil, app_nil_r. destruct rest as [|[k v] rest]; [done|]. cbn [collect_upto].
    pose proof (Hr (k, v) ltac:(left)) as Hk. cbn [fst] in Hk. by rewrite Hk.
  - cbn [collect_upto]. pose proof (Hl (k, v) ltac:(left)) as Hk. cbn [fst] in Hk. rewrite Hk.
    rewrite length_app. cbn [length fmap list_fmap snd].
    destruct (Nat.leb_spec max (length acc + 1)).
    + by replace (Nat.max 1 max - length acc)%nat with 1%nat by lia.
    + rewrite IH; [|intros kv Hkv; apply Hl; by right|rewrite length_app; simpl; lia].
      rewrite length_app. cbn [length].
      replace (Nat.max 1 max - length acc)%nat with (S (Nat.max 1 max - (length acc + 1)))%nat by lia.
      cbn [take]. by rewrite <- app_assoc.
Qed.
End Scan.

(** ** What is written *)

Definition write_all (puts : list (Bytes * Bytes)) (m : gmap Bytes Bytes) : gmap Bytes Bytes :=
  foldl (fun m kv => <[kv.1 := kv.2]> m) m puts.

Lemma write_all_app p1 p2 m : write_all (p1 ++ p2) m = write_all p2 (write_all p1 m).
Proof. apply foldl_app. Qed.

(** The last write of a key counts. *)
Lemma write_all_lookup puts m k :
  write_all puts m !! k =
    match last (filter (fun kv : Bytes * Bytes => kv.1 = k) puts) with
    | Some kv => Some kv.2
    | None => m !! k
    end.
Proof.
  induction puts as [|kv puts IH] using rev_ind; [done|].
  rewrite write_all_app, filter_app, filter_cons, filter_nil. cbn [write_all foldl].
  destruct (decide (kv.1 = k)) as [<-|Hne].
  - rewrite lookup_insert_eq, last_snoc. done.
  - rewrite lookup_insert_ne by done. by rewrite app_nil_r.
Qed.

(** Where all writes of a key agree. *)
Lemma write_all_elem puts k v :
  (forall v1 v2, (k, v1) ∈ puts -> (k, v2) ∈ puts -> v1 = v2) ->
  write_all puts ∅ !! k = Some v <-> (k, v) ∈ puts.
Proof.
  intros Hfun. rewrite write_all_lookup, lookup_empty.
  destruct (last (filter (fun kv : Bytes * Bytes => kv.1 = k) puts)) as [[k' v']|] eqn:Hl.
  - apply last_Some_elem_of in Hl. apply list_elem_of_filter in Hl as [Hk Hin]. cbn in Hk. subst k'.
    cbn [snd]. split; [by intros [= <-]|]. intros Hv. by rewrite (Hfun v v').
  - apply last_None in Hl. split; [done|]. intros Hv. exfalso.
    assert ((k, v) ∈ filter (fun kv : Bytes * Bytes => kv.1 = k) puts) as Hin
      by (by apply list_elem_of_filter).
    rewrite Hl in Hin. by apply not_elem_of_nil in Hin.
Qed.

Lemma write_all_some puts k :
  is_Some (write_all puts ∅ !! k) <-> exists v, (k, v) ∈ puts.
Proof.
  rewrite write_all_lookup, lookup_empty.
  destruct (last (filter (fun kv : Bytes * Bytes => kv.1 = k) puts)) as [[k' v']|] eqn:Hl.
  - apply last_Some_elem_of in Hl. apply list_elem_of_filter in Hl as [Hk Hin]. cbn in Hk. subst k'.
    split; [by exists v'|eauto].
  - apply last_None in Hl. split; [by intros []|]. intros [v Hv].
    assert ((k, v) ∈ filter (fun kv : Bytes * Bytes => kv.1 = k) puts) as Hin
      by (by apply list_elem_of_filter).
    rewrite Hl in Hin. by apply not_elem_of_nil in Hin.
Qed.

(** The last write of a key by a log, each entry of which writes it at most once. *)
Lemma last_put {A} (puts : A -> list (Bytes * Bytes)) (P : A -> Prop) `{forall x, Decision (P x)}
    (key : Bytes) (value : A -> Bytes) (log : list A) :
  (forall x, x ∈ log ->
     filter (fun kv : Bytes * Bytes => kv.1 = key) (puts x) = if decide (P x) then [(key, value x)] else []) ->
  last (filter (fun kv : Bytes * Bytes => kv.1 = key) (log ≫= puts)) =
    (fun x => (key, value x)) <$> last (filter P log).
Proof.
  induction log as [|x log IH] using rev_ind; intros Hputs; [done|].
  rewrite bind_app, bind_cons; cbn [mbind list_bind]; rewrite app_nil_r, !filter_app, filter_cons, filter_nil.
  rewrite Hputs by (apply elem_of_app; right; left).
  case_decide; [by rewrite !last_snoc|]. rewrite !app_nil_r. apply IH.
  intros y Hy. apply Hputs, elem_of_app. by left.
Qed.

(** Pairs are determined by their first components and what is filed under them. *)
Lemma pairs_by_keys {A} (l : list (Bytes * Bytes)) (xs : list A) (f g : A -> Bytes) :
  l.*1 = f <$> xs -> (forall x, x ∈ xs -> (f x, g x) ∈ l) ->
  (forall k v1 v2, (k, v1) ∈ l -> (k, v2) ∈ l -> v1 = v2) -> l = (fun x => (f x, g x)) <$> xs.
Proof.
  intros Hkeys Hin Hfun. assert (forall kv, kv ∈ l -> forall v, (kv.1, v) ∈ l -> kv.2 = v) as Hval.
  { intros [k v] Hkv v' Hv'. by apply (Hfun k). }
  clear Hfun. revert Hkeys Hin Hval. generalize l at 2 4 as whole. intros whole.
  revert xs. induction l as [|[k v] l IH]; intros [|x xs] Hkeys Hin Hval; try done.
  cbn [fmap list_fmap fst] in *. injection Hkeys as -> Hkeys. f_equal.
  - f_equal. apply (Hval (f x, v)); [left|]. apply Hin. left.
  - apply IH; [done| |]; intros; [apply Hin|apply Hval]; by try right.
Qed.

Lemma put_or_view {Db} `{KvLaws Db} template k v (db db' : Db) :
  put_or template k v db = (inl tt, db') -> db_view db' = write_all [(k, v)] (db_view db).
Proof.
  unfold put_or. pose proof (db_put_ok k v db) as Hput.
  destruct (db_put k v db) as [[[]|e] d]; cbn in *; [|done]. intros [= <-]. by apply Hput.
Qed.

(** ** Hexadecimal keys *)

(** [hex::encode] writes two lower-case digits for each byte. *)
Definition is_hex_digit (c : Z) : Prop := 48 <= c <= 57 \/ 97 <= c <= 102.
Class HexTextLaws `{Hex} : Prop := {
  hex_encode_length a : length (hex_encode a) = (2 * length a)%nat;
  hex_encode_digits a : Forall is_byte a -> Forall is_hex_digit (hex_encode a)
}.

#[export] Instance lower_hex_text : HexTextLaws (H := lower_hex).
Proof.
  split; unfold hex_encode, lower_hex; induction a as [|b a IH]; try done.
  - cbn. rewrite IH. lia.
  - intros [Hb Ha]%Forall_cons. cbn. unfold is_byte, is_hex_digit, hex_digit in *.
    assert (0 <= b / 16 < 16) by (split; [apply Z.div_pos; lia|apply Z.div_lt_upper_bound; lia]).
    pose proof (Z.mod_pos_bound b 16).
    constructor; [destruct (Z.ltb_spec (b / 16) 10); lia|].
    constructor; [destruct (Z.ltb_spec (b mod 16) 10); lia|]. by apply IH.
Qed.

Section HexKeys.
Context `{HexLaws} `{!HexTextLaws}.

(** The different strings of a list, in hexadecimal and in order. *)
Definition sorted_hex (hs : list Bytes) : list Bytes := sort_bytes (hex_encode <$> remove_dups hs).

(** A key made of a prefix, an equally long word in hexadecimal and a rest. *)
Lemma hex_prefix_inj p a b t u :
  length a = length b -> Forall is_byte a -> Forall is_byte b ->
  p ++ hex_encode a ++ t = p ++ hex_encode b ++ u -> a = b /\ t = u.
Proof.
  intros Hlen Ha Hb Heq%app_inv_head. apply app_inj_1 in Heq as [Heq ->];
    [|by rewrite !hex_encode_length, Hlen].
  split; [|done]. by apply hex_encode_inj.
Qed.

Lemma bytes_leb_app p a b : bytes_leb (p ++ a) (p ++ b) = bytes_leb a b.
Proof.
  unfold bytes_leb. induction p as [|c p IH]; [done|]. cbn [app bytes_cmp]. by rewrite Z.compare_refl.
Qed.

(** The entries of an index whose keys are a prefix and the value in
    hexadecimal. *)
Lemma under_sorted_hex p (hs : list Bytes) (l : list (Bytes * Bytes)) :
  Forall (Forall is_byte) hs ->
  (forall k v, (k, v) ∈ l <-> v ∈ hs /\ k = p ++ hex_encode v) ->
  StronglySorted (fun a b => bytes_leb a.1 b.1 = true) l -> NoDup l ->
  hex_encode <$> l.*2 = sorted_hex hs.
Proof.
  intros Hb Hl Hs Hnd.
  assert (forall kv, kv ∈ l -> kv.1 = p ++ hex_encode kv.2) as Hkey.
  { intros [k v] Hkv. by apply Hl in Hkv as [_ ->]. }
  assert (NoDup l.*2) as Hnd2.
  { apply NoDup_fmap_2_strong; [|done]. intros [k v] [k' v'] Hx Hy. cbn. intros <-.
    apply Hl in Hx as [_ ->], Hy as [_ ->]. done. }
  apply (sorted_perm_unique bytes_leb);
    eauto using bytes_leb_total, bytes_leb_trans, bytes_leb_antisym.
  - clear -Hs Hkey. induction Hs as [|[k v] l _ IH Hall]; [constructor|].
    cbn [fmap list_fmap]. constructor.
    + apply IH. intros kv Hkv. apply Hkey. by right.
    + apply Forall_forall. intros x (y & -> & Hy)%list_elem_of_fmap.
      apply list_elem_of_fmap in Hy as (kv & -> & Hkv).
      rewrite Forall_forall in Hall. specialize (Hall kv Hkv). cbn [fst snd] in *.
      rewrite (Hkey kv) in Hall by (by right).
      pose proof (Hkey (k, v) ltac:(left)) as Hk. cbn in Hk. rewrite Hk in Hall.
      by rewrite bytes_leb_app in Hall.
  - apply sort_by_sorted; eauto using bytes_leb_total, bytes_leb_trans.
  - unfold sorted_hex. rewrite sort_bytes_perm. f_equiv.
    apply NoDup_Permutation; [done|apply NoDup_remove_dups|]. intros v.
    rewrite elem_of_remove_dups, list_elem_of_fmap. split.
    + intros ([k v'] & -> & Hv). by apply Hl in Hv as [? _].
    + intros Hv. exists (p ++ hex_encode v, v). split; [done|]. by apply Hl.
Qed.
End HexKeys.
