(* ===== verification/TxIndex.v ===== *)
(** The transaction indexer: [src/indexer/tx_indexer.rs].

    Entries under the hash, the sender, the recipient, the called contract and the
    block, and the queries over them.  JSON is the serializer of the section; opening
    the database is its argument. *)
From S2P Require Import Prelude Crypto Transaction Kv BlockStore Wallet Index.

(** [format!("{kind}:{}:", hex::encode(word))], with the colon in [kind]. *)
Definition index_prefix `{Hex} (kind : string) (word : Bytes) : Bytes :=
  ascii_bytes kind ++ hex_encode word ++ ascii_bytes ":".
Definition index_key `{Hex} (kind : string) (word hash : Bytes) : Bytes :=
  index_prefix kind word ++ hex_encode hash.
Definition tx_key `{Hex} (tx_hash : Bytes) : Bytes := ascii_bytes "tx:" ++ hex_encode tx_hash.

Section TxIndex.
Context `{Sha256} {Db : Type} `{KvStore Db} `{Hex} `{Codec Transaction}.

(** [TransactionIndexer::new], given what [DB::open] returned. *)
Definition tx_indexer_new (opened : result Db) : sdk Db :=
  sdk_of (tx_error "Failed to open transaction index DB: {}") opened.

Definition index_transaction (tx : Transaction) (block_hash : option BlockHash) : Ix Db unit :=
  let tx_hash := hash tx in
  query (fun _ => sdk_of SerializationError (serialize tx)) ≫= fun tx_data =>
  put_or "Failed to index transaction: {}" (tx_key tx_hash) tx_data ≫= fun _ =>
  put_or "Failed to index sender: {}" (index_key "sender:" (from tx) tx_hash) tx_hash ≫= fun _ =>
  match payload tx with
  | Transfer to _ =>
      put_or "Failed to index recipient: {}" (index_key "recipient:" to tx_hash) tx_hash
  | _ => mret tt
  end ≫= fun _ =>
  match payload tx with
  | ContractCall contract_address _ _ =>
      put_or "Failed to index contract: {}" (index_key "contract:" contract_address tx_hash) tx_hash
  | _ => mret tt
  end ≫= fun _ =>
  match block_hash with
  | Some block_hash =>
      put_or "Failed to index block transaction: {}" (index_key "block_tx:" block_hash tx_hash) tx_hash
  | None => mret tt
  end.

Definition indexed_transaction (tx_hash : Bytes) : Db -> sdk (option Transaction) :=
  get_decoded "Failed to get transaction: {}" (tx_key tx_hash).

Definition get_transactions_by_prefix (prefix : Bytes) (limit : option nat) (db : Db) : sdk (list Bytes) :=
  let max_results := default 1000%nat limit in
  items ← iterate_from prefix db;
  inl (collect_upto prefix max_results [] items).

Definition get_transactions_by_sender (sender : Address) : option nat -> Db -> sdk (list Bytes) :=
  get_transactions_by_prefix (index_prefix "sender:" sender).
Definition get_transactions_by_recipient (recipient : Address) : option nat -> Db -> sdk (list Bytes) :=
  get_transactions_by_prefix (index_prefix "recipient:" recipient).
Definition get_transactions_by_contract (contract : Address) : option nat -> Db -> sdk (list Bytes) :=
  get_transactions_by_prefix (index_prefix "contract:" contract).
Definition get_transactions_by_block (block_hash : BlockHash) : option nat -> Db -> sdk (list Bytes) :=
  get_transactions_by_prefix (index_prefix "block_tx:" block_hash).

Fixpoint count_under (prefix : Bytes) (count : Z) (items : list (Bytes * Bytes)) : Z :=
  match items with
  | [] => count
  | kv :: rest => if starts_with prefix kv.1 then count_under prefix (u64_add count 1) rest else count
  end.
Definition get_transaction_count (db : Db) : sdk Z :=
  let prefix := ascii_bytes "tx:" in
  items ← iterate_from prefix db;
  inl (count_under prefix 0 items).
End TxIndex.

(** ** The log of what was indexed *)

Abbreviation entry := (Transaction * option BlockHash)%type.

(** The four indexes, their names and what they file a transaction under. *)
Inductive ix := BySender | ByRecipient | ByContract | ByBlock.
Definition ix_name (k : ix) : string :=
  match k with
  | BySender => "sender:" | ByRecipient => "recipient:" | ByContract => "contract:" | ByBlock => "block_tx:"
  end.
Definition ix_word (k : ix) (e : entry) : option Bytes :=
  match k with
  | BySender => Some (from e.1)
  | ByRecipient => match payload e.1 with Transfer to _ => Some to | _ => None end
  | ByContract => match payload e.1 with ContractCall c _ _ => Some c | _ => None end
  | ByBlock => e.2
  end.
Definition ix_length (k : ix) : nat := match k with ByBlock => 32 | _ => 20 end.

(** Addresses and hashes are byte arrays of their lengths. *)
Definition entry_wf (e : entry) : Prop :=
  forall k w, ix_word k e = Some w -> length w = ix_length k /\ Forall is_byte w.

Section TxIndexFacts.
Context `{Sha256Laws} {Db : Type} `{KvLaws Db} `{HexLaws} `{!HexTextLaws} `{CodecLaws Transaction}.

Definition by_index (k : ix) (w : Bytes) : option nat -> Db -> sdk (list Bytes) :=
  match k with
  | BySender => get_transactions_by_sender w
  | ByRecipient => get_transactions_by_recipient w
  | ByContract => get_transactions_by_contract w
  | ByBlock => get_transactions_by_block w
  end.

Fixpoint index_all (log : list entry) : Ix Db unit :=
  match log with
  | [] => mret tt
  | e :: log' => index_transaction e.1 e.2 ≫= fun _ => index_all log'
  end.

Definition data_of (tx : Transaction) : Bytes := unwrap_or (serialize tx) [].
Definition index_put (e : entry) (k : ix) : option (Bytes * Bytes) :=
  (fun w => (index_key (ix_name k) w (hash e.1), hash e.1)) <$> ix_word k e.
Definition puts_of (e : entry) : list (Bytes * Bytes) :=
  (tx_key (hash e.1), data_of e.1) :: omap (index_put e) [BySender; ByRecipient; ByContract; ByBlock].

(** One call writes the entries of its transaction. *)
Lemma index_transaction_view e (db db' : Db) :
  index_transaction e.1 e.2 db = (inl tt, db') ->
  is_ok (serialize e.1) = true /\ db_view db' = write_all (puts_of e) (db_view db).
Proof.
  destruct e as [tx bh]. cbn [fst snd]. unfold index_transaction, query, mbind, Ix_bind.
  destruct (serialize tx) as [data|er] eqn:Hs; cbn [sdk_of]; [|done].
  intros Hrun. split; [done|]. unfold puts_of, data_of. cbn [fst]. rewrite Hs. cbn [unwrap_or].
  cbn [omap list_omap index_put ix_word fst snd fmap option_fmap option_map].
  destruct (put_or _ (tx_key (hash tx)) data db) as [[[]|?] db1] eqn:P1; [|done].
  apply put_or_view in P1.
  destruct (put_or _ (index_key "sender:" (from tx) (hash tx)) (hash tx) db1) as [[[]|?] db2] eqn:P2; [|done].
  apply put_or_view in P2.
  assert (forall r, match bh with
    | Some b => put_or "Failed to index block transaction: {}" (index_key "block_tx:" b (hash tx)) (hash tx)
    | None => mret tt end r = (inl tt, db') ->
    db_view db' = write_all (match bh with
      | Some b => [(index_key "block_tx:" b (hash tx), hash tx)] | None => [] end) (db_view r)) as Hlast.
  { intros r. destruct bh; [apply put_or_view|by intros [= <-]]. }
  destruct (payload tx) as [to amount|code args|c m args]; cbn [mret Ix_ret] in Hrun.
  - destruct (put_or _ (index_key "recipient:" to (hash tx)) (hash tx) db2) as [[[]|?] db3] eqn:P3; [|done].
    apply put_or_view in P3. apply Hlast in Hrun. rewrite Hrun, P3, P2, P1. by destruct bh.
  - apply Hlast in Hrun. rewrite Hrun, P2, P1. by destruct bh.
  - destruct (put_or _ (index_key "contract:" c (hash tx)) (hash tx) db2) as [[[]|?] db3] eqn:P3; [|done].
    apply put_or_view in P3. apply Hlast in Hrun. rewrite Hrun, P3, P2, P1. by destruct bh.
Qed.

Lemma index_all_view log (db db' : Db) :
  index_all log db = (inl tt, db') ->
  (forall e, e ∈ log -> is_ok (serialize e.1) = true) /\
  db_view db' = write_all (log ≫= puts_of) (db_view db).
Proof.
  revert db. induction log as [|e log IH]; intros db.
  { intros [= <-]. split; [by intros e ?%not_elem_of_nil|done]. }
  cbn [index_all]. unfold mbind at 1, Ix_bind.
  destruct (index_transaction e.1 e.2 db) as [[[]|?] db1] eqn:P1; [|done]. intros Hrun.
  apply index_transaction_view in P1 as [Hs Hv]. apply IH in Hrun as [Hss Hvs]. split.
  - by intros e' [->|?]%elem_of_cons; [|apply Hss].
  - rewrite bind_cons, write_all_app, <- Hv. exact Hvs.
Qed.

(** ** What is under a prefix *)

Lemma elem_of_puts kv e :
  kv ∈ puts_of e <->
  kv = (tx_key (hash e.1), data_of e.1) \/
  exists k w, ix_word k e = Some w /\ kv = (index_key (ix_name k) w (hash e.1), hash e.1).
Proof.
  unfold puts_of. rewrite elem_of_cons, list_elem_of_omap. unfold index_put. split.
  - intros [?|(k & _ & Hk)]; [by left|right]. apply fmap_Some in Hk as (w & ? & ->). by exists k, w.
  - intros [?|(k & w & Hw & ->)]; [by left|right]. exists k. rewrite Hw. split; [|done].
    destruct k; set_solver.
Qed.

Lemma hash_bytes tx : Forall is_byte (hash tx).
Proof. apply sha256_bytes. Qed.

(** The names of the indexes differ in their first letters. *)
Lemma index_key_inj k k' w w' h t :
  length w = ix_length k -> length w' = ix_length k' -> Forall is_byte w -> Forall is_byte w' ->
  index_key (ix_name k') w' h = index_prefix (ix_name k) w ++ t -> k' = k /\ w' = w /\ t = hex_encode h.
Proof.
  intros Hl Hl' Hb Hb' Heq. assert (k' = k) as ->.
  { destruct k, k'; try done; by apply (f_equal head) in Heq. }
  split; [done|]. unfold index_key, index_prefix in Heq. rewrite <- !app_assoc in Heq.
  apply hex_prefix_inj in Heq as [-> Heq]; [|congruence|done|done].
  split; [done|]. by apply app_inv_head in Heq.
Qed.

Lemma tx_key_not_indexed k w t h : tx_key h <> index_prefix (ix_name k) w ++ t.
Proof. intros Heq. destruct k; by apply (f_equal head) in Heq. Qed.

(** The hashes of the logged transactions an index has under a word. *)
Definition logged (k : ix) (w : Bytes) (log : list entry) : list Hash :=
  (fun e => hash e.1) <$> filter (fun e => ix_word k e = Some w) log.

Lemma puts_under k w log key v :
  length w = ix_length k -> Forall is_byte w -> Forall entry_wf log ->
  (key, v) ∈ (log ≫= puts_of) /\ starts_with (index_prefix (ix_name k) w) key = true <->
  v ∈ logged k w log /\ key = index_prefix (ix_name k) w ++ hex_encode v.
Proof.
  intros Hl Hb Hwf. unfold logged. rewrite list_elem_of_bind, list_elem_of_fmap. split.
  - intros [(e & He & Hin) [t ->]%starts_with_inv]. apply elem_of_puts in He as [Heq|(k' & w' & Hw' & Heq)].
    + injection Heq as Heq _. by destruct (tx_key_not_indexed k w t (hash e.1)).
    + injection Heq as Heq ->. rewrite Forall_forall in Hwf.
      destruct (Hwf e Hin k' w' Hw') as [Hl' Hb'].
      destruct (index_key_inj k k' w w' (hash e.1) t) as (-> & -> & ->); [done..|].
      split; [|done]. exists e. split; [done|]. by apply list_elem_of_filter.
  - intros [(e & -> & [Hw Hin]%list_elem_of_filter) ->]. split; [|apply starts_with_app].
    exists e. split; [|done]. apply elem_of_puts. right. by exists k, w.
Qed.

Lemma logged_bytes k w log v : v ∈ logged k w log -> Forall is_byte v.
Proof. intros (e & -> & _)%list_elem_of_fmap. apply hash_bytes. Qed.

(** So what an index key holds is determined by the key. *)
Lemma puts_functional k w log key v1 v2 :
  length w = ix_length k -> Forall is_byte w -> Forall entry_wf log ->
  starts_with (index_prefix (ix_name k) w) key = true ->
  (key, v1) ∈ (log ≫= puts_of) -> (key, v2) ∈ (log ≫= puts_of) -> v1 = v2.
Proof.
  intros Hl Hb Hwf Hst Hv1 Hv2.
  destruct (proj1 (puts_under k w log key v1 Hl Hb Hwf) (conj Hv1 Hst)) as [P1 ->].
  destruct (proj1 (puts_under k w log _ v2 Hl Hb Hwf) (conj Hv2 Hst)) as [P2 Heq%app_inv_head].
  by apply hex_encode_inj in Heq; [|by eapply logged_bytes..].
Qed.

Lemma tx_key_inj h h' t :
  Forall is_byte h -> Forall is_byte h' -> length h = length h' -> tx_key h = tx_key h' ++ t -> h = h'.
Proof.
  intros Hb Hb' Hl Heq. unfold tx_key in Heq. rewrite <- app_assoc in Heq.
  rewrite <- (app_nil_r (hex_encode h)) in Heq. by apply hex_prefix_inj in Heq as [-> _].
Qed.

(** The last write under a hash is the last transaction with this hash. *)
Lemma last_tx_put h log :
  Forall is_byte h -> length h = 32%nat ->
  last (filter (fun kv : Bytes * Bytes => kv.1 = tx_key h) (log ≫= puts_of)) =
    (fun e : entry => (tx_key h, data_of e.1)) <$> last (filter (fun e : entry => hash e.1 = h) log).
Proof.
  intros Hb Hl. apply (last_put puts_of (fun e : entry => hash e.1 = h) (tx_key h)). intros e _.
  unfold puts_of. rewrite filter_cons, (filter_none _ (omap _ _)); cbn [fst].
  - destruct (decide (hash e.1 = h)) as [<-|Hne]; [by rewrite decide_True|].
    rewrite decide_False; [done|]. intros Heq. apply Hne.
    apply (tx_key_inj (hash e.1) h []); [apply hash_bytes|done| |by rewrite app_nil_r].
    rewrite Hl. apply sha256_length.
  - intros kv Hkv Heq. apply list_elem_of_omap in Hkv as (k & _ & Hk). unfold index_put in Hk.
    apply fmap_Some in Hk as (w & _ & ->). cbn [fst] in Heq. unfold index_key in Heq.
    by eapply tx_key_not_indexed.
Qed.

(** The keys under "tx:" are those of the logged hashes. *)
Lemma tx_keys_under log k :
  (exists v, (k, v) ∈ (log ≫= puts_of)) /\ starts_with (ascii_bytes "tx:") k = true <->
  exists h, h ∈ hash <$> log.*1 /\ k = tx_key h.
Proof.
  split.
  - intros [(v & (e & He & Hin)%list_elem_of_bind) [t Ht]%starts_with_inv].
    apply elem_of_puts in He as [Heq|(k' & w & _ & Heq)]; injection Heq as -> _.
    + exists (hash e.1). split; [|done]. rewrite <- list_fmap_compose. apply list_elem_of_fmap. by exists e.
    + exfalso. destruct k'; by apply (f_equal head) in Ht.
  - intros (h & Hh & ->). rewrite <- list_fmap_compose in Hh.
    apply list_elem_of_fmap in Hh as (e & -> & Hin). split; [|apply starts_with_app].
    exists (data_of e.1). apply list_elem_of_bind. exists e. split; [|done].
    apply elem_of_puts. by left.
Qed.

Lemma count_under_spec p n l rest :
  (forall kv, kv ∈ l -> starts_with p kv.1 = true) ->
  (forall kv, kv ∈ rest -> starts_with p kv.1 = false) ->
  0 <= n -> n + Z.of_nat (length l) <= u64_max ->
  count_under p n (l ++ rest) = n + Z.of_nat (length l).
Proof.
  intros Hl Hr. revert n. induction l as [|kv l IH]; intros n Hn Hmax; cbn [app].
  - cbn [length]. destruct rest as [|kv rest]; [cbn; lia|]. cbn [count_under].
    rewrite (Hr kv) by left. lia.
  - cbn [count_under length] in *. rewrite (Hl kv) by left. rewrite u64_add_small by lia.
    rewrite IH; [lia| |lia|lia]. intros kv' Hkv'. apply Hl. by right.
Qed.

(** ** Queries *)

Lemma query_indexed log (db : Db) k w limit :
  Forall entry_wf log -> db_view db = write_all (log ≫= puts_of) ∅ ->
  length w = ix_length k -> Forall is_byte w ->
  by_index k w limit db =
    inl (take (Nat.max 1 (default 1000%nat limit)) (sorted_hex (logged k w log))).
Proof.
  intros Hwf Hview Hl Hb.
  enough (get_transactions_by_prefix (index_prefix (ix_name k) w) limit db =
    inl (take (Nat.max 1 (default 1000%nat limit)) (sorted_hex (logged k w log)))) as Hq by by destruct k.
  destruct (scan_split (index_prefix (ix_name k) w) db) as (l & rest & Hit & Hin & Hout & Hel & Hs & Hnd).
  unfold get_transactions_by_prefix, iterate_from. rewrite Hit. cbn [sdk_of mbind sdk_bind].
  rewrite collect_upto_under by done. f_equal. f_equal.
  apply (under_sorted_hex (index_prefix (ix_name k) w)); [|  |done|done].
  - apply Forall_forall. intros x. apply logged_bytes.
  - intros key v. rewrite <- (puts_under k w log key v Hl Hb Hwf), Hel, Hview.
    enough (starts_with (index_prefix (ix_name k) w) key = true ->
      write_all (log ≫= puts_of) ∅ !! key = Some v <-> (key, v) ∈ (log ≫= puts_of)) by tauto.
    intros Hst. apply write_all_elem. intros v1 v2. by apply (puts_functional k w).
Qed.

Lemma indexed_hashes log (l : list (Bytes * Bytes)) :
  NoDup l ->
  (forall k v, (k, v) ∈ l <-> write_all (log ≫= puts_of) ∅ !! k = Some v /\
                             starts_with (ascii_bytes "tx:") k = true) ->
  l.*1 ≡ₚ tx_key <$> remove_dups (hash <$> log.*1).
Proof.
  intros Hnd Hel. apply NoDup_Permutation.
  - apply NoDup_fmap_2_strong; [|done]. intros [k1 v1] [k2 v2] P1 P2. cbn. intros <-.
    apply Hel in P1 as [P1 _], P2 as [P2 _]. congruence.
  - apply NoDup_fmap_2_strong; [|apply NoDup_remove_dups].
    intros x y Hx Hy. rewrite elem_of_remove_dups in Hx, Hy.
    apply list_elem_of_fmap in Hx as (? & -> & _), Hy as (? & -> & _).
    intros Heq. apply (tx_key_inj _ _ []); [apply hash_bytes..|by unfold hash; rewrite !sha256_length|by rewrite app_nil_r].
  - intros key. rewrite !list_elem_of_fmap. setoid_rewrite elem_of_remove_dups.
    etrans; [|etrans; [apply (tx_keys_under log key)|]].
    + rewrite <- write_all_some. split.
      * intros ([k v] & -> & Hkv). apply Hel in Hkv as [Hkv ?]. cbn. eauto.
      * intros [[v Hv] Hst]. exists (key, v). split; [done|]. by apply Hel.
    + split; intros (h & ? & ?); by exists h.
Qed.

Lemma count_indexed log (db : Db) :
  db_view db = write_all (log ≫= puts_of) ∅ -> Z.of_nat (length log) <= u64_max ->
  get_transaction_count db = inl (Z.of_nat (length (remove_dups (hash <$> log.*1)))).
Proof.
  intros Hview Hmax.
  destruct (scan_split (ascii_bytes "tx:") db) as (l & rest & Hit & Hin & Hout & Hel & Hs & Hnd).
  assert (length l = length (remove_dups (hash <$> log.*1))) as Hlen.
  { rewrite <- (length_fmap fst l), <- (length_fmap tx_key (remove_dups _)).
    apply Permutation_length, indexed_hashes; [done|]. intros k v. by rewrite Hel, Hview. }
  unfold get_transaction_count, iterate_from. rewrite Hit. cbn [sdk_of mbind sdk_bind].
  assert (length (remove_dups (hash <$> log.*1)) <= length log)%nat as Hle.
  { rewrite <- (length_fmap fst log), <- (length_fmap hash (log.*1)).
    apply submseteq_length, NoDup_submseteq; [apply NoDup_remove_dups|].
    intros x. by rewrite elem_of_remove_dups. }
  rewrite (count_under_spec _ 0 l rest Hin Hout); [by rewrite Hlen|lia|rewrite Hlen; lia].
Qed.

(** ** The indexer *)

(** C20: after any sequence of successful calls on an empty database the index answers
    for the sequence: a hash finds the last transaction indexed with it and
    nothing if there is none; the sender, the recipient, the called contract and
    the block find the hashes of exactly the transactions that name them, each
    once, in the order of their hexadecimal form and cut to the limit, except
    that a limit of zero still returns one; the count is that of the different
    hashes. *)
Theorem tx_index_answers log (db0 db : Db) :
  db_view db0 = ∅ -> Forall entry_wf log -> index_all log db0 = (inl tt, db) ->
  (forall h, length h = 32%nat -> Forall is_byte h ->
     indexed_transaction h db = inl (fst <$> last (filter (fun e : entry => hash e.1 = h) log))) /\
  (forall k w limit, length w = ix_length k -> Forall is_byte w ->
     by_index k w limit db =
       inl (take (Nat.max 1 (default 1000%nat limit)) (sorted_hex (logged k w log)))) /\
  (Z.of_nat (length log) <= u64_max ->
     get_transaction_count db = inl (Z.of_nat (length (remove_dups (hash <$> log.*1))))).
Proof.
  intros Hempty Hwf Hrun. apply index_all_view in Hrun as [Hser Hview]. rewrite Hempty in Hview.
  split; [|split].
  - intros h Hl Hb. unfold indexed_transaction, get_decoded, get_or.
    rewrite db_get_view, Hview, write_all_lookup, last_tx_put, lookup_empty by done. cbn [sdk_of mbind sdk_bind].
    destruct (last (filter _ log)) as [e|] eqn:He; cbn [fmap option_fmap option_map snd]; [|done].
    apply last_Some_elem_of, list_elem_of_filter in He as [_ He]. specialize (Hser e He).
    unfold data_of. destruct (serialize e.1) as [data|] eqn:Hs; [|done]. cbn [unwrap_or].
    by rewrite (codec_roundtrip e.1 data Hs).
  - intros k w limit Hl Hb. by apply query_indexed.
  - by apply count_indexed.
Qed.
End TxIndexFacts.

(** ** Witness *)

#[local] Existing Instances checksum_sha checksum_laws.

Definition sample_log : list entry :=
  [(new_transfer (replicate 20 1) (replicate 20 2) 5 0 21000 3, None);
   (new_transfer (replicate 20 1) (replicate 20 3) 6 1 21000 3, Some (replicate 32 7))].

Lemma sample_log_wf : Forall entry_wf sample_log.
Proof.
  apply Forall_cons; split; [|apply Forall_cons; split; [|done]]; intros k w Hw; destruct k; cbn in Hw; simplify_eq;
    (split; [reflexivity|]); repeat (apply Forall_cons_2; [by split|]); apply Forall_nil_2.
Qed.

Lemma sample_log_runs : index_all sample_log (∅ : MemDb) = (inl tt, (index_all sample_log (∅ : MemDb)).2).
Proof. apply injective_projections; [vm_compute; reflexivity|reflexivity]. Qed.

Lemma tx_index_answers_witness :
  by_index BySender (replicate 20 1) (Some 0%nat) (index_all sample_log (∅ : MemDb)).2 =
    inl (take 1 (sorted_hex (hash <$> sample_log.*1))) /\
  indexed_transaction (replicate 32 0) (index_all sample_log (∅ : MemDb)).2 = inl None /\
  get_transaction_count (index_all sample_log (∅ : MemDb)).2 = inl 2.
Proof.
  destruct (tx_index_answers sample_log (∅ : MemDb) (index_all sample_log (∅ : MemDb)).2)
    as (Hget & Hby & Hcount); [reflexivity|exact sample_log_wf|exact sample_log_runs|]. split; [|split].
  - rewrite (Hby BySender (replicate 20 1) (Some 0%nat)); [vm_compute; reflexivity|reflexivity|].
    apply Forall_replicate. unfold is_byte. lia.
  - rewrite (Hget (replicate 32 0)); [vm_compute; reflexivity|reflexivity|].
    apply Forall_replicate. unfold is_byte. lia.
  - rewrite Hcount; [vm_compute; reflexivity|vm_compute; discriminate].
Defined.
