(* ===== verification/AddressIndex.v ===== *)
(** The address indexer: [src/indexer/address_indexer.rs].

    One record per address, counters beside it, and the listings over them.
    [to_lowercase] is modelled on ASCII: no other letter becomes a hexadecimal digit. *)
From S2P Require Import Prelude Crypto Transaction Kv BlockStore Wallet Index.

Record AddressInfo := {
  info_address : Address;
  info_balance : Bytes;
  transaction_count : Z;
  first_seen : Z;
  last_seen : Z
}.

Definition addr_key `{Hex} (address : Address) : Bytes := ascii_bytes "addr:" ++ hex_encode address.
Definition tx_count_key `{Hex} (address : Address) : Bytes :=
  ascii_bytes "addr_tx_count:" ++ hex_encode address.

(** [haystack.contains(needle)] *)
Fixpoint contains (needle haystack : Bytes) : bool :=
  starts_with needle haystack ||
  match haystack with [] => false | _ :: rest => contains needle rest end.

(** [key_str.starts_with("addr:") && !key_str.contains("_tx_count")] *)
Definition is_info_key (key : Bytes) : bool :=
  starts_with (ascii_bytes "addr:") key && negb (contains (ascii_bytes "_tx_count") key).

Definition to_lowercase (s : Bytes) : Bytes :=
  (fun c => if (65 <=? c) && (c <=? 90) then c + 32 else c) <$> s.

Section AddressIndex.
Context {Db : Type} `{KvStore Db} `{Hex} `{Codec AddressInfo}.

(** [AddressIndexer::new], given what [DB::open] returned. *)
Definition address_indexer_new (opened : result Db) : sdk Db :=
  sdk_of (tx_error "Failed to open address index DB: {}") opened.

Definition get_address_info (address : Address) : Db -> sdk (option AddressInfo) :=
  get_decoded "Failed to get address info: {}" (addr_key address).

Definition new_info (address : Address) (timestamp : Z) : AddressInfo :=
  {| info_address := address; info_balance := ascii_bytes "0"; transaction_count := 0;
     first_seen := timestamp; last_seen := timestamp |}.
Definition touch (timestamp : Z) (info : AddressInfo) : AddressInfo :=
  {| info_address := info_address info; info_balance := info_balance info;
     transaction_count := u64_add (transaction_count info) 1;
     first_seen := first_seen info; last_seen := timestamp |}.
Definition set_balance (balance : Bytes) (info : AddressInfo) : AddressInfo :=
  {| info_address := info_address info; info_balance := balance;
     transaction_count := transaction_count info;
     first_seen := first_seen info; last_seen := last_seen info |}.

Definition update_address_info (address : Address) (timestamp : Z) : Ix Db unit :=
  query (get_address_info address) ≫= fun existing =>
  let info := touch timestamp (default (new_info address timestamp) existing) in
  query (fun _ => sdk_of SerializationError (serialize info)) ≫= fun info_data =>
  put_or "Failed to index address: {}" (addr_key address) info_data ≫= fun _ =>
  put_or "Failed to update tx count: {}" (tx_count_key address)
    (u64_to_le_bytes (transaction_count info)).

Definition index_address_from_transaction (tx : Transaction) (timestamp : Z) : Ix Db unit :=
  update_address_info (from tx) timestamp ≫= fun _ =>
  match payload tx with
  | Transfer to _ => update_address_info to timestamp
  | ContractDeploy _ _ => mret tt
  | ContractCall contract_address _ _ => update_address_info contract_address timestamp
  end.

Definition update_balance (address : Address) (balance : Bytes) : Ix Db unit :=
  query (get_address_info address) ≫= fun existing =>
  match existing with
  | Some info =>
      query (fun _ => sdk_of SerializationError (serialize (set_balance balance info))) ≫= fun info_data =>
      put_or "Failed to update balance: {}" (addr_key address) info_data
  | None => mret tt
  end.

(** [DB::iterator(IteratorMode::Start)] *)
Definition iterate_all (db : Db) : sdk (list (Bytes * Bytes)) :=
  sdk_of (tx_error "Iterator error: {}") (db_iterator db).

(** The records whose keys satisfy [wanted]; the limit is tested after each push. *)
Fixpoint infos_upto (wanted : Bytes -> bool) (limit : nat) (acc : list AddressInfo)
    (items : list (Bytes * Bytes)) : sdk (list AddressInfo) :=
  match items with
  | [] => inl acc
  | (key, value) :: rest =>
      if is_info_key key && wanted key then
        info ← sdk_of SerializationError (deserialize value);
        let acc := acc ++ [info] in
        if (limit <=? length acc)%nat then inl acc else infos_upto wanted limit acc rest
      else infos_upto wanted limit acc rest
  end.

Definition get_top_addresses_by_transactions (limit : nat) (db : Db) : sdk (list AddressInfo) :=
  items ← iterate_all db;
  addresses ← infos_upto (fun _ => true) limit [] items;
  inl (take limit (sort_by (fun a b => transaction_count b <=? transaction_count a) addresses)).

Definition get_recent_addresses (limit : nat) (db : Db) : sdk (list AddressInfo) :=
  items ← iterate_all db;
  addresses ← infos_upto (fun _ => true) limit [] items;
  inl (take limit (sort_by (fun a b => last_seen b <=? last_seen a) addresses)).

Fixpoint count_addresses (count : Z) (items : list (Bytes * Bytes)) : Z :=
  match items with
  | [] => count
  | (key, _) :: rest =>
      if is_info_key key then count_addresses (u64_add count 1) rest
      else if negb (starts_with (ascii_bytes "addr:") key) then count
      else count_addresses count rest
  end.
Definition get_address_count (db : Db) : sdk Z :=
  items ← iterate_from (ascii_bytes "addr:") db;
  inl (count_addresses 0 items).

Definition matches (query_lower : Bytes) (key : Bytes) : bool :=
  contains query_lower (to_lowercase (drop 5 key)).
Definition search_addresses (text : Bytes) (limit : nat) (db : Db) : sdk (list AddressInfo) :=
  let query_lower := to_lowercase text in
  items ← iterate_all db;
  infos_upto (matches query_lower) limit [] items.
End AddressIndex.

(** ** The history of an address *)

(** Whom a transaction touches, in order; a transfer to oneself counts twice. *)
Definition touches (tx : Transaction) : list Address :=
  from tx :: match payload tx with
             | Transfer to _ => [to] | ContractDeploy _ _ => [] | ContractCall c _ _ => [c]
             end.

(** A history gives every address the instants at which it was touched. *)
Abbreviation history := (list (Address * Z)).
Definition touched_by (e : Transaction * Z) : history := (fun a => (a, e.2)) <$> touches e.1.
Definition instants (a : Address) (hist : history) : list Z :=
  (filter (fun x : Address * Z => x.1 = a) hist).*2.

Definition info_of (a : Address) (hist : history) : option AddressInfo :=
  match instants a hist with
  | [] => None
  | t :: ts => Some {| info_address := a; info_balance := ascii_bytes "0";
                       transaction_count := u64_wrap (Z.of_nat (S (length ts)));
                       first_seen := t; last_seen := List.last ts t |}
  end.

Definition is_address (a : Address) : Prop := length a = 20%nat /\ Forall is_byte a.

Lemma instants_snoc a hist b t :
  instants a (hist ++ [(b, t)]) = if decide (b = a) then instants a hist ++ [t] else instants a hist.
Proof.
  unfold instants. rewrite filter_app, filter_cons, filter_nil, fmap_app. cbn [fst].
  case_decide; [done|]. by rewrite app_nil_r.
Qed.

Lemma info_of_other a hist b t : b <> a -> info_of a (hist ++ [(b, t)]) = info_of a hist.
Proof. intros Hne. unfold info_of. by rewrite instants_snoc, decide_False. Qed.

Lemma u64_wrap_succ n : u64_add (u64_wrap n) 1 = u64_wrap (n + 1).
Proof. unfold u64_add, u64_wrap. by rewrite Zplus_mod_idemp_l. Qed.

(** Touching an address is what its record goes through. *)
Lemma info_of_touch a hist t :
  info_of a (hist ++ [(a, t)]) = Some (touch t (default (new_info a t) (info_of a hist))).
Proof.
  unfold info_of. rewrite instants_snoc, decide_True by done.
  destruct (instants a hist) as [|t0 ts]; [done|]. cbn [app default from_option id].
  unfold touch. cbn [info_address info_balance transaction_count first_seen last_seen].
  rewrite u64_wrap_succ, length_app, last_last. do 2 f_equal. cbn [length]. f_equal. lia.
Qed.

Lemma info_of_some a hist : is_Some (info_of a hist) <-> a ∈ hist.*1.
Proof.
  unfold info_of. destruct (instants a hist) as [|t ts] eqn:E; split.
  - by intros [].
  - intros ([b t] & -> & Hin)%list_elem_of_fmap. unfold instants in E.
    assert (t ∈ (filter (fun x : Address * Z => x.1 = b) hist).*2) as Ht.
    { apply list_elem_of_fmap. exists (b, t). split; [done|]. by apply list_elem_of_filter. }
    cbn in E. rewrite E in Ht. by apply not_elem_of_nil in Ht.
  - intros _. assert (t ∈ instants a hist) as Ht by (rewrite E; left).
    apply list_elem_of_fmap in Ht as ([b t'] & -> & [Hb Hin]%list_elem_of_filter). cbn in Hb. subst b.
    apply list_elem_of_fmap. by exists (a, t').
  - eauto.
Qed.

Section AddressFacts.
Context {Db : Type} `{KvLaws Db} `{HexLaws} `{!HexTextLaws} `{CodecLaws AddressInfo}.
Implicit Types (db : Db) (hist : history).

(** The database holds the records of a history and nothing but its addresses'. *)
Record holds hist db : Prop := {
  holds_info : forall a, is_address a ->
    match info_of a hist with
    | Some info => exists data, db_view db !! addr_key a = Some data /\ serialize info = Ok data
    | None => db_view db !! addr_key a = None
    end;
  holds_keys : forall k, is_Some (db_view db !! k) ->
    exists a, is_address a /\ a ∈ hist.*1 /\ (k = addr_key a \/ k = tx_count_key a)
}.

Lemma addr_key_inj a b : is_address a -> is_address b -> addr_key a = addr_key b -> a = b.
Proof.
  intros [_ Ha] [_ Hb] Heq. unfold addr_key in Heq. apply app_inv_head in Heq. by apply hex_encode_inj.
Qed.
Lemma addr_key_not_count a t : tx_count_key a <> ascii_bytes "addr:" ++ t.
Proof. intros Heq. by apply (f_equal (fun l => l !! 4%nat)) in Heq. Qed.

Lemma get_address_info_spec a hist db :
  is_address a -> holds hist db -> get_address_info a db = inl (info_of a hist).
Proof.
  intros Ha Hh. unfold get_address_info, get_decoded, get_or. rewrite db_get_view.
  cbn [sdk_of mbind sdk_bind]. pose proof (holds_info _ _ Hh a Ha) as Hi.
  destruct (info_of a hist) as [info|]; [|by rewrite Hi].
  destruct Hi as (data & -> & Hs). by rewrite (codec_roundtrip info data Hs).
Qed.

Lemma update_address_info_view a t db db' existing :
  get_address_info a db = inl existing -> update_address_info a t db = (inl tt, db') ->
  exists data, serialize (touch t (default (new_info a t) existing)) = Ok data /\
    db_view db' = write_all [(addr_key a, data);
      (tx_count_key a, u64_to_le_bytes (transaction_count (touch t (default (new_info a t) existing))))]
      (db_view db).
Proof.
  intros Hg. unfold update_address_info, query, mbind, Ix_bind. rewrite Hg.
  destruct (serialize _) as [data|e] eqn:Hs; cbn [sdk_of]; [|done].
  destruct (put_or _ (addr_key a) data db) as [[[]|?] db1] eqn:P1; [|done]. intros P2.
  apply put_or_view in P1, P2. exists data. split; [done|]. by rewrite P2, P1.
Qed.

Lemma update_address_info_holds a t hist db db' :
  is_address a -> holds hist db -> update_address_info a t db = (inl tt, db') ->
  holds (hist ++ [(a, t)]) db'.
Proof.
  intros Ha Hh Hrun.
  destruct (update_address_info_view a t db db' (info_of a hist)) as (data & Hs & Hv);
    [by apply get_address_info_spec|done|].
  cbn [write_all foldl fst snd] in Hv.
  assert (forall b, tx_count_key a <> addr_key b) as Hne by (intros b; by apply addr_key_not_count).
  split.
  - intros b Hb. rewrite Hv, lookup_insert_ne by apply Hne.
    destruct (decide (a = b)) as [<-|Hab].
    + rewrite info_of_touch, lookup_insert_eq. by exists data.
    + rewrite info_of_other by done. rewrite lookup_insert_ne by (intros Heq; apply Hab; by apply addr_key_inj).
      by apply (holds_info _ _ Hh).
  - intros k Hk. rewrite fmap_app. rewrite Hv, !lookup_insert_is_Some' in Hk.
    destruct Hk as [<-|[<-|Hk]].
    + exists a. split; [done|]. split; [|by right]. apply elem_of_app. right. left.
    + exists a. split; [done|]. split; [|by left]. apply elem_of_app. right. left.
    + destruct (holds_keys _ _ Hh k Hk) as (b & ? & ? & ?). exists b. split; [done|].
      split; [|done]. apply elem_of_app. by left.
Qed.

Fixpoint index_all (log : list (Transaction * Z)) : Ix Db unit :=
  match log with
  | [] => mret tt
  | e :: log' => index_address_from_transaction e.1 e.2 ≫= fun _ => index_all log'
  end.

Definition log_wf (log : list (Transaction * Z)) : Prop :=
  forall e a, e ∈ log -> a ∈ touches e.1 -> is_address a.

Lemma index_one_holds e hist db db' :
  (forall a, a ∈ touches e.1 -> is_address a) -> holds hist db ->
  index_address_from_transaction e.1 e.2 db = (inl tt, db') -> holds (hist ++ touched_by e) db'.
Proof.
  destruct e as [tx t]. unfold touched_by, touches, index_address_from_transaction, mbind, Ix_bind.
  cbn [fst snd]. intros Hwf Hh.
  destruct (update_address_info (from tx) t db) as [[[]|?] db1] eqn:P1; [|done].
  apply (update_address_info_holds _ _ hist) in P1; [|apply Hwf; left|done].
  destruct (payload tx) as [to amount|code args|c m args]; cbn [fmap list_fmap].
  - intros P2. apply (update_address_info_holds _ _ (hist ++ [(from tx, t)])) in P2;
      [|apply Hwf; right; left|done]. by rewrite <- app_assoc in P2.
  - by intros [= <-].
  - intros P2. apply (update_address_info_holds _ _ (hist ++ [(from tx, t)])) in P2;
      [|apply Hwf; right; left|done]. by rewrite <- app_assoc in P2.
Qed.

Lemma index_all_holds log hist db db' :
  log_wf log -> holds hist db -> index_all log db = (inl tt, db') ->
  holds (hist ++ (log ≫= touched_by)) db'.
Proof.
  revert hist db. induction log as [|e log IH]; intros hist db Hwf Hh.
  { intros [= <-]. cbn [mbind list_bind]. by rewrite app_nil_r. }
  cbn [index_all]. unfold mbind at 1, Ix_bind.
  destruct (index_address_from_transaction e.1 e.2 db) as [[[]|?] db1] eqn:P1; [|done]. intros Hrun.
  apply (index_one_holds e hist) in P1; [|intros a; apply (Hwf e); left|done].
  apply (IH (hist ++ touched_by e)) in Hrun; [|intros e' a He'; apply Hwf; by right|done].
  by rewrite bind_cons, app_assoc.
Qed.

Lemma holds_nil db : db_view db = ∅ -> holds [] db.
Proof.
  intros He. split; rewrite He; [intros a _; apply lookup_empty|].
  intros k Hk. rewrite lookup_empty in Hk. by destruct Hk.
Qed.

(** ** The listings *)

Lemma contains_elem c needle hay : contains (c :: needle) hay = true -> c ∈ hay.
Proof.
  induction hay as [|x hay IH]; cbn [contains]; [done|].
  rewrite starts_with_cons, orb_true_iff, andb_true_iff, bool_decide_eq_true.
  intros [[-> _]|Hc]; [left|right; by apply IH].
Qed.

Lemma addr_key_is_info a : is_address a -> is_info_key (addr_key a) = true.
Proof.
  intros [_ Hb]. unfold is_info_key, addr_key. rewrite starts_with_app. cbn [andb].
  apply negb_true_iff, not_true_is_false. intros Hc%contains_elem.
  apply elem_of_app in Hc as [Hc|Hc].
  - revert Hc. apply (bool_decide_unpack (_ ∉ _)). vm_compute. done.
  - pose proof (hex_encode_digits a Hb) as Hd. rewrite Forall_forall in Hd. destruct (Hd _ Hc); cbn in *; lia.
Qed.

Lemma count_key_not_info a : is_info_key (tx_count_key a) = false.
Proof.
  unfold is_info_key. destruct (starts_with (ascii_bytes "addr:") (tx_count_key a)) eqn:E; [|done].
  apply starts_with_inv in E as [t Ht]. by destruct (addr_key_not_count a t).
Qed.

(** The addresses of a history in the order of their hexadecimal form, and their
    records. *)
Definition by_hex (l : list Address) : list Address :=
  sort_by (fun a b => bytes_leb (hex_encode a) (hex_encode b)) (remove_dups l).
Definition records hist : list AddressInfo := omap (fun a => info_of a hist) (by_hex hist.*1).

Lemma elem_of_by_hex a l : a ∈ by_hex l <-> a ∈ l.
Proof. unfold by_hex. by rewrite elem_of_sort_by, elem_of_remove_dups. Qed.
Lemma by_hex_sorted l :
  StronglySorted (fun a b => bytes_leb (hex_encode a) (hex_encode b) = true) (by_hex l).
Proof. apply sort_by_sorted; intros; eauto using bytes_leb_total, bytes_leb_trans. Qed.
Lemma NoDup_by_hex l : NoDup (by_hex l).
Proof. unfold by_hex. rewrite sort_by_perm. apply NoDup_remove_dups. Qed.

(** What is filed under record keys. *)
Definition info_entries db (l : list (Bytes * Bytes)) : Prop :=
  (forall k v, (k, v) ∈ l <-> db_view db !! k = Some v /\ is_info_key k = true) /\
  StronglySorted (fun a b => bytes_leb a.1 b.1 = true) l /\ NoDup l.

Lemma elem_of_info_keys hist db l k :
  holds hist db -> (forall a, a ∈ hist.*1 -> is_address a) -> info_entries db l ->
  k ∈ l.*1 <-> k ∈ addr_key <$> by_hex hist.*1.
Proof.
  intros Hh Hwf (Hl & _). rewrite !list_elem_of_fmap. setoid_rewrite elem_of_by_hex. split.
  - intros ([k' v] & -> & Hkv). apply Hl in Hkv as [Hv Hi]. cbn.
    destruct (holds_keys _ _ Hh k' ltac:(eauto)) as (a & _ & Hin & [->| ->]); [by exists a|].
    by rewrite count_key_not_info in Hi.
  - intros (a & -> & Hin). pose proof (holds_info _ _ Hh a (Hwf a Hin)) as Hi.
    apply info_of_some in Hin as Hsome. destruct Hsome as [info Hinfo]. rewrite Hinfo in Hi.
    destruct Hi as (data & Hv & _). exists (addr_key a, data). split; [done|].
    apply Hl. split; [done|]. apply addr_key_is_info, Hwf, Hin.
Qed.

Lemma info_keys hist db l :
  holds hist db -> (forall a, a ∈ hist.*1 -> is_address a) -> info_entries db l ->
  l.*1 = addr_key <$> by_hex hist.*1.
Proof.
  intros Hh Hwf He. pose proof (fun k => elem_of_info_keys hist db l k Hh Hwf He) as Hel.
  destruct He as (Hl & Hs & Hnd). apply (sorted_perm_unique bytes_leb);
    eauto using bytes_leb_total, bytes_leb_trans, bytes_leb_antisym.
  - clear -Hs. induction Hs as [|kv l _ IH Hall]; cbn; constructor; [done|].
    apply Forall_fmap. exact Hall.
  - pose proof (by_hex_sorted hist.*1) as Hsb. clear -Hsb.
    induction Hsb as [|a k _ IH Hall]; cbn; constructor; [done|].
    apply Forall_fmap. eapply Forall_impl; [exact Hall|]. intros b Hb.
    change (bytes_leb (addr_key a) (addr_key b) = true). unfold addr_key. by rewrite bytes_leb_app.
  - apply NoDup_Permutation; [| |exact Hel].
    + apply NoDup_fmap_2_strong; [|done]. intros [k1 v1] [k2 v2] P1 P2. cbn. intros <-.
      apply Hl in P1 as [P1 _], P2 as [P2 _]. congruence.
    + apply NoDup_fmap_2_strong; [|apply NoDup_by_hex].
      intros x y Hx Hy. rewrite elem_of_by_hex in Hx, Hy. apply addr_key_inj; auto.
Qed.

(** They are the records, in the order of the addresses. *)
Definition filed (kv : Bytes * Bytes) (info : AddressInfo) : Prop :=
  is_address (info_address info) /\ kv.1 = addr_key (info_address info) /\ deserialize kv.2 = Ok info.

Lemma info_of_address a hist info : info_of a hist = Some info -> info_address info = a.
Proof. unfold info_of. destruct (instants a hist); [done|]. by intros [= <-]. Qed.

Lemma info_records hist db l :
  holds hist db -> (forall a, a ∈ hist.*1 -> is_address a) -> info_entries db l ->
  Forall2 filed l (records hist).
Proof.
  intros Hh Hwf He. pose proof (info_keys hist db l Hh Hwf He) as Hkeys. unfold records.
  assert (forall a, a ∈ by_hex hist.*1 -> a ∈ hist.*1) as Hsub by (intros a; apply elem_of_by_hex).
  assert (forall kv, kv ∈ l -> db_view db !! kv.1 = Some kv.2) as Hval
    by (intros [k v] Hkv; by apply He in Hkv as [? _]).
  clear He. revert l Hkeys Hval. induction (by_hex hist.*1) as [|a as' IH]; intros l Hkeys Hval.
  - destruct l; [constructor|done].
  - destruct l as [|[k v] l]; [done|]. cbn [fmap list_fmap fst] in Hkeys. injection Hkeys as -> Hkeys.
    pose proof (Hval (addr_key a, v) ltac:(left)) as Hv. cbn [fst snd] in Hv.
    assert (a ∈ hist.*1) as Hin by (apply Hsub; left).
    pose proof (holds_info _ _ Hh a (Hwf a Hin)) as Hi.
    apply info_of_some in Hin as [info Hinfo]. rewrite Hinfo in Hi. destruct Hi as (data & Hd & Hser).
    cbn [omap list_omap]. rewrite Hinfo. constructor.
    + unfold filed. rewrite (info_of_address a hist info Hinfo). cbn [fst snd].
      rewrite Hd in Hv. injection Hv as <-. split; [by apply Hwf, Hsub; left|]. split; [done|].
      by apply codec_roundtrip.
    + apply IH; [intros b Hb; apply Hsub; by right|done|]. intros kv Hkv. apply Hval. by right.
Qed.

Lemma infos_upto_spec (wanted : Bytes -> bool) limit items infos acc :
  Forall2 filed (filter (fun kv : Bytes * Bytes => is_info_key kv.1 && wanted kv.1 = true) items) infos ->
  (length acc < Nat.max 1 limit)%nat ->
  infos_upto wanted limit acc items = inl (acc ++ take (Nat.max 1 limit - length acc) infos).
Proof.
  revert infos acc. induction items as [|[k v] items IH]; intros infos acc Hall Hacc.
  { apply Forall2_nil_inv_l in Hall as ->. by rewrite take_nil, app_nil_r. }
  rewrite filter_cons in Hall. cbn [infos_upto fst] in *.
  destruct (is_info_key k && wanted k).
  - rewrite decide_True in Hall by done.
    apply Forall2_cons_inv_l in Hall as (info & infos' & (_ & _ & Hd) & Hall & ->).
    cbn [snd] in Hd. rewrite Hd. cbn [sdk_of mbind sdk_bind]. rewrite length_app. cbn [length].
    destruct (Nat.leb_spec limit (length acc + 1)).
    + by replace (Nat.max 1 limit - length acc)%nat with 1%nat by lia.
    + rewrite (IH infos'); [|done|rewrite length_app; cbn [length]; lia]. rewrite length_app. cbn [length].
      replace (Nat.max 1 limit - length acc)%nat with (S (Nat.max 1 limit - (length acc + 1)))%nat by lia.
      cbn [take]. by rewrite <- app_assoc.
  - rewrite decide_False in Hall by done. by apply IH.
Qed.

(** The limit is reached after at least one record. *)
Lemma infos_listed (wanted : Bytes -> bool) limit items infos :
  Forall2 filed (filter (fun kv : Bytes * Bytes => is_info_key kv.1 && wanted kv.1 = true) items) infos ->
  infos_upto wanted limit [] items = inl (take (Nat.max 1 limit) infos).
Proof.
  intros Hall. rewrite (infos_upto_spec wanted limit items infos []) by (done || (cbn [length]; lia)).
  cbn [length app]. by rewrite Nat.sub_0_r.
Qed.

Lemma all_items db :
  exists all : list (Bytes * Bytes), iterate_all db = inl all /\
    info_entries db (filter (fun kv : Bytes * Bytes => is_info_key kv.1 = true) all).
Proof.
  destruct (db_iterator_view db) as (all & Hall & Hperm & Hs). exists all. unfold iterate_all.
  rewrite Hall. split; [done|]. split; [|split].
  - intros k v. rewrite list_elem_of_filter, Hperm, elem_of_map_to_list. cbn [fst]. tauto.
  - by apply sorted_filter.
  - apply NoDup_filter. rewrite Hperm. apply NoDup_map_to_list.
Qed.

Lemma matches_addr_key q a : is_address a -> matches q (addr_key a) = contains q (hex_encode a).
Proof.
  intros [_ Hb]. unfold matches. change (drop 5 (addr_key a)) with (hex_encode a). f_equal.
  pose proof (hex_encode_digits a Hb) as Hd. unfold to_lowercase.
  induction (hex_encode a) as [|c l IH]; [done|]. apply Forall_cons in Hd as [Hc Hd].
  cbn [fmap list_fmap]. rewrite IH by done. f_equal. unfold is_hex_digit in Hc.
  destruct (Z.leb_spec 65 c); [|done]. destruct (Z.leb_spec c 90); cbn [andb]; lia.
Qed.

Lemma filed_filter q l infos :
  Forall2 filed l infos ->
  Forall2 filed (filter (fun kv : Bytes * Bytes => matches q kv.1 = true) l)
    (filter (fun info => contains q (hex_encode (info_address info)) = true) infos).
Proof.
  induction 1 as [|kv info l infos Hf _ IH]; [constructor|]. rewrite !filter_cons.
  pose proof Hf as (Ha & Hk & _). rewrite Hk, (matches_addr_key q _ Ha).
  case_decide; [by constructor|done].
Qed.

Lemma filter_filter_and {A} (p q : A -> bool) (l : list A) :
  filter (fun x => p x && q x = true) l = filter (fun x => q x = true) (filter (fun x => p x = true) l).
Proof.
  induction l as [|x l IH]; [done|]. rewrite !filter_cons. destruct (p x); cbn [andb].
  - rewrite (decide_True (P := true = true)) by done. rewrite filter_cons. by rewrite IH.
  - by rewrite !(decide_False (P := false = true)).
Qed.

Lemma listed_infos hist db (q : option Bytes) limit :
  holds hist db -> (forall a, a ∈ hist.*1 -> is_address a) ->
  (items ← iterate_all db;
   infos_upto (match q with Some q => matches q | None => fun _ => true end) limit [] items) =
  inl (take (Nat.max 1 limit)
    (match q with
     | Some q => filter (fun info => contains q (hex_encode (info_address info)) = true) (records hist)
     | None => records hist end)).
Proof.
  intros Hh Hwf. destruct (all_items db) as (all & -> & He). cbn [mbind sdk_bind].
  pose proof (info_records hist db _ Hh Hwf He) as Hr.
  apply infos_listed. rewrite (filter_filter_and (fun kv : Bytes * Bytes => is_info_key kv.1)
    (fun kv => (match q with Some q => matches q | None => fun _ => true end) kv.1)).
  destruct q as [q|]; [by apply filed_filter|].
  assert (forall l : list (Bytes * Bytes), filter (fun _ => true = true) l = l) as Hid.
  { induction l as [|x l IH]; [done|]. rewrite filter_cons_True by done. by rewrite IH. }
  by rewrite Hid.
Qed.

Lemma count_addresses_spec l rest n :
  (forall kv, kv ∈ l -> is_info_key kv.1 = true) ->
  (forall kv, kv ∈ rest -> starts_with (ascii_bytes "addr:") kv.1 = false) ->
  0 <= n -> n + Z.of_nat (length l) <= u64_max ->
  count_addresses n (l ++ rest) = n + Z.of_nat (length l).
Proof.
  intros Hl Hr. revert n. induction l as [|[k v] l IH]; intros n Hn Hmax; cbn [app].
  - cbn [length]. destruct rest as [|[k v] rest]; [cbn; lia|]. cbn [count_addresses].
    pose proof (Hr (k, v) ltac:(left)) as Hk. cbn [fst] in Hk. unfold is_info_key. rewrite Hk. cbn. lia.
  - cbn [count_addresses length] in *. pose proof (Hl (k, v) ltac:(left)) as Hk. cbn [fst] in Hk.
    rewrite Hk, u64_add_small by lia. rewrite IH; [lia| |lia|lia]. intros kv Hkv. apply Hl. by right.
Qed.

Lemma address_count hist db :
  holds hist db -> (forall a, a ∈ hist.*1 -> is_address a) -> Z.of_nat (length hist) <= u64_max ->
  get_address_count db = inl (Z.of_nat (length (remove_dups hist.*1))).
Proof.
  intros Hh Hwf Hmax.
  destruct (scan_split (ascii_bytes "addr:") db) as (l & rest & Hit & Hin & Hout & Hel & Hs & Hnd).
  assert (forall kv, kv ∈ l -> is_info_key kv.1 = true) as Hinfo.
  { intros [k v] Hkv. pose proof (Hin _ Hkv) as Hst. apply Hel in Hkv as [Hv _]. cbn [fst] in *.
    destruct (holds_keys _ _ Hh k ltac:(eauto)) as (a & Ha & _ & [->| ->]); [by apply addr_key_is_info|].
    apply starts_with_inv in Hst as [t Ht]. by destruct (addr_key_not_count a t). }
  assert (info_entries db l) as He.
  { split; [|by split]. intros k v. rewrite Hel. split; intros [Hv Hk]; (split; [done|]).
    - apply (Hinfo (k, v)). by apply Hel.
    - unfold is_info_key in Hk. by apply andb_prop in Hk as [? _]. }
  pose proof (f_equal length (info_keys hist db l Hh Hwf He)) as Hlen. rewrite !length_fmap in Hlen.
  unfold by_hex in Hlen. rewrite sort_by_length in Hlen.
  assert (length (remove_dups hist.*1) <= length hist)%nat as Hle.
  { rewrite <- (length_fmap fst hist). apply submseteq_length, NoDup_submseteq; [apply NoDup_remove_dups|].
    intros x. by rewrite elem_of_remove_dups. }
  unfold get_address_count, iterate_from. rewrite Hit. cbn [sdk_of mbind sdk_bind].
  rewrite (count_addresses_spec l rest 0 Hinfo Hout); [by rewrite Hlen|lia|rewrite Hlen; lia].
Qed.

(** ** The indexer *)

Lemma log_addresses log a : log_wf log -> a ∈ (log ≫= touched_by).*1 -> is_address a.
Proof.
  intros Hwf (x & -> & Hx)%list_elem_of_fmap. apply list_elem_of_bind in Hx as (e & Hx & He).
  unfold touched_by in Hx. apply list_elem_of_fmap in Hx as (b & -> & Hb). by apply (Hwf e).
Qed.

(** C25: after any sequence of successful calls on an empty database: the record of an
    address counts the times a transaction touched it, a transfer to oneself twice,
    with the first and the last instant; the count is that of the touched
    addresses; a search returns, in the order of the addresses, the records whose
    address contains the text, cut to the limit or to one if that is zero; and
    the listings of the busiest and of the most recent addresses take the first
    records in the order of the addresses, as many as the limit, and only then
    sort them. *)
Theorem address_index_answers log (db0 db : Db) :
  db_view db0 = ∅ -> log_wf log -> index_all log db0 = (inl tt, db) ->
  let hist := log ≫= touched_by in
  (forall a, is_address a -> get_address_info a db = inl (info_of a hist)) /\
  (forall limit, get_top_addresses_by_transactions limit db =
     inl (take limit (sort_by (fun a b => transaction_count b <=? transaction_count a)
       (take (Nat.max 1 limit) (records hist))))) /\
  (forall limit, get_recent_addresses limit db =
     inl (take limit (sort_by (fun a b => last_seen b <=? last_seen a)
       (take (Nat.max 1 limit) (records hist))))) /\
  (forall text limit, search_addresses text limit db =
     inl (take (Nat.max 1 limit) (filter (fun info =>
       contains (to_lowercase text) (hex_encode (info_address info)) = true) (records hist)))) /\
  (Z.of_nat (length hist) <= u64_max ->
     get_address_count db = inl (Z.of_nat (length (remove_dups hist.*1)))).
Proof.
  intros Hempty Hwf Hrun hist.
  apply (index_all_holds log []) in Hrun; [|done|by apply holds_nil]. cbn [app] in Hrun. fold hist in Hrun.
  assert (forall a, a ∈ hist.*1 -> is_address a) as Ha by (intros a; by apply log_addresses).
  assert (forall limit, (items ← iterate_all db; infos_upto (fun _ => true) limit [] items) =
    inl (take (Nat.max 1 limit) (records hist))) as Hlist by (intros; by apply (listed_infos hist db None)).
  split; [intros a Hadr; by apply get_address_info_spec|]. split; [|split; [|split]].
  - intros limit. specialize (Hlist limit). unfold get_top_addresses_by_transactions.
    destruct (iterate_all db) as [items|]; [|done]. cbn [mbind sdk_bind] in *. by rewrite Hlist.
  - intros limit. specialize (Hlist limit). unfold get_recent_addresses.
    destruct (iterate_all db) as [items|]; [|done]. cbn [mbind sdk_bind] in *. by rewrite Hlist.
  - intros text limit. by apply (listed_infos hist db (Some (to_lowercase text))).
  - by apply address_count.
Qed.
End AddressFacts.

(** ** Witness *)

Definition fmt_info : format AddressInfo :=
  fmt_map (fmt_pair fmt_bytes (fmt_pair fmt_bytes (fmt_list fmt_Z)))
    (fun i => (info_address i, (info_balance i, [transaction_count i; first_seen i; last_seen i])))
    (fun '(a, (b, l)) => match l with
       | [c; f; t] => Some {| info_address := a; info_balance := b; transaction_count := c;
                              first_seen := f; last_seen := t |}
       | _ => None end)
    (fun i => match i with Build_AddressInfo _ _ _ _ _ => eq_refl end).
#[export] Instance info_codec : Codec AddressInfo := fmt_codec fmt_info.
#[export] Instance info_codec_laws : CodecLaws AddressInfo := fmt_codec_laws fmt_info.

(** The first address is touched once, the second three times. *)
Definition touch_log : list (Transaction * Z) :=
  [(new_transfer (replicate 20 2) (replicate 20 1) 5 0 21000 3, 10);
   (new_transfer (replicate 20 2) (replicate 20 2) 5 1 21000 3, 20)].
Abbreviation touched_db := (index_all touch_log (∅ : MemDb)).2.

Lemma touch_log_wf : log_wf touch_log.
Proof.
  assert (forall x, is_byte x -> is_address (replicate 20 x)) as Hr.
  { intros x Hx. split; [by rewrite length_replicate|by apply Forall_replicate]. }
  intros e a He Ha. unfold touch_log in He. rewrite !elem_of_cons in He.
  destruct He as [->|[->|He]]; [| |by apply not_elem_of_nil in He];
    unfold touches, new_transfer in Ha; cbn [fst from payload] in Ha; rewrite !elem_of_cons in Ha;
    destruct Ha as [->|[->|Ha]]; try (by apply not_elem_of_nil in Ha); apply Hr; by split.
Qed.

(** The busiest address is not the one that is listed. *)
Lemma address_index_answers_witness :
  get_address_info (replicate 20 2) touched_db =
    inl (Some {| info_address := replicate 20 2; info_balance := ascii_bytes "0";
                 transaction_count := 3; first_seen := 10; last_seen := 20 |}) /\
  get_top_addresses_by_transactions 1 touched_db =
    inl [{| info_address := replicate 20 1; info_balance := ascii_bytes "0";
            transaction_count := 1; first_seen := 10; last_seen := 10 |}] /\
  get_address_count touched_db = inl 2.
Proof.
  destruct (address_index_answers touch_log (∅ : MemDb) touched_db) as (Hget & Htop & _ & _ & Hcount).
  - reflexivity.
  - exact touch_log_wf.
  - apply injective_projections; [vm_compute; reflexivity|reflexivity].
  - split; [|split].
    + rewrite Hget; [vm_compute; reflexivity|].
      split; [reflexivity|]. apply Forall_replicate. split; reflexivity || discriminate.
    + rewrite Htop. vm_compute. reflexivity.
    + rewrite Hcount; [vm_compute; reflexivity|vm_compute; discriminate].
Defined.
