(* ===== verification/BlockIndex.v ===== *)
(** The block indexer: [src/indexer/block_indexer.rs].

    Blocks under their hash, hashes under heights, and transaction hashes under
    block and position.  The source calls [block.hash()] where the block has a field,
    and [next] on an immutable iterator; both are read as they are meant. *)
From S2P Require Import Prelude Crypto Transaction Floats Mining Block Kv BlockStore Pruning Wallet Index.

(** [iterator(IteratorMode::From(from, Direction::Reverse))] *)
Definition db_iterator_back {Db} `{KvStore Db} (start : Bytes) (db : Db) : result (list (Bytes * Bytes)) :=
  (fun items => reverse (filter (fun kv : Bytes * Bytes => bytes_leb kv.1 start = true) items))
    <$> db_iterator db.

(** [n.to_string()] and [s.parse::<u64>().ok()] *)
Definition show_u64 (n : Z) : Bytes := decimal 20 n [].
Definition parse_height (s : Bytes) : option Z :=
  let digits := match s with 43 :: rest => rest | _ => s end in
  if negb (bool_decide (digits = [])) && forallb (fun c => (48 <=? c) && (c <=? 57)) digits &&
     (digits_value digits <=? u64_max)
  then Some (digits_value digits) else None.

Definition block_key `{Hex} (h : BlockHash) : Bytes := ascii_bytes "block:" ++ hex_encode h.
Definition height_key (height : Z) : Bytes := ascii_bytes "height:" ++ show_u64 height.
Definition block_tx_prefix `{Hex} (h : BlockHash) : Bytes :=
  ascii_bytes "block_tx:" ++ hex_encode h ++ ascii_bytes ":".
Definition block_tx_key `{Hex} (h : BlockHash) (tx_index : Z) : Bytes := block_tx_prefix h ++ show_u64 tx_index.

Section BlockIndex.
Context `{Sha256} {Db : Type} `{KvStore Db} `{Hex} `{Codec Block}.

(** [BlockIndexer::new], given what [DB::open] returned. *)
Definition block_indexer_new (opened : result Db) : sdk Db :=
  sdk_of (tx_error "Failed to open block index DB: {}") opened.

(** The loop over [block.transactions.iter().enumerate()]. *)
Fixpoint index_block_txs (h : BlockHash) (tx_index : Z) (txs : list Transaction) : Ix Db unit :=
  match txs with
  | [] => mret tt
  | tx :: txs' =>
      put_or "Failed to index block transaction: {}" (block_tx_key h tx_index) (hash tx) ≫= fun _ =>
      index_block_txs h (tx_index + 1) txs'
  end.

Definition index_block (block : Block) : Ix Db unit :=
  query (fun _ => sdk_of SerializationError (serialize block)) ≫= fun block_data =>
  put_or "Failed to index block: {}" (block_key (block_hash block)) block_data ≫= fun _ =>
  put_or "Failed to index block height: {}" (height_key (height block)) (block_hash block) ≫= fun _ =>
  index_block_txs (block_hash block) 0 (transactions block).

Definition indexed_block (h : BlockHash) : Db -> sdk (option Block) :=
  get_decoded "Failed to get block: {}" (block_key h).

(** [hash_data.try_into()] *)
Definition get_block_by_height (height : Z) (db : Db) : sdk (option Block) :=
  stored ← get_or "Failed to get block by height: {}" (height_key height) db;
  match stored with
  | Some hash_data =>
      if (length hash_data =? 32)%nat then indexed_block hash_data db
      else sdk_err TransactionError "Invalid block hash data"
  | None => inl None
  end.

Definition get_block_transactions (h : BlockHash) (db : Db) : sdk (list Bytes) :=
  items ← iterate_from (block_tx_prefix h) db;
  inl (collect (block_tx_prefix h) items).

Definition get_latest_height (db : Db) : sdk (option Z) :=
  let prefix := ascii_bytes "height:" in
  items ← sdk_of (tx_error "Iterator error: {}") (db_iterator_back prefix db);
  match items with
  | (key, _) :: _ => if starts_with prefix key then inl (parse_height (drop 7 key)) else inl None
  | [] => inl None
  end.

(** The loop over [start_height..=end_height]. *)
Fixpoint blocks_from (n : nat) (height : Z) (db : Db) : sdk (list Block) :=
  match n with
  | O => inl []
  | S n' =>
      found ← get_block_by_height height db;
      rest ← blocks_from n' (height + 1) db;
      inl (match found with Some block => block :: rest | None => rest end)
  end.
Definition get_blocks_in_range (start_height end_height : Z) (db : Db) : sdk (list Block) :=
  blocks_from (Z.to_nat (end_height - start_height + 1)) start_height db.
End BlockIndex.

(** ** What was indexed *)

Lemma show_u64_inj a b : is_u64 a -> is_u64 b -> show_u64 a = show_u64 b -> a = b.
Proof.
  assert (forall n, is_u64 n -> digits_value (show_u64 n) = n) as Hv.
  { intros n Hn. unfold show_u64. rewrite (decimal_value 19); [done|].
    unfold is_u64, u64_max in Hn. change (10 ^ Z.of_nat 20) with 100000000000000000000. lia. }
  intros Ha Hb Heq. by rewrite <- (Hv a Ha), <- (Hv b Hb), Heq.
Qed.

Lemma show_u64_nonempty n : length (show_u64 n) <> 0%nat.
Proof.
  unfold show_u64. generalize (@nil Z) as acc. revert n.
  cut (forall fuel n acc, length (decimal (S fuel) n acc) <> 0%nat); [intros Hd n acc; apply (Hd 19%nat)|].
  induction fuel as [|fuel IH]; intros n acc; cbn [decimal]; destruct (n <? 10); try done. apply IH.
Qed.

Lemma bytes_leb_longer p d s : bytes_leb (p ++ d :: s) p = false.
Proof.
  unfold bytes_leb. induction p as [|x p IH]; [done|]. cbn [app bytes_cmp]. by rewrite Z.compare_refl.
Qed.

Section BlockIndexFacts.
Context `{Sha256Laws} {Db : Type} `{KvLaws Db} `{HexLaws} `{!HexTextLaws} `{CodecLaws Block}.
Implicit Types (db : Db) (b : Block) (log : list Block).

Fixpoint index_blocks log : Ix Db unit :=
  match log with
  | [] => mret tt
  | b :: log' => index_block b ≫= fun _ => index_blocks log'
  end.

Definition block_data b : Bytes := unwrap_or (serialize b) [].
Definition tx_puts (h : BlockHash) (start : Z) (txs : list Transaction) : list (Bytes * Bytes) :=
  imap (fun i tx => (block_tx_key h (start + Z.of_nat i), hash tx)) txs.
Definition block_puts b : list (Bytes * Bytes) :=
  (block_key (block_hash b), block_data b) :: (height_key (height b), block_hash b) ::
  tx_puts (block_hash b) 0 (transactions b).

Lemma index_block_txs_view h start txs db db' :
  index_block_txs h start txs db = (inl tt, db') ->
  db_view db' = write_all (tx_puts h start txs) (db_view db).
Proof.
  revert start db. induction txs as [|tx txs IH]; intros start db; cbn [index_block_txs].
  { by intros [= <-]. }
  unfold mbind, Ix_bind. destruct (put_or _ _ _ db) as [[[]|?] db1] eqn:P1; [|done]. intros Hrun.
  apply put_or_view in P1. apply IH in Hrun.
  assert (tx_puts h start (tx :: txs) = (block_tx_key h start, hash tx) :: tx_puts h (start + 1) txs) as ->.
  { unfold tx_puts. cbn [imap]. rewrite Z.add_0_r. f_equal. apply imap_ext. intros i x _.
    unfold compose. do 2 f_equal. lia. }
  by rewrite Hrun, P1.
Qed.

Lemma index_block_view b db db' :
  index_block b db = (inl tt, db') ->
  is_ok (serialize b) = true /\ db_view db' = write_all (block_puts b) (db_view db).
Proof.
  unfold index_block, query, mbind, Ix_bind, block_puts, block_data.
  destruct (serialize b) as [data|e]; cbn [sdk_of]; [|done].
  destruct (put_or _ (block_key _) data db) as [[[]|?] db1] eqn:P1; [|done].
  destruct (put_or _ (height_key _) _ db1) as [[[]|?] db2] eqn:P2; [|done].
  intros P3. apply index_block_txs_view in P3. apply put_or_view in P1, P2. split; [done|].
  by rewrite P3, P2, P1.
Qed.

Lemma index_blocks_view log db db' :
  index_blocks log db = (inl tt, db') ->
  (forall b, b ∈ log -> is_ok (serialize b) = true) /\
  db_view db' = write_all (log ≫= block_puts) (db_view db).
Proof.
  revert db. induction log as [|b log IH]; intros db.
  { intros [= <-]. split; [by intros b ?%not_elem_of_nil|done]. }
  cbn [index_blocks]. unfold mbind at 1, Ix_bind.
  destruct (index_block b db) as [[[]|?] db1] eqn:P1; [|done]. intros Hrun.
  apply index_block_view in P1 as [Hs Hv]. apply IH in Hrun as [Hss Hvs]. split.
  - by intros b' [->|?]%elem_of_cons; [|apply Hss].
  - rewrite bind_cons, write_all_app, <- Hv. exact Hvs.
Qed.

(** ** Keys *)

Lemma elem_of_tx_puts h txs kv :
  kv ∈ tx_puts h 0 txs <->
  exists i tx, txs !! i = Some tx /\ kv = (block_tx_key h (Z.of_nat i), hash tx).
Proof.
  unfold tx_puts. rewrite list_elem_of_lookup. setoid_rewrite list_lookup_imap. split.
  - intros (i & Hi). apply fmap_Some in Hi as (tx & ? & ->). by exists i, tx.
  - intros (i & tx & Hi & ->). exists i. by rewrite Hi.
Qed.

Lemma elem_of_block_puts b kv :
  kv ∈ block_puts b <->
  kv = (block_key (block_hash b), block_data b) \/ kv = (height_key (height b), block_hash b) \/
  exists i tx, transactions b !! i = Some tx /\ kv = (block_tx_key (block_hash b) (Z.of_nat i), hash tx).
Proof. unfold block_puts. by rewrite !elem_of_cons, elem_of_tx_puts. Qed.

Lemma block_not_height h n : block_key h <> height_key n.
Proof. intros Heq. by apply (f_equal head) in Heq. Qed.
Lemma block_not_tx h h' t : block_key h <> block_tx_prefix h' ++ t.
Proof. intros Heq. by apply (f_equal (fun l => l !! 5%nat)) in Heq. Qed.
Lemma height_not_tx n h' t : height_key n <> block_tx_prefix h' ++ t.
Proof. intros Heq. by apply (f_equal head) in Heq. Qed.

Lemma block_key_inj h h' : Forall is_byte h -> Forall is_byte h' -> block_key h = block_key h' -> h = h'.
Proof. intros Hb Hb' Heq. apply app_inv_head in Heq. by apply hex_encode_inj. Qed.
Lemma height_key_inj n n' : is_u64 n -> is_u64 n' -> height_key n = height_key n' -> n = n'.
Proof. intros Hn Hn' Heq. apply app_inv_head in Heq. by apply show_u64_inj. Qed.

(** Nothing in the database precedes the heights and starts with their prefix. *)
Lemma no_key_below_heights log k v :
  write_all (log ≫= block_puts) ∅ !! k = Some v -> bytes_leb k (ascii_bytes "height:") = true ->
  starts_with (ascii_bytes "height:") k = false.
Proof.
  intros Hk Hle. apply not_true_is_false. intros [t ->]%starts_with_inv.
  assert (exists b, (ascii_bytes "height:" ++ t, v) ∈ block_puts b) as [b Hb].
  { assert (exists v, (ascii_bytes "height:" ++ t, v) ∈ (log ≫= block_puts)) as [v' Hv']
      by (apply write_all_some; eauto).
    rewrite write_all_lookup in Hk. destruct (last _) as [kv|] eqn:Hl; [|by rewrite lookup_empty in Hk].
    injection Hk as <-. apply last_Some_elem_of, list_elem_of_filter in Hl as [Hkv Hin].
    apply list_elem_of_bind in Hin as (b & Hin & _). exists b. destruct kv. cbn in *. by subst. }
  destruct t as [|c t].
  - apply elem_of_block_puts in Hb as [Heq|[Heq|(i & tx & _ & Heq)]];
      apply (f_equal fst) in Heq; cbn [fst] in Heq.
    + by apply (f_equal head) in Heq.
    + apply (f_equal length) in Heq. unfold height_key in Heq. rewrite !length_app in Heq.
      pose proof (show_u64_nonempty (height b)). cbn [length] in *. lia.
    + by apply (f_equal head) in Heq.
  - by rewrite bytes_leb_longer in Hle.
Qed.

(** ** Lookups *)

(** Hashes are 32 bytes, heights and positions fit their type. *)
Definition indexable b : Prop :=
  length (block_hash b) = 32%nat /\ Forall is_byte (block_hash b) /\ is_u64 (height b) /\
  Z.of_nat (length (transactions b)) <= u64_max.

Lemma tx_puts_none h txs key :
  (forall t, key <> block_tx_prefix h ++ t) ->
  filter (fun kv : Bytes * Bytes => kv.1 = key) (tx_puts h 0 txs) = [].
Proof.
  intros Hne. apply filter_none. intros kv Hkv Heq. apply elem_of_tx_puts in Hkv as (i & tx & _ & ->).
  cbn [fst] in Heq. unfold block_tx_key in Heq. by apply (Hne (show_u64 (Z.of_nat i))).
Qed.

Lemma last_block_put h log :
  Forall is_byte h -> Forall indexable log ->
  last (filter (fun kv : Bytes * Bytes => kv.1 = block_key h) (log ≫= block_puts)) =
    (fun b => (block_key h, block_data b)) <$> last (filter (fun b => block_hash b = h) log).
Proof.
  intros Hh Hwf. apply (last_put block_puts (fun b => block_hash b = h) (block_key h)). intros b Hb.
  rewrite Forall_forall in Hwf. destruct (Hwf b Hb) as (_ & Hbb & _).
  unfold block_puts. rewrite !filter_cons. cbn [fst].
  rewrite (decide_False (P := height_key _ = _)) by (intros Heq; by apply (block_not_height h (height b))).
  rewrite tx_puts_none by (intros t; apply block_not_tx).
  destruct (decide (block_hash b = h)) as [<-|Hne]; [by rewrite decide_True|].
  rewrite decide_False; [done|]. intros Heq. apply Hne. by apply block_key_inj.
Qed.

Lemma last_height_put n log :
  is_u64 n -> Forall indexable log ->
  last (filter (fun kv : Bytes * Bytes => kv.1 = height_key n) (log ≫= block_puts)) =
    (fun b => (height_key n, block_hash b)) <$> last (filter (fun b => height b = n) log).
Proof.
  intros Hn Hwf. apply (last_put block_puts (fun b => height b = n) (height_key n)). intros b Hb.
  rewrite Forall_forall in Hwf. destruct (Hwf b Hb) as (_ & _ & Hht & _).
  unfold block_puts. rewrite !filter_cons. cbn [fst].
  rewrite (decide_False (P := block_key _ = _)) by (apply block_not_height).
  rewrite tx_puts_none by (intros t; apply height_not_tx).
  destruct (decide (height b = n)) as [<-|Hne]; [by rewrite decide_True|].
  rewrite decide_False; [done|]. intros Heq. apply Hne. by apply height_key_inj.
Qed.

(** The last block indexed with this hash, and the last one at this height. *)
Definition by_hash h log : option Block := last (filter (fun b => block_hash b = h) log).
Definition at_height n log : option Block := last (filter (fun b => height b = n) log).

Lemma indexed_block_spec h log db :
  Forall is_byte h -> Forall indexable log -> (forall b, b ∈ log -> is_ok (serialize b) = true) ->
  db_view db = write_all (log ≫= block_puts) ∅ -> indexed_block h db = inl (by_hash h log).
Proof.
  intros Hh Hwf Hser Hview. unfold indexed_block, get_decoded, get_or, by_hash.
  rewrite db_get_view, Hview, write_all_lookup, last_block_put, lookup_empty by done.
  cbn [sdk_of mbind sdk_bind]. destruct (last (filter _ log)) as [b|] eqn:Hb;
    cbn [fmap option_fmap option_map snd]; [|done].
  apply last_Some_elem_of, list_elem_of_filter in Hb as [_ Hb]. specialize (Hser b Hb).
  unfold block_data. destruct (serialize b) as [data|] eqn:Hs; [|done]. cbn [unwrap_or].
  by rewrite (codec_roundtrip b data Hs).
Qed.

Lemma get_block_by_height_spec n log db :
  is_u64 n -> Forall indexable log -> (forall b, b ∈ log -> is_ok (serialize b) = true) ->
  db_view db = write_all (log ≫= block_puts) ∅ ->
  get_block_by_height n db = inl (b ← at_height n log; by_hash (block_hash b) log).
Proof.
  intros Hn Hwf Hser Hview. unfold get_block_by_height, get_or, at_height.
  rewrite db_get_view, Hview, write_all_lookup, last_height_put, lookup_empty by done.
  cbn [sdk_of mbind sdk_bind]. destruct (last (filter _ log)) as [b|] eqn:Hb;
    cbn [fmap option_fmap option_map snd option_bind]; [|done].
  apply last_Some_elem_of, list_elem_of_filter in Hb as [_ Hb]. rewrite Forall_forall in Hwf.
  destruct (Hwf b Hb) as (Hl & Hbb & _). rewrite Hl. cbn [Nat.eqb].
  apply (indexed_block_spec (block_hash b) log); [done|by apply Forall_forall|done|done].
Qed.

Lemma blocks_from_spec k n log db :
  0 <= n -> n + Z.of_nat k <= u64_max + 1 -> Forall indexable log ->
  (forall b, b ∈ log -> is_ok (serialize b) = true) ->
  db_view db = write_all (log ≫= block_puts) ∅ ->
  blocks_from k n db =
    inl (omap (fun n => b ← at_height n log; by_hash (block_hash b) log) (seqZ n (Z.of_nat k))).
Proof.
  intros Hn Hk Hwf Hser Hview. revert n Hn Hk. induction k as [|k IH]; intros n Hn Hk.
  { done. }
  cbn [blocks_from]. rewrite (get_block_by_height_spec n log) by (try done; unfold is_u64, u64_max in *; lia).
  cbn [mbind sdk_bind]. rewrite IH by lia. rewrite (seqZ_cons n) by lia.
  replace (Z.pred (Z.of_nat (S k))) with (Z.of_nat k) by lia.
  replace (Z.succ n) with (n + 1) by lia. cbn [omap list_omap mbind sdk_bind].
  by destruct (at_height n log ≫= _).
Qed.

(** ** The transactions of a block *)

(** The positions in the order of their decimal digits. *)
Definition by_digits (txs : list Transaction) : list (Z * Transaction) :=
  sort_by (fun x y => bytes_leb (show_u64 x.1) (show_u64 y.1)) (imap (fun i tx => (Z.of_nat i, tx)) txs).

Lemma elem_of_by_digits txs x :
  x ∈ by_digits txs <-> exists i, txs !! i = Some x.2 /\ x.1 = Z.of_nat i.
Proof.
  unfold by_digits. rewrite elem_of_sort_by, list_elem_of_lookup. setoid_rewrite list_lookup_imap. split.
  - intros (i & Hi). apply fmap_Some in Hi as (tx & ? & ->). by exists i.
  - intros (i & Hi & Hx). exists i. rewrite Hi. destruct x. cbn in *. by subst.
Qed.

Lemma NoDup_by_digits txs : NoDup ((fun x : Z * Transaction => x.1) <$> by_digits txs).
Proof.
  unfold by_digits. rewrite sort_by_perm, fmap_imap. unfold compose. cbn [fst].
  apply NoDup_alt. intros i j x Hi Hj. rewrite list_lookup_imap in Hi, Hj.
  destruct (txs !! i); [|done]. destruct (txs !! j); [|done]. cbn in Hi, Hj. simplify_eq. lia.
Qed.

Lemma tx_puts_functional h txs k v1 v2 :
  Z.of_nat (length txs) <= u64_max ->
  (k, v1) ∈ tx_puts h 0 txs -> (k, v2) ∈ tx_puts h 0 txs -> v1 = v2.
Proof.
  intros Hlen (i & tx & Hi & [= -> ->])%elem_of_tx_puts (j & tx' & Hj & [= Heq ->])%elem_of_tx_puts.
  pose proof (lookup_lt_Some _ _ _ Hi). pose proof (lookup_lt_Some _ _ _ Hj).
  unfold block_tx_key in Heq. apply app_inv_head in Heq.
  apply show_u64_inj in Heq; [|unfold is_u64; lia..]. assert (i = j) by lia. congruence.
Qed.

Lemma tx_entries h txs (l : list (Bytes * Bytes)) :
  Z.of_nat (length txs) <= u64_max ->
  (forall kv, kv ∈ l <-> kv ∈ tx_puts h 0 txs) ->
  StronglySorted (fun x y => bytes_leb x.1 y.1 = true) l -> NoDup l ->
  l = (fun x => (block_tx_key h x.1, hash x.2)) <$> by_digits txs.
Proof.
  intros Hlen Hl Hs Hnd.
  assert (forall i tx, txs !! i = Some tx -> is_u64 (Z.of_nat i)) as Hu.
  { intros i tx Hi. apply lookup_lt_Some in Hi. unfold is_u64. lia. }
  assert (forall k v1 v2, (k, v1) ∈ l -> (k, v2) ∈ l -> v1 = v2) as Hfun
    by (intros k v1 v2 ?%Hl ?%Hl; by eapply tx_puts_functional).
  apply (pairs_by_keys l (by_digits txs) (fun x => block_tx_key h x.1) (fun x => hash x.2)); [| |done].
  2:{ intros x (i & Hi & ->)%elem_of_by_digits. apply Hl, elem_of_tx_puts. by exists i, x.2. }
  apply (sorted_perm_unique bytes_leb); eauto using bytes_leb_total, bytes_leb_trans, bytes_leb_antisym.
  - clear -Hs. induction Hs as [|kv l _ IH Hall]; cbn; constructor; [done|]. apply Forall_fmap. exact Hall.
  - assert (StronglySorted (fun x y : Z * Transaction => bytes_leb (show_u64 x.1) (show_u64 y.1) = true)
      (by_digits txs)) as Hsb by (apply sort_by_sorted; intros; eauto using bytes_leb_total, bytes_leb_trans).
    clear -Hsb. induction Hsb as [|x k _ IH Hall]; cbn; constructor; [done|].
    apply Forall_fmap. eapply Forall_impl; [exact Hall|]. intros y Hy.
    change (bytes_leb (block_tx_key h x.1) (block_tx_key h y.1) = true). unfold block_tx_key.
    by rewrite bytes_leb_app.
  - apply NoDup_Permutation.
    + apply NoDup_fmap_2_strong; [|done]. intros [k1 v1] [k2 v2] P1 P2. cbn. intros <-. f_equal. by eapply Hfun.
    + apply NoDup_fmap_2_strong; [|by eapply NoDup_fmap_1, NoDup_by_digits].
      intros [z1 t1] [z2 t2] (i & Hi & Hz1)%elem_of_by_digits (j & Hj & Hz2)%elem_of_by_digits Heq.
      cbn [fst snd] in *. subst z1 z2. unfold block_tx_key in Heq. apply app_inv_head in Heq.
      apply show_u64_inj in Heq; [|by eapply Hu..]. assert (i = j) as -> by lia. congruence.
    + intros k. rewrite !list_elem_of_fmap. setoid_rewrite elem_of_by_digits. split.
      * intros ([k' v] & -> & Hkv). apply Hl, elem_of_tx_puts in Hkv as (i & tx & Hi & [= -> ->]).
        exists (Z.of_nat i, tx). split; [done|]. by exists i.
      * intros ([z tx] & -> & i & Hi & Hz). cbn in Hi, Hz. subst z. exists (block_tx_key h (Z.of_nat i), hash tx).
        split; [done|]. apply Hl, elem_of_tx_puts. by exists i, tx.
Qed.

Definition txs_of h log : list Transaction :=
  match by_hash h log with Some b => transactions b | None => [] end.
(** Blocks of the log with one hash are one block. *)
Definition agree h log : Prop :=
  forall b, b ∈ log -> block_hash b = h -> transactions b = txs_of h log.

Lemma txs_under h log key v :
  length h = 32%nat -> Forall is_byte h -> Forall indexable log -> agree h log ->
  (key, v) ∈ (log ≫= block_puts) /\ starts_with (block_tx_prefix h) key = true <->
  (key, v) ∈ tx_puts h 0 (txs_of h log).
Proof.
  intros Hl Hb Hwf Hagree. rewrite list_elem_of_bind, elem_of_tx_puts. rewrite Forall_forall in Hwf. split.
  - intros [(b & Hkv & Hin) [t ->]%starts_with_inv].
    apply elem_of_block_puts in Hkv as [Heq|[Heq|(i & tx & Hi & Heq)]];
      pose proof (f_equal fst Heq) as Hk; cbn [fst] in Hk.
    + symmetry in Hk. by destruct (block_not_tx (block_hash b) h t).
    + symmetry in Hk. by destruct (height_not_tx (height b) h t).
    + pose proof (f_equal snd Heq) as Hv. cbn [snd] in Hv. subst v.
      destruct (Hwf b Hin) as (Hl' & Hb' & _).
      pose proof Hk as Hk'. unfold block_tx_key, block_tx_prefix in Hk'. rewrite <- !app_assoc in Hk'.
      apply hex_prefix_inj in Hk' as [E _]; [|congruence|done|done].
      exists i, tx. split; [by rewrite <- (Hagree b)|]. by rewrite Hk, E.
  - intros (i & tx & Hi & [= -> ->]). split; [|apply starts_with_app].
    unfold txs_of in Hi. destruct (by_hash h log) as [b|] eqn:Hlast; [|done].
    apply last_Some_elem_of, list_elem_of_filter in Hlast as [<- Hin].
    exists b. split; [|done]. apply elem_of_block_puts. right. right. by exists i, tx.
Qed.

Lemma get_block_transactions_spec h log db :
  length h = 32%nat -> Forall is_byte h -> Forall indexable log -> agree h log ->
  db_view db = write_all (log ≫= block_puts) ∅ ->
  get_block_transactions h db = inl ((fun x => hex_encode (hash x.2)) <$> by_digits (txs_of h log)).
Proof.
  intros Hl Hb Hwf Hagree Hview.
  assert (Z.of_nat (length (txs_of h log)) <= u64_max) as Hlen.
  { unfold txs_of. destruct (by_hash h log) as [b|] eqn:Hlast; [|cbn; machine].
    apply last_Some_elem_of, list_elem_of_filter in Hlast as [_ Hin]. rewrite Forall_forall in Hwf.
    by destruct (Hwf b Hin) as (_ & _ & _ & ?). }
  destruct (scan_split (block_tx_prefix h) db) as (l & rest & Hit & Hin & Hout & Hel & Hs & Hnd).
  unfold get_block_transactions, iterate_from. rewrite Hit. cbn [sdk_of mbind sdk_bind].
  rewrite (collect_under _ l rest Hin Hout). f_equal.
  rewrite (tx_entries h (txs_of h log) l Hlen); [by rewrite <- !list_fmap_compose| |done|done].
  intros [k v]. rewrite Hel, Hview, <- txs_under by done.
  enough (starts_with (block_tx_prefix h) k = true ->
    write_all (log ≫= block_puts) ∅ !! k = Some v <-> (k, v) ∈ (log ≫= block_puts)) by tauto.
  intros Hst. apply write_all_elem. intros v1 v2 P1 P2.
  apply (tx_puts_functional h (txs_of h log) k); [done|by apply txs_under|by apply txs_under].
Qed.

Lemma latest_height_none log db :
  db_view db = write_all (log ≫= block_puts) ∅ -> get_latest_height db = inl None.
Proof.
  intros Hview. unfold get_latest_height, db_iterator_back.
  destruct (db_iterator_view db) as (all & -> & Hperm & _). cbn [fmap result_fmap sdk_of mbind sdk_bind].
  destruct (reverse _) as [|[k v] items] eqn:Hr; [done|].
  assert ((k, v) ∈ reverse (filter (fun kv : Bytes * Bytes =>
    bytes_leb kv.1 (ascii_bytes "height:") = true) all)) as Hin by (rewrite Hr; left).
  apply elem_of_reverse, list_elem_of_filter in Hin as [Hle Hin]. cbn [fst] in Hle.
  rewrite Hperm, elem_of_map_to_list, Hview in Hin.
  by rewrite (no_key_below_heights log k v Hin Hle).
Qed.

(** ** The indexer *)

(** After any sequence of successful calls on an empty database: a hash finds the
    last block indexed with it; a height the last block indexed at it, and a range
    of heights those blocks in order; the transactions of a block are listed once
    each, but in the order of the decimal digits of their positions; and the
    latest height is never found, because the backward iteration starts below
    every height. *)
Theorem block_index_answers log (db0 db : Db) :
  db_view db0 = ∅ -> Forall indexable log -> index_blocks log db0 = (inl tt, db) ->
  (forall h, Forall is_byte h -> indexed_block h db = inl (by_hash h log)) /\
  (forall n, is_u64 n ->
     get_block_by_height n db = inl (b ← at_height n log; by_hash (block_hash b) log)) /\
  (forall n m, is_u64 n -> is_u64 m -> n <= m -> get_blocks_in_range n m db =
     inl (omap (fun n => b ← at_height n log; by_hash (block_hash b) log) (seqZ n (m - n + 1)))) /\
  (forall h, length h = 32%nat -> Forall is_byte h -> agree h log -> get_block_transactions h db =
     inl ((fun x => hex_encode (hash x.2)) <$> by_digits (txs_of h log))) /\
  get_latest_height db = inl None.
Proof.
  intros Hempty Hwf Hrun. apply index_blocks_view in Hrun as [Hser Hview]. rewrite Hempty in Hview.
  split_and!.
  - intros h Hh. by apply indexed_block_spec.
  - intros n Hn. by apply get_block_by_height_spec.
  - intros n m [Hn _] [_ Hm] Hnm. unfold get_blocks_in_range.
    rewrite (blocks_from_spec _ n log) by (done || lia). by rewrite Z2Nat.id by lia.
  - intros h Hl Hh Hagree. by apply get_block_transactions_spec.
  - by apply (latest_height_none log).
Qed.
End BlockIndexFacts.

(** ** Witness *)

#[local] Existing Instances checksum_sha checksum_laws constant_exp.

Definition indexed_txs : list Transaction :=
  (fun i => new_transfer (replicate 20 1) (replicate 20 2) (Z.of_nat i) 0 21000 3) <$> seq 0 11.
Definition eleven_txs : Block :=
  Block.new [] 10 indexed_txs 0 0 0 (replicate 20 0) (replicate 32 0).
Abbreviation eleven_db := (index_blocks [eleven_txs] (∅ : MemDb)).2.

Lemma eleven_indexable : indexable eleven_txs.
Proof.
  split_and!; [apply sha256_length|apply sha256_bytes|change (is_u64 0); machine|].
  vm_compute. discriminate.
Qed.

(** The eleventh transaction is listed third. *)
Lemma block_index_answers_witness :
  get_block_transactions (block_hash eleven_txs) eleven_db =
    inl ((fun i : nat => hex_encode (hash (nth i indexed_txs (new_transfer [] [] 0 0 0 0)))) <$>
      [0; 1; 10; 2; 3; 4; 5; 6; 7; 8; 9]%nat) /\
  get_latest_height eleven_db = inl None /\
  indexed_block (block_hash eleven_txs) eleven_db = inl (Some eleven_txs).
Proof.
  destruct (block_index_answers [eleven_txs] (∅ : MemDb) eleven_db) as (Hblock & _ & _ & Htxs & Hlatest).
  - reflexivity.
  - apply Forall_singleton. exact eleven_indexable.
  - apply injective_projections; [vm_compute; reflexivity|reflexivity].
  - split; [|split; [exact Hlatest|]].
    + rewrite Htxs; [vm_compute; reflexivity|apply sha256_length|apply sha256_bytes|].
      intros b Hb _. apply list_elem_of_singleton in Hb as ->. vm_compute. reflexivity.
    + rewrite Hblock; [vm_compute; reflexivity|apply sha256_bytes].
Defined.
