(* ===== verification/Rpc.v ===== *)
(** The HTTP interface of a node: [src/src/rpc/server.rs].

    A handler takes the shared state and returns its reply with the state it leaves;
    the mempool is the only part a handler changes.  Requests and replies are the
    records that travel as JSON; axum, which routes them, is the environment.
    The pool consults a state of its own ([pool_state]), which need not be
    the one balances are read from.  Starting the server is not modelled. *)
From S2P Require Import Prelude Crypto Transaction Floats Mining Block StateTree StateManager Graph Store.
From S2P Require Import DagIndex BlockDag Mempool Kv Peers Gossip Sync P2p Wallet.

Record RpcState (St Ch : Type) := {
  rpc_dag : BlockDAG St;
  rpc_mempool : TxDagMempool;
  pool_state : StateManager;
  rpc_state_manager : StateManager;
  rpc_p2p_node : option (P2PNode St Ch)
}.
Arguments rpc_dag {St Ch} _.
Arguments rpc_mempool {St Ch} _.
Arguments pool_state {St Ch} _.
Arguments rpc_state_manager {St Ch} _.
Arguments rpc_p2p_node {St Ch} _.

Inductive StatusCode := BAD_REQUEST | INTERNAL_SERVER_ERROR | NOT_FOUND.

Record BalanceResponse := { br_address : Bytes; br_balance : Z; br_nonce : Z }.
Record BlockResponse := { blr_hash : Bytes; blr_block : option Block }.
Record TransactionResponse := { tr_hash : Bytes; tr_transaction : option Transaction }.
(** The field [stats] repeats the other two as JSON: the number of tips and of blocks. *)
Record DagInfoResponse := { dr_tips : list Bytes; dr_total_blocks : nat; dr_stats : nat * nat }.
Record NodeInfoResponse := {
  ni_peer_id : string;
  ni_connected_peers : list Bytes;
  ni_mempool_size : nat;
  ni_dag_height : nat
}.
Record DeployContractRequest := {
  dq_from : Bytes; dq_nonce : Z; dq_wasm_code : Bytes; dq_init_args : option Bytes
}.
Record DeployContractResponse := { dp_contract_address : Bytes; dp_tx_hash : Bytes }.
Record CallContractRequest := {
  cq_from : Bytes; cq_nonce : Z; cq_contract_address : Bytes; cq_method : Bytes; cq_args : option Bytes
}.
Record CallContractResponse := { cp_status : string; cp_result : option string }.

(** What the router dispatches on, and what it replies. *)
Inductive HttpRequest :=
  | PostSendTx (tx : Transaction)
  | GetBalance (address : Bytes)
  | GetBlock (hash : Bytes)
  | GetTx (hash : Bytes)
  | GetDag
  | GetNodeInfo
  | PostDeploy (request : DeployContractRequest)
  | PostCall (request : CallContractRequest).
Inductive HttpReply :=
  | Submitted
  | BalanceReply (r : BalanceResponse)
  | BlockReply (r : BlockResponse)
  | TxReply (r : TransactionResponse)
  | DagReply (r : DagInfoResponse)
  | NodeInfoReply (r : NodeInfoResponse)
  | DeployReply (r : DeployContractResponse)
  | CallReply (r : CallContractResponse)
  | Failed (code : StatusCode).

Section Rpc.
Context `{Sha256} `{SecpOps} `{HashOrder} `{Hex} `{HexDecode} {St : Type} `{BlockStoreI St} {Ch : Type}.
(** [serde_json::to_vec] of a transaction, and [PeerId::to_string]. *)
Context (tx_json : Transaction -> result Bytes) (show_peer : PeerId -> Bytes).
Abbreviation S := (RpcState St Ch).
Implicit Types s : S.

Definition put_mempool (p : TxDagMempool) s : S :=
  {| rpc_dag := rpc_dag s; rpc_mempool := p; pool_state := pool_state s;
     rpc_state_manager := rpc_state_manager s; rpc_p2p_node := rpc_p2p_node s |}.

(** [mempool.add_transaction(tx, vec![], None)]; the clock is read twice. *)
Definition submit (now now' : Z) (tx : Transaction) s : bool * S :=
  let '(r, p) := add_transaction now now' (pool_state s) tx [] None (rpc_mempool s) in
  (is_ok r, put_mempool p s).

Definition send_transaction (now now' : Z) (tx : Transaction) s : option StatusCode * S :=
  match Transaction.validate_basic tx with
  | Err _ => (Some BAD_REQUEST, s)
  | Ok _ =>
      let '(ok, s) := submit now now' tx s in
      (if ok then None else Some INTERNAL_SERVER_ERROR, s)
  end.

Definition parse_address (addr : Bytes) : Address + StatusCode :=
  if negb (starts_with cyt addr) then inr BAD_REQUEST
  else
    match hex_decode (drop 3 addr) with
    | Some bytes => if negb (length bytes =? 20)%nat then inr BAD_REQUEST else inl bytes
    | None => inr BAD_REQUEST
    end.

Definition rpc_get_balance (addr : Bytes) s : BalanceResponse + StatusCode :=
  match parse_address addr with
  | inr code => inr code
  | inl bytes =>
      match manager_get_account (rpc_state_manager s) bytes with
      | Some acc => inl {| br_address := addr; br_balance := balance acc; br_nonce := account_nonce acc |}
      | None => inr NOT_FOUND
      end
  end.

Definition parse_hash (h : Bytes) : option Hash :=
  match hex_decode h with
  | Some bytes => if (length bytes =? 32)%nat then Some bytes else None
  | None => None
  end.

Definition rpc_get_block (h : Bytes) s : BlockResponse + StatusCode :=
  match parse_hash h with
  | None => inr BAD_REQUEST
  | Some bytes => inl {| blr_hash := h; blr_block := dag_get_block (rpc_dag s) bytes |}
  end.

(** The pool first, then the blocks one after the other. *)
Definition rpc_get_transaction (h : Bytes) s : TransactionResponse + StatusCode :=
  match parse_hash h with
  | None => inr BAD_REQUEST
  | Some bytes =>
      match get_transaction (rpc_mempool s) bytes with
      | Some m => inl {| tr_hash := h; tr_transaction := Some (transaction m) |}
      | None =>
          inl {| tr_hash := h;
                 tr_transaction :=
                   head (filter (fun tx => hash tx = bytes)
                          (concat (transactions <$> get_all_blocks (store (rpc_dag s))))) |}
      end
  end.

Definition get_dag_info s : DagInfoResponse :=
  let tips := hex_encode <$> dag_get_tips (rpc_dag s) in
  let total := length (get_all_blocks (store (rpc_dag s))) in
  {| dr_tips := tips; dr_total_blocks := total; dr_stats := (length tips, total) |}.

(** [None]: the peer table of the node is locked for ever. *)
Definition get_node_info s : option NodeInfoResponse :=
  peers ← match rpc_p2p_node s with
          | Some n => fmap show_peer <$> p2p_get_connected_peers n
          | None => Some []
          end;
  Some {| ni_peer_id := "unknown"; ni_connected_peers := peers;
          ni_mempool_size := tx_count (rpc_mempool s); ni_dag_height := dag_block_count (rpc_dag s) |}.

(** An optional hexadecimal argument; one that does not parse counts as empty. *)
Definition optional_args (args : option Bytes) : Bytes :=
  match args with Some a => default [] (hex_decode a) | None => [] end.

Definition deploy_contract (now now' : Z) (q : DeployContractRequest) s
    : (DeployContractResponse + StatusCode) * S :=
  match hex_decode (dq_wasm_code q) with
  | None => (inr BAD_REQUEST, s)
  | Some code =>
      match parse_address (dq_from q) with
      | inr c => (inr c, s)
      | inl from =>
          let tx := new_deploy from code (optional_args (dq_init_args q)) (dq_nonce q) 1000000 1 in
          let '(ok, s) := submit now now' tx s in
          if ok then
            let tx_hash := sha256 (unwrap_or (tx_json tx) []) in
            (inl {| dp_contract_address := cyt ++ hex_encode (take 20 tx_hash);
                    dp_tx_hash := hex_encode tx_hash |}, s)
          else (inr INTERNAL_SERVER_ERROR, s)
      end
  end.

Definition call_contract (now now' : Z) (q : CallContractRequest) s
    : (CallContractResponse + StatusCode) * S :=
  match parse_address (cq_contract_address q) with
  | inr c => (inr c, s)
  | inl contract =>
      match parse_address (cq_from q) with
      | inr c => (inr c, s)
      | inl from =>
          let tx := new_call from contract (cq_method q) (optional_args (cq_args q)) (cq_nonce q) 1000000 1 in
          let '(ok, s) := submit now now' tx s in
          if ok then (inl {| cp_status := "success"; cp_result := None |}, s)
          else (inr INTERNAL_SERVER_ERROR, s)
      end
  end.

(** The router: [None] is a request that is never answered. *)
Definition reply {A} (f : A -> HttpReply) (r : A + StatusCode) : HttpReply :=
  match r with inl a => f a | inr code => Failed code end.
Definition route (now now' : Z) (request : HttpRequest) s : option HttpReply * S :=
  match request with
  | PostSendTx tx =>
      let '(r, s) := send_transaction now now' tx s in
      (Some match r with None => Submitted | Some code => Failed code end, s)
  | GetBalance addr => (Some (reply BalanceReply (rpc_get_balance addr s)), s)
  | GetBlock h => (Some (reply BlockReply (rpc_get_block h s)), s)
  | GetTx h => (Some (reply TxReply (rpc_get_transaction h s)), s)
  | GetDag => (Some (DagReply (get_dag_info s)), s)
  | GetNodeInfo => (NodeInfoReply <$> get_node_info s, s)
  | PostDeploy q => let '(r, s) := deploy_contract now now' q s in (Some (reply DeployReply r), s)
  | PostCall q => let '(r, s) := call_contract now now' q s in (Some (reply CallReply r), s)
  end.
End Rpc.

(** ** What the endpoints do *)
Section RpcFacts.
Context `{Sha256} `{!Sha256Laws} `{SecpOps} `{HashOrder} `{HexDecodeLaws} {St : Type} `{BlockStoreLaws St} {Ch : Type}.
Context (tx_json : Transaction -> result Bytes) (show_peer : PeerId -> Bytes).
Implicit Types s : RpcState St Ch.

(** What is refused may still have evicted an entry. *)
Lemma submit_spec now now' tx s :
  pool_ok (rpc_mempool s) ->
  let '(ok, s') := submit now now' tx s in
  pool_ok (rpc_mempool s') /\ s' = put_mempool (rpc_mempool s') s /\
  (ok = true -> data (signature tx) <> [] /\
     exists m, txs (rpc_mempool s') !! hash tx = Some m /\ transaction m = tx).
Proof.
  intros Hok. unfold submit.
  pose proof (add_transaction_cases now now' (pool_state s) tx [] None (rpc_mempool s) Hok) as Hc.
  destruct (add_transaction _ _ _ _ _ _ _) as [r p]. destruct Hc as [Hp Hr].
  split; [done|]. split; [done|]. destruct r as [[]|e]; [|done]. intros _.
  destruct (Hr eq_refl) as (Hd & _ & _ & base & Ht & _). split; [done|]. cbn [rpc_mempool put_mempool].
  rewrite Ht, lookup_insert_eq. by eexists.
Qed.

Lemma unsigned_submit now now' tx s :
  pool_ok (rpc_mempool s) -> data (signature tx) = [] -> (submit now now' tx s).1 = false.
Proof.
  intros Hok Hd. pose proof (submit_spec now now' tx s Hok) as Hs.
  destruct (submit now now' tx s) as [[] s']; [|done]. by destruct Hs as (_ & _ & [Hn _]).
Qed.

Lemma parse_hash_encode h : length h = 32%nat -> Forall is_byte h -> parse_hash (hex_encode h) = Some h.
Proof. intros Hl Hb. unfold parse_hash. rewrite hex_roundtrip by done. by rewrite Hl. Qed.

(** [POST /send_tx]: a transaction that fails the stateless checks is a bad request and
    changes nothing; one that passes them is handed to the pool, and when that
    accepts it, the reply is a success and the transaction can be read back
    under its hash from then on.  Nothing but the pool changes, and the pool keeps its
    invariant. *)
Theorem send_transaction_readable now now' tx s :
  pool_ok (rpc_mempool s) ->
  let '(r, s') := send_transaction now now' tx s in
  pool_ok (rpc_mempool s') /\ s' = put_mempool (rpc_mempool s') s /\
  (r = Some BAD_REQUEST <-> is_ok (Transaction.validate_basic tx) = false) /\
  (r = Some BAD_REQUEST -> s' = s) /\ r <> Some NOT_FOUND /\
  (r = None -> rpc_get_transaction (hex_encode (hash tx)) s' =
     inl {| tr_hash := hex_encode (hash tx); tr_transaction := Some tx |}).
Proof.
  intros Hok. unfold send_transaction. destruct (Transaction.validate_basic tx) as [[]|e].
  - pose proof (submit_spec now now' tx s Hok) as Hs. destruct (submit now now' tx s) as [ok s'].
    destruct Hs as (Hp & Hst & Hin). split; [done|]. split; [done|]. destruct ok.
    + split; [done|]. split; [done|]. split; [done|]. intros _.
      destruct (Hin eq_refl) as (_ & m & Hm & Ht). unfold rpc_get_transaction.
      rewrite parse_hash_encode by (apply sha256_length || apply sha256_bytes).
      unfold get_transaction. by rewrite Hm, Ht.
    + by split.
  - split; [done|]. split; [by destruct s|]. by split.
Qed.

(** The contract endpoints work for nobody.  The transactions they make are never signed and
    the pool only takes signed ones, so every deployment and every call ends in an error,
    whatever the request and the state - except that, when the pool is full, it
    may lose an entry over it. *)
Lemma endpoints_refuse now now' s :
  pool_ok (rpc_mempool s) ->
  (forall q, exists code, (deploy_contract tx_json now now' q s).1 = inr code /\ code <> NOT_FOUND) /\
  (forall q, exists code, (call_contract now now' q s).1 = inr code /\ code <> NOT_FOUND).
Proof.
  intros Hok.
  assert (forall a c, parse_address a = inr c -> c = BAD_REQUEST) as Hparse.
  { intros a c. unfold parse_address. repeat case_match; congruence. }
  split; intros q.
  - unfold deploy_contract. destruct (hex_decode _); [|by eexists].
    destruct (parse_address _) as [a|c] eqn:Ha; [|apply Hparse in Ha as ->; by eexists].
    set (tx := new_deploy _ _ _ _ _ _). pose proof (unsigned_submit now now' tx s Hok eq_refl) as Hs.
    destruct (submit now now' tx s) as [ok s']. cbn in Hs. subst ok. by eexists.
  - unfold call_contract.
    destruct (parse_address (cq_contract_address q)) as [a|c] eqn:Ha; [|apply Hparse in Ha as ->; by eexists].
    destruct (parse_address (cq_from q)) as [f|c] eqn:Hf; [|apply Hparse in Hf as ->; by eexists].
    set (tx := new_call _ _ _ _ _ _ _). pose proof (unsigned_submit now now' tx s Hok eq_refl) as Hs.
    destruct (submit now now' tx s) as [ok s']. cbn in Hs. subst ok. by eexists.
Qed.

(** [GET /tx/{hash}] finds a transaction exactly when the pool or a block of the DAG has it,
    and what it finds hashes to what was asked for. *)
Theorem rpc_get_transaction_spec h s :
  pool_ok (rpc_mempool s) -> store_ok (store (rpc_dag s)) -> length h = 32%nat -> Forall is_byte h ->
  exists found, rpc_get_transaction (hex_encode h) s =
      inl {| tr_hash := hex_encode h; tr_transaction := found |} /\
    (forall tx, found = Some tx -> hash tx = h) /\
    (found = None <->
       (forall m, txs (rpc_mempool s) !! h <> Some m) /\
       forall bh b tx, dag_get_block (rpc_dag s) bh = Some b -> tx ∈ transactions b -> hash tx <> h).
Proof.
  intros Hok Hst Hl Hb. unfold rpc_get_transaction. rewrite parse_hash_encode by done.
  unfold get_transaction. destruct (txs (rpc_mempool s) !! h) as [m|] eqn:Hm.
  - eexists. split; [done|]. split.
    + intros tx [= <-]. symmetry. by apply (ok_hash _ Hok).
    + split; [done|]. intros [Hn _]. by destruct (Hn m).
  - eexists. split; [done|].
    set (l := concat (transactions <$> get_all_blocks (store (rpc_dag s)))).
    assert (forall tx, tx ∈ l <-> exists bh b, dag_get_block (rpc_dag s) bh = Some b /\ tx ∈ transactions b) as Hin.
    { intros tx. unfold l. rewrite list_elem_of_In, in_concat. split.
      - intros (ts & Hts & Htx). apply list_elem_of_In, list_elem_of_fmap in Hts as (b & -> & Hbl).
        apply elem_of_get_all_blocks in Hbl; [|done]. exists (block_hash b), b. split; [done|].
        by apply list_elem_of_In.
      - intros (bh & b & Hg & Htx). exists (transactions b). split; [|by apply list_elem_of_In].
        apply list_elem_of_In, list_elem_of_fmap. exists b. split; [done|].
        apply elem_of_get_all_blocks; [done|]. by rewrite (get_hash _ _ _ Hst Hg). }
    destruct (filter (fun tx => hash tx = h) l) as [|tx l'] eqn:Hf; cbn.
    + split; [done|]. split; [|done]. intros _. split; [done|]. intros bh b tx Hg Htx Hh.
      assert (tx ∈ filter (fun tx => hash tx = h) l) as Hx.
      { apply list_elem_of_filter. split; [done|]. apply Hin. eauto. }
      rewrite Hf in Hx. by apply not_elem_of_nil in Hx.
    + assert (tx ∈ filter (fun tx => hash tx = h) l) as Hx by (rewrite Hf; by left).
      apply list_elem_of_filter in Hx as [Hh Hx]. split; [by intros ? [= <-]|].
      split; [done|]. intros [_ Hn]. apply Hin in Hx as (bh & b & Hg & Htx). by destruct (Hn bh b tx Hg Htx).
Qed.
End RpcFacts.

(** ** Witnesses *)

#[local] Existing Instances checksum_sha checksum_laws toy_secp toy_secp_laws constant_exp canonical_order.

(** A node with two blocks and an empty pool, on which the toy key's account has funds. *)
Definition toy_sender : Address := address_of (public_key toy_key).
Definition rich : StateManager :=
  refresh_root (put_account toy_sender (Account_new 1000000 0) StateManager.new).
Definition server : RpcState MemStore Queue :=
  {| rpc_dag := dag2; rpc_mempool := Mempool.new 10 1; pool_state := rich; rpc_state_manager := rich;
     rpc_p2p_node := None |}.

Definition toy_transfer : Transaction :=
  unwrap_or (sign (new_transfer toy_sender (replicate 20 2) 5 0 21000 1) toy_key) default_transfer.

Lemma server_pool_ok : pool_ok (rpc_mempool server).
Proof. apply pool_ok_new. Qed.
Lemma toy_transfer_sent : (send_transaction 0 0 toy_transfer server).1 = None.
Proof. vm_compute. reflexivity. Qed.

Lemma send_transaction_readable_witness :
  rpc_get_transaction (hex_encode (hash toy_transfer)) (send_transaction 0 0 toy_transfer server).2 =
    inl {| tr_hash := hex_encode (hash toy_transfer); tr_transaction := Some toy_transfer |}.
Proof.
  pose proof (send_transaction_readable 0 0 toy_transfer server server_pool_ok) as Hs.
  pose proof toy_transfer_sent as Hr. destruct (send_transaction 0 0 toy_transfer server) as [r s'].
  cbn [fst] in Hr. destruct Hs as (_ & _ & _ & _ & _ & Hg). exact (Hg Hr).
Defined.

Lemma rpc_get_transaction_spec_witness :
  exists found, rpc_get_transaction (hex_encode (replicate 32 5)) server =
      inl {| tr_hash := hex_encode (replicate 32 5); tr_transaction := found |} /\
    forall tx, found = Some tx -> hash tx = replicate 32 5.
Proof.
  destruct (rpc_get_transaction_spec (replicate 32 5) server) as (found & Hf & Hh & _).
  - exact server_pool_ok.
  - apply (inv_ok _ dag2_inv).
  - reflexivity.
  - apply (bool_decide_unpack _). vm_compute. exact I.
  - exists found. split; [exact Hf|exact Hh].
Defined.
