(* ===== verification/Client.v ===== *)
(** The two clients of the HTTP interface: the SDK's
    ([src/sdk/rust/src/client.rs], [src/sdk/rust/src/contract.rs]) and the command line's
    ([src/src/cli/cli.rs]).

    A client runs against the node of [Rpc]; [up] tells whether the server can be
    reached, and what is sent arrives as it was sent.  A command is modelled by what it
    submits and by its outcome, not by what it prints.  WebSocket subscriptions are in
    [WsServer]; files and the start of a node are in [Cli]. *)
From S2P Require Import Prelude Crypto Transaction Floats Mining Block StateTree StateManager Graph Store.
From S2P Require Import DagIndex BlockDag Mempool Kv Peers Gossip Sync P2p Discovery Wallet Rpc.

Definition status_text (code : StatusCode) : string :=
  match code with
  | BAD_REQUEST => "400 Bad Request"
  | INTERNAL_SERVER_ERROR => "500 Internal Server Error"
  | NOT_FOUND => "404 Not Found"
  end.
Definition status_error {A} (code : StatusCode) : sdk A := inr (RpcError (Error "{}" [ArgStr (status_text code)])).
(** With the body of the reply, which is empty. *)
Definition status_body_error {A} (code : StatusCode) : sdk A :=
  inr (RpcError (Error "{}: {}" [ArgStr (status_text code); ArgStr ""])).
Definition bad_body {A} : sdk A := sdk_err SerializationError "error decoding response body".

(** The JSON of the node's information, and reading it as the SDK does: the SDK takes a
    peer id to be 32 bytes. *)
Inductive json := JNum (z : Z) | JStr (s : Bytes) | JArr (l : list json).
Definition node_info_json (r : NodeInfoResponse) : list (string * json) :=
  [("peer_id", JStr (ascii_bytes (ni_peer_id r)));
   ("connected_peers", JArr (JStr <$> ni_connected_peers r));
   ("mempool_size", JNum (Z.of_nat (ni_mempool_size r)));
   ("dag_height", JNum (Z.of_nat (ni_dag_height r)))].
Record NodeInfo := {
  info_peer_id : Bytes; info_connected_peers : list Bytes; info_mempool_size : Z; info_dag_height : Z
}.
Definition field (name : string) (fields : list (string * json)) : option json :=
  snd <$> head (filter (fun f => f.1 = name) fields).
Definition read_num (j : json) : option Z := match j with JNum z => Some z | _ => None end.
Definition read_array {A} (read : json -> option A) (j : json) : option (list A) :=
  match j with JArr l => mapM read l | _ => None end.
Definition read_bytes32 (j : json) : option Bytes :=
  bs ← read_array read_num j;
  if (length bs =? 32)%nat && forallb (fun b => (0 <=? b) && (b <? 256)) bs then Some bs else None.
Definition read_node_info (fields : list (string * json)) : option NodeInfo :=
  id ← field "peer_id" fields ≫= read_bytes32;
  peers ← field "connected_peers" fields ≫= read_array read_bytes32;
  pool ← field "mempool_size" fields ≫= read_num;
  height ← field "dag_height" fields ≫= read_num;
  Some {| info_peer_id := id; info_connected_peers := peers; info_mempool_size := pool; info_dag_height := height |}.

(** The client's view of the other replies. *)
Record Balance := { bal_address : Bytes; bal_balance : Z; bal_nonce : Z }.
Record DagInfo := { info_tips : list Bytes; info_total_blocks : nat; info_stats : nat * nat }.

Section Client.
Context `{Sha256} `{SecpKeys} `{HashOrder} `{Hex} `{HexDecode} {St : Type} `{BlockStoreI St} {Ch : Type}.
Context (tx_json : Transaction -> result Bytes) (show_peer : PeerId -> Bytes).
Abbreviation S := (RpcState St Ch).
Implicit Types s : S.

(** The URL without a trailing slash. *)
Definition client_new (base_url : Bytes) : Bytes :=
  match last base_url with
  | Some c => if c =? slash then removelast base_url else base_url
  | None => base_url
  end.
Definition client_url (base_url path : Bytes) : Bytes := base_url ++ path.
Definition format_address (a : Address) : Bytes := cyt ++ hex_encode a.

(** A request and what comes back; the outer [None] is waiting for ever. *)
Definition http (up : bool) (now now' : Z) (q : HttpRequest) s : option (sdk HttpReply) * S :=
  if up then let '(r, s) := route tx_json show_peer now now' q s in (inl <$> r, s)
  else (Some (sdk_err NetworkError "error sending request"), s).

Definition answer {A} (f : HttpReply -> sdk A) (x : option (sdk HttpReply) * S) : option (sdk A) * S :=
  (x.1 ≫= fun r => Some (r ≫= f), x.2).

Definition client_send_transaction (up : bool) (now now' : Z) (tx : Transaction) s : option (sdk unit) * S :=
  answer (fun r => match r with Failed code => status_body_error code | _ => inl tt end)
    (http up now now' (PostSendTx tx) s).

Definition client_get_balance (up : bool) (now now' : Z) (a : Address) s : option (sdk Balance) * S :=
  answer (fun r => match r with
    | Failed code => status_error code
    | BalanceReply b => inl {| bal_address := br_address b; bal_balance := br_balance b; bal_nonce := br_nonce b |}
    | _ => bad_body
    end) (http up now now' (GetBalance (format_address a)) s).

Definition client_get_block (up : bool) (now now' : Z) (h : Hash) s : option (sdk (option Block)) * S :=
  answer (fun r => match r with
    | Failed code => status_error code | BlockReply b => inl (blr_block b) | _ => bad_body
    end) (http up now now' (GetBlock (hex_encode h)) s).

Definition client_get_transaction (up : bool) (now now' : Z) (h : Hash) s : option (sdk (option Transaction)) * S :=
  answer (fun r => match r with
    | Failed code => status_error code | TxReply t => inl (tr_transaction t) | _ => bad_body
    end) (http up now now' (GetTx (hex_encode h)) s).

Definition client_get_dag_info (up : bool) (now now' : Z) s : option (sdk DagInfo) * S :=
  answer (fun r => match r with
    | Failed code => status_error code
    | DagReply d => inl {| info_tips := dr_tips d; info_total_blocks := dr_total_blocks d; info_stats := dr_stats d |}
    | _ => bad_body
    end) (http up now now' GetDag s).

Definition client_get_node_info (up : bool) (now now' : Z) s : option (sdk NodeInfo) * S :=
  answer (fun r => match r with
    | Failed code => status_error code
    | NodeInfoReply n => match read_node_info (node_info_json n) with Some i => inl i | None => bad_body end
    | _ => bad_body
    end) (http up now now' GetNodeInfo s).

(** contract.rs and network.rs pass these requests on; the waiting loop asks once per attempt. *)
Definition network_node_info := client_get_node_info.
Definition network_dag_info := client_get_dag_info.
Fixpoint wait_attempts (up : bool) (now now' : Z) (target_height max_attempts attempts : nat) s
    : option (sdk unit) * S :=
  match attempts with
  | O =>
      (Some (inr (RpcError (Error "Node did not reach target height {} after {} attempts"
         [ArgNum (Z.of_nat target_height); ArgNum (Z.of_nat max_attempts)]))), s)
  | Datatypes.S attempts =>
      match client_get_node_info up now now' s with
      | (None, s) => (None, s)
      | (Some (inr e), s) => (Some (inr e), s)
      | (Some (inl info), s) =>
          if Z.of_nat target_height <=? info_dag_height info then (Some (inl tt), s)
          else wait_attempts up now now' target_height max_attempts attempts s
      end
  end.
Definition wait_for_height (up : bool) (now now' : Z) (target_height max_attempts : nat) s :=
  wait_attempts up now now' target_height max_attempts max_attempts s.

Definition client_deploy_contract (up : bool) (now now' : Z) (from : Address) (nonce : Z) (wasm_code : Bytes)
    (init_args : option Bytes) s : option (sdk DeployContractResponse) * S :=
  answer (fun r => match r with
    | Failed code => status_body_error code | DeployReply d => inl d | _ => bad_body
    end)
    (http up now now' (PostDeploy {| dq_from := format_address from; dq_nonce := nonce;
       dq_wasm_code := hex_encode wasm_code; dq_init_args := hex_encode <$> init_args |}) s).

Definition client_call_contract (up : bool) (now now' : Z) (from : Address) (nonce : Z) (contract method : Bytes)
    (args : option Bytes) s : option (sdk CallContractResponse) * S :=
  answer (fun r => match r with
    | Failed code => status_body_error code | CallReply d => inl d | _ => bad_body
    end)
    (http up now now' (PostCall {| cq_from := format_address from; cq_nonce := nonce;
       cq_contract_address := contract; cq_method := method; cq_args := hex_encode <$> args |}) s).

(** *** contract.rs *)
Definition contract_client_new := client_new.
Definition contract_client_deploy := client_deploy_contract.
Definition contract_client_call := client_call_contract.

(** ** The command line *)

(** [None] at the outside is a panic or waiting for ever; the boolean tells whether the
    command reports a success. *)
Definition is_success (x : option (sdk HttpReply)) : option (result bool) :=
  match x with
  | None => None
  | Some (inr _) => Some (err "error sending request")
  | Some (inl (Failed _)) => Some (Ok false)
  | Some (inl _) => Some (Ok true)
  end.

(** The nonce of the next transaction, or 0 when the node does not tell. *)
Definition fetch_nonce (up : bool) (now now' : Z) (w : Wallet) s : Z :=
  match (http up now now' (GetBalance (wallet_address w)) s).1 with
  | Some (inl (BalanceReply r)) => br_nonce r
  | _ => 0
  end.

(** [hex::decode(&wallet.address[3..])] copied into 20 bytes. *)
Definition sender_of (w : Wallet) : option (result Address) :=
  part ← slice_from (wallet_address w) 3;
  match hex_decode part with
  | None => Some (err "FromHexError")
  | Some bytes => if (length bytes =? 20)%nat then Some (Ok bytes) else None
  end.

Definition recipient_of (to : Bytes) : result Address :=
  if negb (starts_with cyt to) then err "Invalid address format. Must start with 'cyt'"
  else
    match hex_decode (drop 3 to) with
    | None => err "FromHexError"
    | Some bytes => if negb (length bytes =? 20)%nat then err "Invalid address length" else Ok bytes
    end.

Definition handle_tx_send (up : bool) (now now' : Z) (w : Wallet) (to : Bytes) (amount : Z) s
    : option (result bool) * S :=
  match recipient_of to with
  | Err e => (Some (Err e), s)
  | Ok to_addr =>
      match sender_of w with
      | None => (None, s)
      | Some (Err e) => (Some (Err e), s)
      | Some (Ok from_addr) =>
          match sign (new_transfer from_addr to_addr amount (fetch_nonce up now now' w s) 21000 1)
                     (private_key w) with
          | Err e => (Some (Err e), s)
          | Ok tx => let '(r, s) := http up now now' (PostSendTx tx) s in (is_success r, s)
          end
      end
  end.

(** The wallet is optional for the parser and required by the handler. *)
Definition handle_contract_deploy (up : bool) (now now' : Z) (wasm_code : Bytes) (wallet : option Wallet) s
    : option (result bool) * S :=
  match wallet with
  | None => (Some (err "Wallet path required for contract operations"), s)
  | Some w =>
      let '(r, s) := http up now now' (PostDeploy {| dq_from := wallet_address w;
        dq_nonce := fetch_nonce up now now' w s; dq_wasm_code := hex_encode wasm_code;
        dq_init_args := None |}) s in
      (is_success r, s)
  end.

Definition handle_contract_call (up : bool) (now now' : Z) (contract method : Bytes) (args : option Bytes)
    (wallet : option Wallet) s : option (result bool) * S :=
  match wallet with
  | None => (Some (err "Wallet path required for contract operations"), s)
  | Some w =>
      let '(r, s) := http up now now' (PostCall {| cq_from := wallet_address w;
        cq_nonce := fetch_nonce up now now' w s; cq_contract_address := contract;
        cq_method := method; cq_args := args |}) s in
      (is_success r, s)
  end.

Definition handle_wallet_balance (up : bool) (now now' : Z) (addr : Bytes) s : option (result (option (Z * Z))) :=
  match (http up now now' (GetBalance addr) s).1 with
  | None => None
  | Some (inr _) => Some (err "error sending request")
  | Some (inl (BalanceReply r)) => Some (Ok (Some (br_balance r, br_nonce r)))
  | Some (inl _) => Some (Ok None)
  end.
End Client.

(** ** Clients and node together *)
Section ClientFacts.
Context `{Sha256} `{!Sha256Laws} `{HashOrder} `{HexDecodeLaws} `{SecpKeysLaws} `{!SecpLaws}
  {St : Type} `{BlockStoreLaws St} {Ch : Type}.
Context (tx_json : Transaction -> result Bytes) (show_peer : PeerId -> Bytes).
Implicit Types s : RpcState St Ch.

Lemma parse_format_address a : length a = 20%nat -> Forall is_byte a -> parse_address (format_address a) = inl a.
Proof.
  intros Hl Hb. unfold parse_address, format_address. rewrite starts_with_app. cbn [negb].
  change 3%nat with (length cyt). rewrite drop_app_length, hex_roundtrip by done. by rewrite Hl.
Qed.

(** Balances: for every address, asking the node through the SDK gives the balance and the nonce
    of that account, or "404 Not Found" when the state has none. *)
Theorem client_get_balance_spec now now' a s :
  length a = 20%nat -> Forall is_byte a ->
  client_get_balance tx_json show_peer true now now' a s =
    (Some match manager_get_account (rpc_state_manager s) a with
          | Some acc => inl {| bal_address := format_address a; bal_balance := balance acc;
                               bal_nonce := account_nonce acc |}
          | None => status_error NOT_FOUND
          end, s).
Proof.
  intros Hl Hb. unfold client_get_balance, http, route, rpc_get_balance. rewrite (parse_format_address a Hl Hb).
  by destruct (manager_get_account _ a).
Qed.

(** A transaction that the pool has room for and the node's stateless checks accept. *)
Record admissible (tx : Transaction) s : Prop := {
  adm_room : (size (txs (rpc_mempool s)) < max_size (rpc_mempool s))%nat;
  adm_price : admission_threshold (rpc_mempool s) <= gas_price tx;
  adm_funds : get_balance (pool_state s) (from tx) <> 0;
  adm_new : txs (rpc_mempool s) !! hash tx = None
}.

Lemma submit_admissible now now' tx s :
  data (signature tx) <> [] -> admissible tx s -> (submit now now' tx s).1 = true.
Proof.
  intros Hd [Hr Hp Hf Hn]. unfold submit, add_transaction, check_rate, check_capacity.
  cbv [mbind M_bind]. rewrite (proj2 (Nat.leb_gt _ _) Hr). unfold gets, lift, check_admission.
  rewrite bool_decide_false by done. rewrite (proj2 (Z.ltb_ge _ _) Hp), (proj2 (Z.eqb_neq _ _) Hf).
  unfold hash at 1. rewrite sha256_length, Nat.eqb_refl. cbn [negb].
  rewrite bool_decide_false by (rewrite Hn; intros []; done). done.
Qed.

(** C24: from the SDK's builder to the node's pool and back: a transaction that is built and signed with
    an SDK wallet is taken by a node whose pool has room for it, asks for no more than its
    gas price, knows the sender's funds and does not have it yet; and the node then
    returns that very transaction under its hash. *)
Theorem sdk_transaction_submitted now now' sk w b p tx s :
  create_wallet sk = inl w -> pool_ok (rpc_mempool s) ->
  b_from b = Some (sdk_address w) -> b_payload b = Some p ->
  0 < default 21000 (b_gas_limit b) -> 0 < default 1 (b_gas_price b) ->
  (forall to amount, p = Transfer to amount -> 0 < amount) ->
  build_and_sign b w = inl tx -> admissible tx s ->
  exists s', client_send_transaction tx_json show_peer true now now' tx s = (Some (inl tt), s') /\
    client_get_transaction tx_json show_peer true now now' (hash tx) s' = (Some (inl (Some tx)), s').
Proof.
  intros Hw Hok Hf Hp Hl Hg Ha Hb Hadm.
  destruct (build_and_sign_accepted sk w p b Hw Hf Hp Hl Hg Ha) as (tx' & Hb' & Hv & _).
  rewrite Hb in Hb'. injection Hb' as <-.
  assert (data (signature tx) <> []) as Hd.
  { apply validate_basic_spec in Hv as (_ & _ & _ & pk & Hpk & _). intros Hn. revert Hpk.
    unfold verify_signature. rewrite Hn. by case_decide. }
  pose proof (submit_admissible now now' tx s Hd Hadm) as Hs.
  pose proof (submit_spec now now' tx s Hok) as Hsp.
  unfold client_send_transaction, http, route, send_transaction. rewrite Hv.
  destruct (submit now now' tx s) as [ok s'] eqn:Hsub. cbn in Hs. subst ok.
  destruct Hsp as (_ & _ & Hin). destruct (Hin eq_refl) as (_ & m & Hm & Ht).
  exists s'. split; [done|]. unfold client_get_transaction, http, route, rpc_get_transaction.
  rewrite parse_hash_encode by (apply sha256_length || apply sha256_bytes).
  unfold get_transaction. by rewrite Hm, Ht.
Qed.

Lemma node_info_unreadable now now' s :
  (client_get_node_info tx_json show_peer true now now' s).1 = None \/
  (client_get_node_info tx_json show_peer true now now' s).1 = Some bad_body.
Proof.
  unfold client_get_node_info, http, route, get_node_info.
  destruct (match rpc_p2p_node s with Some _ => _ | None => _ end) as [ids|]; [right|by left]. done.
Qed.

(** The SDK cannot read a node's information: whatever the node answers, the client takes the
    peer id "unknown" for a broken reply - or waits for ever on a blocked peer table. *)
Theorem client_node_info_unreadable now now' s :
  (client_get_node_info tx_json show_peer true now now' s).1 = None \/
  (client_get_node_info tx_json show_peer true now now' s).1 = Some bad_body.
Proof. apply node_info_unreadable. Qed.

(** So waiting for a height never succeeds: it returns an error, at the first attempt if there is one, or it
    never returns, however high the node is. *)
Theorem wait_never_succeeds up now now' target_height max_attempts s :
  match (wait_for_height tx_json show_peer up now now' target_height max_attempts s).1 with
  | Some (inl _) => False
  | _ => True
  end.
Proof.
  unfold wait_for_height. generalize max_attempts at 1. intros m. destruct max_attempts as [|n]; [done|].
  cbn [wait_attempts]. destruct up.
  - pose proof (node_info_unreadable now now' s) as Hn.
    destruct (client_get_node_info tx_json show_peer true now now' s) as [r s']. cbn [fst] in Hn.
    by destruct Hn as [->| ->].
  - done.
Qed.

(** *** The command line *)

Lemma node_wallet_sender sk :
  sender_of (from_private_key sk) = Some (Ok (take 20 (sha256 (serialize_public_key (public_key sk))))).
Proof.
  unfold sender_of, from_private_key, public_key_to_address. cbn [wallet_address].
  set (a := take 20 _). assert (length a = 20%nat) as Hl by (unfold a; rewrite length_take, sha256_length; done).
  assert (Forall is_byte a) as Hb by (apply Forall_take, sha256_bytes).
  unfold slice_from, is_char_boundary.
  assert ((cyt ++ hex_encode a) !! 3%nat = head (hex_encode a)) as ->.
  { change 3%nat with (length cyt). rewrite lookup_app_r, Nat.sub_diag by done. by destruct (hex_encode a). }
  assert ((match head (hex_encode a) with
           | Some c => negb ((128 <=? c) && (c <? 192))
           | None => bool_decide (3%nat = length (cyt ++ hex_encode a)) end) = true) as ->.
  { pose proof (hex_ascii a Hb) as Hasc. destruct (hex_encode a) as [|c cs]; [done|].
    apply Forall_cons in Hasc as [Hc _]. cbn [head]. by rewrite (proj2 (Z.leb_gt 128 c)) by lia. }
  cbn [mbind option_bind]. change 3%nat with (length cyt).
  rewrite drop_app_length, hex_roundtrip by done. by rewrite Hl.
Qed.

Lemma send_refused now now' tx s :
  is_ok (Transaction.validate_basic tx) = false -> send_transaction now now' tx s = (Some BAD_REQUEST, s).
Proof. unfold send_transaction. by destruct (Transaction.validate_basic tx) as [[]|]. Qed.

(** The command line cannot transfer anything.  With a wallet of the node - whose address is made
    from the digest of the whole public key, while the node derives senders from the digest of
    the key without its first byte - [cyt tx send] never reports a success and never changes
    the node: unless those two addresses of the key agree, every transfer to a
    well-formed recipient comes back as a bad request, whatever the node's state. *)
Theorem cli_transfer_refused now now' sk to amount s :
  take 20 (sha256 (serialize_public_key (public_key sk))) <> address_of (public_key sk) ->
  let '(r, s') := handle_tx_send tx_json show_peer true now now' (from_private_key sk) to amount s in
  s' = s /\ r = Some (to_addr ← recipient_of to; Ok false).
Proof.
  intros Hne. unfold handle_tx_send. destruct (recipient_of to) as [to_addr|e]; [|done].
  rewrite node_wallet_sender. set (tx := new_transfer _ _ _ _ _ _). cbn [private_key from_private_key].
  destruct (sign tx sk) as [signed|e] eqn:Hs.
  - unfold http, route. rewrite send_refused; [done|]. by apply (foreign_sender_refused sk tx signed).
  - exfalso. unfold sign in Hs. rewrite message_of_digest in Hs by apply sha256_length.
    by destruct (serialize_compact _).
Qed.

(** Nor can anyone deploy or call a contract: through the SDK and through the command line every
    deployment and every call is reported as failed, whatever is sent to whatever node whose
    pool is well-formed. *)
Theorem contracts_unreachable up now now' s :
  pool_ok (rpc_mempool s) ->
  (forall from nonce code args, exists e,
     (client_deploy_contract tx_json show_peer up now now' from nonce code args s).1 = Some (inr e)) /\
  (forall from nonce contract method args, exists e,
     (client_call_contract tx_json show_peer up now now' from nonce contract method args s).1 = Some (inr e)) /\
  (forall code w, (handle_contract_deploy tx_json show_peer up now now' code w s).1 <> Some (Ok true)) /\
  (forall contract method args w,
     (handle_contract_call tx_json show_peer up now now' contract method args w s).1 <> Some (Ok true)).
Proof.
  intros Hok. destruct (endpoints_refuse tx_json now now' s Hok) as [Hd Hc].
  unfold client_deploy_contract, client_call_contract, handle_contract_deploy, handle_contract_call, http, route.
  destruct up; [|repeat split; intros; try (by eexists); by destruct w].
  split_and!.
  - intros from nonce code args. match goal with |- context [deploy_contract _ _ _ ?q _] => destruct (Hd q) as (c & Hq & _) end.
    destruct (deploy_contract _ _ _ _ _) as [r s']. cbn in Hq. subst r. by eexists.
  - intros from nonce contract method args.
    match goal with |- context [call_contract _ _ ?q _] => destruct (Hc q) as (c & Hq & _) end.
    destruct (call_contract _ _ _ _) as [r s']. cbn in Hq. subst r. by eexists.
  - intros code [w|]; [|done]. match goal with |- context [deploy_contract _ _ _ ?q _] => destruct (Hd q) as (c & Hq & _) end.
    destruct (deploy_contract _ _ _ _ _) as [r s']. cbn in Hq. by subst r.
  - intros contract method args [w|]; [|done].
    match goal with |- context [call_contract _ _ ?q _] => destruct (Hc q) as (c & Hq & _) end.
    destruct (call_contract _ _ _ _) as [r s']. cbn in Hq. by subst r.
Qed.
End ClientFacts.

(** ** Witnesses *)

#[local] Existing Instances checksum_sha checksum_laws toy_secp toy_secp_laws constant_exp canonical_order.

Definition no_json (_ : Transaction) : result Bytes := err "no JSON".
Definition show_raw (id : PeerId) : Bytes := id.

Lemma toy_account : manager_get_account (rpc_state_manager server) toy_sender = Some (Account_new 1000000 0).
Proof. vm_compute. reflexivity. Qed.

Lemma client_get_balance_spec_witness :
  (client_get_balance no_json show_raw true 0 0 toy_sender server).1 =
    Some (inl {| bal_address := format_address toy_sender; bal_balance := 1000000; bal_nonce := 0 |}).
Proof.
  rewrite (client_get_balance_spec no_json show_raw 0 0 toy_sender server).
  - rewrite toy_account. reflexivity.
  - reflexivity.
  - apply (bool_decide_unpack _). vm_compute. exact I.
Defined.

Definition toy_builder : TransactionBuilder :=
  transfer (replicate 20 2) 100 (builder_from (sdk_address toy_wallet) builder_new).
Definition built : Transaction :=
  match build_and_sign toy_builder toy_wallet with inl tx => tx | inr _ => default_transfer end.

Lemma built_admissible : admissible built server.
Proof. split; vm_compute; (reflexivity || discriminate || lia). Qed.

Lemma sdk_transaction_submitted_witness :
  exists s', client_send_transaction no_json show_raw true 0 0 built server = (Some (inl tt), s') /\
    client_get_transaction no_json show_raw true 0 0 (hash built) s' = (Some (inl (Some built)), s').
Proof.
  apply (sdk_transaction_submitted no_json show_raw 0 0 toy_key toy_wallet toy_builder
    (Transfer (replicate 20 2) 100)).
  - reflexivity.
  - exact server_pool_ok.
  - reflexivity.
  - reflexivity.
  - reflexivity.
  - reflexivity.
  - intros to amount [= _ <-]. reflexivity.
  - vm_compute. reflexivity.
  - exact built_admissible.
Defined.

(** "cyt" and forty twos. *)
Lemma cli_transfer_refused_witness :
  (handle_tx_send no_json show_raw true 0 0 (from_private_key toy_key) (format_address (replicate 20 2)) 5 server).1
    = Some (Ok false).
Proof.
  pose proof (cli_transfer_refused no_json show_raw 0 0 toy_key (format_address (replicate 20 2)) 5 server) as Hc.
  destruct (handle_tx_send _ _ _ _ _ _ _ _ _) as [r s'].
  assert (recipient_of (format_address (replicate 20 2)) = Ok (replicate 20 2)) as Hto by (vm_compute; reflexivity).
  destruct Hc as [_ Hr]; [apply (bool_decide_unpack _); vm_compute; exact I|].
  cbn [fst]. rewrite Hr, Hto. reflexivity.
Defined.

Lemma contracts_unreachable_witness :
  (handle_contract_deploy no_json show_raw true 0 0 [0; 97; 115; 109] (Some (from_private_key toy_key)) server).1
    <> Some (Ok true).
Proof.
  destruct (contracts_unreachable no_json show_raw true 0 0 server server_pool_ok) as (_ & _ & Hd & _).
  exact (Hd [0; 97; 115; 109] (Some (from_private_key toy_key))).
Defined.
