(* ===== verification/Mobile.v ===== *)
(** The SDK's wallet and client for phones: [src/sdk/rust/src/mobile/].

    A wallet remembers the nonce of the next transaction, a client the balances it was
    told.  The code does not type-check in two places.  [MobileClient::get_balance] ends in a
    [String] where it declares a [Balance]: what it returns after a request is an
    argument here ([fetched]); what it stores, and what it returns from its cache, is as
    written.  [MobileWallet::get_balance] passes an address where a reference is
    expected, which is read as the reference. *)
From S2P Require Import Prelude Crypto Transaction Floats Mining Block StateTree StateManager Graph Store.
From S2P Require Import DagIndex BlockDag Mempool Kv Peers Gossip Sync P2p Discovery Wallet Rpc Client.

Inductive TransactionStatus := Pending | Confirmed | Failed.
Record MobileNodeInfo := { mobile_height : Z; mobile_peers : nat; mobile_status : string }.

(** [cache] holds values made from balances only, which read back as they were. *)
Record MobileClient := { base_url : Bytes; cache : gmap Bytes Balance }.
Record MobileWallet := { wallet : SdkWallet; nonce_cache : gmap Address Z }.

Definition mobile_client_new (endpoint : Bytes) : MobileClient :=
  {| base_url := client_new endpoint; cache := ∅ |}.
Definition put_cache (c : gmap Bytes Balance) (m : MobileClient) : MobileClient :=
  {| base_url := base_url m; cache := c |}.
Definition clear_cache (m : MobileClient) : MobileClient := put_cache ∅ m.
Definition cache_size (m : MobileClient) : nat := size (cache m).
Definition cache_key `{Hex} (a : Address) : Bytes := ascii_bytes "balance_" ++ hex_encode a.

(** ** The wallet *)
Definition mobile_wallet_of (w : SdkWallet) : MobileWallet := {| wallet := w; nonce_cache := ∅ |}.
Definition mobile_create `{Sha256} `{SecpKeys} (secret : SecretKey) : sdk MobileWallet :=
  w ← create_wallet secret; mret (mobile_wallet_of w).
Definition mobile_from_private_key `{Sha256} `{SecpKeys} (private_key : Bytes) : sdk MobileWallet :=
  w ← import_private_key private_key; mret (mobile_wallet_of w).
Definition address (w : MobileWallet) : Address := sdk_address (wallet w).
Definition mobile_export_private_key `{Hex} (w : MobileWallet) : Bytes := export_private_key_hex (wallet w).
Definition get_next_nonce (a : Address) (w : MobileWallet) : Z := default 0 (nonce_cache w !! a).
Definition update_nonce (a : Address) (nonce : Z) (w : MobileWallet) : MobileWallet :=
  {| wallet := wallet w; nonce_cache := <[a := nonce]> (nonce_cache w) |}.
Definition clear_nonce_cache (w : MobileWallet) : MobileWallet :=
  {| wallet := wallet w; nonce_cache := ∅ |}.

Section Mobile.
Context `{Sha256} `{SecpKeys} `{HashOrder} `{Hex} `{HexDecode} {St : Type} `{BlockStoreI St} {Ch : Type}.
Context (tx_json : Transaction -> result Bytes) (show_peer : PeerId -> Bytes) (fetched : Balance -> Balance).
Abbreviation Server := (RpcState St Ch).

(** A wallet, a client, and the node the client talks to.  As in [Client] the outer [None] is
    waiting for ever. *)
Record phone := { phone_wallet : MobileWallet; phone_client : MobileClient; node : Server }.
Implicit Types p : phone.
Definition Mob (A : Type) : Type := phone -> option (sdk A) * phone.
#[global] Instance Mob_ret : MRet Mob := fun A a p => (Some (inl a), p).
#[global] Instance Mob_bind : MBind Mob := fun A B f c p =>
  match c p with
  | (Some (inl a), p) => f a p
  | (Some (inr e), p) => (Some (inr e), p)
  | (None, p) => (None, p)
  end.
Definition mob_gets {A} (f : phone -> A) : Mob A := fun p => (Some (inl (f p)), p).
Definition mob_lift {A} (r : sdk A) : Mob A := fun p => (Some r, p).
Definition on_client (f : MobileClient -> MobileClient) : Mob unit := fun p =>
  (Some (inl tt), {| phone_wallet := phone_wallet p; phone_client := f (phone_client p); node := node p |}).
Definition on_wallet (f : MobileWallet -> MobileWallet) : Mob unit := fun p =>
  (Some (inl tt), {| phone_wallet := f (phone_wallet p); phone_client := phone_client p; node := node p |}).
Definition request {A} (c : Server -> option (sdk A) * Server) : Mob A := fun p =>
  let '(r, s) := c (node p) in
  (r, {| phone_wallet := phone_wallet p; phone_client := phone_client p; node := s |}).

(** *** The client *)
Definition mobile_get_balance (up : bool) (now now' : Z) (a : Address) : Mob Balance :=
  c ← mob_gets (fun p => cache (phone_client p));
  match c !! cache_key a with
  | Some balance => mret balance
  | None =>
      balance ← request (client_get_balance tx_json show_peer up now now' a);
      on_client (fun m => put_cache (<[cache_key a := balance]> (cache m)) m);;
      mret (fetched balance)
  end.
Definition mobile_send_transaction (up : bool) (now now' : Z) (tx : Transaction) : Mob Bytes :=
  request (client_send_transaction tx_json show_peer up now now' tx);;
  mret (hex_encode (hash tx)).
Definition get_transaction_status (tx_hash : Bytes) : Mob TransactionStatus := mret Confirmed.
Definition mobile_get_node_info (up : bool) (now now' : Z) : Mob MobileNodeInfo :=
  info ← request (client_get_node_info tx_json show_peer up now now');
  mret {| mobile_height := info_dag_height info; mobile_peers := length (info_connected_peers info);
          mobile_status := "running" |}.

(** *** Sending *)
Definition wallet_get_balance (up : bool) (now now' : Z) : Mob Balance :=
  a ← mob_gets (fun p => address (phone_wallet p)); mobile_get_balance up now now' a.
Definition sync_nonce (up : bool) (now now' : Z) : Mob unit :=
  balance ← wallet_get_balance up now now';
  a ← mob_gets (fun p => address (phone_wallet p));
  on_wallet (update_nonce a (bal_nonce balance)).

(** What the three methods build, by their payload and gas terms. *)
Definition mobile_builder (payload : TransactionBuilder -> TransactionBuilder) (gas_limit gas_price : Z)
    (a : Address) (nonce : Z) : TransactionBuilder :=
  builder_gas_price gas_price (builder_gas_limit gas_limit (builder_nonce nonce
    (payload (builder_from a builder_new)))).

(** The body the three methods share: the next transaction with its nonce, and its submission. *)
Definition next_transaction (up : bool) (now now' : Z) (payload : TransactionBuilder -> TransactionBuilder)
    (gas_limit gas_price : Z) : Mob (Z * Transaction) :=
  sync_nonce up now now';;
  a ← mob_gets (fun p => address (phone_wallet p));
  nonce ← mob_gets (fun p => get_next_nonce a (phone_wallet p));
  w ← mob_gets (fun p => wallet (phone_wallet p));
  tx ← mob_lift (build_and_sign (mobile_builder payload gas_limit gas_price a nonce) w);
  mret (nonce, tx).
Definition send_built (up : bool) (now now' : Z) (payload : TransactionBuilder -> TransactionBuilder)
    (gas_limit gas_price : Z) : Mob Bytes :=
  x ← next_transaction up now now' payload gas_limit gas_price;
  tx_hash ← mobile_send_transaction up now now' x.2;
  a ← mob_gets (fun p => address (phone_wallet p));
  on_wallet (update_nonce a (u64_add x.1 1));;
  mret tx_hash.

Definition send_tokens (up : bool) (now now' : Z) (to : Address) (amount gas_price : Z) : Mob Bytes :=
  send_built up now now' (Wallet.transfer to amount) 21000 gas_price.
Definition mobile_call_contract (up : bool) (now now' : Z) (contract_address : Address) (method args : Bytes)
    (gas_limit gas_price : Z) : Mob Bytes :=
  send_built up now now' (Wallet.call_contract contract_address method args) gas_limit gas_price.
Definition mobile_deploy_contract (up : bool) (now now' : Z) (wasm_code init_args : Bytes)
    (gas_limit gas_price : Z) : Mob Bytes :=
  send_built up now now' (Wallet.deploy_contract wasm_code init_args) gas_limit gas_price.
End Mobile.

(** ** The nonce *)
Section MobileFacts.
Context `{Sha256} `{!Sha256Laws} `{HashOrder} `{HexDecodeLaws} `{SecpKeysLaws} `{!SecpLaws}
  {St : Type} `{BlockStoreLaws St} {Ch : Type}.
Context (tx_json : Transaction -> result Bytes) (show_peer : PeerId -> Bytes) (fetched : Balance -> Balance).
Implicit Types p : phone (St := St) (Ch := Ch).
Abbreviation next_transaction := (next_transaction tx_json show_peer fetched).
Abbreviation send_built := (send_built tx_json show_peer fetched).

Definition remembered p (b : Balance) : Prop :=
  cache (phone_client p) !! cache_key (address (phone_wallet p)) = Some b.
Definition put_nonce (n : Z) p : phone :=
  {| phone_wallet := update_nonce (address (phone_wallet p)) n (phone_wallet p);
     phone_client := phone_client p; node := node p |}.

(** With a remembered balance the node is not asked. *)
Lemma next_transaction_spec up now now' payload gl gp p b :
  remembered p b ->
  next_transaction up now now' payload gl gp p =
    (Some (tx ← build_and_sign (mobile_builder payload gl gp (address (phone_wallet p)) (bal_nonce b))
                  (wallet (phone_wallet p)); mret (bal_nonce b, tx)), put_nonce (bal_nonce b) p).
Proof.
  intros Hb. unfold Mobile.next_transaction, sync_nonce, wallet_get_balance, mobile_get_balance.
  unfold mbind, Mob_bind, mob_gets, mret, Mob_ret. rewrite Hb. unfold on_wallet, mob_lift.
  cbn [phone_wallet]. replace (get_next_nonce _ _) with (bal_nonce b)
    by (unfold get_next_nonce; cbn [update_nonce nonce_cache]; by rewrite lookup_insert_eq).
  cbn [update_nonce wallet address]. unfold address. cbn [wallet]. fold (address (phone_wallet p)).
  by destruct (build_and_sign _ _) as [tx|e].
Qed.

Lemma build_and_sign_nonce builder w tx n :
  build_and_sign builder w = inl tx -> b_nonce builder = Some n -> nonce tx = n.
Proof.
  unfold build_and_sign, build, sign_transaction. intros Hb Hn. rewrite Hn in Hb.
  destruct (b_from builder) as [a|]; [|done]. destruct (b_payload builder) as [pl|]; [|done].
  cbn [sdk_ok_or mbind sdk_bind mret sdk_ret default from_option] in Hb.
  destruct (from_secret_bytes _) as [kp|e]; [|done]. cbn [mbind sdk_bind] in Hb.
  match type of Hb with sdk_of _ ?s = _ => destruct s as [tx'|e] eqn:Hs; [|done] end. injection Hb as ->.
  unfold sign in Hs. destruct (message_from_digest _) as [m|e]; [|done].
  destruct (serialize_compact _) as [r bs]. injection Hs as <-. by destruct pl.
Qed.
Lemma next_nonce up now now' payload gl gp p b x :
  remembered p b -> (next_transaction up now now' payload gl gp p).1 = Some (inl x) ->
  x.1 = bal_nonce b /\ nonce x.2 = bal_nonce b.
Proof.
  intros Hb. rewrite (next_transaction_spec _ _ _ _ _ _ _ b Hb). cbn [fst].
  destruct (build_and_sign _ _) as [tx|e] eqn:Hbs; [|done]. intros [= <-]. split; [done|].
  by apply (build_and_sign_nonce _ _ _ _ Hbs).
Qed.

(** A submission leaves the keys, the client and so what the client remembers. *)
Lemma send_built_keeps up now now' payload gl gp p b :
  remembered p b ->
  let p' := (send_built up now now' payload gl gp p).2 in
  wallet (phone_wallet p') = wallet (phone_wallet p) /\ phone_client p' = phone_client p.
Proof.
  intros Hb. unfold Mobile.send_built, mbind, Mob_bind. rewrite (next_transaction_spec _ _ _ _ _ _ _ b Hb).
  destruct (build_and_sign _ _) as [tx|e]; [|done].
  cbn [mbind sdk_bind mret sdk_ret snd]. unfold mobile_send_transaction, mbind, Mob_bind, request.
  destruct (client_send_transaction _ _ _ _ _ _ _) as [[[[]|e]|] s]; done.
Qed.

(** *** The second payment *)

(** A pending transaction is refused and stays, although another may be evicted for it. *)
Lemma pending_refused now now' st tx parents source (pool : TxDagMempool) m :
  txs pool !! hash tx = Some m -> transaction m = tx ->
  let '(r, pool') := add_transaction now now' st tx parents source pool in
  is_ok r = false /\ txs pool' !! hash tx = Some m.
Proof.
  intros Hm Ht. unfold add_transaction, mbind, M_bind.
  destruct (check_rate_rates now source pool) as (r1 & rates & ->). destruct r1 as [[]|e]; [|by split].
  pose proof (check_capacity_spec tx (set_rates rates pool)) as Hcap.
  destruct (check_capacity tx (set_rates rates pool)) as [[[]|e] p2].
  2:{ destruct Hcap as [-> _]. done. }
  assert (txs p2 !! hash tx = Some m) as Hm2.
  { destruct Hcap as [[_ ->]|(_ & low & m' & Hlow & -> & Hlt & _)]; [done|]. cbn [txs set_txs set_rates] in *.
    apply lookup_delete_Some. split; [|done]. intros ->. rewrite Hm in Hlow. injection Hlow as <-. subst tx. lia. }
  unfold gets, lift. pose proof (check_admission_err st tx p2) as Hadm.
  destruct (check_admission st tx p2) as [[]|e]; [|done].
  discriminate Hadm. do 4 right. by exists m.
Qed.

(** What the first success says. *)
Lemma client_sent now now' up tx (s : RpcState St Ch) s' :
  pool_ok (rpc_mempool s) -> client_send_transaction tx_json show_peer up now now' tx s = (Some (inl tt), s') ->
  exists m, txs (rpc_mempool s') !! hash tx = Some m /\ transaction m = tx.
Proof.
  intros Hok. unfold client_send_transaction, http. destruct up; [|done]. unfold route, send_transaction.
  destruct (Transaction.validate_basic tx) as [[]|e]; [|done]. pose proof (submit_spec now now' tx s Hok) as Hs.
  destruct (submit now now' tx s) as [[] s1]; [|done]. intros [= <-]. by apply Hs.
Qed.
Lemma client_resent now now' up tx (s : RpcState St Ch) m :
  txs (rpc_mempool s) !! hash tx = Some m -> transaction m = tx ->
  exists e s', client_send_transaction tx_json show_peer up now now' tx s = (Some (inr e), s') /\
    txs (rpc_mempool s') !! hash tx = Some m.
Proof.
  intros Hm Ht. unfold client_send_transaction, http. destruct up; [|by eexists _, s].
  unfold route, send_transaction. destruct (Transaction.validate_basic tx) as [[]|e]; [|by eexists _, s].
  unfold submit. pose proof (pending_refused now now' (pool_state s) tx [] None (rpc_mempool s) m Hm Ht) as Hp.
  destruct (add_transaction _ _ _ _ _ _ _) as [[[]|e] pool']; [by destruct Hp|]. destruct Hp as [_ Hp]. eexists _, _. split; [reflexivity|exact Hp].
Qed.

(** Orders to a phone, one after the other. *)
Record order := {
  o_up : bool; o_now : Z; o_now' : Z; o_payload : TransactionBuilder -> TransactionBuilder; o_gas_limit : Z; o_gas_price : Z
}.
Definition place (o : order) p : option (sdk Bytes) * phone :=
  send_built (o_up o) (o_now o) (o_now' o) (o_payload o) (o_gas_limit o) (o_gas_price o) p.
Definition place_all (orders : list order) p : phone := foldl (fun p o => (place o p).2) p orders.

Lemma place_all_keeps orders p b :
  remembered p b -> remembered (place_all orders p) b /\
  wallet (phone_wallet (place_all orders p)) = wallet (phone_wallet p).
Proof.
  revert p. induction orders as [|o orders IH]; intros p Hb; [done|].
  destruct (send_built_keeps (o_up o) (o_now o) (o_now' o) (o_payload o) (o_gas_limit o) (o_gas_price o) p b Hb)
    as [Hw Hc]. fold (place o p) in Hw, Hc.
  change (place_all (o :: orders) p) with (place_all orders (place o p).2).
  destruct (IH (place o p).2) as [Hr ->]; [|done].
  unfold remembered, address in *. by rewrite Hw, Hc.
Qed.

(** The nonce never advances.  Once the client has been told the wallet's balance it never
    asks again, and before every submission the wallet sets its nonce to the remembered
    one.  So whatever a wallet sends through such a client carries the same nonce, and when a
    payment was accepted, the same payment later on - whatever was sent in between, if the
    first is still pending - ends in an error and adds nothing. *)
Theorem mobile_nonce_never_advances b p orders up now now' payload gl gp :
  remembered p b ->
  let p' := place_all orders p in
  (forall x, (next_transaction up now now' payload gl gp p').1 = Some (inl x) ->
     x.1 = bal_nonce b /\ nonce x.2 = bal_nonce b) /\
  forall h p1 orders1 up1 now1 now1',
    pool_ok (rpc_mempool (node p')) -> send_built up now now' payload gl gp p' = (Some (inl h), p1) ->
    exists tx m, h = hex_encode (hash tx) /\ nonce tx = bal_nonce b /\
      txs (rpc_mempool (node p1)) !! hash tx = Some m /\
      (let p2 := place_all orders1 p1 in txs (rpc_mempool (node p2)) !! hash tx = Some m ->
       exists e p3, send_built up1 now1 now1' payload gl gp p2 = (Some (inr e), p3) /\
         txs (rpc_mempool (node p3)) !! hash tx = Some m).
Proof.
  intros Hb p'. destruct (place_all_keeps orders p b Hb) as [Hb' _]. fold p' in Hb'. clearbody p'.
  split; [intros x; by apply next_nonce|]. intros h p1 orders1 up1 now1 now1' Hok Hsend.
  destruct (send_built_keeps up now now' payload gl gp p' b Hb') as [Hw Hc]. rewrite Hsend in Hw, Hc. cbn [snd] in Hw, Hc.
  assert (remembered p1 b) as Hb1 by (unfold remembered, address in *; by rewrite Hw, Hc).
  destruct (place_all_keeps orders1 p1 b Hb1) as [Hb2 Hw2].
  pose proof (next_transaction_spec up1 now1 now1' payload gl gp _ b Hb2) as Hn2.
  unfold Mobile.send_built, mbind, Mob_bind in Hsend |- *.
  rewrite (next_transaction_spec _ _ _ _ _ _ _ b Hb') in Hsend. unfold address in *. rewrite Hw2, Hw in Hn2.
  destruct (build_and_sign _ _) as [tx|e] eqn:Hbs; [|done].
  pose proof (build_and_sign_nonce _ _ _ (bal_nonce b) Hbs eq_refl) as Hnonce.
  cbn [mbind sdk_bind mret sdk_ret snd] in Hsend. unfold mobile_send_transaction, mbind, Mob_bind, request in Hsend.
  cbn [node put_nonce snd] in Hsend.
  destruct (client_send_transaction _ _ up _ _ _ _) as [[[[]|e]|] s1] eqn:Hcs; try done.
  apply (client_sent _ _ _ _ _ _ Hok) in Hcs as (m & Hm & Ht). injection Hsend as <- <-.
  exists tx, m. do 3 (split; [done|]). intros Hp2. rewrite Hn2.
  cbn [mbind sdk_bind mret sdk_ret snd]. unfold mobile_send_transaction, mbind, Mob_bind, request. cbn [node put_nonce snd].
  destruct (client_resent now1 now1' up1 tx _ m Hp2 Ht) as (e & s3 & -> & Hm3). by eexists _, _.
Qed.
End MobileFacts.

(** ** Witness *)
#[local] Existing Instances checksum_sha checksum_laws toy_secp toy_secp_laws constant_exp canonical_order.

Definition told : Balance := {| bal_address := format_address (sdk_address toy_wallet); bal_balance := 1000000; bal_nonce := 0 |}.
Definition sample_phone : phone (St := MemStore) (Ch := Queue) :=
  {| phone_wallet := mobile_wallet_of toy_wallet;
     phone_client := put_cache {[cache_key (sdk_address toy_wallet) := told]} (mobile_client_new []);
     node := server |}.
Definition pay : Mob (St := MemStore) (Ch := Queue) Bytes :=
  send_built no_json show_raw id true 0 0 (Wallet.transfer (replicate 20 2) 100) 21000 3.

(** A payment and, with nothing sent in between, the same payment. *)
Lemma mobile_nonce_never_advances_witness :
  exists h p1 e p2, pay sample_phone = (Some (inl h), p1) /\ pay p1 = (Some (inr e), p2).
Proof.
  assert (match (pay sample_phone).1 with Some (inl _) => true | _ => false end = true) as Hs
    by (vm_compute; reflexivity).
  destruct (pay sample_phone) as [[[h|e]|] p1] eqn:Hpay; [|discriminate Hs..].
  destruct (mobile_nonce_never_advances no_json show_raw id told sample_phone [] true 0 0
    (Wallet.transfer (replicate 20 2) 100) 21000 3) as [_ Hp].
  - apply lookup_singleton_eq.
  - destruct (Hp h p1 [] true 0 0 server_pool_ok Hpay) as (tx & m & _ & _ & Hm & Hagain).
    destruct (Hagain Hm) as (e & p2 & He & _). exists h, p1, e, p2. split; [reflexivity|exact He].
Defined.

(** What the wallet believes its next nonce to be is right before the next submission undoes it. *)
Example nonce_after_payment :
  get_next_nonce (sdk_address toy_wallet) (phone_wallet (pay sample_phone).2) = 1.
Proof. vm_compute. reflexivity. Qed.
