(* ===== verification/Events.v ===== *)
(** The event bus: [src/src/events/event_types.rs], [event_bus.rs] and [event_listener.rs].

    tokio's broadcast channels are an interface ([Broadcast]) with their documented
    behaviour as laws.  The task behind [subscribe_all] is a machine that takes its own
    steps between those of the publishers ([forwarder_step]); the callbacks of the
    listeners are the environment, which receives what their receivers hold. *)
From S2P Require Import Prelude Crypto Transaction Mining Block.

(** ** Events *)

Inductive TransactionStatus := Pending | Confirmed | TxFailed.
Inductive NodeStatus := Starting | Running | Syncing | NodeError | ShuttingDown.
Inductive EventType :=
  | NewBlockEvent (block : Block) (block_height : Z)
  | NewTransactionEvent (transaction : Transaction) (status : TransactionStatus)
  | ContractEvent (contract_address : Address) (event_name : string) (event_data : Bytes)
      (block_hash : BlockHash) (transaction_hash : string)
  | PeerConnected (peer_id address : string)
  | PeerDisconnected (peer_id : string) (reason : option string)
  | NodeStatusChanged (status : NodeStatus).

Record Event := {
  event_id : Z * string;
  event_type : EventType;
  event_timestamp : Z;
  source_node : string
}.

(** The id is the timestamp and a random UUID, both arguments. *)
Definition event_new (now : Z) (uuid : string) (t : EventType) (source : string) : Event :=
  {| event_id := (now, uuid); event_type := t; event_timestamp := now; source_node := source |}.
Definition new_block (now : Z) (uuid : string) (b : Block) (height : Z) (source : string) : Event :=
  event_new now uuid (NewBlockEvent b height) source.
Definition new_transaction (now : Z) (uuid : string) (tx : Transaction) (status : TransactionStatus)
    (source : string) : Event :=
  event_new now uuid (NewTransactionEvent tx status) source.
Definition contract_event (now : Z) (uuid : string) (contract : Address) (name : string) (data : Bytes)
    (b : BlockHash) (tx source : string) : Event :=
  event_new now uuid (ContractEvent contract name data b tx) source.
Definition peer_connected (now : Z) (uuid peer address source : string) : Event :=
  event_new now uuid (PeerConnected peer address) source.
Definition peer_disconnected (now : Z) (uuid peer : string) (reason : option string) (source : string) : Event :=
  event_new now uuid (PeerDisconnected peer reason) source.
Definition node_status_changed (now : Z) (uuid : string) (status : NodeStatus) (source : string) : Event :=
  event_new now uuid (NodeStatusChanged status) source.

(** ** Broadcast channels *)

Inductive received := Received (e : Event) | Empty | Lagged | Closed.

(** The crate's channel, seen from a sender that lives as long as the bus: receivers are
    numbered. *)
Class Broadcast (C : Type) := {
  bc_channel : nat -> C;
  bc_send : Event -> C -> bool * C;
  bc_subscribe : C -> nat * C;
  bc_recv : nat -> C -> received * C;
  bc_drop : nat -> C -> C;
  bc_receiver_count : C -> nat
}.

(** [waiting c i]: what receiver [i] has still to receive, if it exists.  A send fails when there
    is no receiver; a receiver that keeps within the capacity gets every event sent after it
    subscribed, once and in order.  Nothing is said about one that lags.  A channel may hold more
    than it was asked to, and asking for no capacity panics, so nothing is said of that either. *)
Class BroadcastLaws (C : Type) `{Broadcast C} := {
  waiting : C -> nat -> option (list Event);
  capacity : C -> nat;
  channel_waiting n i : waiting (bc_channel n) i = None;
  channel_capacity n : (0 < n)%nat -> (n <= capacity (bc_channel n))%nat;
  send_fails e c : (forall i, waiting c i = None) -> (bc_send e c).1 = false;
  send_waiting e c i l : waiting c i = Some l -> (length l < capacity c)%nat ->
    waiting (bc_send e c).2 i = Some (l ++ [e]);
  send_none e c i : waiting c i = None -> waiting (bc_send e c).2 i = None;
  send_capacity e c : capacity (bc_send e c).2 = capacity c;
  subscribe_new c : waiting c (bc_subscribe c).1 = None;
  subscribe_waiting c i :
    waiting (bc_subscribe c).2 i = if decide (i = (bc_subscribe c).1) then Some [] else waiting c i;
  subscribe_capacity c : capacity (bc_subscribe c).2 = capacity c;
  recv_received c i e l : waiting c i = Some (e :: l) -> (bc_recv i c).1 = Received e;
  recv_empty c i : waiting c i = Some [] -> bc_recv i c = (Empty, c);
  recv_waiting c i j e l : waiting c i = Some (e :: l) ->
    waiting (bc_recv i c).2 j = if decide (j = i) then Some l else waiting c j;
  recv_capacity c i : capacity (bc_recv i c).2 = capacity c;
  drop_waiting c i j : waiting (bc_drop i c) j = if decide (j = i) then None else waiting c j;
  drop_capacity c i : capacity (bc_drop i c) = capacity c
}.

(** ** The bus *)

Record EventBus (C : Type) := {
  channels : gmap string C;
  bus_capacity : nat
}.
Arguments channels {C} _.
Arguments bus_capacity {C} _.

Definition with_capacity {C} (n : nat) : EventBus C := {| channels := ∅; bus_capacity := n |}.
Definition bus_new {C} : EventBus C := with_capacity 1000.

Definition type_name (t : EventType) : string :=
  match t with
  | NewBlockEvent _ _ => "new_block"
  | NewTransactionEvent _ _ => "new_transaction"
  | ContractEvent _ _ _ _ _ => "contract_event"
  | PeerConnected _ _ => "peer_connected"
  | PeerDisconnected _ _ => "peer_disconnected"
  | NodeStatusChanged _ => "node_status"
  end.

Definition of_type (name : string) (e : Event) : Prop := type_name (event_type e) = name.
#[export] Instance of_type_dec name e : Decision (of_type name e) := String.eq_dec _ _.
#[export] Typeclasses Opaque of_type.

Record EventSubscription := { sub_event_type : string; sub_node_id : string }.
Record EventListener (C : Type) := { listener_bus : EventBus C; listener_node : string }.
Arguments listener_bus {C} _.
Arguments listener_node {C} _.

Section Bus.
Context `{HashOrder} {C : Type} `{Broadcast C}.
Implicit Types bus : EventBus C.

Definition put_channel (name : string) (c : C) bus : EventBus C :=
  {| channels := <[name := c]> (channels bus); bus_capacity := bus_capacity bus |}.

Definition get_or_create_channel (name : string) bus : C * EventBus C :=
  match channels bus !! name with
  | Some c => (c, bus)
  | None => let c := bc_channel (bus_capacity bus) in (c, put_channel name c bus)
  end.

Definition publish (e : Event) bus : EventBus C :=
  let name := type_name (event_type e) in
  let '(c, bus) := get_or_create_channel name bus in
  put_channel name (bc_send e c).2 bus.

Definition subscribe (name : string) bus : nat * EventBus C :=
  let '(c, bus) := get_or_create_channel name bus in
  let '(i, c) := bc_subscribe c in (i, put_channel name c bus).

Definition subscriber_count (name : string) bus : nat :=
  match channels bus !! name with Some c => bc_receiver_count c | None => 0 end.
Definition active_event_types bus : list string := (hm_iter (channels bus)).*1.

(** *** [subscribe_all] *)

(** The forwarding task: at the top of its loop, waiting for its receivers, or gone. *)
Inductive forwarder := Looping | Waiting (rxs : list (string * nat)) | Gone.

(** The channel of all events, with the one receiver that is returned. *)
Record AllEvents := {
  all_bus : EventBus C;
  all_channel : C;
  all_receiver : nat;
  all_forwarder : forwarder
}.

Definition subscribe_all bus : AllEvents :=
  let '(i, c) := bc_subscribe (bc_channel (bus_capacity bus)) in
  {| all_bus := bus; all_channel := c; all_receiver := i; all_forwarder := Looping |}.

(** A receiver on every channel there is. *)
Definition subscribe_each (names : list string) bus : list (string * nat) * EventBus C :=
  foldl (fun '(rxs, bus) name => let '(i, bus) := subscribe name bus in (rxs ++ [(name, i)], bus))
    ([], bus) names.

Definition drop_receiver bus (rx : string * nat) : EventBus C :=
  match channels bus !! rx.1 with
  | Some c => put_channel rx.1 (bc_drop rx.2 c) bus
  | None => bus
  end.
Definition drop_receivers (rxs : list (string * nat)) bus : EventBus C := foldl drop_receiver bus rxs.

(** [select_all] polls the receivers in order and gives the first that has something; the others
    keep what they have. *)
Fixpoint poll (rxs : list (string * nat)) bus : received * EventBus C :=
  match rxs with
  | [] => (Empty, bus)
  | (name, i) :: rxs =>
      match channels bus !! name with
      | Some c =>
          match bc_recv i c with
          | (Empty, _) => poll rxs bus
          | (r, c) => (r, put_channel name c bus)
          end
      | None => poll rxs bus
      end
  end.

(** One turn of the task; [None] when it has to wait.  [select_all] panics on an empty list. *)
Definition forwarder_step (s : AllEvents) : option AllEvents :=
  match all_forwarder s with
  | Gone => None
  | Looping =>
      let '(rxs, bus) := subscribe_each (active_event_types (all_bus s)) (all_bus s) in
      Some {| all_bus := bus; all_channel := all_channel s; all_receiver := all_receiver s;
              all_forwarder := match rxs with [] => Gone | _ :: _ => Waiting rxs end |}
  | Waiting rxs =>
      match poll rxs (all_bus s) with
      | (Empty, _) => None
      | (Received e, bus) =>
          Some {| all_bus := drop_receivers rxs bus; all_channel := (bc_send e (all_channel s)).2;
                  all_receiver := all_receiver s; all_forwarder := Looping |}
      | (_, bus) =>
          Some {| all_bus := drop_receivers rxs bus; all_channel := all_channel s;
                  all_receiver := all_receiver s; all_forwarder := Gone |}
      end
  end.

(** [n] turns of the task, or as many as it can take. *)
Fixpoint forward (n : nat) (s : AllEvents) : AllEvents :=
  match n with
  | O => s
  | S n => match forwarder_step s with Some s => forward n s | None => s end
  end.

Definition on_bus (f : EventBus C -> EventBus C) (s : AllEvents) : AllEvents :=
  {| all_bus := f (all_bus s); all_channel := all_channel s; all_receiver := all_receiver s;
     all_forwarder := all_forwarder s |}.

(** What happens around a subscription to everything. *)
Inductive all_action :=
  | Publish (e : Event)
  | Subscribe (name : string)
  | Turn.
Definition all_run (a : all_action) (s : AllEvents) : AllEvents :=
  match a with
  | Publish e => on_bus (publish e) s
  | Subscribe name => on_bus (fun bus => (subscribe name bus).2) s
  | Turn => default s (forwarder_step s)
  end.

(** *** Listeners *)

(** A subscription and the receiver its task reads from. *)
Definition listen (name : string) (l : EventListener C) : EventSubscription * nat * EventListener C :=
  let '(i, bus) := subscribe name (listener_bus l) in
  ({| sub_event_type := name; sub_node_id := listener_node l |}, i,
   {| listener_bus := bus; listener_node := listener_node l |}).
Definition subscribe_new_blocks := listen "new_block".
Definition subscribe_transactions := listen "new_transaction".
Definition subscribe_contract_events := listen "contract_event".
Definition subscribe_peer_events (l : EventListener C) : EventSubscription * (nat * nat) * EventListener C :=
  let '(i, bus) := subscribe "peer_connected" (listener_bus l) in
  let '(j, bus) := subscribe "peer_disconnected" bus in
  ({| sub_event_type := "peer_events"; sub_node_id := listener_node l |}, (i, j),
   {| listener_bus := bus; listener_node := listener_node l |}).
Definition listener_subscribe_all (l : EventListener C) : EventSubscription * AllEvents :=
  ({| sub_event_type := "all"; sub_node_id := listener_node l |}, subscribe_all (listener_bus l)).
Definition listener_subscriber_count (name : string) (l : EventListener C) : nat :=
  subscriber_count name (listener_bus l).

(** The subscriptions of a handler. *)
Definition create_listener_from_handler bus (node : string) : list EventSubscription * EventListener C :=
  let l := {| listener_bus := bus; listener_node := node |} in
  let '(s1, _, l) := subscribe_new_blocks l in
  let '(s2, _, l) := subscribe_transactions l in
  let '(s3, _, l) := subscribe_contract_events l in
  let '(s4, _, l) := subscribe_peer_events l in
  ([s1; s2; s3; s4], l).
End Bus.

(** ** Who receives what *)
Section BusFacts.
Context `{HashOrder} {C : Type} `{BroadcastLaws C}.
Implicit Types (bus : EventBus C) (e : Event) (es : list Event) (s : AllEvents (C := C)).

(** The bus has a capacity, and every channel has at least that. *)
Definition bus_ok bus : Prop :=
  (0 < bus_capacity bus)%nat /\ map_Forall (fun _ c => (bus_capacity bus <= capacity c)%nat) (channels bus).

(** What receiver [i] of the channel [name] has still to receive. *)
Definition queue bus (name : string) (i : nat) : option (list Event) :=
  channels bus !! name ≫= fun c => waiting c i.

Lemma bus_ok_empty n : (0 < n)%nat -> bus_ok (with_capacity n : EventBus C).
Proof. intros Hn. split; [done|]. apply map_Forall_empty. Qed.
Lemma put_channel_ok name c bus :
  (bus_capacity bus <= capacity c)%nat -> bus_ok bus -> bus_ok (put_channel name c bus).
Proof. intros Hc [Hn Hb]. split; [done|]. by apply map_Forall_insert_2. Qed.
Lemma channel_ok name c bus : bus_ok bus -> channels bus !! name = Some c -> (bus_capacity bus <= capacity c)%nat.
Proof. intros [_ Hb]. apply Hb. Qed.
Lemma queue_put name c bus name' i :
  queue (put_channel name c bus) name' i = if decide (name = name') then waiting c i else queue bus name' i.
Proof.
  unfold queue, put_channel. cbn [channels]. destruct (decide (name = name')) as [<-|Hne].
  - by rewrite lookup_insert_eq.
  - by rewrite lookup_insert_ne.
Qed.

Lemma channel_of name bus :
  bus_ok bus ->
  let '(c, bus') := get_or_create_channel name bus in
  bus_ok bus' /\ bus_capacity bus' = bus_capacity bus /\ (bus_capacity bus <= capacity c)%nat /\
  (forall i, waiting c i = queue bus name i) /\ forall name' i, queue bus' name' i = queue bus name' i.
Proof.
  intros Hb. unfold get_or_create_channel. destruct (channels bus !! name) as [c|] eqn:Hc.
  - do 2 (split; [done|]). split; [by apply (channel_ok name)|]. split; [|done]. intros i. unfold queue. by rewrite Hc.
  - assert (bus_capacity bus <= capacity (bc_channel (bus_capacity bus)))%nat as Hcap by apply channel_capacity, Hb.
    split; [by apply put_channel_ok|]. split; [done|]. split; [done|].
    assert (forall i, waiting (bc_channel (bus_capacity bus)) i = queue bus name i) as Hq
      by (intros i; unfold queue; rewrite Hc; apply channel_waiting).
    split; [done|]. intros name' i. rewrite queue_put. by case_decide as Hn; [rewrite <- Hn|].
Qed.

Lemma publish_spec e bus :
  bus_ok bus ->
  bus_ok (publish e bus) /\ bus_capacity (publish e bus) = bus_capacity bus /\
  forall name i l, queue bus name i = Some l ->
    (type_name (event_type e) = name -> (length l < bus_capacity bus)%nat) ->
    queue (publish e bus) name i = Some (if decide (type_name (event_type e) = name) then l ++ [e] else l).
Proof.
  intros Hb. unfold publish. pose proof (channel_of (type_name (event_type e)) bus Hb) as Hc.
  destruct (get_or_create_channel _ bus) as [c bus']. destruct Hc as (Hb' & Hcap & Hcc & Hw & Hq).
  split; [apply put_channel_ok; [|done]; by rewrite send_capacity, Hcap|]. split; [done|].
  intros name i l Hl Hlen. rewrite queue_put. case_decide as Hn; [|by rewrite Hq].
  apply send_waiting; [by rewrite Hw, Hn|]. specialize (Hlen Hn). lia.
Qed.

Lemma subscribe_spec name bus :
  bus_ok bus ->
  let '(i, bus') := subscribe name bus in
  bus_ok bus' /\ bus_capacity bus' = bus_capacity bus /\ queue bus' name i = Some [] /\
  forall name' j l, queue bus name' j = Some l -> queue bus' name' j = Some l.
Proof.
  intros Hb. unfold subscribe. pose proof (channel_of name bus Hb) as Hc.
  destruct (get_or_create_channel name bus) as [c bus']. destruct Hc as (Hb' & Hcap & Hcc & Hw & Hq).
  pose proof (subscribe_new c) as Hnew. pose proof (subscribe_waiting c) as Hs.
  pose proof (subscribe_capacity c) as Hsc. destruct (bc_subscribe c) as [i c']. cbn [fst snd] in *.
  split; [apply put_channel_ok; [by rewrite Hsc, Hcap|done]|]. split; [done|]. split.
  - rewrite queue_put, decide_True, Hs by done. by rewrite decide_True.
  - intros name' j l Hl. rewrite queue_put. case_decide as Hn; [|by rewrite Hq]. subst name'.
    rewrite Hs. case_decide as Hj; [|by rewrite Hw]. subst j. rewrite Hw in Hnew. congruence.
Qed.

(** *** A subscription to one type of event *)


Lemma publish_all es name i bus l :
  bus_ok bus -> queue bus name i = Some l ->
  (length l + length (filter (of_type name) es) <= bus_capacity bus)%nat ->
  queue (foldl (fun bus e => publish e bus) bus es) name i = Some (l ++ filter (of_type name) es).
Proof.
  revert bus l. induction es as [|e es IH]; intros bus l Hb Hl Hlen; cbn [foldl].
  { by rewrite filter_nil, app_nil_r. }
  destruct (publish_spec e bus Hb) as (Hb' & Hcap & Hq). rewrite filter_cons in Hlen |- *.
  assert (of_type name e <-> type_name (event_type e) = name) as Ht by done.
  destruct (decide (of_type name e)) as [Hn|Hn]; cbn [length] in Hlen; rewrite Ht in Hn.
  - rewrite (IH _ (l ++ [e]) Hb').
    + by rewrite <- app_assoc.
    + rewrite (Hq name i l Hl) by lia. by rewrite decide_True.
    + rewrite Hcap, length_app. cbn. lia.
  - rewrite (IH _ l Hb'); [done| |by rewrite Hcap].
    rewrite (Hq name i l Hl) by done. by rewrite decide_False.
Qed.

(** A subscriber to one type of event holds exactly the events of that type that are published after
    it subscribed, in the order of their publication, as long as no more than the
    capacity of the bus are waiting - whatever else is published in between. *)
Theorem typed_subscriber_receives name bus es :
  bus_ok bus -> (length (filter (of_type name) es) <= bus_capacity bus)%nat ->
  let '(i, bus') := subscribe name bus in
  queue (foldl (fun bus e => publish e bus) bus' es) name i = Some (filter (of_type name) es).
Proof.
  intros Hb Hlen. pose proof (subscribe_spec name bus Hb) as Hs. destruct (subscribe name bus) as [i bus'].
  destruct Hs as (Hb' & Hcap & Hi & _). apply (publish_all es name i bus' [] Hb' Hi). cbn. by rewrite Hcap.
Qed.

(** *** A subscription to everything *)

Definition silent bus (rxs : list (string * nat)) : Prop := Forall (fun rx => queue bus rx.1 rx.2 = Some []) rxs.

Lemma subscribe_each_spec names rxs bus :
  bus_ok bus -> silent bus rxs ->
  let '(rxs', bus') := foldl (fun '(rxs, bus) name => let '(i, bus) := subscribe name bus in (rxs ++ [(name, i)], bus))
    (rxs, bus) names in
  bus_ok bus' /\ silent bus' rxs' /\ rxs'.*1 = rxs.*1 ++ names.
Proof.
  revert rxs bus. induction names as [|name names IH]; intros rxs bus Hb Hs; cbn [foldl].
  { split; [done|]. split; [done|]. by rewrite app_nil_r. }
  pose proof (subscribe_spec name bus Hb) as Hsub. destruct (subscribe name bus) as [i bus1].
  destruct Hsub as (Hb1 & _ & Hi & Hkeep). specialize (IH (rxs ++ [(name, i)]) bus1 Hb1).
  destruct (foldl _ _ names) as [rxs' bus']. destruct IH as (Hb' & Hs' & Hn).
  { apply Forall_app. split; [|by constructor]. apply (Forall_impl _ _ _ Hs). intros rx. apply Hkeep. }
  split; [done|]. split; [done|]. by rewrite Hn, fmap_app, <- app_assoc.
Qed.

Lemma poll_silent bus rxs : silent bus rxs -> poll rxs bus = (Empty, bus).
Proof.
  induction rxs as [|[name i] rxs IH]; intros Hs; [done|]. apply Forall_cons in Hs as [Hrx Hs].
  cbn [poll]. unfold queue in Hrx. cbn in Hrx. destruct (channels bus !! name) as [c|]; [|done].
  cbn in Hrx. rewrite (recv_empty c i Hrx). by apply IH.
Qed.

(** What the receiver of everything has still to receive. *)
Definition collected s : option (list Event) := waiting (all_channel s) (all_receiver s).

Lemma forward_stuck n s : forwarder_step s = None -> forward n s = s.
Proof. intros Hs. destruct n; [done|]. cbn [forward]. by rewrite Hs. Qed.

(** At the top of its loop the task takes one more turn at most, and it collects nothing. *)
Lemma forward_looping n s :
  all_forwarder s = Looping -> bus_ok (all_bus s) -> collected (forward n s) = collected s.
Proof.
  intros Hf Hb. destruct n as [|n]; [done|]. cbn [forward]. unfold forwarder_step. rewrite Hf.
  pose proof (subscribe_each_spec (active_event_types (all_bus s)) [] (all_bus s) Hb) as Hs.
  unfold subscribe_each. destruct (foldl _ _ _) as [rxs bus']. destruct Hs as (_ & Hsil & _); [constructor|].
  rewrite forward_stuck; [done|]. unfold forwarder_step. cbn [all_forwarder all_bus].
  destruct rxs as [|rx rxs]; [done|]. by rewrite (poll_silent bus' (rx :: rxs) Hsil).
Qed.
Lemma poll_spec es bus rxs :
  bus_ok bus -> Forall (fun rx => queue bus rx.1 rx.2 = Some (filter (of_type rx.1) es)) rxs ->
  match poll rxs bus with
  | (Empty, _) => forall e, e ∈ es -> type_name (event_type e) ∉ rxs.*1
  | (Received e, bus') => e ∈ es /\ bus_ok bus'
  | _ => False
  end.
Proof.
  intros Hb. induction rxs as [|[name i] rxs IH]; intros Hq; cbn [poll].
  { intros e _. apply not_elem_of_nil. }
  apply Forall_cons in Hq as [Hrx Hq]. cbn [fst snd] in Hrx. specialize (IH Hq).
  pose proof Hrx as Hw. unfold queue in Hw. destruct (channels bus !! name) as [c|] eqn:Hc; [|done]. cbn in Hw.
  destruct (filter (of_type name) es) as [|e es'] eqn:Hf.
  - rewrite (recv_empty c i Hw). destruct (poll rxs bus) as [[e| | |] bus']; [done| |done..].
    intros e He. rewrite fmap_cons, not_elem_of_cons. split; [|by apply IH]. cbn. intros Hn.
    assert (e ∈ filter (of_type name) es) as Hin by by apply list_elem_of_filter.
    rewrite Hf in Hin. by apply not_elem_of_nil in Hin.
  - pose proof (recv_received c i e es' Hw) as Hr. pose proof (recv_capacity c i) as Hcap.
    destruct (bc_recv i c) as [r c']. cbn [fst snd] in *. subst r. split.
    + assert (e ∈ filter (of_type name) es) as Hin by (rewrite Hf; by left).
      by apply list_elem_of_filter in Hin as [_ Hin].
    + apply put_channel_ok; [|done]. rewrite Hcap. by apply (channel_ok name).
Qed.

Lemma drop_receivers_ok rxs bus : bus_ok bus -> bus_ok (drop_receivers rxs bus).
Proof.
  unfold drop_receivers. revert bus. induction rxs as [|rx rxs IH]; intros bus Hb; [done|]. apply IH.
  unfold drop_receiver. destruct (channels bus !! rx.1) as [c|] eqn:Hc; [|done].
  apply put_channel_ok; [|done]. rewrite drop_capacity. by apply (channel_ok rx.1).
Qed.

Lemma publish_all_ok es bus :
  bus_ok bus ->
  bus_ok (foldl (fun bus e => publish e bus) bus es) /\
  bus_capacity (foldl (fun bus e => publish e bus) bus es) = bus_capacity bus.
Proof.
  revert bus. induction es as [|e es IH]; intros bus Hb; [done|]. cbn [foldl].
  destruct (publish_spec e bus Hb) as (Hb' & Hcap & _). destruct (IH _ Hb') as [Hok Hc].
  split; [done|]. by rewrite Hc.
Qed.

(** A burst of events reaches a subscriber to everything as a single event.  While the forwarding task
    waits with nothing to receive, let any number of events be published, within the capacity.
    However many turns the task takes afterwards, it collects one of them, or none when
    none has a type whose channel existed when the task last subscribed; the receivers it
    makes for its next wait start after the burst, and the rest is lost. *)
Theorem burst_forwards_one rxs es n s l :
  bus_ok (all_bus s) -> all_forwarder s = Waiting rxs -> silent (all_bus s) rxs ->
  (length es <= bus_capacity (all_bus s))%nat ->
  collected s = Some l -> (length l < capacity (all_channel s))%nat ->
  let s' := forward (S n) (on_bus (fun bus => foldl (fun bus e => publish e bus) bus es) s) in
  (exists e, e ∈ es /\ collected s' = Some (l ++ [e])) \/
  (collected s' = Some l /\ forall e, e ∈ es -> type_name (event_type e) ∉ rxs.*1).
Proof.
  intros Hb Hf Hs Hlen Hl Hcap. cbn [forward]. unfold forwarder_step, on_bus. cbn [all_forwarder all_bus].
  rewrite Hf. set (bus := foldl _ _ es). destruct (publish_all_ok es _ Hb) as [Hok _].
  assert (Forall (fun rx => queue bus rx.1 rx.2 = Some (filter (of_type rx.1) es)) rxs) as Hq.
  { apply (Forall_impl _ _ _ Hs). intros rx Hrx. apply (publish_all es rx.1 rx.2 _ [] Hb Hrx).
    pose proof (length_filter (of_type rx.1) es). cbn. lia. }
  pose proof (poll_spec es bus rxs Hok Hq) as Hp. destruct (poll rxs bus) as [[e| | |] bus']; [|by right|done..].
  destruct Hp as [He Hok']. left. exists e. split; [done|].
  rewrite forward_looping; [|done|by apply drop_receivers_ok].
  unfold collected. cbn [all_channel all_receiver]. by apply send_waiting.
Qed.

(** A forwarding task that is gone collects nothing. *)
Definition dead s : Prop := all_forwarder s = Gone /\ collected s = Some [].
Lemma dead_run a s : dead s -> dead (all_run a s).
Proof.
  intros [Hf Hc]. destruct a; cbn [all_run]; [by split|by split|]. unfold forwarder_step. rewrite Hf. by split.
Qed.
Lemma first_turn_dead bus : channels bus = ∅ -> dead (all_run Turn (subscribe_all bus)).
Proof.
  intros Hn. cbn [all_run]. unfold forwarder_step, subscribe_all, dead, collected.
  pose proof (subscribe_waiting (bc_channel (bus_capacity bus))) as Hw.
  destruct (bc_subscribe _) as [i c]. cbn [fst snd] in Hw. cbn [all_forwarder all_bus].
  assert (active_event_types bus = []) as ->.
  { unfold active_event_types. assert (hm_iter (channels bus) = []) as ->; [|done].
    apply Permutation_nil. rewrite hm_iter_perm, Hn. by rewrite map_to_list_empty. }
  split; [done|]. cbn. rewrite Hw. by rewrite decide_True.
Qed.

(** On a bus on which nothing has been published or subscribed to, the forwarding task panics in its
    first turn, for want of a channel to wait for: from then on the subscriber to everything
    receives nothing, whatever is published. *)
Theorem subscribe_all_dies bus actions :
  (0 < bus_capacity bus)%nat -> channels bus = ∅ ->
  let s := foldl (fun s a => all_run a s) (all_run Turn (subscribe_all bus)) actions in
  all_forwarder s = Gone /\ collected s = Some [].
Proof.
  intros _ Hn. pose proof (first_turn_dead bus Hn) as Hd. cbv zeta. revert Hd.
  generalize (all_run Turn (subscribe_all bus)). induction actions as [|a actions IH]; intros s Hd; [done|].
  cbn [foldl]. by apply IH, dead_run.
Qed.
End BusFacts.

(** ** Witnesses

    A channel in memory; a receiver that is full loses its oldest event. *)
Record MemChannel := { mc_capacity : nat; mc_next : nat; mc_queues : gmap nat (list Event) }.

Definition mc_push (n : nat) (e : Event) (l : list Event) : list Event :=
  if (length l <? n)%nat then l ++ [e] else drop 1 (l ++ [e]).

#[export] Instance mem_channel : Broadcast MemChannel := {
  bc_channel n := {| mc_capacity := n; mc_next := 0; mc_queues := ∅ |};
  bc_send e c := (bool_decide (mc_queues c <> ∅),
    {| mc_capacity := mc_capacity c; mc_next := mc_next c;
       mc_queues := mc_push (mc_capacity c) e <$> mc_queues c |});
  bc_subscribe c :=
    let i := fresh (dom (mc_queues c)) in
    (i, {| mc_capacity := mc_capacity c; mc_next := mc_next c; mc_queues := <[i := []]> (mc_queues c) |});
  bc_recv i c :=
    match mc_queues c !! i with
    | Some (e :: l) => (Received e,
        {| mc_capacity := mc_capacity c; mc_next := mc_next c; mc_queues := <[i := l]> (mc_queues c) |})
    | Some [] => (Empty, c)
    | None => (Closed, c)
    end;
  bc_drop i c :=
    {| mc_capacity := mc_capacity c; mc_next := mc_next c; mc_queues := delete i (mc_queues c) |};
  bc_receiver_count c := size (mc_queues c)
}.

#[export, refine] Instance mem_channel_laws : BroadcastLaws MemChannel := {
  waiting c i := mc_queues c !! i; capacity := mc_capacity
}.
Proof.
  - intros n i. apply lookup_empty.
  - intros n _. cbn. lia.
  - intros e c Hn. apply bool_decide_false. intros Hne. apply Hne. apply map_empty. exact Hn.
  - intros e c i l Hl Hlen. cbn. rewrite lookup_fmap, Hl. cbn. unfold mc_push.
    by rewrite (proj2 (Nat.ltb_lt _ _) Hlen).
  - intros e c i Hi. cbn. by rewrite lookup_fmap, Hi.
  - done.
  - intros c. apply not_elem_of_dom. apply is_fresh.
  - intros c i. cbn. case_decide as Hi; [by rewrite Hi, lookup_insert_eq|by rewrite lookup_insert_ne].
  - done.
  - intros c i e l Hl. cbn. by rewrite Hl.
  - intros c i Hl. cbn. by rewrite Hl.
  - intros c i j e l Hl. cbn. rewrite Hl. cbn.
    case_decide as Hj; [by rewrite Hj, lookup_insert_eq|by rewrite lookup_insert_ne].
  - intros c i. cbn. by destruct (mc_queues c !! i) as [[]|].
  - intros c i j. cbn. case_decide as Hj; [by rewrite Hj, lookup_delete_eq|by rewrite lookup_delete_ne].
  - done.
Defined.

#[local] Existing Instance canonical_order.

Definition status_event (now : Z) : Event := node_status_changed now "a" Running "node".
Definition peer_event (now : Z) : Event := peer_connected now "b" "peer" "address" "node".
Definition small_bus : EventBus MemChannel := with_capacity 3.

Lemma typed_subscriber_receives_witness :
  let '(i, bus) := subscribe "node_status" small_bus in
  queue (foldl (fun bus e => publish e bus) bus [status_event 1; peer_event 2; status_event 3]) "node_status" i =
    Some [status_event 1; status_event 3].
Proof.
  pose proof (typed_subscriber_receives "node_status" small_bus
    [status_event 1; peer_event 2; status_event 3] (bus_ok_empty 3 (Nat.lt_0_succ 2))) as Hs.
  destruct (subscribe "node_status" small_bus) as [i bus]. apply Hs.
  apply (bool_decide_unpack _). vm_compute. exact I.
Defined.

(** Someone listens to the node's status, and someone to everything. *)
Definition one_channel : EventBus MemChannel := (subscribe "node_status" small_bus).2.
Definition listening : AllEvents := all_run Turn (subscribe_all one_channel).
Definition listening_rxs : list (string * nat) :=
  match all_forwarder listening with Waiting rxs => rxs | _ => [] end.

Lemma burst_forwards_one_witness :
  let s' := forward 3 (on_bus (fun bus => foldl (fun bus e => publish e bus) bus
              [status_event 1; status_event 2; peer_event 3]) listening) in
  collected s' = Some [status_event 1].
Proof.
  assert (collected listening = Some []) as Hl by (vm_compute; reflexivity).
  assert (bus_ok (all_bus listening)) as Hb.
  { pose proof (subscribe_spec "node_status" small_bus (bus_ok_empty 3 (Nat.lt_0_succ 2))) as Hs.
    unfold listening, one_channel. destruct (subscribe "node_status" small_bus) as [i bus].
    destruct Hs as (Hb & _). cbn [snd all_run]. unfold forwarder_step, subscribe_all.
    destruct (bc_subscribe _) as [j c]. cbn [all_forwarder all_bus].
    pose proof (subscribe_each_spec (active_event_types bus) [] bus Hb (Forall_nil_2 _)) as He.
    unfold subscribe_each. destruct (foldl _ _ _) as [rxs bus']. by destruct He as (He & _). }
  destruct (burst_forwards_one listening_rxs [status_event 1; status_event 2; peer_event 3] 2 listening []
    Hb) as [(e & _ & He)|[_ Hn]].
  - vm_compute. reflexivity.
  - repeat (constructor; [vm_compute; reflexivity|]). constructor.
  - apply (bool_decide_unpack _). vm_compute. exact I.
  - exact Hl.
  - apply (bool_decide_unpack _). vm_compute. exact I.
  - vm_compute. reflexivity.
  - exfalso. apply (Hn (status_event 1)); [by left|]. apply (bool_decide_unpack _). vm_compute. exact I.
Defined.

Lemma subscribe_all_dies_witness :
  let s := foldl (fun s a => all_run a s) (all_run Turn (subscribe_all small_bus))
             [Publish (status_event 1); Turn; Publish (peer_event 2); Turn] in
  collected s = Some [].
Proof.
  apply (subscribe_all_dies small_bus [Publish (status_event 1); Turn; Publish (peer_event 2); Turn]).
  - cbn. lia.
  - reflexivity.
Defined.
