(* ===== verification/WsServer.v ===== *)
(** The WebSocket server: [src/src/rpc/ws_server.rs].

    Each connection is a task that selects between the messages of its client and the events of
    its receiver.  The client, the network and the choice of [select!] are the environment: a run of
    a connection is a list of the branches that were taken ([ws_action]), publications in
    between included.  The JSON of a message stands for the message. *)
From S2P Require Import Prelude Crypto Transaction Mining Block Events.

Inductive WsMessage :=
  | WsSubscribe (event_types : list string)
  | WsUnsubscribe (event_types : list string)
  | WsPing
  | WsPong
  | WsEvent (e : Event)
  | WsError (message : string).

(** What [receiver.next()] may give: a text, parsed or not, a close frame, another frame, an error,
    or the end of the stream. *)
Inductive incoming :=
  | InText (m : option WsMessage)
  | InClose
  | InOther
  | InError
  | InEnd.

(** What a connection has sent, and whether its task still runs. *)
Record connection := { sent : list WsMessage; open : bool }.
Definition opened : connection := {| sent := []; open := true |}.
(** Sending, where the network may fail; only the branch of the events looks at the result. *)
Definition push (m : WsMessage) (ok : bool) (c : connection) : connection :=
  if ok then {| sent := sent c ++ [m]; open := open c |} else c.
Definition hang_up (c : connection) : connection := {| sent := sent c; open := false |}.

(** The branch of the client's messages.  The three endpoints differ only in a log line. *)
Definition on_message (m : incoming) (ok : bool) (c : connection) : connection :=
  match m with
  | InText (Some WsPing) => push WsPong ok c
  | InText _ => c
  | InClose | InError => hang_up c
  | InOther | InEnd => c
  end.

(** The branch of the events. *)
Definition on_event (r : received) (ok : bool) (c : connection) : connection :=
  match r with
  | Received e => if ok then push (WsEvent e) true c else hang_up c
  | Empty => c
  | Lagged | Closed => hang_up c
  end.

Section Sockets.
Context `{HashOrder} {C : Type} `{Broadcast C}.

(** *** [/blocks] and [/transactions]: a receiver of one type of event *)
Record typed_socket := {
  ts_bus : EventBus C;
  ts_name : string;
  ts_rx : nat;
  ts_conn : connection
}.

Definition handle_typed_socket (name : string) (bus : EventBus C) : typed_socket :=
  let '(i, bus) := subscribe name bus in
  {| ts_bus := bus; ts_name := name; ts_rx := i; ts_conn := opened |}.
Definition handle_blocks_socket := handle_typed_socket "new_block".
Definition handle_transactions_socket := handle_typed_socket "new_transaction".

Inductive ws_action :=
  | Incoming (m : incoming) (ok : bool)
  | Deliver (ok : bool)
  | PublishEvent (e : Event).

Definition recv_typed (s : typed_socket) : received * EventBus C :=
  match channels (ts_bus s) !! ts_name s with
  | Some c => let '(r, c) := bc_recv (ts_rx s) c in (r, put_channel (ts_name s) c (ts_bus s))
  | None => (Closed, ts_bus s)
  end.

Definition with_conn (c : connection) (s : typed_socket) : typed_socket :=
  {| ts_bus := ts_bus s; ts_name := ts_name s; ts_rx := ts_rx s; ts_conn := c |}.
Definition with_bus (bus : EventBus C) (s : typed_socket) : typed_socket :=
  {| ts_bus := bus; ts_name := ts_name s; ts_rx := ts_rx s; ts_conn := ts_conn s |}.

Definition typed_step (a : ws_action) (s : typed_socket) : typed_socket :=
  match a with
  | PublishEvent e => with_bus (publish e (ts_bus s)) s
  | Incoming m ok => if open (ts_conn s) then with_conn (on_message m ok (ts_conn s)) s else s
  | Deliver ok =>
      if open (ts_conn s) then
        let '(r, bus) := recv_typed s in with_conn (on_event r ok (ts_conn s)) (with_bus bus s)
      else s
  end.

(** *** [/events]: the receiver of everything *)
Record events_socket := { es_all : AllEvents (C := C); es_conn : connection }.

Definition handle_events_socket (bus : EventBus C) : events_socket :=
  {| es_all := subscribe_all bus; es_conn := opened |}.

Inductive events_action :=
  | AllAction (a : all_action)
  | AllIncoming (m : incoming) (ok : bool)
  | AllDeliver (ok : bool).

(** The channel of everything has one sender, which the forwarding task owns: it closes when that is
    gone, and what was sent before is still received. *)
Definition recv_all (s : AllEvents (C := C)) : received * AllEvents (C := C) :=
  let '(r, c) := bc_recv (all_receiver s) (all_channel s) in
  (match r, all_forwarder s with Empty, Gone => Closed | _, _ => r end,
   {| all_bus := all_bus s; all_channel := c; all_receiver := all_receiver s;
      all_forwarder := all_forwarder s |}).

Definition events_step (a : events_action) (s : events_socket) : events_socket :=
  match a with
  | AllAction a => {| es_all := all_run a (es_all s); es_conn := es_conn s |}
  | AllIncoming m ok =>
      if open (es_conn s) then {| es_all := es_all s; es_conn := on_message m ok (es_conn s) |} else s
  | AllDeliver ok =>
      if open (es_conn s) then
        let '(r, all) := recv_all (es_all s) in {| es_all := all; es_conn := on_event r ok (es_conn s) |}
      else s
  end.
End Sockets.

(** ** What a client receives *)

Definition events_of (ms : list WsMessage) : list Event :=
  omap (fun m => match m with WsEvent e => Some e | _ => None end) ms.
Definition is_pong (m : WsMessage) : bool := match m with WsPong => true | _ => false end.
Definition published (actions : list ws_action) : list Event :=
  omap (fun a => match a with PublishEvent e => Some e | _ => None end) actions.
Definition is_ping (a : ws_action) : bool :=
  match a with Incoming (InText (Some WsPing)) _ => true | _ => false end.

(** A client that stays connected over a network that delivers. *)
Definition stays (a : ws_action) : Prop :=
  match a with
  | Incoming m ok => m <> InClose /\ m <> InError /\ ok = true
  | Deliver ok => ok = true
  | PublishEvent _ => True
  end.

Lemma events_of_app l k : events_of (l ++ k) = events_of l ++ events_of k.
Proof. apply omap_app. Qed.
Lemma published_app l k : published (l ++ k) = published l ++ published k.
Proof. apply omap_app. Qed.

(** ** The subscriptions of the SDK: [subscribe_ws] of [src/sdk/rust/src/client.rs]

    What its task hands to the callback, of the messages that come in. *)
Fixpoint received_events (msgs : list incoming) : list Event :=
  match msgs with
  | [] | InEnd :: _ | InError :: _ => []
  | InText (Some (WsEvent e)) :: msgs => e :: received_events msgs
  | _ :: msgs => received_events msgs
  end.
Inductive sdk_subscription := SdkNewBlocks | SdkTransactions | SdkContractEvents | SdkAllEvents.
Definition subscription_path (k : sdk_subscription) : string :=
  match k with
  | SdkNewBlocks => "/blocks"
  | SdkTransactions => "/transactions"
  | SdkContractEvents | SdkAllEvents => "/events"
  end.
Definition ws_scheme (scheme : string) : string :=
  if bool_decide (scheme = "http") then "ws" else if bool_decide (scheme = "https") then "wss" else scheme.

Lemma received_events_sent ms : received_events ((fun m => InText (Some m)) <$> ms) = events_of ms.
Proof. induction ms as [|[] ms IH]; cbn; by rewrite ?IH. Qed.

Section Facts.
Context `{HashOrder} {C : Type} `{BroadcastLaws C}.
Implicit Types (bus : EventBus C) (s : typed_socket (C := C)) (e : Event).

Definition run_typed actions s : typed_socket := foldl (fun s a => typed_step a s) s actions.

(** After a run, the socket has sent what was published and is not waiting. *)
Record delivered (cap : nat) (name : string) (actions : list ws_action) s : Prop := {
  dl_ok : bus_ok (ts_bus s);
  dl_capacity : bus_capacity (ts_bus s) = cap;
  dl_name : ts_name s = name;
  dl_open : open (ts_conn s) = true;
  dl_events : exists l, queue (ts_bus s) name (ts_rx s) = Some l /\
    events_of (sent (ts_conn s)) ++ l = filter (of_type name) (published actions);
  dl_pongs : length (filter is_pong (sent (ts_conn s))) = length (filter is_ping actions)
}.

Lemma recv_typed_spec s l :
  bus_ok (ts_bus s) -> queue (ts_bus s) (ts_name s) (ts_rx s) = Some l ->
  let '(r, bus) := recv_typed s in
  bus_ok bus /\ bus_capacity bus = bus_capacity (ts_bus s) /\
  r = (match l with e :: _ => Received e | [] => Empty end) /\ queue bus (ts_name s) (ts_rx s) = Some (tail l).
Proof.
  intros Hb Hq. unfold recv_typed. pose proof Hq as Hw. unfold queue in Hw.
  destruct (channels (ts_bus s) !! ts_name s) as [c|] eqn:Hc; [|done]. cbn in Hw.
  pose proof (channel_ok _ _ _ Hb Hc) as Hcap. destruct l as [|e l].
  - rewrite (recv_empty c _ Hw). split; [by apply put_channel_ok|]. split; [done|]. split; [done|].
    by rewrite queue_put, decide_True.
  - pose proof (recv_received c _ _ _ Hw) as Hr. pose proof (recv_waiting c _ (ts_rx s) _ _ Hw) as Hl.
    pose proof (recv_capacity c (ts_rx s)) as Hcc. destruct (bc_recv (ts_rx s) c) as [r c']. cbn in *.
    split; [apply put_channel_ok; [by rewrite Hcc|done]|]. split; [done|]. split; [done|].
    rewrite queue_put, decide_True by done. rewrite Hl. by rewrite decide_True.
Qed.

Lemma delivered_start name bus : bus_ok bus -> delivered (bus_capacity bus) name [] (handle_typed_socket name bus).
Proof.
  intros Hb. unfold handle_typed_socket. pose proof (subscribe_spec name bus Hb) as Hs.
  destruct (subscribe name bus) as [i bus']. destruct Hs as (Hb' & Hcap & Hi & _).
  constructor; [done..| |done]. by exists [].
Qed.

Lemma delivered_incoming cap name actions s m :
  m <> InClose -> m <> InError -> delivered cap name actions s ->
  delivered cap name (actions ++ [Incoming m true]) (typed_step (Incoming m true) s).
Proof.
  intros Hc He [Hb Hcap Hn Ho (l & Hl & Hev) Hp]. cbn [typed_step]. rewrite Ho.
  assert (published (actions ++ [Incoming m true]) = published actions) as Hpub
    by (rewrite published_app; apply app_nil_r).
  assert (sent (on_message m true (ts_conn s)) =
    sent (ts_conn s) ++ if is_ping (Incoming m true) then [WsPong] else []) as Hs.
  { destruct m as [[[]|]| | | |]; cbn; by rewrite ?app_nil_r. }
  constructor; cbn [with_conn ts_bus ts_name ts_rx ts_conn]; [done..| | |].
  - destruct m as [[[]|]| | | |]; done.
  - exists l. split; [done|]. rewrite Hpub, <- Hev, Hs, events_of_app. f_equal.
    by destruct (is_ping _); cbn; rewrite app_nil_r.
  - rewrite Hs, !filter_app, !length_app, Hp. f_equal. rewrite filter_cons. by destruct (is_ping _).
Qed.

Lemma delivered_deliver cap name actions s :
  delivered cap name actions s ->
  delivered cap name (actions ++ [Deliver true]) (typed_step (Deliver true) s).
Proof.
  intros [Hb Hcap Hn Ho (l & Hl & Hev) Hp]. cbn [typed_step]. rewrite Ho. rewrite <- Hn in Hl.
  pose proof (recv_typed_spec s l Hb Hl) as Hr. destruct (recv_typed s) as [r bus].
  destruct Hr as (Hb' & Hcap' & -> & Hq). rewrite Hn in Hq.
  assert (published (actions ++ [Deliver true]) = published actions) as Hpub
    by (rewrite published_app; apply app_nil_r).
  constructor; cbn [with_conn with_bus ts_bus ts_name ts_rx ts_conn]; [done|congruence|done| | |].
  - by destruct l.
  - exists (tail l). split; [done|]. rewrite Hpub, <- Hev. destruct l as [|e l]; [done|].
    cbn. rewrite events_of_app. by rewrite <- app_assoc.
  - rewrite filter_app, length_app, Nat.add_0_r, <- Hp. destruct l as [|e l]; [done|].
    cbn. rewrite filter_app, length_app. apply Nat.add_0_r.
Qed.

Lemma delivered_publish cap name actions s e :
  (length (filter (of_type name) (published actions ++ [e])) <=
    cap + length (events_of (sent (ts_conn s))))%nat ->
  delivered cap name actions s ->
  delivered cap name (actions ++ [PublishEvent e]) (typed_step (PublishEvent e) s).
Proof.
  intros Hlag [Hb Hcap Hn Ho (l & Hl & Hev) Hp]. cbn [typed_step].
  rewrite filter_app, <- Hev in Hlag. rewrite !length_app in Hlag. rewrite filter_cons, filter_nil in Hlag.
  destruct (publish_spec e (ts_bus s) Hb) as (Hb' & Hcap' & Hq).
  constructor; cbn [with_bus ts_bus ts_name ts_rx ts_conn]; [done|congruence|done..| |].
  - eexists. split.
    + apply (Hq _ _ _ Hl). intros Ht. rewrite decide_True in Hlag by done. cbn in Hlag. lia.
    + rewrite published_app, filter_app, <- Hev. cbn [published omap list_omap].
      rewrite filter_cons, filter_nil. case_decide as Ht; unfold of_type in Ht.
      * rewrite decide_True by done. by rewrite <- app_assoc.
      * rewrite decide_False by done. by rewrite app_nil_r.
  - rewrite filter_app, length_app, Nat.add_0_r. exact Hp.
Qed.

(** C17: the SDK's subscriber to [/blocks] or [/transactions] that stays connected, and is never behind by more than the
    capacity of the bus, is given every event of its type that is published after it connected,
    once and in order - what was not sent yet is waiting for it - and sent one pong for every ping, under
    any interleaving of messages, deliveries and publications. *)
Theorem typed_socket_delivers name bus actions :
  bus_ok bus -> Forall stays actions ->
  (forall pre e, pre ++ [PublishEvent e] `prefix_of` actions ->
    (length (filter (of_type name) (published pre ++ [e])) <= bus_capacity bus +
      length (events_of (sent (ts_conn (run_typed pre (handle_typed_socket name bus))))))%nat) ->
  let s := run_typed actions (handle_typed_socket name bus) in
  open (ts_conn s) = true /\
  (exists l, queue (ts_bus s) name (ts_rx s) = Some l /\
    received_events ((fun m => InText (Some m)) <$> sent (ts_conn s)) ++ l =
      filter (of_type name) (published actions)) /\
  length (filter is_pong (sent (ts_conn s))) = length (filter is_ping actions).
Proof.
  intros Hb Hst Hlag. cbv zeta. rewrite received_events_sent.
  assert (delivered (bus_capacity bus) name actions (run_typed actions (handle_typed_socket name bus))) as Hd;
    [|by destruct Hd].
  revert Hst Hlag. induction actions as [|a actions IH] using rev_ind; intros Hst Hlag; [by apply delivered_start|].
  apply Forall_app in Hst as [Hst Ha]. apply Forall_cons in Ha as [Ha _].
  assert (delivered (bus_capacity bus) name actions (run_typed actions (handle_typed_socket name bus))) as Hd.
  { apply IH; [done|]. intros pre e Hpre. apply Hlag. by apply prefix_app_r. }
  unfold run_typed. rewrite foldl_app. destruct a as [m ok|ok|e]; cbn in Ha.
  - destruct Ha as (Hc & He & ->). by apply delivered_incoming.
  - subst ok. by apply delivered_deliver.
  - apply delivered_publish; [|done]. apply (Hlag actions e (reflexivity _)).
Qed.

(** *** [/events] *)
Definition run_events actions (s : events_socket (C := C)) : events_socket :=
  foldl (fun (s : events_socket) a => events_step a s) s actions.

Definition doomed (s : events_socket (C := C)) : Prop := dead (es_all s) /\ events_of (sent (es_conn s)) = [].

Lemma recv_dead (s : AllEvents) : dead s -> exists s' : AllEvents, recv_all s = (Closed, s') /\ dead s'.
Proof.
  intros [Hf Hc]. unfold recv_all. unfold collected in Hc. rewrite (recv_empty _ _ Hc), Hf. by eexists.
Qed.
Lemma dead_hangs_up ok (s : events_socket) :
  dead (es_all s) -> open (es_conn (events_step (AllDeliver ok) s)) = false.
Proof.
  intros Hd. cbn [events_step]. destruct (open (es_conn s)) eqn:Ho; [|done].
  by destruct (recv_dead _ Hd) as (s' & -> & _).
Qed.
Lemma doomed_step a (s : events_socket) : doomed s -> doomed (events_step a s).
Proof.
  intros [Hd He]. destruct a as [a|m ok|ok]; cbn [events_step].
  - split; [by apply dead_run|done].
  - destruct (open _); [|by split]. split; [done|]. cbn [es_conn]. destruct m as [[[]|]| | | |]; try done.
    destruct ok; [|done]. cbn. by rewrite events_of_app, He.
  - destruct (open _); [|by split]. destruct (recv_dead _ Hd) as (s' & -> & Hd'). by split.
Qed.

(** A client of [/events] of a bus that nothing was published on or subscribed to before is never sent an
    event, whatever is published, and when its task next looks at its receiver after the first turn of
    the forwarding task, the connection is closed. *)
Theorem events_socket_dies bus actions ok :
  (0 < bus_capacity bus)%nat -> channels bus = ∅ ->
  let s := run_events (AllAction Turn :: actions) (handle_events_socket bus) in
  events_of (sent (es_conn s)) = [] /\ open (es_conn (events_step (AllDeliver ok) s)) = false.
Proof.
  intros _ Hn. assert (doomed (run_events (AllAction Turn :: actions) (handle_events_socket bus))) as [Hd He].
  { unfold run_events. cbn [foldl]. cut (doomed (events_step (AllAction Turn) (handle_events_socket bus))).
    - generalize (events_step (AllAction Turn) (handle_events_socket bus)).
      induction actions as [|a actions IH]; intros s Hs; [done|]. cbn [foldl]. by apply IH, doomed_step.
    - split; [by apply first_turn_dead|done]. }
  split; [exact He|by apply dead_hangs_up].
Qed.
End Facts.

(** ** Witnesses *)
#[local] Existing Instance canonical_order.

Definition socket_run : list ws_action :=
  [Incoming (InText (Some WsPing)) true; PublishEvent (status_event 1); PublishEvent (peer_event 2);
   Deliver true; Deliver true; PublishEvent (status_event 3); Incoming (InText None) true].

Lemma typed_socket_delivers_witness :
  let s := run_typed socket_run (handle_typed_socket (C := MemChannel) "node_status" small_bus) in
  sent (ts_conn s) = [WsPong; WsEvent (status_event 1)] /\
  exists l, queue (ts_bus s) "node_status" (ts_rx s) = Some l /\
    received_events ((fun m => InText (Some m)) <$> sent (ts_conn s)) ++ l = [status_event 1; status_event 3].
Proof.
  split; [vm_compute; reflexivity|].
  destruct (typed_socket_delivers "node_status" small_bus socket_run (bus_ok_empty 3 (Nat.lt_0_succ 2)))
    as (_ & Hl & _).
  - repeat constructor; discriminate.
  - intros pre e Hpre. apply Nat.le_trans with 3%nat; [|apply Nat.le_add_r].
    destruct Hpre as [k Hk]. assert (filter (of_type "node_status") (published socket_run) =
      filter (of_type "node_status") (published pre ++ [e]) ++ filter (of_type "node_status") (published k)) as Hf.
    { rewrite <- filter_app. f_equal. rewrite Hk. by rewrite !published_app. }
    apply (f_equal length) in Hf. rewrite length_app in Hf.
    assert (length (filter (of_type "node_status") (published socket_run)) = 2%nat) as H2 by (vm_compute; reflexivity).
    rewrite H2 in Hf. clear -Hf. lia.
  - destruct Hl as (l & Hl & He). exists l. split; [exact Hl|exact He].
Defined.

Lemma events_socket_dies_witness :
  open (es_conn (run_events [AllAction Turn; AllAction (Publish (status_event 1)); AllDeliver true]
    (handle_events_socket (C := MemChannel) small_bus))) = false.
Proof.
  apply (events_socket_dies (C := MemChannel) small_bus [AllAction (Publish (status_event 1))] true).
  - cbn. lia.
  - reflexivity.
Defined.
