(* ===== verification/Shell.v ===== *)
(** What the two menu programs share: [src/src/cli/interactive.rs] and
    [src/src/cli/cli_interface.rs] read lines from the terminal in a loop and act on a node.

    The terminal is a stream of lines, each with what the node's own task did while the program
    waited for it ([input]); after the end of the input every line is empty.  A loop has
    fuel, which runs out ([Busy]) only while the loop is still going; its answer does
    not depend on the fuel ([loop_mono]). *)
From S2P Require Import Prelude Wasm.

(** A line as [read_line] and [trim] leave it; [None] is one that is not UTF-8. *)
Record input (N : Type) := { text : option Bytes; meanwhile : N -> N }.
Arguments text {N} _.
Arguments meanwhile {N} _.

(** ** Numbers

    [str::parse] of an unsigned integer. *)
Fixpoint digits_value (acc : Z) (s : Bytes) : option Z :=
  match s with
  | [] => Some acc
  | c :: s => if (48 <=? c) && (c <=? 57) then digits_value (10 * acc + (c - 48)) s else None
  end.
Definition parse_unsigned (max : Z) (s : Bytes) : option Z :=
  match match s with c :: ((_ :: _) as s') => if c =? 43 then s' else s | _ => s end with
  | [] => None
  | s => v ← digits_value 0 s; if v <=? max then Some v else None
  end.

(** ** The state of a program

    [own] is what it keeps besides the node: the disk for the one, its flag and counters for the other. *)
Record shell (N F : Type) := {
  pos : nat;
  running : option N;
  own : F;
  said : list error
}.
Arguments pos {N F} _.
Arguments running {N F} _.
Arguments own {N F} _.
Arguments said {N F} _.

(** The files the programs read and write. *)
Class FileSystem (F : Type) := {
  fs_exists : Bytes -> F -> bool;
  fs_read_to_string : Bytes -> F -> result Bytes;
  fs_read : Bytes -> F -> result Bytes;
  fs_write : Bytes -> Bytes -> F -> result unit * F
}.

(** What a turn of a loop comes to: another turn, the end of the loop, a panic, or no fuel. *)
Inductive outcome (S : Type) :=
  | Again (s : S)
  | End (r : result unit) (s : S)
  | Panicked
  | Busy (s : S).
Arguments Again {S} _.
Arguments End {S} _ _.
Arguments Panicked {S}.
Arguments Busy {S} _.

Fixpoint loop {S} (body : nat -> S -> outcome S) (fuel : nat) (s : S) : outcome S :=
  match fuel with
  | O => Busy s
  | Datatypes.S f => match body f s with Again s => loop body f s | o => o end
  end.

(** A command in a loop: [cmd().await?]. *)
Definition command {S} (c : P S unit) (s : S) : outcome S :=
  match c s with
  | Some (Ok _, s) => Again s
  | Some (Err e, s) => End (Err e) s
  | None => Panicked
  end.
(** A loop in a loop: its error ends both. *)
Definition submenu {S} (o : outcome S) : outcome S :=
  match o with End (Ok _) s => Again s | _ => o end.

Section Shell.
Context {N F : Type} (lines : nat -> input N).
Abbreviation Sh := (shell N F).

Definition next_line (s : Sh) : Sh :=
  {| pos := Datatypes.S (pos s); running := meanwhile (lines (pos s)) <$> running s;
     own := own s; said := said s |}.

Definition read_line : P Sh Bytes := fun s =>
  Some (ok_or (text (lines (pos s))) (Error "stream did not contain valid UTF-8" []), next_line s).

Definition lift_result {A} (r : result A) : P Sh A := fun s => Some (r, s).
Definition say (template : string) (args : list arg) : P Sh unit := fun s =>
  Some (Ok tt, {| pos := pos s; running := running s; own := own s; said := said s ++ [Error template args] |}).
Definition get {A} (f : Sh -> A) : P Sh A := fun s => Some (Ok (f s), s).
Definition put_running (n : option N) : P Sh unit := fun s =>
  Some (Ok tt, {| pos := pos s; running := n; own := own s; said := said s |}).
Definition put_own (f : F) : P Sh unit := fun s =>
  Some (Ok tt, {| pos := pos s; running := running s; own := f; said := said s |}).

(** What the node's own task did between two lines. *)
Fixpoint passed (from n : nat) (r : option N) : option N :=
  match n with
  | O => r
  | Datatypes.S n => passed (Datatypes.S from) n (meanwhile (lines from) <$> r)
  end.

(** Nothing more comes from the terminal. *)
Definition at_end (s : Sh) : Prop := forall k, (pos s <= k)%nat -> text (lines k) = Some [].

Lemma at_end_next s : at_end s -> at_end (next_line s).
Proof. intros He k Hk. apply He. cbn in Hk. lia. Qed.
Lemma passed_some from n r : is_Some r -> is_Some (passed from n r).
Proof. revert from r. induction n as [|n IH]; intros from r Hr; [done|]. apply IH. by apply fmap_is_Some. Qed.

(** A command leaves the node alone if it ends where the node's own task would have brought it. *)
Definition idle (s s' : Sh) : Prop := exists n, pos s' = (pos s + n)%nat /\ running s' = passed (pos s) n (running s).

Lemma passed_app from n m r : passed from (n + m) r = passed (from + n) m (passed from n r).
Proof.
  revert from r. induction n as [|n IH]; intros from r; cbn [passed Nat.add].
  - by rewrite Nat.add_0_r.
  - rewrite IH. by rewrite <- plus_n_Sm.
Qed.
Lemma idle_refl s : idle s s.
Proof. exists 0%nat. split; [lia|done]. Qed.
Lemma idle_trans s1 s2 s3 : idle s1 s2 -> idle s2 s3 -> idle s1 s3.
Proof.
  intros (n & Hp & Hr) (m & Hp' & Hr'). exists (n + m)%nat. split; [lia|].
  by rewrite passed_app, Hr', Hr, Hp.
Qed.
Lemma idle_next s : idle s (next_line s).
Proof. exists 1%nat. split; [cbn; lia|done]. Qed.
Lemma idle_running s s' : idle s s' -> is_Some (running s) -> is_Some (running s').
Proof. intros (n & _ & ->). apply passed_some. Qed.
End Shell.

(** ** Loops *)

Definition busy {S} (o : outcome S) : bool := match o with Busy _ => true | _ => false end.

(** More fuel changes no answer. *)
Lemma loop_mono {S} (body : nat -> S -> outcome S) :
  (forall f f' s, (f <= f')%nat -> busy (body f s) = false -> body f' s = body f s) ->
  forall f f' s, (f <= f')%nat -> busy (loop body f s) = false -> loop body f' s = loop body f s.
Proof.
  intros Hb f. induction f as [|f IH]; intros f' s Hf Hn; [done|]. destruct f' as [|f']; [lia|].
  cbn [loop] in *. rewrite (Hb f f' s); [|lia|by destruct (body f s)].
  destruct (body f s) as [s'| | |]; [|done..]. apply IH; [lia|done].
Qed.

(** A loop whose turns keep an invariant without ending never answers. *)
Lemma loop_busy {S} (inv : S -> Prop) (body : nat -> S -> outcome S) :
  (forall f s, inv s -> exists s', body f s = Again s' /\ inv s') ->
  forall f s, inv s -> busy (loop body f s) = true.
Proof.
  intros Hb f. induction f as [|f IH]; intros s Hs; [done|]. cbn [loop].
  destruct (Hb f s Hs) as (s' & -> & Hs'). by apply IH.
Qed.

(** An invariant of the turns holds at every time. *)
Definition holds {S} (inv : S -> Prop) (o : outcome S) : Prop :=
  match o with Again s | End _ s | Busy s => inv s | Panicked => True end.
Lemma loop_holds {S} (inv : S -> Prop) (body : nat -> S -> outcome S) :
  (forall f s, inv s -> holds inv (body f s)) -> forall f s, inv s -> holds inv (loop body f s).
Proof.
  intros Hb f. induction f as [|f IH]; intros s Hs; [done|]. cbn [loop]. specialize (Hb f s Hs).
  destruct (body f s) as [s'| | |]; [|done..]. by apply IH.
Qed.

(** ** For the witnesses

    A disk in memory, and a terminal on which lines are typed and then the input ends, next to a node that
    does nothing by itself. *)
#[export] Instance mem_files : FileSystem (gmap Bytes Bytes) := {
  fs_exists path f := bool_decide (is_Some (f !! path));
  fs_read_to_string path f := ok_or (f !! path) (Error "No such file or directory" []);
  fs_read path f := ok_or (f !! path) (Error "No such file or directory" []);
  fs_write path bs f := (Ok tt, <[path := bs]> f)
}.
Definition typing {N} (ls : list Bytes) : nat -> input N := fun k =>
  {| text := Some (nth k ls []); meanwhile := id |}.
