(* ===== verification/Interactive.v ===== *)
(** The interactive command line: [src/src/cli/interactive.rs].

    The menus are loops over the lines of the terminal ([Shell]); the items are commands on
    the running node.  The background task of the node acts while the program waits for a
    line.  Of what is printed the model keeps the reports of the commands, not the menus. *)
From S2P Require Import Prelude Crypto Transaction Floats Mining Block StateTree StateManager.
From S2P Require Import Graph Store DagIndex BlockDag DagTraversal BlueSet GhostDag Daa Finality.
From S2P Require Import Mempool Kv Wasm Contracts Executor BlockStore Pruning Producer Node.
From S2P Require Import Wallet Shell.

Section Interactive.
Context `{Sha256} `{SecpKeys} `{LibM} `{HashOrder} `{Hex} `{HexDecode} `{Wasmtime}
  {St : Type} `{BlockStoreI St} {Db : Type} `{KvStore Db} `{Codec ContractInfo}
  {PDb : Type} `{CfStore PDb} `{Codec Block} `{Codec BlockMetadata} `{Codec Transaction}
  `{Codec StateSnapshot} `{Codec PruningMetadata} `{Codec Wallet} {F : Type} `{FileSystem F}.
Abbreviation Node := (NodeRuntime St Db PDb).
Abbreviation Sh := (shell Node F).

(** The terminal; the clock, at the time of a line; opening the databases of a new node; the
    random bytes of a new key. *)
Context (lines : nat -> input Node) (clock : nat -> Z * Z) (open_node : nat -> option (result Node))
  (random : nat -> Bytes).

Definition prompt : P Sh Bytes := read_line lines.
Definition read_choice : P Sh Z := line ← prompt; mret (default 0 (parse_unsigned u32_max line)).

(** *** Wallet files *)
Definition load_from_file (path : Bytes) (f : F) : result Wallet :=
  json ← fs_read_to_string path f; deserialize json.
Definition write_wallet (w : Wallet) (path : Bytes) (f : F) : result unit * F :=
  match serialize w with Err e => (Err e, f) | Ok json => fs_write path json f end.
Definition save_to_file (w : Wallet) (path : Bytes) : P Sh unit := fun s =>
  let '(r, f) := write_wallet w path (own s) in (put_own f ≫= fun _ => lift_result r) s.
Definition load (path : Bytes) : P Sh Wallet := fun s => Some (load_from_file path (own s), s).

(** *** Addresses *)
Definition address_from_wallet (w : Wallet) : result Address :=
  if negb (starts_with cyt (wallet_address w)) then err "Invalid wallet address"
  else match hex_decode (drop 3 (wallet_address w)) with
       | None => err "FromHexError"
       | Some data => if negb (length data =? 20)%nat then err "Invalid wallet address length" else Ok data
       end.
Definition parse_address (line : Bytes) : result Address :=
  if negb (starts_with cyt line) then err "Address must start with 'cyt'"
  else match hex_decode (drop 3 line) with
       | None => err "FromHexError"
       | Some data => if negb (length data =? 20)%nat then err "Invalid address length" else Ok data
       end.

Definition not_running : P Sh unit := say "Node is not running. Start the node first." [].

(** *** The node menu *)
Definition start_node : P Sh unit :=
  node ← get running;
  match node with
  | Some _ => say "Node already running" []
  | None =>
      i ← get pos;
      match open_node i with
      | None => fun _ => None
      | Some r =>
          n ← lift_result r;
          put_running (Some n);;
          say "Node started." []
      end
  end.

Definition start_mining_cmd : P Sh unit :=
  node ← get running;
  match node with
  | Some n => put_running (Some (start_mining n));; say "Mining enabled" []
  | None => say "Node not running. Please start the node first." []
  end.

Definition show_node_status : P Sh unit :=
  node ← get running;
  match node with
  | Some n =>
      let tip_blocks := get_tip_blocks (blockdag n) in
      let height := foldr Z.max 0 ((fun b => chain_height (header b)) <$> tip_blocks) in
      say "Block height: {}" [ArgNum height];;
      say "DAG tips: {}" [ArgNum (Z.of_nat (length tip_blocks))];;
      say "Peer count: {}" [ArgNum (Z.of_nat (get_peer_count n))];;
      say "Mempool size: {}" [ArgNum (Z.of_nat (get_mempool_size n))];;
      say "Mining enabled: {}" [ArgNum (if mining_enabled n then 1 else 0)]
  | None => say "Node is not running." []
  end.

(** *** Transactions *)

(** The nonce of the next transaction, 0 without a node. *)
Definition nonce_of (a : Address) : P Sh Z :=
  node ← get running; mret (match node with Some n => node_get_nonce a n | None => 0 end).

(** [node.add_transaction(tx).await?] *)
Definition add_to_node (tx : Transaction) (done_ : string) : P Sh unit :=
  node ← get running;
  match node with
  | Some n =>
      i ← get pos;
      let '(r, n) := node_add_transaction (clock i).1 (clock i).2 tx n in
      put_running (Some n);;
      lift_result r;;
      say done_ []
  | None => not_running
  end.

Definition transfer_cts : P Sh unit :=
  wallet_path ← prompt;
  wallet ← load wallet_path;
  to ← prompt;
  amount_str ← prompt;
  let amount := default 0 (parse_unsigned u64_max amount_str) in
  from_addr ← lift_result (address_from_wallet wallet);
  to_addr ← lift_result (parse_address to);
  nonce ← nonce_of from_addr;
  tx ← lift_result (sign (new_transfer from_addr to_addr amount nonce 21000 1) (private_key wallet));
  add_to_node tx "Transaction submitted to mempool.".

Definition check_balance : P Sh unit :=
  address_str ← prompt;
  addr ← lift_result (parse_address address_str);
  node ← get running;
  match node with
  | Some n => say "Balance: {} CTS" [ArgNum (node_get_balance addr n)]
  | None => not_running
  end.

Definition show_wallet_address : P Sh unit :=
  wallet_path ← prompt;
  wallet ← load wallet_path;
  say "Address: {}" [ArgHex (wallet_address wallet)].

(** *** Smart contracts *)
Definition deploy_contract_cmd : P Sh unit :=
  wallet_path ← prompt;
  wasm_path ← prompt;
  wallet ← load wallet_path;
  f ← get own;
  wasm_code ← lift_result (fs_read wasm_path f);
  from_addr ← lift_result (address_from_wallet wallet);
  nonce ← nonce_of from_addr;
  tx ← lift_result (sign (new_deploy from_addr wasm_code [] nonce 1000000 1) (private_key wallet));
  add_to_node tx "Contract deployment transaction submitted.".

(** Arguments in hexadecimal after "0x", or as they are. *)
Definition args_bytes (args : Bytes) : Bytes :=
  if starts_with [48; 120] args then default [] (hex_decode (drop 2 args)) else args.

Definition call_contract_cmd : P Sh unit :=
  wallet_path ← prompt;
  contract_addr ← prompt;
  method ← prompt;
  args ← prompt;
  wallet ← load wallet_path;
  from_addr ← lift_result (address_from_wallet wallet);
  nonce ← nonce_of from_addr;
  contract_address ← lift_result (parse_address contract_addr);
  tx ← lift_result (sign (new_call from_addr contract_address method (args_bytes args) nonce 500000 1)
                      (private_key wallet));
  add_to_node tx "Contract call transaction submitted.".

Definition query_contract_state : P Sh unit :=
  contract_addr ← prompt;
  contract_address ← lift_result (parse_address contract_addr);
  node ← get running;
  match node with
  | Some n =>
      match get_contract contract_address (contract_registry n) with
      | Some info =>
          say "Contract {} found." [ArgHex contract_addr];;
          say "Bytecode ({} bytes)" [ArgNum (Z.of_nat (length (bytecode info)))];;
          say "Metadata ({} bytes)" [ArgNum (Z.of_nat (length (metadata info)))]
      | None => say "Contract not found in registry." []
      end
  | None => not_running
  end.

Fixpoint say_contracts (l : list ContractInfo) : P Sh unit :=
  match l with
  | [] => mret tt
  | c :: l =>
      say " - {} ({} bytes)" [ArgHex (address c); ArgNum (Z.of_nat (length (bytecode c)))];; say_contracts l
  end.
Definition list_contracts : P Sh unit :=
  node ← get running;
  match node with
  | Some n =>
      list ← lift_result (list_all_contracts (contract_registry n));
      say "Found {} contracts:" [ArgNum (Z.of_nat (length list))];;
      say_contracts list
  | None => not_running
  end.

(** *** The tools of the SDK *)
Definition generate_wallet : P Sh unit :=
  i ← get pos;
  match wallet_new (random i) with
  | None => fun _ => None
  | Some wallet =>
      say "Address: {}" [ArgHex (wallet_address wallet)];;
      say "Public Key: {}" [ArgHex (hex_encode (serialize_public_key (wallet_public_key wallet)))];;
      save ← prompt;
      if match head save with Some c => (c =? 121) || (c =? 89) | None => false end
      then path ← prompt; save_to_file wallet path;; say "Saved wallet to {}" [ArgHex path]
      else mret tt
  end.

Definition sign_transaction_cmd : P Sh unit :=
  wallet_path ← prompt;
  wallet ← load wallet_path;
  message ← prompt;
  signature ← lift_result (sign_message wallet message);
  say "Signature (hex): {}" [ArgHex (hex_encode signature)].

Definition verify_signature_cmd : P Sh unit :=
  wallet_path ← prompt;
  wallet ← load wallet_path;
  message ← prompt;
  signature_hex ← prompt;
  signature ← lift_result (ok_or (hex_decode signature_hex) (Error "FromHexError" []));
  match verify_message wallet message signature with
  | None => fun _ => None
  | Some r => ok ← lift_result r; say "Valid signature: {}" [ArgNum (if ok : bool then 1 else 0)]
  end.

Definition export_private_key_cmd : P Sh unit :=
  wallet_path ← prompt;
  wallet ← load wallet_path;
  say "Private key (hex): {}" [ArgHex (hex_encode (secret_bytes (private_key wallet)))].

(** *** The menus *)
Definition menu (items : Z -> Sh -> outcome Sh) : nat -> Sh -> outcome Sh := fun _ s =>
  match read_choice s with
  | Some (Ok choice, s) => items choice s
  | Some (Err e, s) => End (Err e) s
  | None => Panicked
  end.
Definition invalid_option : Sh -> outcome Sh := command (say "Invalid option" []).
Definition back : Sh -> outcome Sh := End (Ok tt).

Definition node_menu : nat -> Sh -> outcome Sh := loop (menu (fun choice =>
  match choice with
  | 1 => command start_node
  | 2 => command start_mining_cmd
  | 3 => command show_node_status
  | 4 => back
  | _ => invalid_option
  end)).
Definition transaction_menu : nat -> Sh -> outcome Sh := loop (menu (fun choice =>
  match choice with
  | 1 => command transfer_cts
  | 2 => command check_balance
  | 3 => command show_wallet_address
  | 4 => back
  | _ => invalid_option
  end)).
Definition smart_contract_menu : nat -> Sh -> outcome Sh := loop (menu (fun choice =>
  match choice with
  | 1 => command deploy_contract_cmd
  | 2 => command call_contract_cmd
  | 3 => command query_contract_state
  | 4 => command list_contracts
  | 5 => back
  | _ => invalid_option
  end)).
Definition sdk_menu : nat -> Sh -> outcome Sh := loop (menu (fun choice =>
  match choice with
  | 1 => command generate_wallet
  | 2 => command sign_transaction_cmd
  | 3 => command verify_signature_cmd
  | 4 => command export_private_key_cmd
  | 5 => back
  | _ => invalid_option
  end)).

(** The background task is aborted, the node dropped. *)
Definition shutdown_node : P Sh unit := put_running None.

Definition main_menu (fuel : nat) : Sh -> outcome Sh := menu (fun choice s =>
  match choice with
  | 1 => submenu (node_menu fuel s)
  | 2 => submenu (transaction_menu fuel s)
  | 3 => submenu (smart_contract_menu fuel s)
  | 4 => submenu (sdk_menu fuel s)
  | 5 => command (say "HELP" []) s
  | 6 => match shutdown_node s with Some (r, s) => End r s | None => Panicked end
  | _ => command (say "Invalid option, please select a number from the menu." []) s
  end) fuel.
Definition interactive_run : nat -> Sh -> outcome Sh := loop main_menu.
End Interactive.

(** ** What the commands can do *)
Section InteractiveFacts.
Context `{Sha256} `{!Sha256Laws} `{HexDecodeLaws} `{SecpKeysLaws} `{!SecpLaws} `{LibM} `{HashOrder} `{Wasmtime}
  {St : Type} `{BlockStoreI St} {Db : Type} `{KvStore Db} `{Codec ContractInfo}
  {PDb : Type} `{CfStore PDb} `{Codec Block} `{Codec BlockMetadata} `{Codec Transaction}
  `{Codec StateSnapshot} `{Codec PruningMetadata} `{Codec Wallet} {F : Type} `{FileSystem F}.
Abbreviation Node := (NodeRuntime St Db PDb).
Abbreviation Sh := (shell Node F).
Context (lines : nat -> input Node) (clock : nat -> Z * Z) (open_node : nat -> option (result Node))
  (random : nat -> Bytes).
Implicit Types s : Sh.
Abbreviation run := (interactive_run lines clock open_node random).

(** *** Refused commands: an error, and a node left to its own task *)
Definition refused {A} (c : P Sh A) s : Prop := exists e s', c s = Some (Err e, s') /\ idle lines s s'.

Lemma refused_ok {A B} (c : P Sh A) (f : A -> P Sh B) a s s1 :
  c s = Some (Ok a, s1) -> idle lines s s1 -> refused (f a) s1 -> refused (c ≫= f) s.
Proof.
  intros Hc Hi (e & s' & Hf & Hi'). exists e, s'. split; [|by apply (idle_trans _ _ s1)].
  unfold mbind, P_bind. by rewrite Hc.
Qed.
Lemma refused_prompt {B} (f : Bytes -> P Sh B) s :
  (forall line, refused (f line) (next_line lines s)) -> refused (prompt lines ≫= f) s.
Proof.
  intros Hf. destruct (text (lines (pos s))) as [line|] eqn:Ht.
  - apply (refused_ok _ _ line _ (next_line lines s)); [|apply idle_next|apply Hf].
    unfold prompt, read_line. by rewrite Ht.
  - eexists _, (next_line lines s). split; [|apply idle_next].
    unfold mbind, P_bind, prompt, read_line. by rewrite Ht.
Qed.
Lemma refused_lift {A B} (r : result A) (f : A -> P Sh B) s :
  (forall a, r = Ok a -> refused (f a) s) -> refused (lift_result r ≫= f) s.
Proof.
  intros Hf. destruct r as [a|e]; [|eexists _, s; split; [done|apply idle_refl]].
  apply (refused_ok _ _ a _ s); [done|apply idle_refl|by apply Hf].
Qed.
Lemma refused_get {A B} (g : Sh -> A) (f : A -> P Sh B) s : refused (f (g s)) s -> refused (get g ≫= f) s.
Proof. intros Hf. by apply (refused_ok _ _ (g s) _ s); [|apply idle_refl|]. Qed.
Lemma refused_nonce {B} a (f : Z -> P Sh B) s : (forall z, refused (f z) s) -> refused (nonce_of a ≫= f) s.
Proof. intros Hf. eapply (refused_ok _ _ _ _ s); [done|apply idle_refl|apply Hf]. Qed.

Lemma refused_add tx message s :
  is_Some (running s) -> is_ok (Transaction.validate_basic tx) = false -> refused (add_to_node clock tx message) s.
Proof.
  intros [n Hn] Hv. unfold add_to_node. apply refused_get. rewrite Hn. apply refused_get.
  assert (exists e, node_add_transaction (clock (pos s)).1 (clock (pos s)).2 tx n = (Err e, n)) as [e ->].
  { unfold node_add_transaction, Mempool.validate_transaction.
    destruct (Transaction.validate_basic tx) as [[]|e]; [done|by exists e]. }
  eexists e, _. split; [done|]. exists 0%nat. split; [cbn; lia|]. cbn. by rewrite Hn.
Qed.

(** *** The wallets of this program *)

(** The address of the wallet, which is made from the digest of the whole public key, is not the one the
    node finds for the key. *)
Definition foreign (sk : SecretKey) : Prop :=
  take 20 (sha256 (serialize_public_key (public_key sk))) <> address_of (public_key sk).
Definition own_wallets (f : F) : Prop :=
  forall path w, load_from_file path f = Ok w -> exists sk, w = from_private_key sk /\ foreign sk.

Lemma own_address sk :
  address_from_wallet (from_private_key sk) = Ok (take 20 (sha256 (serialize_public_key (public_key sk)))).
Proof.
  unfold address_from_wallet, from_private_key, public_key_to_address. cbn [wallet_address].
  set (a := take 20 _). assert (length a = 20%nat) as Hl by (unfold a; rewrite length_take, sha256_length; done).
  assert (Forall is_byte a) as Hb by (apply Forall_take, sha256_bytes).
  rewrite starts_with_app. cbn [negb]. change 3%nat with (length cyt).
  rewrite drop_app_length, hex_roundtrip by done. by rewrite Hl.
Qed.

Lemma refused_load {B} path (f : Wallet -> P Sh B) s :
  own_wallets (own s) -> (forall sk, foreign sk -> refused (f (from_private_key sk)) s) ->
  refused (load path ≫= f) s.
Proof.
  intros Ho Hf. unfold load. destruct (load_from_file path (own s)) as [w|e] eqn:Hw.
  - destruct (Ho path w Hw) as (sk & -> & Hsk).
    apply (refused_ok _ _ (from_private_key sk) _ s); [by rewrite Hw|apply idle_refl|by apply Hf].
  - exists e, s. split; [|apply idle_refl]. unfold mbind, P_bind. by rewrite Hw.
Qed.

(** Signing for the wallet's address and handing the transaction to the node. *)
Lemma refused_sign sk tx message s :
  foreign sk -> from tx = take 20 (sha256 (serialize_public_key (public_key sk))) -> is_Some (running s) ->
  refused (tx' ← lift_result (sign tx sk); add_to_node clock tx' message) s.
Proof.
  intros Hsk Hf Hn. apply refused_lift. intros tx' Hs. apply refused_add; [done|].
  apply (foreign_sender_refused sk tx tx' Hs). by rewrite Hf.
Qed.

(** C34: the wallets this program makes cannot be used with it.  Once a node runs, a transfer, a deployment and a call
    of a contract with such a wallet end in an error whatever is typed - and an error of a command ends the
    whole program - and leave the node as its own task has it, unless the two ways of deriving an
    address agree on the key. *)
Theorem interactive_never_submits s :
  is_Some (running s) -> own_wallets (own s) ->
  Forall (fun c => exists e s', command c s = End (Err e) s' /\ idle lines s s')
    [transfer_cts lines clock; deploy_contract_cmd lines clock; call_contract_cmd lines clock].
Proof.
  intros Hn Ho. cut (Forall (fun c => refused c s)
    [transfer_cts lines clock; deploy_contract_cmd lines clock; call_contract_cmd lines clock]).
  { intros Hall. apply (Forall_impl _ _ _ Hall). intros c (e & s' & Hc & Hi). exists e, s'. unfold command. by rewrite Hc. }
  assert (forall s, is_Some (running s) -> is_Some (running (next_line lines s))) as Hnext
    by (intros s1 Hs1; by apply fmap_is_Some).
  repeat constructor.
  - apply refused_prompt. intros path. apply refused_load; [done|]. intros sk Hsk.
    do 2 (apply refused_prompt; intros ?). apply refused_lift. intros a Ha. rewrite own_address in Ha.
    apply refused_lift. intros b _. apply refused_nonce. intros z. injection Ha as <-.
    apply refused_sign; [done|done|]. by do 3 apply Hnext.
  - do 2 (apply refused_prompt; intros ?). apply refused_load; [done|]. intros sk Hsk. apply refused_get.
    apply refused_lift. intros code _. apply refused_lift. intros a Ha. rewrite own_address in Ha.
    apply refused_nonce. intros z. injection Ha as <-. apply refused_sign; [done|done|]. by do 2 apply Hnext.
  - do 4 (apply refused_prompt; intros ?). apply refused_load; [done|]. intros sk Hsk.
    apply refused_lift. intros a Ha. rewrite own_address in Ha. apply refused_nonce. intros z.
    apply refused_lift. intros b _. injection Ha as <-. apply refused_sign; [done|done|]. by do 4 apply Hnext.
Qed.

(** *** The loops *)

Lemma read_choice_spec s :
  read_choice lines s =
    Some (match text (lines (pos s)) with
          | Some line => Ok (default 0 (parse_unsigned u32_max line))
          | None => Err (Error "stream did not contain valid UTF-8" [])
          end, next_line lines s).
Proof.
  unfold read_choice, prompt, mbind, P_bind, read_line. by destruct (text (lines (pos s))) as [line|].
Qed.

(** When the terminal is closed in the main menu, the program never ends: every line it reads is empty, which
    is the choice 0, which is invalid. *)
Theorem interactive_hangs_at_end s : at_end lines s -> forall fuel, busy (run fuel s) = true.
Proof.
  intros He fuel. apply (loop_busy (at_end lines)); [|done]. clear s He fuel. intros f s He.
  unfold main_menu, menu. rewrite read_choice_spec. rewrite (He (pos s) (le_n _)). cbn.
  eexists. split; [done|]. exact (at_end_next _ _ He).
Qed.

(** The answer of the program does not depend on the fuel. *)
Lemma interactive_run_mono f f' s : (f <= f')%nat -> busy (run f s) = false -> run f' s = run f s.
Proof.
  apply loop_mono. clear f f' s. intros f f' s Hf. unfold main_menu, menu. rewrite read_choice_spec.
  destruct (text _) as [line|]; [|done]. set (s' := next_line lines s). clearbody s'.
  assert (forall items, busy (submenu (loop (menu lines items) f s')) = false ->
    submenu (loop (menu lines items) f' s') = submenu (loop (menu lines items) f s')) as Hm.
  { intros items Hb. f_equal. apply (loop_mono (menu lines items)); [done|done|].
    by destruct (loop (menu lines items) f s') as [|[]| |]. }
  destruct (default 0 (parse_unsigned u32_max line)) as [|p|p]; [done| |done].
  repeat (destruct p as [p|p|]; try done); apply Hm.
Qed.

(** The program ends without an error only when 6 is chosen in the main menu, and it leaves no node running; with
    any fuel that suffices the end is the same. *)
Theorem interactive_ends_by_exit f s s' :
  run f s = End (Ok tt) s' ->
  running s' = None /\ (exists line, text (lines (pred (pos s'))) = Some line /\ parse_unsigned u32_max line = Some 6) /\
  forall f', (f <= f')%nat -> run f' s = End (Ok tt) s'.
Proof.
  intros Hr. cut (running s' = None /\
    exists line, text (lines (pred (pos s'))) = Some line /\ parse_unsigned u32_max line = Some 6).
  { intros [Hn Hl]. split; [done|]. split; [done|]. intros f' Hf. rewrite <- Hr.
    apply interactive_run_mono; [done|]. by rewrite Hr. }
  revert s Hr. induction f as [|f IH]; intros s Hr; [done|]. unfold interactive_run in Hr, IH. cbn [loop] in Hr.
  unfold main_menu in Hr at 1. unfold menu in Hr at 1. rewrite read_choice_spec in Hr.
  destruct (text (lines (pos s))) as [line|] eqn:Ht; [|done].
  assert (forall (o : outcome Sh), match submenu o with End (Ok _) _ => False | _ => True end) as Hsub
    by (by intros [|[]| |]).
  destruct (parse_unsigned u32_max line) as [c|] eqn:Hc; cbn [default from_option] in Hr; [|by apply (IH _ Hr)].
  destruct (decide (c = 6)) as [->|Hne].
  { injection Hr as <-. split; [done|]. exists line. split; [exact Ht|exact Hc]. }
  match type of Hr with match ?o with _ => _ end = _ => assert (match o with End (Ok _) _ => False | _ => True end) as Ho end.
  { destruct c as [|p|p]; [done| |done]. repeat (destruct p as [p|p|]; try done); apply Hsub. }
  match type of Hr with match ?o with _ => _ end = _ => destruct o as [s1|r s1| |] end; [by apply (IH _ Hr)| |done..].
  by injection Hr as -> _.
Qed.
End InteractiveFacts.

(** ** Witnesses *)
#[local] Existing Instances checksum_sha checksum_laws toy_secp toy_secp_laws constant_exp canonical_order.

(** A wallet file holds the key. *)
#[local] Instance wallet_codec : Codec Wallet := {
  serialize w := Ok [if private_key w : bool then 1 else 0];
  deserialize bs :=
    match bs with
    | [1] => Ok (from_private_key toy_key)
    | [0] => Ok (from_private_key other_key)
    | _ => err "invalid wallet"
    end
}.

Definition MemNode : Type := NodeRuntime MemStore MemDb MemCf.
Definition wallet_files : gmap Bytes Bytes := {[ [119] := [1] ]}.
Definition at_menu (n : option MemNode) : shell MemNode (gmap Bytes Bytes) :=
  {| pos := 0; running := n; own := wallet_files; said := [] |}.
Definition no_clock (_ : nat) : Z * Z := (0, 0).
Definition no_random (_ : nat) : Bytes := [].
Definition open_idle (_ : nat) : option (result MemNode) := Some (Ok idle_node).

Lemma toy_foreign (sk : @SecretKey toy_secp) : foreign sk.
Proof. destruct sk; apply (bool_decide_unpack _); vm_compute; exact I. Qed.
Lemma toy_own_wallets (f : gmap Bytes Bytes) : own_wallets f.
Proof.
  intros path w. unfold load_from_file. destruct (fs_read_to_string path f) as [bs|e]; [|done]. cbn.
  destruct bs as [|[|[]|] []]; try done; intros [= <-]; eexists; (split; [done|]); apply toy_foreign.
Qed.

(** Wallet, recipient, amount. *)
Definition transfer_typed : nat -> input MemNode :=
  typing [[119]; [99; 121; 116] ++ hex_encode (replicate 20 2); [53]].

Lemma interactive_never_submits_witness :
  exists e s', command (transfer_cts transfer_typed no_clock) (at_menu (Some idle_node)) = End (Err e) s' /\
    idle transfer_typed (at_menu (Some idle_node)) s'.
Proof.
  pose proof (interactive_never_submits transfer_typed no_clock (at_menu (Some idle_node))
    (ex_intro _ idle_node eq_refl) (toy_own_wallets _)) as Hall.
  apply Forall_cons in Hall as [Ht _]. exact Ht.
Defined.

Lemma interactive_hangs_at_end_witness :
  busy (interactive_run (typing []) no_clock open_idle no_random 1000 (at_menu None)) = true.
Proof.
  apply (interactive_hangs_at_end (typing []) no_clock open_idle no_random).
  intros k _. destruct k; reflexivity.
Defined.

(** Start the node, go back, exit. *)
Lemma interactive_ends_by_exit_witness :
  exists s', interactive_run (typing [[49]; [49]; [52]; [54]]) no_clock open_idle no_random 3 (at_menu None) = End (Ok tt) s' /\
    running s' = None.
Proof.
  eexists. split; [vm_compute; reflexivity|].
  eapply (interactive_ends_by_exit (typing [[49]; [49]; [52]; [54]]) no_clock open_idle no_random 3 (at_menu None)).
  vm_compute. reflexivity.
Defined.
