(* ===== verification/Cli.v ===== *)
(** The program [cyt]: [src/src/main.rs] and [src/src/cli/cli.rs].

    A machine has files, the processes that [cyt node start] left running and, under
    their URLs, the HTTP servers that can be reached from it.  [dispatch] runs one
    command; the commands that talk to a server are those of [Client].  How the arguments
    are read is an argument; the default values of the options are written out here.  The
    menus that start without arguments are [Interactive]. *)
From S2P Require Import Prelude Crypto Transaction Floats Mining Block StateTree StateManager.
From S2P Require Import Graph Store DagIndex BlockDag DagTraversal BlueSet GhostDag Daa Finality.
From S2P Require Import Mempool Kv Wasm Contracts Executor BlockStore Pruning Producer Node NodeInv.
From S2P Require Import Peers Gossip Sync P2p Discovery Wallet Rpc Client Shell Interactive.

(** ** The command line *)
Inductive NodeCommands := Start (listen_addr rpc_addr : Bytes).
Inductive WalletCommands := Create (output : option Bytes) | WalletBalance (address rpc_url : Bytes).
Inductive TxCommands := Send (wallet to : Bytes) (amount : Z) (rpc_url : Bytes).
Inductive ContractCommands :=
  | Deploy (wasm : Bytes) (wallet : option Bytes) (rpc_url : Bytes)
  | Call (contract method : Bytes) (args wallet : option Bytes) (rpc_url : Bytes).
Inductive Commands :=
  | NodeCommand (node_command : NodeCommands)
  | WalletCommand (wallet_command : WalletCommands)
  | TxCommand (tx_command : TxCommands)
  | ContractCommand (contract_command : ContractCommands).

(** The commands with the options that were given. *)
Definition default_rpc_url : Bytes := ascii_bytes "http://127.0.0.1:3000".
Definition default_tx_url : Bytes := ascii_bytes "http://127.0.0.0.1:3000".
Definition start_args (listen_addr rpc_addr : option Bytes) : Commands :=
  NodeCommand (Start (default (ascii_bytes "/ip4/0.0.0.0/tcp/0") listen_addr)
                     (default (ascii_bytes "127.0.0.1:3000") rpc_addr)).
Definition balance_args (address : Bytes) (rpc_url : option Bytes) : Commands :=
  WalletCommand (WalletBalance address (default default_rpc_url rpc_url)).
Definition send_args (wallet to : Bytes) (amount : Z) (rpc_url : option Bytes) : Commands :=
  TxCommand (Send wallet to amount (default default_tx_url rpc_url)).
Definition deploy_args (wasm : Bytes) (wallet rpc_url : option Bytes) : Commands :=
  ContractCommand (Deploy wasm wallet (default default_rpc_url rpc_url)).
Definition call_args (contract method : Bytes) (args wallet rpc_url : option Bytes) : Commands :=
  ContractCommand (Call contract method args wallet (default default_rpc_url rpc_url)).

(** What the arguments of the process, the program's name first, make it do. *)
Inductive invocation := Menus | Exits | Legacy (command : Commands).
Definition invoke (parse : list Bytes -> option Commands) (args : list Bytes) : invocation :=
  if (length args <=? 1)%nat then Menus
  else match parse args with None => Exits | Some c => Legacy c end.

(** The server a command talks to. *)
Definition remote_url (c : Commands) : option Bytes :=
  match c with
  | WalletCommand (WalletBalance _ url) | TxCommand (Send _ _ _ url)
  | ContractCommand (Deploy _ _ url) | ContractCommand (Call _ _ _ _ url) => Some url
  | _ => None
  end.

Section Cli.
Context `{Sha256} `{SecpKeys} `{LibM} `{HashOrder} `{Hex} `{HexDecode} `{Wasmtime}
  {St : Type} `{BlockStoreI St} {Db : Type} `{KvStore Db} `{Codec ContractInfo}
  {PDb : Type} `{CfStore PDb} `{Codec Block} `{Codec BlockMetadata} `{Codec Transaction}
  `{Codec Pruning.StateSnapshot} `{Codec PruningMetadata} `{Codec Wallet} {F : Type} `{FileSystem F} {Ch : Type}.
Context (tx_json : Transaction -> result Bytes) (show_peer : PeerId -> Bytes).
Abbreviation Node := (NodeRuntime St Db PDb).
Abbreviation Server := (RpcState St Ch).

(** A request to a URL where nothing answers leaves this alone. *)
Context (nowhere : Server).

Record machine_state := { files : F; processes : list Node; servers : gmap Bytes Server }.
Implicit Types w : machine_state.
Definition set_files (f : F) w := {| files := f; processes := processes w; servers := servers w |}.
Definition set_processes (l : list Node) w :=
  {| files := files w; processes := l; servers := servers w |}.
Definition set_servers (m : gmap Bytes Server) w :=
  {| files := files w; processes := processes w; servers := m |}.

Definition at_server {A} (url : Bytes) (request : bool -> Server -> A * Server) w : A * machine_state :=
  match servers w !! url with
  | Some s => let '(r, s) := request true s in (r, set_servers (<[url := s]> (servers w)) w)
  | None => ((request false nowhere).1, w)
  end.

(** *** A node of its own *)

(** What [NodeRuntime::new_with_config_and_db] opens. *)
Record databases := {
  opened_dag : St; executor_db : Db; storage_db : Db; registry_db : Db; pruner_db : PDb;
  pruner_blocks : BlockStore PDb
}.

(** The number of peers is not used. *)
Definition new_with_config (now : Z) (d : databases) (id : Address) (interval : Z) (confirmation_depth : Z)
    (max_peers : nat) (mempool_size : nat) : Node :=
  new_node now id interval confirmation_depth mempool_size (opened_dag d) (executor_db d) (storage_db d)
    (registry_db d) (pruner_db d) (pruner_blocks d).
Definition NodeRuntime_new (now : Z) (d : databases) : Node :=
  new_with_config now d (replicate 20 0) 5000 10 100 1000.

(** A turn of [NodeRuntime::run], which never returns. *)
Inductive run_turn : Node -> Node -> Prop :=
  | run_produces clock n r n' :
      is_u64 (block_time (creation clock)) -> produce_block clock n = Some (r, n') -> run_turn n n'
  | run_checks_finality n : run_turn n (check_finality n).2.

(** *** The commands *)

(** A command ends, with a report of success or of failure or with an error; or it goes on as
    the loop of a node; or it panics (or waits for ever). *)
Inductive process := Finished (r : result bool) | Runs | Crashed.
Definition finished (r : option (result bool)) : process :=
  match r with Some r => Finished r | None => Crashed end.

Definition balance_report (r : option (result (option (Z * Z)))) : option (result bool) :=
  match r with
  | None => None
  | Some (Err e) => Some (Err e)
  | Some (Ok answer) => Some (Ok match answer with Some _ => true | None => false end)
  end.

(** [opened] is what opening the databases gave; [None] is a panic.  The addresses are printed
    and nothing listens on them. *)
Definition handle_node_start (now : Z) (opened : option (result databases)) (listen_addr rpc_addr : Bytes) w
    : process * machine_state :=
  match opened with
  | None => (Crashed, w)
  | Some (Err e) => (Finished (Err e), w)
  | Some (Ok d) => (Runs, set_processes (processes w ++ [initialize now (NodeRuntime_new now d)]) w)
  end.

Definition handle_wallet_create (random : Bytes) (output : option Bytes) w : process * machine_state :=
  match wallet_new random with
  | None => (Crashed, w)
  | Some wallet =>
      match output with
      | None => (Finished (Ok true), w)
      | Some path =>
          let '(r, f) := write_wallet wallet path (files w) in
          (Finished (r ≫= fun _ => Ok true), set_files f w)
      end
  end.

(** The wallet of a command, then the rest of it. *)
Definition with_wallet (path : Bytes) w (rest : Wallet -> process * machine_state) : process * machine_state :=
  match load_from_file path (files w) with
  | Err e => (Finished (Err e), w)
  | Ok wallet => rest wallet
  end.
Definition wallet_required : error := Error "Wallet path required for contract operations" [].

Definition dispatch (now now' : Z) (random : Bytes) (opened : option (result databases)) (c : Commands) w
    : process * machine_state :=
  match c with
  | NodeCommand (Start listen_addr rpc_addr) => handle_node_start now opened listen_addr rpc_addr w
  | WalletCommand (Create output) => handle_wallet_create random output w
  | WalletCommand (WalletBalance address url) =>
      let '(r, w) := at_server url (fun up s =>
        (handle_wallet_balance tx_json show_peer up now now' address s, s)) w in
      (finished (balance_report r), w)
  | TxCommand (Send wallet to amount url) =>
      with_wallet wallet w (fun wallet =>
        let '(r, w) := at_server url (fun up s =>
          handle_tx_send tx_json show_peer up now now' wallet to amount s) w in
        (finished r, w))
  | ContractCommand (Deploy wasm None url) => (Finished (Err wallet_required), w)
  | ContractCommand (Deploy wasm (Some wallet) url) =>
      with_wallet wallet w (fun wallet =>
        match fs_read wasm (files w) with
        | Err e => (Finished (Err e), w)
        | Ok code =>
            let '(r, w) := at_server url (fun up s =>
              handle_contract_deploy tx_json show_peer up now now' code (Some wallet) s) w in
            (finished r, w)
        end)
  | ContractCommand (Call contract method args None url) => (Finished (Err wallet_required), w)
  | ContractCommand (Call contract method args (Some wallet) url) =>
      with_wallet wallet w (fun wallet =>
        let '(r, w) := at_server url (fun up s =>
          handle_contract_call tx_json show_peer up now now' contract method args (Some wallet) s) w in
        (finished r, w))
  end.

(** A machine on which [cyt] is run with commands: a command runs, a node goes on, or its
    process is ended. *)
Inductive cyt_step : machine_state -> machine_state -> Prop :=
  | cyt_runs now now' random opened c w : cyt_step w (dispatch now now' random opened c w).2
  | cyt_goes_on i n n' w :
      processes w !! i = Some n -> run_turn n n' -> cyt_step w (set_processes (<[i := n']> (processes w)) w)
  | cyt_interrupted i w : cyt_step w (set_processes (delete i (processes w)) w).
End Cli.

(** ** Who is served *)
Section CliFacts.
Context `{Sha256} `{SecpKeys} `{LibM} `{HashOrder} `{Hex} `{HexDecode} `{Wasmtime}
  {St : Type} `{BlockStoreI St} {Db : Type} `{KvStore Db} `{Codec ContractInfo}
  {PDb : Type} `{CfStore PDb} `{Codec Block} `{Codec BlockMetadata} `{Codec Transaction}
  `{Codec Pruning.StateSnapshot} `{Codec PruningMetadata} `{Codec Wallet} {F : Type} `{FileSystem F} {Ch : Type}.
Context (tx_json : Transaction -> result Bytes) (show_peer : PeerId -> Bytes) (nowhere : RpcState St Ch).
Abbreviation Node := (NodeRuntime St Db PDb).
Abbreviation world := (@machine_state St Db PDb F Ch).
Abbreviation dispatch := (dispatch tx_json show_peer nowhere).
Abbreviation cyt_step := (cyt_step tx_json show_peer nowhere).
Implicit Types (w : world) (n : Node).

Definition ends_well (p : process) : bool := match p with Finished (Ok _) => true | _ => false end.

(** No command ends well without its server. *)
Lemma unreachable_send now now' wallet to amount (s : RpcState St Ch) :
  ends_well (finished (handle_tx_send tx_json show_peer false now now' wallet to amount s).1) = false.
Proof.
  unfold handle_tx_send. destruct (recipient_of to) as [a|e]; [|done].
  destruct (sender_of wallet) as [[b|e]|]; [|done..]. by destruct (sign _ _) as [tx|e].
Qed.

Lemma at_server_spec {A} url (request : bool -> RpcState St Ch -> A * RpcState St Ch) w :
  match servers w !! url with
  | Some s => at_server nowhere url request w = ((request true s).1, set_servers (<[url := (request true s).2]> (servers w)) w)
  | None => at_server nowhere url request w = ((request false nowhere).1, w)
  end.
Proof. unfold at_server. destruct (servers w !! url) as [s|]; [|done]. by destruct (request true s). Qed.

Lemma with_wallet_ends {rest path w} (Q : process * world -> Prop) :
  (forall e, Q (Finished (Err e), w)) -> (forall wallet, Q (rest wallet)) -> Q (with_wallet path w rest).
Proof. intros He Hr. unfold with_wallet. by destruct (load_from_file path (files w)). Qed.

(** Without the server a command changes nothing and does not end well. *)
Lemma dispatch_unserved now now' random opened c url w :
  remote_url c = Some url -> servers w !! url = None ->
  ends_well (dispatch now now' random opened c w).1 = false /\ (dispatch now now' random opened c w).2 = w.
Proof.
  intros Hurl Hnone. assert (forall e : error, ends_well (Finished (Err e)) = false /\ w = w) as Herr by done.
  assert (forall A (request : bool -> RpcState St Ch -> A * RpcState St Ch),
    at_server nowhere url request w = ((request false nowhere).1, w)) as Hat
    by (intros A request; unfold at_server; by rewrite Hnone).
  destruct c as [[]|[output|address u]|[wallet to amount u]|[wasm [wallet|] u|contract method args [wallet|] u]];
    try done; injection Hurl as ->; cbn [Cli.dispatch].
  - by rewrite Hat.
  - apply (with_wallet_ends (fun o => ends_well o.1 = false /\ o.2 = w)); [done|]. intros wl.
    rewrite Hat. split; [|done]. apply unreachable_send.
  - apply (with_wallet_ends (fun o => ends_well o.1 = false /\ o.2 = w)); [done|]. intros wl.
    destruct (fs_read _ _); [|done]. by rewrite Hat.
  - apply (with_wallet_ends (fun o => ends_well o.1 = false /\ o.2 = w)); [done|]. intros wl. by rewrite Hat.
Qed.

(** A command starts no server and, [node start] apart, leaves the processes. *)
Lemma dispatch_keeps now now' random opened c w :
  dom (servers (dispatch now now' random opened c w).2) = dom (servers w) /\
  (processes (dispatch now now' random opened c w).2 = processes w \/
   exists d, processes (dispatch now now' random opened c w).2 =
     processes w ++ [initialize now (NodeRuntime_new now d)]).
Proof.
  set (keeps := fun o : process * world =>
    dom (servers o.2) = dom (servers w) /\ (processes o.2 = processes w \/
      exists d, processes o.2 = processes w ++ [initialize now (NodeRuntime_new now d)])).
  change (keeps (dispatch now now' random opened c w)).
  assert (forall p, keeps (p, w)) as Hsame by (split; [done|by left]).
  assert (forall A url (request : bool -> RpcState St Ch -> A * RpcState St Ch) (f : A -> process),
    keeps (let '(r, w) := at_server nowhere url request w in (f r, w))) as Hat.
  { intros A url request f. pose proof (at_server_spec url request w) as Hs.
    destruct (servers w !! url) as [s|] eqn:Hu; rewrite Hs; [|done].
    split; [|by left]. cbn [set_servers servers snd]. apply dom_insert_lookup_L. by exists s. }
  destruct c as [[]|[output|address u]|[wallet to amount u]|[wasm [wallet|] u|contract method args [wallet|] u]];
    cbn [Cli.dispatch]; try done; try apply Hat.
  - unfold handle_node_start. destruct opened as [[d|e]|]; [|done..]. split; [done|]. right. by exists d.
  - unfold handle_wallet_create. destruct (wallet_new random) as [wl|]; [|done]. destruct output as [path|]; [|done].
    destruct (write_wallet wl path (files w)) as [r f]. split; [done|by left].
  - apply with_wallet_ends; [done|]. intros wl. apply Hat.
  - apply with_wallet_ends; [done|]. intros wl. destruct (fs_read _ _); [apply Hat|done].
  - apply with_wallet_ends; [done|]. intros wl. apply Hat.
Qed.

(** What other components can see of the node is as it was started. *)
Definition as_started n : Prop :=
  mining_enabled n = false /\
  exists now d, let n0 : Node := initialize now (NodeRuntime_new now d) in
    blockdag n = blockdag n0 /\ node_state n = node_state n0 /\ mempool n = mempool n0.

(** Mining is off when a node is made, and nothing holds the node that could turn it on. *)
Lemma run_turn_started n n' : run_turn n n' -> as_started n -> as_started n'.
Proof.
  intros Ht [Hm Hst]. destruct Ht as [clock n r n' _ Hrun|n].
  - unfold produce_block in Hrun. rewrite Hm in Hrun. cbn [negb] in Hrun. injection Hrun as _ <-. done.
  - unfold check_finality. destruct (Store.get_all_blocks _); [done|].
    destruct (generate_ordering _); [|done]. by destruct (compute_finality _ _).
Qed.

Lemma cyt_step_keeps w w' :
  cyt_step w w' -> Forall as_started (processes w) ->
  dom (servers w') = dom (servers w) /\ Forall as_started (processes w').
Proof.
  intros Hstep Hall. destruct Hstep as [now now' random opened c w|i n n' w Hi Ht|i w].
  - destruct (dispatch_keeps now now' random opened c w) as [Hd [->|[d ->]]]; [done|]. split; [done|].
    apply Forall_app. split; [done|]. apply Forall_singleton. split; [done|]. by exists now, d.
  - split; [done|]. apply Forall_insert; [done|]. apply (run_turn_started n); [done|]. by eapply Forall_lookup_1.
  - split; [done|]. by apply Forall_delete.
Qed.

(** A network of nodes started with [cyt node start] serves nobody.  On a machine
    where only commands of [cyt] run there are never more servers than before: the
    start of the RPC server is commented out of the command.  So whatever is run, a
    command that needs a server other than those of the beginning ends in an error and
    changes nothing; and every node process keeps mining off, the ledger it was started
    with and an empty pool. *)
Theorem cyt_serves_nobody w0 w :
  rtc cyt_step w0 w -> processes w0 = [] ->
  dom (servers w) = dom (servers w0) /\
  Forall (fun n => as_started n /\ txs (mempool n) = ∅) (processes w) /\
  forall now now' random opened c url, remote_url c = Some url -> url ∉ dom (servers w0) ->
    ends_well (dispatch now now' random opened c w).1 = false /\ (dispatch now now' random opened c w).2 = w.
Proof.
  intros Hsteps Hnil.
  assert (dom (servers w) = dom (servers w0) /\ Forall as_started (processes w)) as [Hd Hall].
  { assert (Forall as_started (processes w0)) as Hw by by rewrite Hnil.
    clear Hnil. induction Hsteps as [w|w0 w1 w Hstep _ IH]; [done|].
    destruct (cyt_step_keeps w0 w1 Hstep Hw) as [Hd Hall]. rewrite <- Hd. by apply IH. }
  split; [done|]. split.
  - apply (Forall_impl _ _ _ Hall). intros n Hn. split; [done|].
    by destruct Hn as [_ (now & d & _ & _ & ->)].
  - intros now now' random opened c url Hurl Hin. apply (dispatch_unserved _ _ _ _ c url); [done|].
    apply not_elem_of_dom. by rewrite Hd.
Qed.

(** The default URL of [cyt tx send] is not the one at which the other commands look for the node:
    with a server at that one only, the balance is shown while the transfer ends in
    an error and reaches nobody. *)
Theorem tx_send_default_unreachable now now' random opened wallet to amount address s w :
  servers w = {[default_rpc_url := s]} ->
  (dispatch now now' random opened (balance_args address None) w).1 =
    finished (balance_report (handle_wallet_balance tx_json show_peer true now now' address s)) /\
  ends_well (dispatch now now' random opened (send_args wallet to amount None) w).1 = false /\
  (dispatch now now' random opened (send_args wallet to amount None) w).2 = w.
Proof.
  intros Hs. split.
  - cbn [Cli.dispatch balance_args default from_option].
    unfold at_server. rewrite Hs, lookup_singleton_eq. done.
  - apply (dispatch_unserved _ _ _ _ _ default_tx_url); [done|]. rewrite Hs.
    apply lookup_singleton_ne. intros Heq. by apply (f_equal length) in Heq.
Qed.
End CliFacts.

(** ** Witnesses *)
#[local] Existing Instances checksum_sha checksum_laws toy_secp toy_secp_laws constant_exp canonical_order wallet_codec.

Definition cyt_world : Type := @machine_state MemStore MemDb MemCf (gmap Bytes Bytes) Queue.
Definition cyt_dispatch := dispatch (St := MemStore) (Db := MemDb) (PDb := MemCf) (F := gmap Bytes Bytes)
  no_json show_raw server 0 0 [] None.
Definition fresh_machine (m : gmap Bytes (RpcState MemStore Queue)) : cyt_world :=
  {| files := wallet_files; processes := []; servers := m |}.
Definition empty_databases : databases :=
  {| opened_dag := ∅ : MemStore; executor_db := ∅ : MemDb; storage_db := ∅ : MemDb; registry_db := ∅ : MemDb;
     pruner_db := mem_cf_empty; pruner_blocks := empty_store |}.
Definition started_node : MemNode := initialize 10 (NodeRuntime_new 10 empty_databases).
Definition send_local : Commands :=
  send_args [119] (cyt ++ hex_encode (replicate 20 2)) 5 (Some default_rpc_url).

(** A node is started and checks finality; then a transfer is sent to where it should listen. *)
Lemma cyt_serves_nobody_witness :
  let w := {| files := wallet_files; processes := [(check_finality started_node).2]; servers := ∅ |} : cyt_world in
  rtc (cyt_step no_json show_raw server) (fresh_machine ∅) w /\
  ends_well (cyt_dispatch send_local w).1 = false /\ (cyt_dispatch send_local w).2 = w.
Proof.
  intros w. assert (rtc (cyt_step no_json show_raw server) (fresh_machine ∅) w) as Hsteps.
  { eapply rtc_l.
    { exact (cyt_runs no_json show_raw server 10 10 [] (Some (Ok empty_databases)) (start_args None None)
        (fresh_machine ∅)). }
    apply rtc_once.
    exact (cyt_goes_on no_json show_raw server 0 started_node (check_finality started_node).2
      (set_processes [started_node] (fresh_machine ∅)) eq_refl (run_checks_finality started_node)). }
  split; [exact Hsteps|].
  destruct (cyt_serves_nobody no_json show_raw server (fresh_machine ∅) w Hsteps eq_refl) as (_ & _ & Hc).
  apply (Hc 0 0 [] None send_local default_rpc_url eq_refl). set_solver.
Defined.

Lemma tx_send_default_unreachable_witness :
  let w := fresh_machine {[default_rpc_url := server]} in
  (cyt_dispatch (balance_args (format_address toy_sender) None) w).1 = Finished (Ok true) /\
  ends_well (cyt_dispatch (send_args [119] (format_address (replicate 20 2)) 5 None) w).1 = false.
Proof.
  intros w. destruct (tx_send_default_unreachable no_json show_raw server 0 0 [] None [119]
    (format_address (replicate 20 2)) 5 (format_address toy_sender) server w eq_refl) as (Hb & Hs & _).
  split; [|exact Hs]. unfold cyt_dispatch. rewrite Hb. vm_compute. reflexivity.
Defined.
