(* ===== verification/CliInterface.v ===== *)
(** The production command line: [src/src/cli/cli_interface.rs].

    A loop over the lines of the terminal ([Shell]) with a node, a mining flag and counters.  Unlike
    the interactive program it never starts the task of the node, so nothing happens between two lines.
    Of what is printed the model keeps the reports of the commands. *)
From S2P Require Import Prelude Crypto Transaction Floats Mining Block StateTree StateManager.
From S2P Require Import Graph Store DagIndex BlockDag DagTraversal BlueSet GhostDag Daa Finality.
From S2P Require Import Mempool Kv Wasm Contracts Executor BlockStore Pruning Producer Node.
From S2P Require Import Wallet Shell.

Record CLIMetrics := {
  transactions_processed : Z;
  blocks_mined : Z;
  avg_latency_ms : f64
}.
Definition CLIMetrics_new : CLIMetrics :=
  {| transactions_processed := 0; blocks_mined := 0; avg_latency_ms := f64_of_Z 0 |}.

(** The state of the program besides its node. *)
Record Own := { mining_active : bool; cli_metrics : CLIMetrics }.

Section CliInterface.
Context `{Sha256} `{SecpKeys} `{LibM} `{HashOrder} `{Hex} `{HexDecode} `{Wasmtime}
  {St : Type} `{BlockStoreI St} {Db : Type} `{KvStore Db} `{Codec ContractInfo}
  {PDb : Type} `{CfStore PDb} `{Codec Block} `{Codec BlockMetadata} `{Codec Transaction}
  `{Codec StateSnapshot} `{Codec PruningMetadata}.
Abbreviation Node := (NodeRuntime St Db PDb).
Abbreviation Sh := (shell Node Own).

Context (lines : nat -> input Node) (clock : nat -> Z * Z) (open_node : nat -> option (result Node)).

Definition cli_new : Sh :=
  {| pos := 0; running := None; own := {| mining_active := false; cli_metrics := CLIMetrics_new |}; said := [] |}.

(** [io::stdin().read_line(&mut input).ok()]: what cannot be read is empty. *)
Definition ask : P Sh Bytes := fun s =>
  Some (Ok (default [] (text (lines (pos s)))),
    {| pos := Datatypes.S (pos s); running := running s; own := own s; said := said s |}).

(** [node.as_ref().ok_or("Node not started")?] *)
Definition the_node : P Sh Node :=
  node ← get running; lift_result (ok_or node (Error "Node not started" [])).

Definition cmd_start_node : P Sh unit :=
  i ← get pos;
  match open_node i with
  | None => fun _ => None
  | Some r =>
      node ← lift_result r;
      put_running (Some (initialize (clock i).1 node));;
      say "Node started" []
  end.

(** A line of [n] bytes in hexadecimal. *)
Definition decode_fixed (n : nat) (line : Bytes) (message : string) : result Bytes :=
  match hex_decode line with
  | Some bs => if (length bs =? n)%nat then Ok bs else err message
  | None => err message
  end.
Definition parse_u64 (line : Bytes) : result Z :=
  ok_or (parse_unsigned u64_max line) (Error "ParseIntError" []).

(** [[1; 32]] *)
Definition test_key : result SecretKey := secret_key_from_slice (replicate 32 1).

Definition cmd_send_transaction : P Sh unit :=
  node ← the_node;
  from_str ← ask;
  from ← lift_result (decode_fixed 20 from_str "Invalid from address");
  to_str ← ask;
  to ← lift_result (decode_fixed 20 to_str "Invalid to address");
  amount_str ← ask;
  amount ← lift_result (parse_u64 amount_str);
  nonce_str ← ask;
  nonce ← lift_result (parse_u64 nonce_str);
  secret_key ← lift_result (match test_key with Ok k => Ok k | Err _ => err "Failed to create secret key" end);
  tx ← lift_result (sign (new_transfer from to amount nonce 21000 1) secret_key);
  i ← get pos;
  let '(r, node) := node_add_transaction (clock i).1 (clock i).2 tx node in
  put_running (Some node);;
  lift_result r;;
  say "Mempool size: {}" [ArgNum (Z.of_nat (get_mempool_size node))].

Fixpoint say_all (ls : list (string * list arg)) : P Sh unit :=
  match ls with
  | [] => mret tt
  | l :: ls => say l.1 l.2;; say_all ls
  end.

Definition cmd_print_dag : P Sh unit :=
  node ← the_node;
  let tips := node_get_tips node in
  say "Tips: {}" [ArgNum (Z.of_nat (length tips))];;
  say_all (imap (fun i tip => ("  [{}] {}", [ArgNum (Z.of_nat i); ArgHex (hex_encode (take 8 tip))])) tips);;
  say "Total blocks: {}" [ArgNum (Z.of_nat (length (Store.get_all_blocks (store (blockdag node)))))].

Definition cmd_print_state : P Sh unit :=
  node ← the_node;
  say "Current state root: {}" [ArgHex (hex_encode (node_get_state_root node))].

Definition cmd_print_finality : P Sh unit :=
  node ← the_node;
  match get_finality_height node with
  | Some height => say "Finalization height: {}" [ArgNum height]
  | None => say "No finalized blocks yet" []
  end;;
  say "Confirmation depth: {}" [ArgNum (confirmation_depth (finality_engine node))].

Definition cmd_print_mempool : P Sh unit :=
  node ← the_node;
  say "Mempool size: {}" [ArgNum (Z.of_nat (get_mempool_size node))];;
  say_all (imap (fun i tx => ("  [{}] {} tokens, nonce={}",
      [ArgNum (Z.of_nat i);
       ArgNum (match payload (transaction tx) with Transfer _ amount => amount | _ => 0 end);
       ArgNum (nonce (transaction tx))]))
    (take 10 (get_all_transactions (mempool node)))).

Definition cmd_connect_peer : P Sh unit :=
  _ ← the_node;
  peer_addr ← ask;
  say "Peer address to be connected: {}" [ArgHex peer_addr].

Definition cmd_print_peers : P Sh unit :=
  node ← the_node;
  say "Connected peers: {}" [ArgNum (Z.of_nat (get_peer_count node))].

Definition put_mining (m : bool) : P Sh unit :=
  o ← get own; put_own {| mining_active := m; cli_metrics := cli_metrics o |}.

Definition cmd_start_mining : P Sh unit :=
  node ← the_node;
  active ← get (fun s => mining_active (own s));
  if active : bool then say "Mining already active" []
  else
    put_running (Some (start_mining node));;
    put_mining true;;
    say "Mining started successfully" [].

Definition cmd_stop_mining : P Sh unit :=
  node ← the_node;
  active ← get (fun s => mining_active (own s));
  if negb active then say "Mining not active" []
  else
    put_running (Some (stop_mining node));;
    put_mining false;;
    say "Mining stopped successfully" [].

Definition cmd_list_peers : P Sh unit :=
  node ← the_node;
  let peers := get_detailed_peers node in
  say "Connected peers: {}" [ArgNum (Z.of_nat (length peers))];;
  say_all (imap (fun i p => ("  [{}] ID: {}, Address: {}, Status: {}",
    [ArgNum (Z.of_nat (i + 1)); ArgHex (peer_info_id p); ArgHex (peer_info_address p); ArgHex (peer_info_status p)]))
    peers).

(** The numbers that are not floats. *)
Definition cmd_show_metrics : P Sh unit :=
  node ← the_node;
  metrics ← get (fun s => cli_metrics (own s));
  say "Transactions processed: {}" [ArgNum (transactions_processed metrics)];;
  say "Blocks mined: {}" [ArgNum (blocks_mined metrics)];;
  let node_metrics := get_metrics node in
  say "Memory usage: {} MB" [ArgNum (memory_mb node_metrics)];;
  say "Storage size: {} MB" [ArgNum (storage_mb node_metrics)].

Definition cmd_prune_storage : P Sh unit :=
  node ← the_node;
  input ← ask;
  let window := default 1000 (parse_unsigned u64_max input) in
  i ← get pos;
  let '(r, node) := prune_storage (clock i).1 window node in
  put_running (Some node);;
  pruned_blocks ← lift_result r;
  say "Removed {} old blocks" [ArgNum pruned_blocks].

Definition cmd_validate_transaction : P Sh unit :=
  node ← the_node;
  hash_input ← ask;
  hash_vec ← lift_result (ok_or (hex_decode hash_input) (Error "Invalid hex hash" []));
  (if negb (length hash_vec =? 32)%nat then lift_result (err "Hash must be 32 bytes")
   else if node_validate_transaction hash_vec node then say "Transaction is valid" []
   else say "Transaction is invalid or not found" []).

(** *** The loop *)
Definition choices : list (Bytes * P Sh unit) :=
  [([49], cmd_start_node); ([50], cmd_send_transaction); ([51], cmd_print_dag); ([52], cmd_print_state);
   ([53], cmd_print_finality); ([54], cmd_print_mempool); ([55], cmd_connect_peer); ([56], cmd_print_peers);
   ([57], cmd_start_mining); ([49; 48], cmd_stop_mining); ([49; 49], cmd_list_peers);
   ([49; 50], cmd_show_metrics); ([49; 51], cmd_prune_storage); ([49; 52], cmd_validate_transaction)].

Definition turn (_ : nat) (s : Sh) : outcome Sh :=
  match ask s with
  | Some (Ok choice, s) =>
      match List.find (fun c => bool_decide (c.1 = choice)) choices with
      | Some (_, cmd) => command cmd s
      | None =>
          if bool_decide (choice = [113]) || bool_decide (choice = [81]) then End (Ok tt) s
          else command (say "Opsi tidak valid. Coba lagi." []) s
      end
  | Some (Err e, s) => End (Err e) s
  | None => Panicked
  end.
Definition cli_run : nat -> Sh -> outcome Sh := loop turn.
End CliInterface.

(** ** What the program can do *)
Section CliFacts.
Context `{Sha256} `{!Sha256Laws} `{HexDecodeLaws} `{SecpKeysLaws} `{!SecpLaws} `{LibM} `{HashOrder} `{Wasmtime}
  {St : Type} `{BlockStoreI St} {Db : Type} `{KvStore Db} `{Codec ContractInfo}
  {PDb : Type} `{CfStore PDb} `{Codec Block} `{Codec BlockMetadata} `{Codec Transaction}
  `{Codec StateSnapshot} `{Codec PruningMetadata}.
Abbreviation Node := (NodeRuntime St Db PDb).
Abbreviation Sh := (shell Node Own).
Context (lines : nat -> input Node) (clock : nat -> Z * Z) (open_node : nat -> option (result Node)).
Implicit Types (s : Sh) (n : Node).
Abbreviation run := (cli_run lines clock open_node).

(** *** An invariant of the commands *)

(** The DAG of the node is that of a node just started. *)
Definition fresh_dag n : Prop :=
  exists i n0, open_node i = Some (Ok n0) /\ blockdag n = blockdag (initialize (clock i).1 n0).
Definition unmined s : Prop :=
  (forall n, running s = Some n -> fresh_dag n) /\ cli_metrics (own s) = CLIMetrics_new.

(** A command keeps the invariant on every path, and its result satisfies [Q]. *)
Definition spec {A} (c : P Sh A) (Q : A -> Prop) : Prop :=
  forall s, unmined s ->
    match c s with Some (Ok a, s') => unmined s' /\ Q a | Some (Err _, s') => unmined s' | None => True end.
Abbreviation keeps c := (spec c (fun _ => True)).

Lemma spec_bind {A B} (c : P Sh A) (f : A -> P Sh B) Q R :
  spec c Q -> (forall a, Q a -> spec (f a) R) -> spec (c ≫= f) R.
Proof.
  intros Hc Hf s Hs. specialize (Hc s Hs). unfold mbind, P_bind.
  destruct (c s) as [[[a|e] s']|]; [|done|done]. destruct Hc as [Hs' Ha]. by apply Hf.
Qed.
Lemma keeps_bind {A B} (c : P Sh A) (f : A -> P Sh B) :
  keeps c -> (forall a, keeps (f a)) -> keeps (c ≫= f).
Proof. intros Hc Hf. apply (spec_bind c f _ _ Hc). intros a _. apply Hf. Qed.
Lemma keeps_node {B} (f : Node -> P Sh B) :
  (forall n, fresh_dag n -> keeps (f n)) -> keeps (the_node ≫= f).
Proof.
  intros Hf s Hs. unfold the_node, mbind, P_bind, get, lift_result. destruct (running s) as [n|] eqn:Hn; [|done].
  cbn [ok_or]. apply Hf; [|done]. by apply (proj1 Hs).
Qed.
Lemma keeps_panic {A} : keeps ((fun _ => None) : P Sh A).
Proof. by intros s _. Qed.
Lemma keeps_ret {A} (a : A) : keeps (mret a : P Sh A).
Proof. by intros s Hs. Qed.
Lemma keeps_ask : keeps (ask lines).
Proof. by intros s Hs. Qed.
Lemma keeps_get {A} (g : Sh -> A) : keeps (get g).
Proof. by intros s Hs. Qed.
Lemma keeps_lift {A} (r : result A) : keeps (lift_result r : P Sh A).
Proof. intros s Hs. by destruct r. Qed.
Lemma keeps_say t args : keeps (say t args : P Sh unit).
Proof. by intros s Hs. Qed.
Lemma keeps_say_all ls : keeps (say_all ls : P Sh unit).
Proof.
  induction ls as [|l ls IH]; [apply keeps_ret|]. cbn [say_all].
  apply (keeps_bind (say l.1 l.2) (fun _ => say_all ls)); [apply keeps_say|done].
Qed.
Lemma keeps_put n : fresh_dag n -> keeps (put_running (Some n) : P Sh unit).
Proof. intros Hn s [_ Hm]. split; [|done]. split; [|done]. by intros n' [= <-]. Qed.
Lemma keeps_mining m : keeps (put_mining m : P Sh unit).
Proof. intros s [Hn Hm]. split; [|done]. by split. Qed.
#[local] Hint Resolve keeps_panic keeps_ret keeps_ask keeps_get keeps_lift keeps_say keeps_say_all keeps_put
  keeps_mining keeps_node : shell.

Lemma fresh_add now now' tx n : fresh_dag n -> fresh_dag (node_add_transaction now now' tx n).2.
Proof. intros Hn. unfold node_add_transaction. destruct (Mempool.validate_transaction tx); [|done].
  by destruct (add_transaction _ _ _ _ _ _ _). Qed.
Lemma fresh_prune time window n : fresh_dag n -> fresh_dag (prune_storage time window n).2.
Proof. intros Hn. unfold prune_storage. by destruct (pruner n). Qed.

Ltac keep :=
  repeat match goal with
  | |- keeps (the_node ≫= _) => apply keeps_node; intros ? ?
  | |- keeps (_ ≫= _) => apply keeps_bind; [|intros ?]
  | |- keeps _ => by auto with shell
  end.

Lemma keeps_start : keeps (cmd_start_node clock open_node).
Proof.
  intros s Hs. unfold cmd_start_node, mbind, P_bind, get, lift_result.
  destruct (open_node (pos s)) as [[n|e]|] eqn:Ho; [|done..].
  apply (keeps_bind (put_running _) (fun _ => say _ _)); [|intros ?; apply keeps_say|done].
  apply keeps_put. by exists (pos s), n.
Qed.
Lemma keeps_send : keeps (cmd_send_transaction lines clock).
Proof.
  unfold cmd_send_transaction. keep.
  match goal with |- context [node_add_transaction ?a ?b ?tx ?n] =>
    pose proof (fresh_add a b tx n ltac:(done)) as Hf; destruct (node_add_transaction a b tx n) as [r n'] end.
  keep.
Qed.
Lemma keeps_prune : keeps (cmd_prune_storage lines clock).
Proof.
  unfold cmd_prune_storage. keep.
  match goal with |- context [prune_storage ?a ?b ?n] =>
    pose proof (fresh_prune a b n ltac:(done)) as Hf; destruct (prune_storage a b n) as [r n'] end.
  keep.
Qed.

Lemma choices_keep : Forall (fun c => keeps c.2) (choices lines clock open_node).
Proof.
  repeat constructor; cbn [snd]; try (by auto using keeps_start, keeps_send, keeps_prune).
  - unfold cmd_print_dag. keep.
  - unfold cmd_print_state. keep.
  - unfold cmd_print_finality. keep. destruct (get_finality_height _); keep.
  - unfold cmd_print_mempool. keep.
  - unfold cmd_connect_peer. keep.
  - unfold cmd_print_peers. keep.
  - unfold cmd_start_mining. keep. destruct (_ : bool); keep.
  - unfold cmd_stop_mining. keep. destruct (negb _); keep.
  - unfold cmd_list_peers. keep.
  - unfold cmd_show_metrics. keep.
  - unfold cmd_validate_transaction. keep. destruct (negb _); [keep|]. destruct (node_validate_transaction _ _); keep.
Qed.

(** C26: no block is ever produced.  In every run, however long, the DAG of the node is the one it had when it was
    started, although the program reports that mining was started and that the node will take part in
    block production - nothing runs the node's task - and the counters it shows are never touched. *)
Theorem cli_never_mines fuel : holds unmined (run fuel cli_new).
Proof.
  apply loop_holds; [|by split]. intros f s Hs. unfold turn, ask. generalize (default [] (text (lines (pos s)))). intros choice.
  set (s' := {| pos := _ |}). assert (unmined s') as Hs' by exact Hs. clearbody s'.
  pose proof choices_keep as Hall. rewrite Forall_forall in Hall.
  destruct (List.find _ _) as [[k cmd]|] eqn:Hf.
  - apply List.find_some in Hf as [Hin%list_elem_of_In _]. specialize (Hall _ Hin s' Hs'). cbn [snd] in Hall.
    unfold command. destruct (cmd s') as [[[a|e] s1]|]; [|done|done]. by destruct Hall.
  - by destruct (_ || _).
Qed.

(** *** Sending *)

(** An error of a command, wherever it comes from. *)
Definition fails {A} (c : P Sh A) s : Prop := exists e s', c s = Some (Err e, s').
Lemma fails_ok {A B} (c : P Sh A) (f : A -> P Sh B) a s s1 :
  c s = Some (Ok a, s1) -> fails (f a) s1 -> fails (c ≫= f) s.
Proof. intros Hc (e & s' & Hf). exists e, s'. unfold mbind, P_bind. by rewrite Hc. Qed.
Lemma fails_ask {B} (f : Bytes -> P Sh B) s :
  (forall l, fails (f (default [] (text (lines (pos s)))))
    {| pos := Datatypes.S (pos s); running := running s; own := own s; said := l |}) ->
  fails (ask lines ≫= f) s.
Proof. intros Hf. by eapply fails_ok. Qed.
Lemma fails_lift {A B} (r : result A) (f : A -> P Sh B) s :
  (forall a, r = Ok a -> fails (f a) s) -> fails (lift_result r ≫= f) s.
Proof. intros Hf. destruct r as [a|e]; [|by exists e, s]. by eapply fails_ok; [|apply Hf]. Qed.

Lemma decode_fixed_ok k line message a : decode_fixed k line message = Ok a -> hex_decode line = Some a.
Proof. unfold decode_fixed. destruct (hex_decode line) as [bs|]; [|done]. destruct (_ =? _)%nat; [|done]. by intros [= ->]. Qed.

(** Transactions can be sent from one address only, that of the built-in test key: with any other sender the command
    fails, and with it the whole program. *)
Theorem cli_one_sender key n s f :
  test_key = Ok key -> running s = Some n -> text (lines (pos s)) = Some [50] ->
  hex_decode (default [] (text (lines (S (pos s))))) <> Some (address_of (public_key key)) ->
  exists e s', turn lines clock open_node f s = End (Err e) s'.
Proof.
  intros Hk Hn Hc Hfrom. unfold turn, ask. rewrite Hc. cbn [default from_option].
  set (s1 := {| pos := _ |}). cut (fails (cmd_send_transaction lines clock) s1).
  { intros (e & s' & Hs'). exists e, s'. change (command (cmd_send_transaction lines clock) s1 = End (Err e) s').
    unfold command. by rewrite Hs'. }
  unfold cmd_send_transaction. apply (fails_ok _ _ n _ s1).
  { unfold the_node, mbind, P_bind, get, lift_result. unfold s1. cbn [running]. by rewrite Hn. }
  apply fails_ask. intros l1. apply fails_lift. intros from Hf%decode_fixed_ok.
  apply fails_ask. intros l2. apply fails_lift. intros to _. apply fails_ask. intros l3. apply fails_lift. intros amount _.
  apply fails_ask. intros l4. apply fails_lift. intros nc _. apply fails_lift. intros k' Hk'.
  rewrite Hk in Hk'. injection Hk' as <-. apply fails_lift. intros tx Hs. eapply fails_ok; [done|].
  assert (is_ok (Transaction.validate_basic tx) = false) as Hv.
  { apply (foreign_sender_refused key _ _ Hs). intros He. apply Hfrom. cbn in He. subst from. exact Hf. }
  match goal with |- context [node_add_transaction ?a ?b tx n] =>
    assert (exists e, node_add_transaction a b tx n = (Err e, n)) as [e ->] end.
  { unfold node_add_transaction, Mempool.validate_transaction.
    destruct (Transaction.validate_basic tx) as [[]|e]; [done|by exists e]. }
  eapply fails_ok; [done|]. by apply fails_lift.
Qed.

(** *** The end of the input *)

(** When the terminal is closed, the program never ends: no line is read any more, and the empty choice is invalid. *)
Theorem cli_hangs_at_end s : at_end lines s -> forall fuel, busy (run fuel s) = true.
Proof.
  intros He fuel. apply (loop_busy (at_end lines)); [|done]. clear s He fuel. intros f s He.
  unfold turn, ask. rewrite (He (pos s) (le_n _)). eexists. split; [done|].
  intros k Hk. apply He. cbn in Hk. lia.
Qed.
End CliFacts.

(** ** Witnesses *)
#[local] Existing Instances checksum_sha checksum_laws toy_secp toy_secp_laws constant_exp canonical_order.

Definition Mem : Type := NodeRuntime MemStore MemDb MemCf.
Definition idle_clock (_ : nat) : Z * Z := (0, 0).
Definition open_empty (_ : nat) : option (result Mem) := Some (Ok idle_node).
Definition with_node (n : Mem) : shell Mem Own :=
  {| pos := 0; running := Some n; own := {| mining_active := false; cli_metrics := CLIMetrics_new |}; said := [] |}.

(** "2" and forty twos. *)
Lemma cli_one_sender_witness :
  exists e s', turn (typing [[50]; replicate 40 50]) idle_clock open_empty 0 (with_node idle_node) = End (Err e) s'.
Proof.
  apply (cli_one_sender (typing [[50]; replicate 40 50]) idle_clock open_empty toy_key idle_node (with_node idle_node) 0).
  - reflexivity.
  - reflexivity.
  - reflexivity.
  - apply (bool_decide_unpack _). vm_compute. exact I.
Defined.

Lemma cli_hangs_at_end_witness : busy (cli_run (typing []) idle_clock open_empty 1000 cli_new) = true.
Proof.
  apply (cli_hangs_at_end (typing []) idle_clock open_empty). intros k _. destruct k; reflexivity.
Defined.
