(* ===== verification/Config.v ===== *)
(** The configuration of a node: [src/src/config.rs].

    The TOML parser and the files are interfaces.  Nothing else in the node reads a configuration. *)
From S2P Require Import Prelude Wasm Shell.

Record NetworkConfig := {
  listen_addr : string;
  rpc_addr : string;
  enable_mdns : bool;
  enable_dht : bool;
  bootstrap_peers : list string;
  cfg_max_peers : Z
}.
Record StateSyncConfig := { enable_fast_sync : bool; snapshot_interval : Z; max_snapshot_size : Z }.
Record SyncConfig := {
  periodic_check_interval : Z;
  max_pending_requests : Z;
  block_request_timeout : Z;
  max_batch_size : Z;
  sync_state : StateSyncConfig
}.
Record ContractConfig := {
  contract_db_path : string;
  max_bytecode_size : Z;
  enable_caching : bool;
  cfg_cache_size : Z
}.
Record ConsensusConfig := { cfg_block_interval : Z; cfg_confirmation_depth : Z; blue_set_size : Z }.
Record MempoolConfig := { cfg_max_size : Z; cfg_min_gas_price : Z }.
Record PruningConfig := {
  pruning_enabled : bool;
  cfg_prune_height : Z;
  cfg_window_size : Z;
  check_interval : Z
}.
Record StorageConfig := { storage_db_path : string; pruning : PruningConfig }.
Record LoggingConfig := { level : string; structured : bool }.
Record NodeSettings := {
  settings_node_id : string;
  data_dir : string;
  node_name : string;
  enable_rpc : bool
}.
Record NodeConfig := {
  network : NetworkConfig;
  sync : SyncConfig;
  contract_config : ContractConfig;
  consensus : ConsensusConfig;
  mempool_config : MempoolConfig;
  storage : StorageConfig;
  logging : LoggingConfig;
  node_settings : NodeSettings
}.

Definition config_default : NodeConfig :=
  {| network := {| listen_addr := "/ip4/0.0.0.0/tcp/30333"; rpc_addr := "127.0.0.1:8080";
       enable_mdns := true; enable_dht := false; bootstrap_peers := []; cfg_max_peers := 100 |};
     sync := {| periodic_check_interval := 60; max_pending_requests := 1000; block_request_timeout := 30;
       max_batch_size := 100;
       sync_state := {| enable_fast_sync := true; snapshot_interval := 300;
         max_snapshot_size := 500 * 1024 * 1024 |} |};
     contract_config := {| contract_db_path := "./data/contracts.db"; max_bytecode_size := 1024 * 1024;
       enable_caching := true; cfg_cache_size := 1000 |};
     consensus := {| cfg_block_interval := 5000; cfg_confirmation_depth := 10; blue_set_size := 2 |};
     mempool_config := {| cfg_max_size := 10000; cfg_min_gas_price := 1 |};
     storage := {| storage_db_path := "./data/blocks.db";
       pruning := {| pruning_enabled := true; cfg_prune_height := 200000; cfg_window_size := 100000;
         check_interval := 3600 |} |};
     logging := {| level := "info"; structured := false |};
     node_settings := {| settings_node_id := ""; data_dir := "./data"; node_name := "cytah-node";
       enable_rpc := true |} |}.

(** The errors are collected in order. *)
Definition push_if (b : bool) (message : string) (errors : list string) : list string :=
  if b then errors ++ [message] else errors.
Definition validate (c : NodeConfig) : unit + list string :=
  let errors := [] in
  let errors := push_if (cfg_block_interval (consensus c) =? 0) "block_interval must be > 0" errors in
  let errors := push_if (cfg_max_size (mempool_config c) =? 0) "mempool.max_size must be > 0" errors in
  let errors := push_if (cfg_confirmation_depth (consensus c) =? 0) "confirmation_depth must be > 0" errors in
  let errors := push_if (cfg_max_peers (network c) =? 0) "network.max_peers must be > 0" errors in
  let errors := push_if (max_pending_requests (sync c) =? 0) "sync.max_pending_requests must be > 0" errors in
  match errors with [] => inl tt | _ => inr errors end.

Section Loading.
Context {F : Type} `{FileSystem F} (from_toml : Bytes -> result NodeConfig).

Definition load_or_default (config_path : Bytes) (f : F) : result NodeConfig :=
  if negb (fs_exists config_path f) then Ok config_default
  else
    content ← map_err "Failed to read config file: {}" (fs_read_to_string config_path f);
    config ← map_err "Failed to parse config file: {}" (from_toml content);
    Ok config.

(** "config.toml" *)
Definition default_path : Bytes := [99; 111; 110; 102; 105; 103; 46; 116; 111; 109; 108].
Definition load_with_priority (cli_config : option Bytes) (f : F) : result NodeConfig :=
  match cli_config with
  | Some path => load_or_default path f
  | None => load_or_default default_path f
  end.

(** The values that [validate] wants to be positive. *)
Definition settings (c : NodeConfig) : list (Z * string) :=
  [(cfg_block_interval (consensus c), "block_interval must be > 0");
   (cfg_max_size (mempool_config c), "mempool.max_size must be > 0");
   (cfg_confirmation_depth (consensus c), "confirmation_depth must be > 0");
   (cfg_max_peers (network c), "network.max_peers must be > 0");
   (max_pending_requests (sync c), "sync.max_pending_requests must be > 0")].

Lemma push_if_filter (z : Z) (m : string) (l : list (Z * string)) errors :
  errors ++ (filter (fun s => s.1 = 0) ((z, m) :: l)).*2 =
  push_if (z =? 0) m errors ++ (filter (fun s => s.1 = 0) l).*2.
Proof.
  rewrite filter_cons. unfold push_if. destruct (Z.eqb_spec z 0) as [Hz|Hz].
  - rewrite decide_True by exact Hz. rewrite fmap_cons. cbn [snd]. by rewrite <- app_assoc.
  - rewrite decide_False by exact Hz. done.
Qed.

(** [validate] reports exactly the settings that are 0, all of them and in order; and loading does not
    call it: a missing file gives the defaults, which are valid, and a file gives whatever it
    parses to, valid or not. *)
Theorem config_loading_spec (path : Bytes) (f : F) (c : NodeConfig) :
  validate c = match (filter (fun s => s.1 = 0) (settings c)).*2 with [] => inl tt | es => inr es end /\
  (fs_exists path f = false -> load_with_priority (Some path) f = Ok config_default) /\
  validate config_default = inl tt /\
  (forall content, fs_exists path f = true -> fs_read_to_string path f = Ok content ->
    from_toml content = Ok c -> load_with_priority (Some path) f = Ok c).
Proof.
  split_and!.
  - unfold validate, settings.
    set (l := filter _ _). assert (l.*2 = [] ++ l.*2) as -> by done. subst l.
    rewrite !push_if_filter, filter_nil, app_nil_r. by destruct (push_if (max_pending_requests (sync c) =? 0) _ _).
  - intros He. unfold load_with_priority, load_or_default. by rewrite He.
  - done.
  - intros content He Hr Hp. unfold load_with_priority, load_or_default. rewrite He, Hr. cbn. by rewrite Hp.
Qed.
End Loading.

(** ** Witness: a file whose contents parse to a configuration without peers. *)
Definition lonely : NodeConfig :=
  {| network := {| listen_addr := ""; rpc_addr := ""; enable_mdns := false; enable_dht := false;
       bootstrap_peers := []; cfg_max_peers := 0 |};
     sync := sync config_default; contract_config := contract_config config_default;
     consensus := consensus config_default; mempool_config := mempool_config config_default;
     storage := storage config_default; logging := logging config_default;
     node_settings := node_settings config_default |}.
Definition parse_lonely (_ : Bytes) : result NodeConfig := Ok lonely.
Definition disk : gmap Bytes Bytes := {[ default_path := [] ]}.

Lemma config_loading_spec_witness :
  load_with_priority parse_lonely (Some default_path) disk = Ok lonely /\
  validate lonely = inr ["network.max_peers must be > 0"].
Proof.
  destruct (config_loading_spec parse_lonely default_path disk lonely) as (Hv & _ & _ & Hl). split.
  - apply (Hl []); reflexivity.
  - rewrite Hv. reflexivity.
Defined.
