(* ===== verification/P2pNetwork.v ===== *)
(** The simulated network: [src/src/network/p2p_network.rs].

    Peers and a queue of messages, each behind a lock that a method holds while it works on it.  The
    file is not part of the crate; it is modelled as it stands. *)
From S2P Require Import Prelude Crypto Transaction Mining Block.

Inductive NetworkMessage :=
  | NmTransaction (tx : Transaction)
  | NmInventory (h : BlockHash)
  | NmBlock (b : Block)
  | NmRequestBlock (h : BlockHash)
  | NmResponseBlock (b : option Block)
  | NmPing
  | NmPong
  | NmSyncRequest (from_height : Z)
  | NmSyncResponse (blocks : list Block)
  | NmGetTips
  | NmTipsResponse (tips : list BlockHash).

Record PeerInfo := { peer_address : Bytes; last_seen : Z; is_connected : bool }.
Definition PeerInfo_new (now : Z) (address : Bytes) : PeerInfo :=
  {| peer_address := address; last_seen := now; is_connected := false |}.

Record P2PNetwork := {
  net_peers : gmap Bytes PeerInfo;
  received_messages : list NetworkMessage;
  local_addr : Bytes;
  net_max_peers : nat
}.

Section Network.
Context `{HashOrder}.
Implicit Types n : P2PNetwork.

Definition network_new (local_addr : Bytes) (max_peers : nat) : P2PNetwork :=
  {| net_peers := ∅; received_messages := []; local_addr := local_addr; net_max_peers := max_peers |}.
Definition put_peers (ps : gmap Bytes PeerInfo) n : P2PNetwork :=
  {| net_peers := ps; received_messages := received_messages n; local_addr := local_addr n;
     net_max_peers := net_max_peers n |}.
Definition put_messages (ms : list NetworkMessage) n : P2PNetwork :=
  {| net_peers := net_peers n; received_messages := ms; local_addr := local_addr n;
     net_max_peers := net_max_peers n |}.

Definition net_start_node : M P2PNetwork unit := mret tt.

Definition connect_peer (now : Z) (peer_addr : Bytes) : M P2PNetwork unit := fun n =>
  if (net_max_peers n <=? size (net_peers n))%nat then (err "Max peers reached", n)
  else
    match net_peers n !! peer_addr with
    | Some _ => (err "Already connected to this peer", n)
    | None =>
        (Ok tt, put_peers (<[peer_addr := {| peer_address := peer_addr; last_seen := now; is_connected := true |}]>
                  (net_peers n)) n)
    end.

Definition disconnect_peer (peer_addr : Bytes) : M P2PNetwork unit := fun n =>
  match net_peers n !! peer_addr with
  | Some p =>
      (Ok tt, put_peers (<[peer_addr := {| peer_address := peer_address p; last_seen := last_seen p;
                                           is_connected := false |}]> (net_peers n)) n)
  | None => (err "Peer not found", n)
  end.

Definition connected n : list PeerInfo := filter (fun p => is_connected p = true) (hm_iter (net_peers n)).*2.

(** "Sending" puts the message into the node's own queue. *)
Definition net_broadcast_message (m : NetworkMessage) : M P2PNetwork unit := fun n =>
  match connected n with
  | [] => (Ok tt, n)
  | _ => (Ok tt, put_messages (received_messages n ++ [m]) n)
  end.
Definition net_broadcast_transaction (tx : Transaction) := net_broadcast_message (NmTransaction tx).
Definition net_broadcast_block (b : Block) := net_broadcast_message (NmInventory (block_hash b)).

(** [Vec::pop] *)
Definition receive_message n : option NetworkMessage * P2PNetwork :=
  match reverse (received_messages n) with
  | [] => (None, n)
  | m :: ms => (Some m, put_messages (reverse ms) n)
  end.
Definition get_all_messages n : list NetworkMessage * P2PNetwork := (received_messages n, put_messages [] n).

Definition net_connected_peers n : list Bytes := peer_address <$> connected n.
Definition get_all_peers n : list Bytes := (hm_iter (net_peers n)).*1.
Definition is_connected_to (peer_addr : Bytes) n : bool :=
  match net_peers n !! peer_addr with Some p => is_connected p | None => false end.
Definition update_peer_activity (now : Z) (peer_addr : Bytes) n : P2PNetwork :=
  match net_peers n !! peer_addr with
  | Some p =>
      put_peers (<[peer_addr := {| peer_address := peer_address p; last_seen := now; is_connected := is_connected p |}]>
        (net_peers n)) n
  | None => n
  end.

Definition inactive (now timeout_secs : Z) (p : PeerInfo) : bool :=
  negb (is_connected p) && (timeout_secs <? u64_sub now (last_seen p)).
Definition prune_inactive_peers (now timeout_secs : Z) n : P2PNetwork :=
  put_peers (filter (fun '(_, p) => inactive now timeout_secs p = false) (net_peers n)) n.

(** *** What happens to a network *)
Inductive net_op :=
  | Connect (now : Z) (a : Bytes)
  | Disconnect (a : Bytes)
  | Broadcast (m : NetworkMessage)
  | Receive
  | Activity (now : Z) (a : Bytes)
  | Prune (now timeout_secs : Z).
Definition net_apply (op : net_op) n : P2PNetwork :=
  match op with
  | Connect now a => (connect_peer now a n).2
  | Disconnect a => (disconnect_peer a n).2
  | Broadcast m => (net_broadcast_message m n).2
  | Receive => (receive_message n).2
  | Activity now a => update_peer_activity now a n
  | Prune now t => prune_inactive_peers now t n
  end.
Definition net_run (ops : list net_op) n : P2PNetwork := foldl (fun n op => net_apply op n) n ops.

Definition is_prune (op : net_op) : bool := match op with Prune _ _ => true | _ => false end.

Lemma put_same_size (a : Bytes) (p p' : PeerInfo) (ps : gmap Bytes PeerInfo) :
  ps !! a = Some p -> size (<[a := p']> ps) = size ps.
Proof. intros Hp. apply map_size_insert_Some. by eexists. Qed.

Lemma receive_peers n : net_peers (receive_message n).2 = net_peers n /\ net_max_peers (receive_message n).2 = net_max_peers n.
Proof. unfold receive_message. by destruct (reverse _). Qed.

Lemma net_apply_bounded op n :
  (size (net_peers n) <= net_max_peers n)%nat ->
  (size (net_peers (net_apply op n)) <= net_max_peers (net_apply op n))%nat.
Proof.
  intros Hs. destruct op as [now a|a|m| |now a|now t]; cbn [net_apply].
  - unfold connect_peer. destruct (Nat.leb_spec (net_max_peers n) (size (net_peers n))) as [|Hlt]; [done|].
    destruct (net_peers n !! a) as [p|] eqn:Ha; [done|]. cbn. rewrite map_size_insert_None by done. lia.
  - unfold disconnect_peer. destruct (net_peers n !! a) as [p|] eqn:Ha; [|done]. cbn.
    by rewrite (put_same_size a p).
  - unfold net_broadcast_message. by destruct (connected n).
  - destruct (receive_peers n) as [-> ->]. done.
  - unfold update_peer_activity. destruct (net_peers n !! a) as [p|] eqn:Ha; [|done]. cbn.
    by rewrite (put_same_size a p).
  - cbn. etransitivity; [|exact Hs]. apply map_size_filter.
Qed.

Lemma net_apply_known op a n :
  is_prune op = false -> is_Some (net_peers n !! a) -> is_Some (net_peers (net_apply op n) !! a).
Proof.
  intros Hp Ha. destruct op as [now b|b|m| |now b|]; cbn [net_apply]; [..|done].
  - unfold connect_peer. destruct (_ <=? _)%nat; [done|]. destruct (net_peers n !! b); [done|]. cbn.
    apply lookup_insert_is_Some'. by right.
  - unfold disconnect_peer. destruct (net_peers n !! b); [|done]. cbn. apply lookup_insert_is_Some'. by right.
  - unfold net_broadcast_message. by destruct (connected n).
  - by destruct (receive_peers n) as [-> _].
  - unfold update_peer_activity. destruct (net_peers n !! b); [|done]. cbn. apply lookup_insert_is_Some'. by right.
Qed.

(** Whatever happens to a network, it never has more peers than it may have; but a peer that was ever connected counts
    until it is pruned, and cannot be connected to again before that, even after it was disconnected. *)
Theorem peers_hold_their_slots addr max_peers ops :
  let n := net_run ops (network_new addr max_peers) in
  (size (net_peers n) <= net_max_peers n)%nat /\
  forall a now more, is_Some (net_peers n !! a) -> forallb (fun op => negb (is_prune op)) more = true ->
    is_ok (connect_peer now a (net_run more n)).1 = false /\ (connect_peer now a (net_run more n)).2 = net_run more n.
Proof.
  assert (forall ops n, (size (net_peers n) <= net_max_peers n)%nat ->
    (size (net_peers (net_run ops n)) <= net_max_peers (net_run ops n))%nat) as Hb.
  { clear. intros ops. induction ops as [|op ops IH]; intros n Hn; [done|]. by apply IH, net_apply_bounded. }
  cbv zeta. split; [apply Hb; cbn; rewrite map_size_empty; lia|]. generalize (net_run ops (network_new addr max_peers)).
  intros n a now more. revert n. induction more as [|op more IH]; intros n Ha Hm.
  - cbn. unfold connect_peer. destruct (_ <=? _)%nat; [done|]. destruct Ha as [p ->]. done.
  - cbn [forallb] in Hm. apply andb_true_iff in Hm as [Hop Hm]. apply (IH (net_apply op n)); [|done].
    apply net_apply_known; [by apply negb_true_iff|done].
Qed.

(** A message that is broadcast comes back to its sender, and to nobody else: it is the next one received, the last
    one in being the first one out. *)
Theorem broadcast_comes_back m n :
  connected n <> [] -> (receive_message (net_broadcast_message m n).2) = (Some m, n).
Proof.
  intros Hc. unfold net_broadcast_message. destruct (connected n); [done|]. unfold receive_message.
  cbn [snd put_messages received_messages]. rewrite reverse_snoc, reverse_involutive. by destruct n.
Qed.
End Network.

#[local] Existing Instance canonical_order.

Definition one_peer : P2PNetwork := net_run [Connect 0 [1]] (network_new [0] 1).

Lemma broadcast_comes_back_witness :
  receive_message (net_broadcast_message NmPing one_peer).2 = (Some NmPing, one_peer).
Proof. apply (broadcast_comes_back NmPing one_peer). vm_compute. discriminate. Defined.

Lemma peers_hold_their_slots_witness :
  is_ok (connect_peer 9 [1] (net_run [Disconnect [1]] one_peer)).1 = false.
Proof.
  destruct (peers_hold_their_slots [0] 1 [Connect 0 [1]]) as [_ Hs].
  apply (Hs [1] 9 [Disconnect [1]]); [apply (bool_decide_unpack _); vm_compute; exact I|reflexivity].
Defined.
